(** * CourseFlow: a shallow embedding of the edge functions and client hooks

    The development follows the repository layout:
    - [JsString], [Regex], [Json]: the JavaScript built-ins the handlers lean
      on (UTF-16 strings, [String.prototype.replace] with a regular
      expression, [JSON.parse]);
    - [Extract]: the per-call-site text cleaning that precedes [JSON.parse];
    - [Edge]: the six HTTP handlers under [supabase/functions];
    - [Courses]: the [useCourses] hook over a relational store;
    - [Quiz]: [validateAnswerWithAI] of [QuizModal.tsx]. *)

From Stdlib Require Import String Ascii.
From Stdlib Require Import List NArith ZArith Bool Lia.
From Stdlib Require Import Permutation Sorted.
From Stdlib Require Import Floats.
Import ListNotations.

Set Implicit Arguments.
Set Warnings "-register-all,-abstract-large-number,-inexact-float".

(* ================================================================== *)
(** ** JavaScript strings *)
(* ================================================================== *)

Module JsString.

(** A JavaScript string is a sequence of UTF-16 code units. *)
Definition char := N.
Definition jsstring := list char.

Definition char_of_ascii (a : ascii) : char := N_of_ascii a.

(** An ASCII literal, code unit by code unit. *)
Fixpoint lit (s : string) : jsstring :=
  match s with
  | EmptyString => []
  | String a r => char_of_ascii a :: lit r
  end.

(** Test inputs only: an ASCII literal in which the apostrophe stands for
    the double quote U+0022, so that JSON texts stay readable. *)
Definition text (s : string) : jsstring :=
  map (fun c => if N.eqb c 39%N then 34%N else c) (lit s).

Definition LF : char := 10%N.
Definition DQUOTE : char := 34%N.
Definition APOSTROPHE : char := 39%N.
Definition COMMA : char := 44%N.
Definition HYPHEN : char := 45%N.
Definition DOT : char := 46%N.
Definition COLON : char := 58%N.
Definition LBRACKET : char := 91%N.
Definition BACKSLASH : char := 92%N.
Definition RBRACKET : char := 93%N.
Definition BACKTICK : char := 96%N.
Definition LBRACE : char := 123%N.
Definition RBRACE : char := 125%N.
Definition LDQUO : char := 8220%N.   (* U+201C *)
Definition RDQUO : char := 8221%N.   (* U+201D *)
Definition LSQUO : char := 8216%N.   (* U+2018 *)
Definition RSQUO : char := 8217%N.   (* U+2019 *)
Definition ENDASH : char := 8211%N.  (* U+2013 *)
Definition EMDASH : char := 8212%N.  (* U+2014 *)
Definition ELLIPSIS : char := 8230%N. (* U+2026 *)

Definition in_range (lo hi c : char) : bool := (lo <=? c)%N && (c <=? hi)%N.
Arguments in_range (lo hi c)%_N_scope.

(** ECMAScript WhiteSpace and LineTerminator code units: what [trim] strips
    and what the class [\s] matches. *)
Definition is_space (c : char) : bool :=
  (in_range 9 13 c || N.eqb c 32 || N.eqb c 160 || N.eqb c 5760
   || in_range 8192 8202 c || N.eqb c 8232 || N.eqb c 8233
   || N.eqb c 8239 || N.eqb c 8287 || N.eqb c 12288 || N.eqb c 65279)%N.

Fixpoint trimStart (s : jsstring) : jsstring :=
  match s with
  | c :: r => if is_space c then trimStart r else s
  | [] => []
  end.

Definition trimEnd (s : jsstring) : jsstring := rev (trimStart (rev s)).

Definition trim (s : jsstring) : jsstring := trimEnd (trimStart s).

Fixpoint eqb (a b : jsstring) : bool :=
  match a, b with
  | [], [] => true
  | x :: a', y :: b' => N.eqb x y && eqb a' b'
  | _, _ => false
  end.

Fixpoint startsWith (s prefix : jsstring) : bool :=
  match prefix, s with
  | [], _ => true
  | p :: prefix', c :: s' => N.eqb p c && startsWith s' prefix'
  | _ :: _, [] => false
  end.

(** [indexOf] and [lastIndexOf] of a one-character needle; [-1] when the
    character does not occur. *)
Fixpoint indexOf (c : char) (s : jsstring) : Z :=
  match s with
  | [] => -1
  | x :: r => if N.eqb x c then 0
              else let i := indexOf c r in if (i <? 0)%Z then -1 else i + 1
  end%Z.

Fixpoint lastIndexOf (c : char) (s : jsstring) : Z :=
  match s with
  | [] => -1
  | x :: r => let i := lastIndexOf c r in
              if (0 <=? i)%Z then i + 1
              else if N.eqb x c then 0 else -1
  end%Z.

(** [s.substring(from)] and [s.substring(0, to)] for non-negative indices. *)
Definition substring_from (s : jsstring) (from : Z) : jsstring :=
  skipn (Z.to_nat from) s.

Definition substring_to (s : jsstring) (to : Z) : jsstring :=
  firstn (Z.to_nat to) s.

Definition is_empty (s : jsstring) : bool :=
  match s with [] => true | _ => false end.

(** Decimal rendering of a non-negative integer, as template literals print
    it. *)
Fixpoint digits_of (fuel : nat) (n : N) (acc : jsstring) : jsstring :=
  match fuel with
  | 0 => acc
  | S f =>
      let d := (48 + n mod 10)%N in
      if (n <? 10)%N then d :: acc else digits_of f (n / 10)%N (d :: acc)
  end.

Definition of_N (n : N) : jsstring := digits_of (S (N.to_nat (N.log2 n))) n [].
Definition of_nat (n : nat) : jsstring := of_N (N.of_nat n).

End JsString.

Import JsString.

(* ================================================================== *)
(** ** Regular expressions: the fragment the handlers use *)
(* ================================================================== *)

Module Regex.

(** Abstract syntax.  [RClass p] is a literal character or a bracket class,
    [RStar] is the greedy star, [RGroup n] is the n-th capturing group,
    [RBos] and [REos] are the anchors (no [m] flag is used anywhere). *)
Inductive regex : Type :=
| RClass (p : char -> bool)
| RSeq (a b : regex)
| RAlt (a b : regex)
| RStar (a : regex)
| RGroup (n : nat) (a : regex)
| RBos
| REos.

Definition captures := list (nat * jsstring).

Fixpoint capture (n : nat) (cs : captures) : jsstring :=
  match cs with
  | [] => []
  | (m, v) :: r => if Nat.eqb m n then v else capture n r
  end.

Section Matcher.
Variable R : Type.

Definition cont := nat -> jsstring -> captures -> option R.

(** The greedy star over a matcher [step] for one iteration: try another
    iteration first, fall back to the continuation.  An iteration that
    consumes nothing is rejected, as the ECMAScript semantics does, so
    [length s] iterations are always enough fuel. *)
Fixpoint star_loop (step : nat -> jsstring -> captures -> cont -> option R)
    (k : cont) (fuel : nat) (pos : nat) (s : jsstring) (cs : captures)
    {struct fuel} : option R :=
  match fuel with
  | 0 => k pos s cs
  | S f =>
      match step pos s cs
              (fun pos' s' cs' =>
                 if Nat.ltb (length s') (length s)
                 then star_loop step k f pos' s' cs' else None) with
      | Some x => Some x
      | None => k pos s cs
      end
  end.

(** Backtracking matcher in continuation-passing style.  [pos] is the number
    of code units before [s] in the subject; the continuation receives what
    is left of the subject. *)
Fixpoint rmatch (r : regex) (pos : nat) (s : jsstring) (cs : captures)
    (k : cont) {struct r} : option R :=
  match r with
  | RClass p =>
      match s with
      | c :: s' => if p c then k (S pos) s' cs else None
      | [] => None
      end
  | RSeq a b => rmatch a pos s cs (fun pos' s' cs' => rmatch b pos' s' cs' k)
  | RAlt a b =>
      match rmatch a pos s cs k with
      | Some x => Some x
      | None => rmatch b pos s cs k
      end
  | RStar a => star_loop (rmatch a) k (length s) pos s cs
  | RGroup n a =>
      rmatch a pos s cs
        (fun pos' s' cs' => k pos' s' ((n, firstn (pos' - pos) s) :: cs'))
  | RBos => if Nat.eqb pos 0 then k pos s cs else None
  | REos => match s with [] => k pos s cs | _ => None end
  end.

End Matcher.

(** A match of [r] that starts exactly at the current position: the rest of
    the subject after the match, and the captures. *)
Definition match_at (r : regex) (pos : nat) (s : jsstring)
  : option (jsstring * captures) :=
  rmatch r pos s [] (fun _ s' cs => Some (s', cs)).

(** Replacement templates: literal text and [$n] references. *)
Inductive titem : Type :=
| TLit (s : jsstring)
| TRef (n : nat).

Fixpoint expand (t : list titem) (cs : captures) : jsstring :=
  match t with
  | [] => []
  | TLit s :: r => s ++ expand r cs
  | TRef n :: r => capture n cs ++ expand r cs
  end.

(** [s.replace(/r/, t)]: the leftmost match only. *)
Fixpoint replace_from (r : regex) (t : list titem) (pos : nat) (s : jsstring)
  : jsstring :=
  match match_at r pos s with
  | Some (rest, cs) => expand t cs ++ rest
  | None =>
      match s with
      | [] => []
      | c :: s' => c :: replace_from r t (S pos) s'
      end
  end.

Definition replace (r : regex) (t : list titem) (s : jsstring) : jsstring :=
  replace_from r t 0 s.

(** [s.replace(/r/g, t)]: every non-overlapping match, left to right.
    [skip] counts the code units of the current match still to be dropped. *)
Fixpoint replaceAll_from (r : regex) (t : list titem) (pos skip : nat)
    (s : jsstring) : jsstring :=
  match skip with
  | S k =>
      match s with
      | [] => []
      | _ :: s' => replaceAll_from r t (S pos) k s'
      end
  | 0 =>
      match match_at r pos s with
      | Some (rest, cs) =>
          let n := length s - length rest in
          expand t cs ++
          match s with
          | [] => []
          | c :: s' =>
              if Nat.eqb n 0 then c :: replaceAll_from r t (S pos) 0 s'
              else replaceAll_from r t (S pos) (n - 1) s'
          end
      | None =>
          match s with
          | [] => []
          | c :: s' => c :: replaceAll_from r t (S pos) 0 s'
          end
      end
  end.

Definition replaceAll (r : regex) (t : list titem) (s : jsstring) : jsstring :=
  replaceAll_from r t 0 0 s.

(** Whether [r] matches somewhere in [s] ([r.test(s)]). *)
Fixpoint test_from (r : regex) (pos : nat) (s : jsstring) : bool :=
  match match_at r pos s with
  | Some _ => true
  | None =>
      match s with
      | [] => false
      | _ :: s' => test_from r (S pos) s'
      end
  end.

Definition test (r : regex) (s : jsstring) : bool := test_from r 0 s.

(** Building blocks. *)
Definition chr (c : char) : regex := RClass (N.eqb c).
Definition any_of (cs : list char) : regex :=
  RClass (fun c => existsb (N.eqb c) cs).
Definition none_of (cs : list char) : regex :=
  RClass (fun c => negb (existsb (N.eqb c) cs)).
Definition spaces : regex := RStar (RClass is_space).

Fixpoint word (s : jsstring) (k : regex) : regex :=
  match s with
  | [] => k
  | c :: r => RSeq (chr c) (word r k)
  end.

End Regex.

Import Regex.

(* ================================================================== *)
(** ** JSON values and [JSON.parse] *)
(* ================================================================== *)

Module Json.

(** A number is kept as the decimal its literal denotes,
    [(-1)^neg * mant * 10^exp10]; it is not rounded to binary64. *)
Record number : Type := mkNumber
  { num_neg : bool; num_mant : N; num_exp10 : Z }.

(** Object members are kept in source order; a property read takes the last
    binding of the key, as [JSON.parse] lets a later duplicate win. *)
Inductive json : Type :=
| JNull
| JBool (b : bool)
| JNum (n : number)
| JStr (s : jsstring)
| JArr (l : list json)
| JObj (m : list (jsstring * json)).

Fixpoint get (key : jsstring) (m : list (jsstring * json)) : option json :=
  match m with
  | [] => None
  | (k, v) :: r =>
      match get key r with
      | Some w => Some w
      | None => if JsString.eqb k key then Some v else None
      end
  end.

Definition is_json_ws (c : char) : bool :=
  (N.eqb c 32 || N.eqb c 9 || N.eqb c 10 || N.eqb c 13)%N.

Fixpoint skip_ws (s : jsstring) : jsstring :=
  match s with
  | c :: r => if is_json_ws c then skip_ws r else s
  | [] => []
  end.

Definition is_digit (c : char) : bool := in_range 48 57 c.

Definition hex_value (c : char) : option N :=
  if in_range 48 57 c then Some (c - 48)%N
  else if in_range 97 102 c then Some (c - 87)%N
  else if in_range 65 70 c then Some (c - 55)%N
  else None.

Definition hex4 (a b c d : char) : option char :=
  match hex_value a, hex_value b, hex_value c, hex_value d with
  | Some x, Some y, Some z, Some w => Some (((x * 16 + y) * 16 + z) * 16 + w)%N
  | _, _, _, _ => None
  end.

Definition simple_escape (c : char) : option char :=
  (if N.eqb c 34 then Some 34        (* escaped double quote *)
   else if N.eqb c 92 then Some 92   (* escaped backslash *)
   else if N.eqb c 47 then Some 47   (* escaped solidus *)
   else if N.eqb c 98 then Some 8    (* b: backspace *)
   else if N.eqb c 102 then Some 12  (* f: form feed *)
   else if N.eqb c 110 then Some 10  (* n: line feed *)
   else if N.eqb c 114 then Some 13  (* r: carriage return *)
   else if N.eqb c 116 then Some 9   (* t: tab *)
   else None)%N.

(** The characters of a string literal after its opening quote, up to and
    including the closing quote.  A raw control character below U+0020 is a
    syntax error. *)
Fixpoint parse_string (s : jsstring) (acc : jsstring)
  : option (jsstring * jsstring) :=
  match s with
  | [] => None
  | c :: r =>
      if N.eqb c DQUOTE then Some (rev acc, r)
      else if N.eqb c BACKSLASH then
        match r with
        | [] => None
        | e :: r1 =>
            if N.eqb e 117%N then
              match r1 with
              | h1 :: h2 :: h3 :: h4 :: r2 =>
                  match hex4 h1 h2 h3 h4 with
                  | Some u => parse_string r2 (u :: acc)
                  | None => None
                  end
              | _ => None
              end
            else
              match simple_escape e with
              | Some u => parse_string r1 (u :: acc)
              | None => None
              end
        end
      else if (c <? 32)%N then None
      else parse_string r (c :: acc)
  end.

Fixpoint take_digits (s : jsstring) : jsstring * jsstring :=
  match s with
  | c :: r =>
      if is_digit c then let '(d, rest) := take_digits r in (c :: d, rest)
      else ([], s)
  | [] => ([], [])
  end.

Definition digits_value (d : jsstring) : N :=
  fold_left (fun acc c => (acc * 10 + (c - 48))%N) d 0%N.

(** [-? int frac? exp?] with [int] either a single 0 or a nonzero digit
    followed by digits. *)
Definition parse_number (s : jsstring) : option (number * jsstring) :=
  let '(neg, s1) :=
    match s with
    | c :: r => if N.eqb c HYPHEN then (true, r) else (false, s)
    | [] => (false, s)
    end in
  let int_part :=
    match s1 with
    | c :: r =>
        if N.eqb c 48%N then Some ([c], r)
        else if is_digit c then Some (take_digits s1)
        else None
    | [] => None
    end in
  match int_part with
  | None => None
  | Some (ds, s2) =>
      let frac_part :=
        match s2 with
        | c :: r =>
            if N.eqb c DOT then
              match take_digits r with
              | ([], _) => None
              | (fs, s3) => Some (fs, s3)
              end
            else Some ([], s2)
        | [] => Some ([], s2)
        end in
      match frac_part with
      | None => None
      | Some (fs, s3) =>
          let exp_part :=
            match s3 with
            | c :: r =>
                if N.eqb c 101%N || N.eqb c 69%N then
                  let '(eneg, r1) :=
                    match r with
                    | sg :: r' =>
                        if N.eqb sg HYPHEN then (true, r')
                        else if N.eqb sg 43%N then (false, r')
                        else (false, r)
                    | [] => (false, r)
                    end in
                  match take_digits r1 with
                  | ([], _) => None
                  | (es, s4) =>
                      let e := Z.of_N (digits_value es) in
                      Some ((if eneg then - e else e)%Z, s4)
                  end
                else Some (0%Z, s3)
            | [] => Some (0%Z, s3)
            end in
          match exp_part with
          | None => None
          | Some (e, s4) =>
              Some (mkNumber neg (digits_value (ds ++ fs))
                      (e - Z.of_nat (length fs)), s4)
          end
      end
  end.

(** Recursive descent over the JSON grammar.  The fuel bounds the nesting of
    calls; [JSON_parse] supplies enough for any text of the given length. *)
Fixpoint parse_value (fuel : nat) (s : jsstring) {struct fuel}
  : option (json * jsstring) :=
  match fuel with
  | 0 => None
  | S f =>
      match skip_ws s with
      | [] => None
      | c :: r =>
          if N.eqb c LBRACE then
            match skip_ws r with
            | c' :: r' =>
                if N.eqb c' RBRACE then Some (JObj [], r')
                else parse_members f (c' :: r') []
            | [] => None
            end
          else if N.eqb c LBRACKET then
            match skip_ws r with
            | c' :: r' =>
                if N.eqb c' RBRACKET then Some (JArr [], r')
                else parse_elements f (c' :: r') []
            | [] => None
            end
          else if N.eqb c DQUOTE then
            match parse_string r [] with
            | Some (str, rest) => Some (JStr str, rest)
            | None => None
            end
          else if startsWith (c :: r) (lit "true") then
            Some (JBool true, skipn 4 (c :: r))
          else if startsWith (c :: r) (lit "false") then
            Some (JBool false, skipn 5 (c :: r))
          else if startsWith (c :: r) (lit "null") then
            Some (JNull, skipn 4 (c :: r))
          else
            match parse_number (c :: r) with
            | Some (n, rest) => Some (JNum n, rest)
            | None => None
            end
      end
  end

with parse_elements (fuel : nat) (s : jsstring) (acc : list json)
    {struct fuel} : option (json * jsstring) :=
  match fuel with
  | 0 => None
  | S f =>
      match parse_value f s with
      | Some (v, rest) =>
          match skip_ws rest with
          | c :: r =>
              if N.eqb c COMMA then parse_elements f r (v :: acc)
              else if N.eqb c RBRACKET then Some (JArr (rev (v :: acc)), r)
              else None
          | [] => None
          end
      | None => None
      end
  end

with parse_members (fuel : nat) (s : jsstring) (acc : list (jsstring * json))
    {struct fuel} : option (json * jsstring) :=
  match fuel with
  | 0 => None
  | S f =>
      match skip_ws s with
      | q :: r0 =>
          if N.eqb q DQUOTE then
            match parse_string r0 [] with
            | Some (key, r1) =>
                match skip_ws r1 with
                | c :: r2 =>
                    if N.eqb c COLON then
                      match parse_value f r2 with
                      | Some (v, rest) =>
                          match skip_ws rest with
                          | d :: r3 =>
                              if N.eqb d COMMA
                              then parse_members f r3 ((key, v) :: acc)
                              else if N.eqb d RBRACE
                              then Some (JObj (rev ((key, v) :: acc)), r3)
                              else None
                          | [] => None
                          end
                      | None => None
                      end
                    else None
                | [] => None
                end
            | None => None
            end
          else None
      | [] => None
      end
  end.

(** [JSON.parse(text)]; [None] stands for the thrown [SyntaxError]. *)
Definition JSON_parse (s : jsstring) : option json :=
  match parse_value (2 * length s + 2) s with
  | Some (v, rest) => if is_empty (skip_ws rest) then Some v else None
  | None => None
  end.

Definition num_of_nat (n : nat) : json := JNum (mkNumber false (N.of_nat n) 0).

End Json.

Import Json.

(* ================================================================== *)
(** ** The text cleaning in front of [JSON.parse] *)
(* ================================================================== *)

Module Extract.

(** The fence patterns: three backticks (and the tag json) at the start of
    the text with the white space after them; white space and three
    backticks at the end of the text. *)
Definition re_fence_json_open : regex :=
  RSeq RBos (word (lit "```json") spaces).
Definition re_fence_open : regex := RSeq RBos (word (lit "```") spaces).
Definition re_fence_close : regex := RSeq spaces (word (lit "```") REos).

(** Remove markdown code blocks. *)
Definition strip_fences (rawContent : jsstring) : jsstring :=
  let c1 :=
    if startsWith rawContent (lit "```json")
    then replace re_fence_close [] (replace re_fence_json_open [] rawContent)
    else rawContent in
  if startsWith c1 (lit "```")
  then replace re_fence_close [] (replace re_fence_open [] c1)
  else c1.

(** Remove any text before the first [{] and after the last [}]. *)
Definition trim_to_braces (c : jsstring) : jsstring :=
  let jsonStart := indexOf LBRACE c in
  let c1 := if (0 <? jsonStart)%Z then substring_from c jsonStart else c in
  let jsonEnd := lastIndexOf RBRACE c1 in
  if ((0 <? jsonEnd) && (jsonEnd <? Z.of_nat (length c1) - 1))%Z
  then substring_to c1 (jsonEnd + 1)
  else c1.

(** [/[\u0000-\u001F\u007F-\u009F]/g]. *)
Definition is_control (c : char) : bool :=
  in_range 0 31 c || in_range 127 159 c.
Definition re_control : regex := RClass is_control.
(** [/“|”/g], [/‘|’/g], [/–|—/g], [/…/g]. *)
Definition re_smart_double : regex := RAlt (chr LDQUO) (chr RDQUO).
Definition re_smart_single : regex := RAlt (chr LSQUO) (chr RSQUO).
Definition re_dashes : regex := RAlt (chr ENDASH) (chr EMDASH).
Definition re_ellipsis : regex := chr ELLIPSIS.
(** [/[぀-ゟ゠-ヿ一-龯]/g] and [/[\u0080-￿]/g]. *)
Definition is_japanese (c : char) : bool :=
  in_range 12352 12447 c || in_range 12448 12543 c || in_range 19968 40879 c.
Definition re_japanese : regex := RClass is_japanese.
Definition is_non_ascii (c : char) : bool := in_range 128 65535 c.
Definition re_non_ascii : regex := RClass is_non_ascii.

(** The trailing-comma repair: a comma followed by a captured run of white
    space and a closing brace or bracket is replaced by [$1]. *)
Definition re_trailing_comma : regex :=
  RSeq (chr COMMA) (RGroup 1 (RSeq spaces (any_of [RBRACE; RBRACKET]))).
(** The missing-comma repairs: a closing brace, a captured run of white
    space and an opening brace become [},$1{]; likewise for brackets. *)
Definition re_adjacent_objects : regex :=
  RSeq (chr RBRACE) (RSeq (RGroup 1 spaces) (chr LBRACE)).
Definition re_adjacent_arrays : regex :=
  RSeq (chr RBRACKET) (RSeq (RGroup 1 spaces) (chr LBRACKET)).
(** The quote repair.  Writing Q for the double quote, the pattern is: Q, a
    captured run of non-Q, Q, a captured run of characters outside
    [Q , : } \]], Q, another such captured run, Q and a colon; the
    replacement is [Q$1\Q$2\Q$3Q:]. *)
Definition not_delim : regex :=
  none_of [DQUOTE; COMMA; COLON; RBRACE; RBRACKET].
Definition re_inner_quotes : regex :=
  RSeq (chr DQUOTE)
    (RSeq (RGroup 1 (RStar (none_of [DQUOTE])))
       (RSeq (chr DQUOTE)
          (RSeq (RGroup 2 (RStar not_delim))
             (RSeq (chr DQUOTE)
                (RSeq (RGroup 3 (RStar not_delim))
                   (RSeq (chr DQUOTE) (chr COLON))))))).
Definition tpl_inner_quotes : list titem :=
  [TLit [DQUOTE]; TRef 1; TLit [BACKSLASH; DQUOTE]; TRef 2;
   TLit [BACKSLASH; DQUOTE]; TRef 3; TLit [DQUOTE; COLON]].

(** generate-course: enhanced character cleaning. *)
Definition clean_characters (c : jsstring) : jsstring :=
  replaceAll re_non_ascii []
    (replaceAll re_japanese []
       (replaceAll re_ellipsis [TLit (lit "...")]
          (replaceAll re_dashes [TLit [HYPHEN]]
             (replaceAll re_smart_single [TLit [APOSTROPHE]]
                (replaceAll re_smart_double [TLit [DQUOTE]]
                   (replaceAll re_control [] c)))))).

(** generate-course: try to fix common JSON issues. *)
Definition fix_common_issues (cleanedContent : jsstring) : jsstring :=
  let f1 := replaceAll re_trailing_comma [TRef 1] cleanedContent in
  let f2 := replaceAll re_adjacent_objects
              [TLit [RBRACE; COMMA]; TRef 1; TLit [LBRACE]] f1 in
  let f3 := replaceAll re_adjacent_arrays
              [TLit [RBRACKET; COMMA]; TRef 1; TLit [LBRACKET]] f2 in
  replaceAll re_inner_quotes tpl_inner_quotes f3.

(** The text generate-course hands to [JSON.parse], from the model's
    [content]. *)
Definition course_fixed (content : jsstring) : jsstring :=
  fix_common_issues
    (clean_characters (trim_to_braces (strip_fences (trim content)))).

Definition extract_course (content : jsstring) : option json :=
  JSON_parse (course_fixed content).

(** generate-roadmap-content: clean special characters. *)
Definition clean_special (c : jsstring) : jsstring :=
  replaceAll re_dashes [TLit [HYPHEN]]
    (replaceAll re_smart_single [TLit [APOSTROPHE]]
       (replaceAll re_smart_double [TLit [DQUOTE]]
          (replaceAll re_control [] c))).

Definition roadmap_cleaned (content : jsstring) : jsstring :=
  clean_special (trim_to_braces (strip_fences (trim content))).

Definition extract_roadmap (content : jsstring) : option json :=
  JSON_parse (roadmap_cleaned content).

(** generate-lesson-recommendations and generate-adaptive-feedback: fences
    and brace boundaries only. *)
Definition extract_plain (content : jsstring) : option json :=
  JSON_parse (trim_to_braces (strip_fences (trim content))).

End Extract.

Import Extract.

(* ================================================================== *)
(** ** The HTTP handlers under [supabase/functions] *)
(* ================================================================== *)

Module Edge.

(** What a handler sees of its engine and deployment: the provider
    credential, the clock, and the engine built-ins that are not spelled
    out here. *)
Record runtime : Type := mkRuntime
  { GROQ_API_KEY : option jsstring;
    Date_now : N;
    toLowerCase : jsstring -> jsstring;
    (** [ToNumber] of a value, where it returns *)
    toNumber : json -> float;
    (** the messages of the errors the engine itself throws: on reading a
        property of [undefined], on converting an object to a number, on
        calling [trim] on a value that is not
        a string, and in [encodeURIComponent] *)
    type_error_message : jsstring;
    convert_error_message : jsstring;
    trim_error_message : jsstring;
    uri_error_message : jsstring }.

(** Thrown values. *)
Inductive exn : Type :=
| Error (message : jsstring)
| TypeError (message : jsstring)
| SyntaxError (message : jsstring)
| URIError (message : jsstring).

Definition exn_message (e : exn) : jsstring :=
  match e with
  | Error m => m
  | TypeError m => m
  | SyntaxError m => m
  | URIError m => m
  end.

Definition exn_toString (e : exn) : jsstring :=
  match e with
  | Error m => lit "Error: " ++ m
  | TypeError m => lit "TypeError: " ++ m
  | SyntaxError m => lit "SyntaxError: " ++ m
  | URIError m => lit "URIError: " ++ m
  end.

(** A computation that returns or throws. *)
Definition result (A : Type) : Type := (A + exn)%type.
Definition ret {A} (a : A) : result A := inl a.
Definition throw {A} (e : exn) : result A := inr e.
Definition bind {A B} (m : result A) (k : A -> result B) : result B :=
  match m with inl a => k a | inr e => inr e end.
Definition try_catch {A} (m : result A) (handler : exn -> A) : A :=
  match m with inl a => a | inr e => handler e end.

Declare Scope result_scope.
Delimit Scope result_scope with result.
Notation "x <- m ;; k" := (bind m (fun x => k))
  (at level 61, m at next level, right associativity) : result_scope.
Notation "m ;;; k" := (bind m (fun _ => k))
  (at level 61, right associativity) : result_scope.
Local Open Scope result_scope.

Definition assert (ok : bool) (e : exn) : result unit :=
  if ok then ret tt else throw e.

(** A value that is not a string. *)
Inductive other_value : Type :=
| Undefined
| Null
| Boolean (b : bool)
| Number (n : number)
| Array (l : list json)
| Object (m : list (jsstring * json)).

(** What the call of the chat-completion endpoint ends in, as the handlers
    look at it: a non-success status with its body text; a success status
    with a body that [groqResponse.json()] rejects, with the message of the
    [SyntaxError] it throws; a body [groqData] on which evaluating
    [groqData.choices[0].message.content] throws (a part of the path is
    missing), with the message of that [TypeError]; one on which it yields
    something that is not a string; one on which it yields the given
    string; or no answer at all, [fetch] rejecting with a [TypeError] of
    the given message. *)
Inductive groq_reply : Type :=
| ReplyNotOk (status : nat) (errorText : jsstring)
| ReplyNotJson (message : jsstring)
| ReplyNoMessage (message : jsstring)
| ReplyNotText (content : other_value)
| ReplyOk (content : jsstring)
| FetchFailed (message : jsstring).

(** [JSON.stringify] of a property holding such a value drops the property
    when the value is [undefined]. *)
Definition as_json (v : other_value) : option json :=
  match v with
  | Undefined => None
  | Null => Some JNull
  | Boolean b => Some (JBool b)
  | Number n => Some (JNum n)
  | Array l => Some (JArr l)
  | Object m => Some (JObj m)
  end.

(** One generated recommendation.  The text fields of a model-supplied
    recommendation are whatever JSON values the model sent. *)
Record recommendation : Type := mkRecommendation
  { rec_id : json;
    rec_title : json;
    rec_description : json;
    rec_difficulty : json;
    rec_estimatedTime : json;
    rec_category : json;
    relevanceScore : float;
    rec_source : jsstring }.

(** The feedback object of generate-adaptive-feedback: the parsed model
    output, or the rule-based object built in the catch block (not
    elaborated: no statement below reads its fields). *)
Inductive feedback_content : Type :=
| Generated (v : json)
| RuleBased.

(** Response bodies, before [JSON.stringify]. *)
Inductive body : Type :=
| ErrorBody (error details : jsstring)
| CourseBody (success : bool) (courseContent : json)
| RecommendationsBody (recommendations : list recommendation)
| ValidationBody (success isCorrect : bool) (userAnswer correctAnswer : jsstring)
| FeedbackBody (success : bool) (feedback : feedback_content)
| RoadmapBody (success : bool) (content : json)
| ChatBody (success : bool) (response : option json).

Record response : Type := mkResponse { status : nat; resp_body : body }.

(** The outer catch block every handler ends with. *)
Definition failure (error : exn) : response :=
  mkResponse 500 (ErrorBody (exn_message error) (exn_toString error)).

Definition respond (r : result response) : response := try_catch r failure.

(** Truthiness of an optional string field ([None] is [undefined]) and its
    rendering inside a template literal. *)
Definition truthy_str (o : option jsstring) : bool :=
  match o with Some (_ :: _) => true | _ => false end.

Definition interpolate (o : option jsstring) : jsstring :=
  match o with Some s => s | None => lit "undefined" end.

(** The literal of a number denotes zero, or a value that binary64 rounds
    to zero: at most [2^-1075], half the least positive double. *)
Definition rounds_to_zero (n : number) : bool :=
  N.eqb (num_mant n) 0
  || ((num_exp10 n <? 0)%Z
      && (Z.of_N (num_mant n) * 2 ^ 1075 <=? 10 ^ (- num_exp10 n))%Z).

Definition truthy (v : json) : bool :=
  match v with
  | JNull => false
  | JBool b => b
  | JNum n => negb (rounds_to_zero n)
  | JStr s => negb (is_empty s)
  | JArr _ | JObj _ => true
  end.

(** [ToString] and [ToNumber] of a value built by [JSON.parse] throw a
    [TypeError] when they meet an object with a property [toString] of its
    own: the property is not callable, and [valueOf], its own or the
    inherited one, does not give a primitive either.  An array is
    converted through [join], which converts its elements. *)
Fixpoint conversion_throws (v : json) : bool :=
  match v with
  | JObj m => match get (lit "toString") m with Some _ => true | None => false end
  | JArr l => existsb conversion_throws l
  | _ => false
  end.

Definition to_number (rt : runtime) (v : json) : result float :=
  if conversion_throws v
  then throw (TypeError (convert_error_message rt))
  else ret (toNumber rt v).

(** [v.key]: reading a property of [null] throws, a primitive or an array
    has none of the keys read here. *)
Definition prop (rt : runtime) (v : json) (key : string) : result (option json) :=
  match v with
  | JNull => throw (TypeError (type_error_message rt))
  | JObj m => ret (get (lit key) m)
  | _ => ret None
  end.

(** [a || b] on a property that may be absent. *)
Definition or_else (o : option json) (d : json) : json :=
  match o with
  | Some v => if truthy v then v else d
  | None => d
  end.

Definition is_array (o : option json) : bool :=
  match o with Some (JArr _) => true | _ => false end.

Definition require_key (rt : runtime) : result jsstring :=
  match GROQ_API_KEY rt with
  | Some (c :: k) => ret (c :: k)
  | _ => throw (Error (lit "GROQ_API_KEY environment variable is not configured"))
  end.

Definition jstr (s : string) : json := JStr (lit s).
Definition field (k : string) (v : json) : jsstring * json := (lit k, v).

(* ------------------------------------------------------------------ *)
(** *** generate-course *)

Record course_request : Type := mkCourseRequest
  { cr_title : option jsstring;
    cr_audience_level : option jsstring;
    cr_duration : option jsstring;
    cr_instructions : option jsstring }.

Definition quiz_item (question : jsstring) (o1 o2 o3 o4 answer : string) : json :=
  JObj [field "question" (JStr question);
        field "options" (JArr [jstr o1; jstr o2; jstr o3; jstr o4]);
        field "answer" (jstr answer)].

Definition resource_item (title : jsstring) (url : string) : json :=
  JObj [field "title" (JStr title); field "url" (jstr url)].

(** The enhanced fallback course structure of the catch block. *)
Definition fallback_course (courseTitle : jsstring) : json :=
  JObj [field "modules" (JArr [
    JObj [
      field "module_title" (JStr (lit "Fundamentals of " ++ courseTitle));
      field "lessons" (JArr [
        JObj [
          field "lesson_title" (JStr (lit "Introduction to " ++ courseTitle));
          field "objectives" (JArr [
            JStr (lit "Understand the core concepts of " ++ courseTitle);
            jstr "Learn fundamental principles and terminology";
            jstr "Identify key components and their relationships";
            jstr "Apply basic knowledge in practical scenarios"]);
          field "content" (JStr (
            lit "Welcome to your comprehensive " ++ courseTitle ++
            lit " course! This lesson introduces you to the fundamental concepts and principles that form the foundation of " ++ courseTitle ++
            lit ". We'll explore the essential terminology, key components, and basic principles that you'll build upon throughout this course. Understanding these fundamentals is crucial for your success in more advanced topics. Through practical examples and step-by-step explanations, you'll gain confidence and establish a solid foundation for your learning journey."));
          field "quiz" (JArr [
            quiz_item (lit "What is the primary focus of learning " ++ courseTitle ++ lit "?")
              "Basic understanding only" "Practical application"
              "Theoretical knowledge" "All comprehensive aspects"
              "All comprehensive aspects";
            quiz_item (lit "Why is it important to understand fundamentals in " ++ courseTitle ++ lit "?")
              "It's not important" "Builds foundation for advanced concepts"
              "Just for beginners" "Only for testing"
              "Builds foundation for advanced concepts"]);
          field "free_resources" (JArr [
            resource_item (courseTitle ++ lit " Complete Guide")
              "https://example.com/comprehensive-guide";
            resource_item (courseTitle ++ lit " Fundamentals Tutorial")
              "https://example.com/fundamentals"])]])];
    JObj [
      field "module_title" (JStr (lit "Intermediate " ++ courseTitle ++ lit " Concepts"));
      field "lessons" (JArr [
        JObj [
          field "lesson_title" (JStr (lit "Building Your " ++ courseTitle ++ lit " Skills"));
          field "objectives" (JArr [
            jstr "Develop intermediate-level competency";
            jstr "Apply concepts in practical situations";
            jstr "Solve common problems and challenges";
            jstr "Prepare for advanced topic areas"]);
          field "content" (JStr (
            lit "Now that you have a solid foundation, this lesson focuses on building your intermediate skills in " ++ courseTitle ++
            lit ". We'll explore more complex concepts, practical applications, and real-world scenarios. You'll learn to solve common problems, implement best practices, and develop the confidence to tackle more challenging aspects of " ++ courseTitle ++
            lit ". This lesson bridges the gap between basic understanding and advanced mastery."));
          field "quiz" (JArr [
            quiz_item (lit "What characterizes intermediate-level " ++ courseTitle ++ lit " skills?")
              "Basic knowledge only" "Practical problem-solving ability"
              "Advanced theory" "Expert-level mastery"
              "Practical problem-solving ability";
            quiz_item (lit "How do intermediate skills prepare you for advanced topics?")
              "They don't" "Build confidence and practical experience"
              "Only theoretical knowledge" "Replace advanced learning"
              "Build confidence and practical experience"]);
          field "free_resources" (JArr [
            resource_item (courseTitle ++ lit " Practical Examples")
              "https://example.com/practical-examples";
            resource_item (courseTitle ++ lit " Problem Solving Guide")
              "https://example.com/problem-solving"])]])]])].

(** The inner try block: clean, parse, validate the structure.  [None] is
    any exception raised there (a [SyntaxError] of [JSON.parse], the
    [TypeError] of reading [modules] off [null], or the explicit throw). *)
Definition has_modules_array (courseContent : json) : bool :=
  match courseContent with
  | JObj m => is_array (get (lit "modules") m)
  | _ => false
  end.

Definition parse_course (content : jsstring) : option json :=
  match extract_course content with
  | Some v => if has_modules_array v then Some v else None
  | None => None
  end.

(** The shape the UI relies on: a lesson with objectives, content, two quiz
    questions and two resources; a course whose modules all carry such
    lessons only, with at least one module and one lesson per module. *)
Definition lesson_complete (lesson : json) : bool :=
  match lesson with
  | JObj m =>
      match get (lit "objectives") m, get (lit "content") m,
            get (lit "quiz") m, get (lit "free_resources") m with
      | Some (JArr (_ :: _)), Some (JStr (_ :: _)),
        Some (JArr [_; _]), Some (JArr [_; _]) => true
      | _, _, _, _ => false
      end
  | _ => false
  end.

Definition module_complete (module : json) : bool :=
  match module with
  | JObj m =>
      match get (lit "lessons") m with
      | Some (JArr (l :: ls)) => forallb lesson_complete (l :: ls)
      | _ => false
      end
  | _ => false
  end.

Definition course_complete (courseContent : json) : bool :=
  match courseContent with
  | JObj m =>
      match get (lit "modules") m with
      | Some (JArr (x :: xs)) => forallb module_complete (x :: xs)
      | _ => false
      end
  | _ => false
  end.

Definition generate_course (rt : runtime) (req : course_request)
    (reply : groq_reply) : response :=
  respond (
    assert (truthy_str (cr_title req) && truthy_str (cr_audience_level req)
            && truthy_str (cr_duration req))
      (Error (lit "Missing required fields: courseTitle, audienceLevel, and duration are required")) ;;;
    _ <- require_key rt ;;
    match reply with
    | ReplyNotOk st errorText =>
        throw (Error (lit "Groq API error: " ++ of_nat st ++ lit " - " ++ errorText))
    | ReplyNotJson message => throw (SyntaxError message)
    | ReplyNoMessage message =>
        (* thrown in the try block, and again by the catch block, which
           logs the same expression *)
        throw (TypeError message)
    | ReplyNotText _ =>
        (* [trim] throws in the try block; the catch block builds the
           fallback *)
        ret (mkResponse 200
               (CourseBody true (fallback_course (interpolate (cr_title req)))))
    | ReplyOk content =>
        let courseContent :=
          match parse_course content with
          | Some v => v
          | None => fallback_course (interpolate (cr_title req))
          end in
        ret (mkResponse 200 (CourseBody true courseContent))
    | FetchFailed message => throw (TypeError message)
    end).

(* ------------------------------------------------------------------ *)
(** *** generate-lesson-recommendations *)

Record recommendations_request : Type := mkRecommendationsRequest
  { rr_courseTitle : option jsstring;
    rr_moduleTopics : option (list jsstring);
    rr_lessonTopics : option (list jsstring);
    rr_averageQuizScore : option float;
    rr_requestedCount : option nat }.

(** [requestedCount = 6] in the destructuring pattern. *)
Definition requested_count (req : recommendations_request) : nat :=
  match rr_requestedCount req with Some n => n | None => 6 end.

Inductive performance : Type := beginner | intermediate | advanced.

(** [averageQuizScore < 6 ? 'beginner' : averageQuizScore > 8 ? 'advanced'
    : 'intermediate']; both comparisons are false on [undefined]. *)
Definition performanceLevel (averageQuizScore : option float) : performance :=
  match averageQuizScore with
  | Some a => if (a <? 6)%float then beginner
              else if (8 <? a)%float then advanced else intermediate
  | None => intermediate
  end.

Fixpoint includes (s sub : jsstring) : bool :=
  startsWith s sub ||
  match s with
  | [] => false
  | _ :: r => includes r sub
  end.

Inductive category : Type :=
| spanish | webdev | programming | datascience | design | general.

Definition category_name (c : category) : jsstring :=
  match c with
  | spanish => lit "spanish"
  | webdev => lit "webdev"
  | programming => lit "programming"
  | datascience => lit "datascience"
  | design => lit "design"
  | general => lit "general"
  end.

(** The second Spanish keyword as the file under [src/] spells it: the
    letters e s p a, U+221A, U+00B1, o l. *)
Definition espanol : jsstring := lit "espa" ++ [8730%N; 177%N] ++ lit "ol".

Definition analyzeCourseCategory (rt : runtime) (courseTitle : jsstring) : category :=
  let title := toLowerCase rt courseTitle in
  let has (k : string) := includes title (lit k) in
  if has "spanish"%string || includes title espanol then spanish
  else if has "react"%string || has "javascript"%string || has "web"%string
          || has "next"%string then webdev
  else if has "python"%string || has "programming"%string
          || has "algorithm"%string then programming
  else if has "data"%string || has "machine learning"%string
          || has "ai"%string then datascience
  else if has "design"%string || has "ui"%string || has "ux"%string then design
  else general.

Inductive difficulty : Type := Beginner | Intermediate | Advanced.

Definition difficulty_name (d : difficulty) : string :=
  match d with
  | Beginner => "Beginner"
  | Intermediate => "Intermediate"
  | Advanced => "Advanced"
  end.

Record template : Type := mkTemplate
  { t_title : string;
    t_description : string;
    t_difficulty : difficulty;
    t_estimatedTime : string;
    t_category : string;
    baseRelevance : float }.

Definition spanish_templates : list template :=
  [mkTemplate "Advanced Spanish Conversation Techniques"
     "Master natural conversation flow and idiomatic expressions"
     Advanced "45 min" "Speaking" 0.9;
   mkTemplate "Spanish Grammar Deep Dive: Subjunctive Mood"
     "Understand and practice the complex subjunctive mood"
     Advanced "60 min" "Grammar" 0.8;
   mkTemplate "Spanish Cultural Context and Usage"
     "Learn cultural nuances behind language patterns"
     Intermediate "40 min" "Culture" 0.75].

Definition webdev_templates : list template :=
  [mkTemplate "Advanced React Patterns and Performance"
     "Custom hooks, context patterns, and optimization techniques"
     Advanced "75 min" "Frontend" 0.9;
   mkTemplate "Modern JavaScript ES2024 Features"
     "Latest JavaScript features and advanced usage patterns"
     Advanced "50 min" "JavaScript" 0.8;
   mkTemplate "Web Performance and Optimization"
     "Core Web Vitals, advanced caching, and performance monitoring"
     Advanced "65 min" "Performance" 0.85].

Definition programming_templates : list template :=
  [mkTemplate "Advanced Algorithm Design and Analysis"
     "Complex algorithms, time complexity optimization, and advanced data structures"
     Advanced "90 min" "Algorithms" 0.9;
   mkTemplate "System Design and Architecture"
     "Scalable systems, microservices, and distributed computing"
     Advanced "80 min" "System Design" 0.85;
   mkTemplate "Advanced Programming Patterns"
     "Design patterns, functional programming, and code architecture"
     Advanced "70 min" "Patterns" 0.8].

Definition general_templates : list template :=
  [mkTemplate "Advanced Critical Thinking"
     "Complex problem-solving and analytical reasoning techniques"
     Advanced "50 min" "Thinking" 0.8;
   mkTemplate "Professional Communication Mastery"
     "Advanced presentation and leadership communication skills"
     Advanced "45 min" "Communication" 0.7;
   mkTemplate "Strategic Learning and Development"
     "Meta-learning techniques and advanced skill acquisition"
     Advanced "40 min" "Learning" 0.75].

(** [lessonTemplates[category] || lessonTemplates.general]. *)
Definition getLessonTemplatesForCategory (c : category) : list template :=
  match c with
  | spanish => spanish_templates
  | webdev => webdev_templates
  | programming => programming_templates
  | datascience | design | general => general_templates
  end.

(** Adjust based on performance. *)
Definition adjusted_relevance (level : performance) (t : template) : float :=
  let relevanceScore := baseRelevance t in
  match level with
  | beginner =>
      let r1 := match t_difficulty t with
                | Beginner => (relevanceScore + 0.2)%float
                | _ => relevanceScore
                end in
      match t_difficulty t with
      | Advanced => (r1 - 0.3)%float
      | _ => r1
      end
  | advanced =>
      let r1 := match t_difficulty t with
                | Advanced => (relevanceScore + 0.2)%float
                | _ => relevanceScore
                end in
      match t_difficulty t with
      | Beginner => (r1 - 0.2)%float
      | _ => r1
      end
  | intermediate => relevanceScore
  end.

Fixpoint map_indexed {A B} (f : A -> nat -> B) (i : nat) (l : list A) : list B :=
  match l with
  | [] => []
  | a :: r => f a i :: map_indexed f (S i) r
  end.

Definition fallback_recommendations (rt : runtime) (courseTitle : jsstring)
    (averageQuizScore : option float) (requestedCount : nat)
  : list recommendation :=
  let category := analyzeCourseCategory rt courseTitle in
  let level := performanceLevel averageQuizScore in
  let templates := getLessonTemplatesForCategory category in
  map_indexed
    (fun t index =>
       mkRecommendation
         (JStr (lit "fallback-" ++ category_name category ++ lit "-"
                ++ of_N (Date_now rt) ++ lit "-" ++ of_nat index))
         (JStr (lit (t_title t) ++ lit " (Advanced " ++ courseTitle ++ lit ")"))
         (jstr (t_description t))
         (jstr (difficulty_name (t_difficulty t)))
         (jstr (t_estimatedTime t))
         (jstr (t_category t))
         (adjusted_relevance level t)
         (lit "curated"))
    0 (firstn requestedCount templates).

Definition getFallbackRecommendations (rt : runtime) (courseTitle : jsstring)
    (averageQuizScore : option float) (requestedCount : nat) : response :=
  mkResponse 200
    (RecommendationsBody
       (fallback_recommendations rt courseTitle averageQuizScore requestedCount)).

(** [Math.max] and [Math.min] of two numbers. *)
Definition is_nan (x : float) : bool := negb (x =? x)%float.

Definition Math_max (a b : float) : float :=
  if is_nan a || is_nan b then nan
  else if (a <? b)%float then b
  else if (b <? a)%float then a
  else if (a =? 0)%float then (a + b)%float
  else a.

Definition Math_min (a b : float) : float := (- Math_max (- a) (- b))%float.

(** Ensure all recommendations have required fields (the body of the [map]
    callback). *)
Definition normalize_recommendation (rt : runtime) (courseTitle : jsstring)
    (rec : json) (index : nat) : result recommendation :=
  id <- prop rt rec "id" ;;
  title <- prop rt rec "title" ;;
  description <- prop rt rec "description" ;;
  difficulty <- prop rt rec "difficulty" ;;
  estimatedTime <- prop rt rec "estimatedTime" ;;
  category <- prop rt rec "category" ;;
  score <- prop rt rec "relevanceScore" ;;
  let raw_score :=
    match score with
    | Some v => if truthy v then to_number rt v else ret 0.8%float
    | None => ret 0.8%float
    end in
  (* the object literal evaluates its properties in order: the template
     literals before [Math.max], which is where a conversion throws *)
  raw_score <- raw_score ;;
  ret (mkRecommendation
         (or_else id (JStr (lit "ai-rec-" ++ of_N (Date_now rt) ++ lit "-"
                            ++ of_nat index)))
         (or_else title (JStr (lit "Advanced " ++ courseTitle ++ lit " Concepts")))
         (or_else description
            (JStr (lit "Advanced concepts building on your " ++ courseTitle
                   ++ lit " learning")))
         (or_else difficulty (jstr "Intermediate"))
         (or_else estimatedTime (jstr "45 min"))
         (or_else category (jstr "Advanced Study"))
         (Math_min (Math_max raw_score 0.7) 1.0)
         (lit "ai-generated")).

Fixpoint normalize_all (rt : runtime) (courseTitle : jsstring)
    (recs : list json) (index : nat) : result (list recommendation) :=
  match recs with
  | [] => ret []
  | rec :: rest =>
      r <- normalize_recommendation rt courseTitle rec index ;;
      rs <- normalize_all rt courseTitle rest (S index) ;;
      ret (r :: rs)
  end.

Definition failed_to_parse : exn := Error (lit "Failed to parse AI response").

Definition generateAIRecommendations (rt : runtime) (courseTitle : jsstring)
    (req : recommendations_request) (reply : groq_reply)
  : result (list recommendation) :=
  (* the prompt joins moduleTopics and slices lessonTopics *)
  assert (match rr_moduleTopics req, rr_lessonTopics req with
          | Some _, Some _ => true
          | _, _ => false
          end) (TypeError (type_error_message rt)) ;;;
  match reply with
  | ReplyNotOk st _ =>
      if Nat.eqb st 429
      then throw (Error (lit "Rate limit exceeded - using fallback recommendations"))
      else throw (Error (lit "Groq API error: " ++ of_nat st))
  | FetchFailed message => throw (TypeError message)
  | ReplyNotJson message => throw (SyntaxError message)
  | ReplyNoMessage _ | ReplyNotText _ => throw failed_to_parse
  | ReplyOk content =>
      match extract_plain content with
      | Some (JObj m) =>
          match get (lit "recommendations") m with
          | Some (JArr recs) =>
              match normalize_all rt courseTitle recs 0 with
              | inl rs => ret rs
              | inr _ => throw failed_to_parse
              end
          | _ => throw failed_to_parse
          end
      | _ => throw failed_to_parse
      end
  end.

Definition generate_lesson_recommendations (rt : runtime)
    (req : recommendations_request) (reply : groq_reply) : response :=
  respond (
    assert (truthy_str (rr_courseTitle req))
      (Error (lit "Course title is required for generating recommendations")) ;;;
    let courseTitle := interpolate (rr_courseTitle req) in
    match require_key rt with
    | inr _ =>
        ret (getFallbackRecommendations rt courseTitle
               (rr_averageQuizScore req) (requested_count req))
    | inl _ =>
        ret (try_catch
               (aiRecommendations <-
                  generateAIRecommendations rt courseTitle req reply ;;
                ret (mkResponse 200 (RecommendationsBody aiRecommendations)))
               (fun aiError =>
                  getFallbackRecommendations rt courseTitle
                    (rr_averageQuizScore req) (requested_count req)))
    end).

(* ------------------------------------------------------------------ *)
(** *** validate-quiz-answer *)

Record validation_request : Type := mkValidationRequest
  { vr_userAnswer : option jsstring;
    vr_question : option jsstring;
    vr_correctAnswer : option jsstring;
    vr_options : option (list jsstring) }.

Definition validate_quiz_answer (rt : runtime) (req : validation_request)
    (reply : groq_reply) : response :=
  respond (
    assert (truthy_str (vr_userAnswer req) && truthy_str (vr_question req)
            && truthy_str (vr_correctAnswer req))
      (Error (lit "Missing required fields: userAnswer, question, and correctAnswer are required")) ;;;
    _ <- require_key rt ;;
    match reply with
    | ReplyNotOk st _ => throw (Error (lit "Groq API error: " ++ of_nat st))
    | ReplyNotJson message => throw (SyntaxError message)
    | ReplyNoMessage message => throw (TypeError message)
    | ReplyNotText _ => throw (TypeError (trim_error_message rt))
    | ReplyOk content =>
        let validationResult := toLowerCase rt (trim content) in
        let isCorrect := JsString.eqb validationResult (lit "true") in
        ret (mkResponse 200
               (ValidationBody true isCorrect
                  (interpolate (vr_userAnswer req))
                  (interpolate (vr_correctAnswer req))))
    | FetchFailed message => throw (TypeError message)
    end).

(* ------------------------------------------------------------------ *)
(** *** generate-adaptive-feedback *)

Record feedback_request : Type := mkFeedbackRequest
  { fr_quiz_score : option float;
    fr_confidence_level : option float;
    fr_struggle_topics : option (list jsstring);
    fr_understanding_topics : option (list jsstring);
    fr_reflection_notes : option jsstring }.

Definition parse_feedback (content : jsstring) : option json :=
  match extract_plain content with
  | Some (JObj m) =>
      match get (lit "motivational_message") m with
      | Some v => if truthy v then Some (JObj m) else None
      | None => None
      end
  | _ => None
  end.

(** [encodeURIComponent] throws on a string with a surrogate that has no
    partner. *)
Fixpoint well_formed (s : jsstring) : bool :=
  match s with
  | [] => true
  | c :: r =>
      if in_range 55296 56319 c
      then match r with
           | d :: r' => in_range 56320 57343 d && well_formed r'
           | [] => false
           end
      else if in_range 56320 57343 c then false
      else well_formed r
  end.

(** The catch block around the parsing: the rule-based object links to a
    search for the first struggle topic, or for a fixed phrase when there
    is none or it is empty. *)
Definition rule_based (rt : runtime) (req : feedback_request)
  : result feedback_content :=
  let searched :=
    match fr_struggle_topics req with
    | Some (topic :: _) =>
        match topic with [] => lit "study tips" | _ :: _ => topic end
    | _ => lit "study tips"
    end in
  assert (well_formed searched) (URIError (uri_error_message rt)) ;;;
  ret RuleBased.

(** No input field is validated; the user prompt joins both topic arrays,
    which throws when one is missing. *)
Definition generate_adaptive_feedback (rt : runtime) (req : feedback_request)
    (reply : groq_reply) : response :=
  respond (
    _ <- require_key rt ;;
    assert (match fr_struggle_topics req, fr_understanding_topics req with
            | Some _, Some _ => true
            | _, _ => false
            end) (TypeError (type_error_message rt)) ;;;
    match reply with
    | ReplyNotOk st errorText =>
        throw (Error (lit "Groq API error: " ++ of_nat st ++ lit " - " ++ errorText))
    | ReplyNotJson message => throw (SyntaxError message)
    | ReplyNoMessage message =>
        (* thrown in the try block, and again by the catch block, which
           logs the same expression *)
        throw (TypeError message)
    | ReplyNotText _ =>
        feedbackContent <- rule_based rt req ;;
        ret (mkResponse 200 (FeedbackBody true feedbackContent))
    | ReplyOk content =>
        feedbackContent <-
          match parse_feedback content with
          | Some v => ret (Generated v)
          | None => rule_based rt req
          end ;;
        ret (mkResponse 200 (FeedbackBody true feedbackContent))
    | FetchFailed message => throw (TypeError message)
    end).

(* ------------------------------------------------------------------ *)
(** *** generate-roadmap-content *)

Record roadmap_request : Type := mkRoadmapRequest
  { rm_courseTitle : option jsstring;
    rm_category : option jsstring;
    rm_contentType : option jsstring }.

Definition fallback_projects (courseTitle : jsstring) : json :=
  JObj [field "projects" (JArr [
    JObj [field "title" (JStr (courseTitle ++ lit " Foundation Project"));
          field "difficulty" (jstr "Beginner");
          field "duration" (jstr "1-2 weeks");
          field "description" (JStr (lit "Build a fundamental project that demonstrates core concepts from " ++ courseTitle));
          field "tasks" (JArr [
            JStr (lit "Set up project structure for " ++ courseTitle);
            jstr "Implement basic functionality";
            jstr "Add user interface components";
            jstr "Test core features";
            jstr "Document your learning process";
            jstr "Create project presentation"])]])].

Definition fallback_opportunities (courseTitle : jsstring) : json :=
  JObj [field "opportunities" (JArr [
    JObj [field "title" (JStr (courseTitle ++ lit " Specialist"));
          field "type" (jstr "Freelance");
          field "company" (jstr "Various Clients");
          field "location" (jstr "Remote");
          field "salary" (jstr "$25-50/hour");
          field "description" (JStr (lit "Apply your " ++ courseTitle ++ lit " skills to help clients solve problems"));
          field "requirements" (JArr [
            JStr (lit "Proficiency in " ++ courseTitle);
            jstr "Strong communication skills";
            jstr "Problem-solving abilities";
            jstr "Portfolio of relevant work"]);
          field "website" (jstr "https://www.upwork.com")]])].

Definition roadmap_fallback (req : roadmap_request) : json :=
  let courseTitle := interpolate (rm_courseTitle req) in
  if JsString.eqb (interpolate (rm_contentType req)) (lit "projects")
  then fallback_projects courseTitle
  else fallback_opportunities courseTitle.

Definition generate_roadmap_content (rt : runtime) (req : roadmap_request)
    (reply : groq_reply) : response :=
  respond (
    assert (truthy_str (rm_courseTitle req) && truthy_str (rm_category req)
            && truthy_str (rm_contentType req))
      (Error (lit "Missing required fields: courseTitle, category, and contentType are required")) ;;;
    _ <- require_key rt ;;
    match reply with
    | ReplyNotOk st _ => throw (Error (lit "Groq API error: " ++ of_nat st))
    | ReplyNotJson message => throw (SyntaxError message)
    | ReplyNoMessage _ | ReplyNotText _ =>
        (* thrown in the try block; the catch block builds the fallback *)
        ret (mkResponse 200 (RoadmapBody true (roadmap_fallback req)))
    | ReplyOk content =>
        let generatedContent :=
          match extract_roadmap content with
          | Some v => v
          | None => roadmap_fallback req
          end in
        ret (mkResponse 200 (RoadmapBody true generatedContent))
    | FetchFailed message => throw (TypeError message)
    end).

(* ------------------------------------------------------------------ *)
(** *** ai-tutor-chat *)

Record chat_request : Type := mkChatRequest
  { ch_message : option jsstring;
    ch_courseId : option jsstring;
    ch_userId : option jsstring }.

(** No input field is validated. *)
Definition ai_tutor_chat (rt : runtime) (req : chat_request)
    (reply : groq_reply) : response :=
  respond (
    _ <- require_key rt ;;
    match reply with
    | ReplyNotOk st errorText =>
        throw (Error (lit "Groq API error: " ++ of_nat st ++ lit " - " ++ errorText))
    | ReplyNotJson message => throw (SyntaxError message)
    | ReplyNoMessage message => throw (TypeError message)
    | ReplyNotText content =>
        ret (mkResponse 200 (ChatBody true (as_json content)))
    | ReplyOk content =>
        ret (mkResponse 200 (ChatBody true (Some (JStr content))))
    | FetchFailed message => throw (TypeError message)
    end).

(* ------------------------------------------------------------------ *)
(** *** The six endpoints together *)

Inductive call : Type :=
| GenerateCourse (req : course_request)
| GenerateLessonRecommendations (req : recommendations_request)
| ValidateQuizAnswer (req : validation_request)
| GenerateAdaptiveFeedback (req : feedback_request)
| GenerateRoadmapContent (req : roadmap_request)
| AiTutorChat (req : chat_request).

Definition serve (rt : runtime) (c : call) (reply : groq_reply) : response :=
  match c with
  | GenerateCourse req => generate_course rt req reply
  | GenerateLessonRecommendations req => generate_lesson_recommendations rt req reply
  | ValidateQuizAnswer req => validate_quiz_answer rt req reply
  | GenerateAdaptiveFeedback req => generate_adaptive_feedback rt req reply
  | GenerateRoadmapContent req => generate_roadmap_content rt req reply
  | AiTutorChat req => ai_tutor_chat rt req reply
  end.

(** The fields each handler checks before anything else. *)
Definition validated_field_missing (c : call) : bool :=
  match c with
  | GenerateCourse req =>
      negb (truthy_str (cr_title req) && truthy_str (cr_audience_level req)
            && truthy_str (cr_duration req))
  | GenerateLessonRecommendations req => negb (truthy_str (rr_courseTitle req))
  | ValidateQuizAnswer req =>
      negb (truthy_str (vr_userAnswer req) && truthy_str (vr_question req)
            && truthy_str (vr_correctAnswer req))
  | GenerateAdaptiveFeedback _ => false
  | GenerateRoadmapContent req =>
      negb (truthy_str (rm_courseTitle req) && truthy_str (rm_category req)
            && truthy_str (rm_contentType req))
  | AiTutorChat _ => false
  end.

Definition key_unset (rt : runtime) : bool :=
  match GROQ_API_KEY rt with Some (_ :: _) => false | _ => true end.

Definition reply_not_ok (reply : groq_reply) : bool :=
  match reply with ReplyNotOk _ _ => true | _ => false end.

Definition falls_back_on_provider_failure (c : call) : bool :=
  match c with GenerateLessonRecommendations _ => true | _ => false end.

(** An engine for closed examples: ASCII-only lower-casing and [ToNumber]
    of short decimal literals (both exact on the inputs used below). *)
Definition ascii_lower (s : jsstring) : jsstring :=
  map (fun c => if in_range 65 90 c then (c + 32)%N else c) s.

Definition short_decimal (v : json) : float :=
  match v with
  | JNum n =>
      let m := PrimFloat.of_uint63 (Uint63.of_Z (Z.of_N (num_mant n))) in
      let p := PrimFloat.of_uint63 (Uint63.of_Z (10 ^ Z.abs (num_exp10 n))) in
      let x := if (num_exp10 n <? 0)%Z then (m / p)%float else (m * p)%float in
      if num_neg n then (- x)%float else x
  | _ => nan
  end.

Definition example_runtime (key : option jsstring) : runtime :=
  mkRuntime key 1750000000000 ascii_lower short_decimal
    (lit "Cannot read properties of undefined")
    (lit "Cannot convert object to primitive value")
    (lit "trim is not a function")
    (lit "URI malformed").

End Edge.

(* ================================================================== *)
(** ** The [useCourses] hook over the relational store *)
(* ================================================================== *)

Module Courses.

Definition uuid := nat.

(** *** The schema of [supabase/migrations] (columns the hook touches) *)

Record course_row : Type := mkCourseRow
  { course_id : uuid;
    course_user_id : uuid;
    course_title : jsstring;
    course_progress : Z;
    course_created_at : nat;
    course_folder_id : option uuid }.

Record module_row : Type := mkModuleRow
  { module_id : uuid;
    module_course_id : uuid;
    module_title : jsstring;
    module_order : nat }.

Record lesson_row : Type := mkLessonRow
  { lesson_id : uuid;
    lesson_module_id : uuid;
    lesson_title : jsstring;
    lesson_order : nat;
    lesson_objectives : option (list jsstring);  (* nullable *)
    lesson_content : jsstring;
    lesson_completed : bool }.

Record quiz_row : Type := mkQuizRow
  { quiz_id : uuid;
    quiz_lesson_id : uuid;
    quiz_question : jsstring;
    quiz_options : list jsstring;
    quiz_correct_answer : jsstring;
    question_order : nat }.

Record resource_row : Type := mkResourceRow
  { resource_id : uuid;
    resource_lesson_id : uuid;
    resource_title : jsstring;
    resource_url : jsstring;
    resource_order : nat }.

Record score_row : Type := mkScoreRow
  { score_id : uuid; score_lesson_id : uuid; score_course_id : uuid }.

Record chat_row : Type := mkChatRow
  { chat_id : uuid; chat_course_id : uuid }.

(** The tables, the next primary key [gen_random_uuid()] hands out and the
    clock behind [now()]. *)
Record store : Type := mkStore
  { courses : list course_row;
    modules : list module_row;
    lessons : list lesson_row;
    quiz_questions : list quiz_row;
    resources : list resource_row;
    quiz_scores : list score_row;
    tutor_chats : list chat_row;
    next_id : uuid;
    clock : nat }.

(** *** Queries *)

Section OrderBy.
Variable A : Type.
Variable key : A -> nat.

Fixpoint insert_by (x : A) (l : list A) : list A :=
  match l with
  | [] => [x]
  | y :: r => if Nat.leb (key x) (key y) then x :: l else y :: insert_by x r
  end.

(** [.order(column)]: ascending. *)
Fixpoint order_by (l : list A) : list A :=
  match l with
  | [] => []
  | x :: r => insert_by x (order_by r)
  end.

(** [.order(column, { ascending: false })]. *)
Definition order_by_desc (l : list A) : list A := rev (order_by l).

End OrderBy.

Definition select_courses (user : uuid) (st : store) : list course_row :=
  order_by_desc course_created_at
    (filter (fun c => Nat.eqb (course_user_id c) user) (courses st)).

Definition select_modules (course : uuid) (st : store) : list module_row :=
  order_by module_order
    (filter (fun m => Nat.eqb (module_course_id m) course) (modules st)).

Definition select_lessons (module : uuid) (st : store) : list lesson_row :=
  order_by lesson_order
    (filter (fun l => Nat.eqb (lesson_module_id l) module) (lessons st)).

Definition select_quiz (lesson : uuid) (st : store) : list quiz_row :=
  order_by question_order
    (filter (fun q => Nat.eqb (quiz_lesson_id q) lesson) (quiz_questions st)).

Definition select_resources (lesson : uuid) (st : store) : list resource_row :=
  order_by resource_order
    (filter (fun r => Nat.eqb (resource_lesson_id r) lesson) (resources st)).

(** *** Statements *)

Definition bump (st : store) (cs : list course_row) (ms : list module_row)
    (ls : list lesson_row) (qs : list quiz_row) (rs : list resource_row) : store :=
  mkStore cs ms ls qs rs (quiz_scores st) (tutor_chats st)
    (S (next_id st)) (S (clock st)).

Definition insert_course (user : uuid) (title : jsstring)
    (folder : option uuid) (st : store) : course_row * store :=
  let row := mkCourseRow (next_id st) user title 0 (clock st) folder in
  (row, bump st (courses st ++ [row]) (modules st) (lessons st)
          (quiz_questions st) (resources st)).

Definition insert_module (course : uuid) (title : jsstring) (order : nat)
    (st : store) : module_row * store :=
  let row := mkModuleRow (next_id st) course title order in
  (row, bump st (courses st) (modules st ++ [row]) (lessons st)
          (quiz_questions st) (resources st)).

Definition insert_lesson (module : uuid) (title : jsstring) (order : nat)
    (objectives : option (list jsstring)) (content : jsstring) (st : store)
  : lesson_row * store :=
  let row := mkLessonRow (next_id st) module title order objectives content false in
  (row, bump st (courses st) (modules st) (lessons st ++ [row])
          (quiz_questions st) (resources st)).

Definition insert_quiz (lesson : uuid) (question : jsstring)
    (options : list jsstring) (answer : jsstring) (order : nat) (st : store)
  : quiz_row * store :=
  let row := mkQuizRow (next_id st) lesson question options answer order in
  (row, bump st (courses st) (modules st) (lessons st)
          (quiz_questions st ++ [row]) (resources st)).

Definition insert_resource (lesson : uuid) (title url : jsstring) (order : nat)
    (st : store) : resource_row * store :=
  let row := mkResourceRow (next_id st) lesson title url order in
  (row, bump st (courses st) (modules st) (lessons st)
          (quiz_questions st) (resources st ++ [row])).

Definition update_progress (course : uuid) (progress : Z) (st : store) : store :=
  mkStore
    (map (fun c =>
            if Nat.eqb (course_id c) course
            then mkCourseRow (course_id c) (course_user_id c) (course_title c)
                   progress (course_created_at c) (course_folder_id c)
            else c) (courses st))
    (modules st) (lessons st) (quiz_questions st) (resources st)
    (quiz_scores st) (tutor_chats st) (next_id st) (clock st).

(** Row-level security.  Every table has it enabled, and a request of the
    client runs as the signed-in user [uid].  The policies on selects,
    inserts and updates admit the rows of that user's courses and what
    hangs under them, which is where every select, insert and update of the
    hook lands (it reads courses by [user_id] and writes under a course row
    it has just read or inserted), so the definitions above leave them
    out.  The policies on deletes decide: [courses] lets a user delete
    their own rows, and [quiz_scores] has policies for select, insert and
    update only, so no row of it is visible to a delete. *)
Definition may_delete_course (uid : uuid) (c : course_row) : bool :=
  Nat.eqb (course_user_id c) uid.

Definition may_delete_score (uid : uuid) (s : score_row) : bool := false.

(** [delete from quiz_scores where course_id = course], as [uid]. *)
Definition delete_quiz_scores (uid : uuid) (course : uuid) (st : store) : store :=
  mkStore (courses st) (modules st) (lessons st) (quiz_questions st)
    (resources st)
    (filter (fun s => negb (Nat.eqb (score_course_id s) course
                            && may_delete_score uid s))
       (quiz_scores st))
    (tutor_chats st) (next_id st) (clock st).

Definition mem (x : uuid) (l : list uuid) : bool := existsb (Nat.eqb x) l.

(** [delete from courses where id = course], as [uid].  With no row to
    delete the statement succeeds and changes nothing.  Otherwise the
    delete cascades through modules, lessons, quiz questions and resources
    (cascades and foreign-key checks are not subject to row-level
    security), and the whole statement is refused, [None], while a
    [quiz_scores] or [tutor_chats] row references the course, or a
    [quiz_scores] row references one of its lessons: those three foreign
    keys do not cascade. *)
Definition delete_course (uid : uuid) (course : uuid) (st : store)
  : option store :=
  if negb (existsb (fun c => Nat.eqb (course_id c) course
                             && may_delete_course uid c) (courses st))
  then Some st
  else
    let dead_modules :=
      map module_id
        (filter (fun m => Nat.eqb (module_course_id m) course) (modules st)) in
    let dead_lessons :=
      map lesson_id
        (filter (fun l => mem (lesson_module_id l) dead_modules) (lessons st)) in
    if existsb (fun s => Nat.eqb (score_course_id s) course) (quiz_scores st)
       || existsb (fun c => Nat.eqb (chat_course_id c) course) (tutor_chats st)
       || existsb (fun s => mem (score_lesson_id s) dead_lessons) (quiz_scores st)
    then None
    else
      Some (mkStore
              (filter (fun c => negb (Nat.eqb (course_id c) course)) (courses st))
              (filter (fun m => negb (Nat.eqb (module_course_id m) course)) (modules st))
              (filter (fun l => negb (mem (lesson_module_id l) dead_modules)) (lessons st))
              (filter (fun q => negb (mem (quiz_lesson_id q) dead_lessons)) (quiz_questions st))
              (filter (fun r => negb (mem (resource_lesson_id r) dead_lessons)) (resources st))
              (quiz_scores st) (tutor_chats st) (next_id st) (clock st)).

(** *** What the hook hands to the UI *)

Record Lesson : Type := mkLesson
  { lesson_row_of : lesson_row;
    quiz : list quiz_row;
    free_resources : list resource_row }.

Record Module : Type := mkModule
  { module_row_of : module_row;
    module_lessons : list Lesson }.

Record Course : Type := mkCourse
  { course_row_of : course_row;
    progress : Z;
    course_modules : list Module }.

Inductive toast : Type :=
| ToastLoadFailed
| ToastCourseDeleted
| ToastDeleteFailed.

(** *** The client's view of the backend *)

Inductive op : Type :=
| SelectCourses (user : uuid)
| SelectModules (course : uuid)
| SelectLessons (module : uuid)
| SelectQuizQuestions (lesson : uuid)
| SelectResources (lesson : uuid)
| InsertCourse (title : jsstring)
| InsertModule (course : uuid) (order : nat)
| InsertLesson (module : uuid) (order : nat)
| InsertQuizQuestion (lesson : uuid) (order : nat)
| InsertResource (lesson : uuid) (order : nat)
| UpdateProgress (course : uuid) (progress : Z)
| DeleteQuizScores (course : uuid)
| DeleteCourse (course : uuid).

(** The database, the faults still to come (one flag per request: [true]
    makes the request answer with an error and leave the tables alone,
    whatever the reason outside the tables above: the transport, the
    session, a column or a table not listed), the requests issued so far,
    and the React state. *)
Record world : Type := mkWorld
  { db : store;
    faults : list bool;
    log : list op;
    ui_courses : list Course;
    toasts : list toast }.

Definition with_db (st : store) (w : world) : world :=
  mkWorld st (faults w) (log w) (ui_courses w) (toasts w).

Definition issued (o : op) (w : world) : world :=
  mkWorld (db w) (tl (faults w)) (log w ++ [o]) (ui_courses w) (toasts w).

Definition setCourses (f : list Course -> list Course) (w : world) : world :=
  mkWorld (db w) (faults w) (log w) (f (ui_courses w)) (toasts w).

Definition show_toast (t : toast) (w : world) : world :=
  mkWorld (db w) (faults w) (log w) (ui_courses w) (toasts w ++ [t]).

(** One awaited request: [Some data] or [None] for [{ error }]. *)
Definition request {A} (o : op) (run : store -> option (A * store)) (w : world)
  : option A * world :=
  match faults w with
  | true :: _ => (None, issued o w)
  | _ =>
      match run (db w) with
      | Some (a, st) => (Some a, with_db st (issued o w))
      | None => (None, issued o w)
      end
  end.

Definition query {A} (o : op) (read : store -> A) : world -> option A * world :=
  request o (fun st => Some (read st, st)).

Definition insert {A} (o : op) (ins : store -> A * store)
  : world -> option A * world :=
  request o (fun st => Some (ins st)).

Definition command (o : op) (run : store -> option store)
  : world -> option unit * world :=
  request o (fun st => match run st with
                       | Some st' => Some (tt, st')
                       | None => None
                       end).

(** What client code throws: the error of the request that failed, the
    [TypeError] of reading a property of [undefined] or [null], or the
    error [functions.invoke] resolved with. *)
Inductive thrown : Type :=
| RequestError (o : op)
| ReadOfUndefined
| GenerateError.

(** Client code: it reads and writes the world and may throw. *)
Definition prog (A : Type) : Type := world -> (A + thrown) * world.

Definition pure {A} (a : A) : prog A := fun w => (inl a, w).
Definition raise {A} (e : thrown) : prog A := fun w => (inr e, w).
Definition and_then {A B} (m : prog A) (k : A -> prog B) : prog B :=
  fun w => match m w with
           | (inl a, w') => k a w'
           | (inr e, w') => (inr e, w')
           end.

Declare Scope prog_scope.
Delimit Scope prog_scope with prog.
Notation "x <- m ;; k" := (and_then m (fun x => k))
  (at level 61, m at next level, right associativity) : prog_scope.
Notation "m ;;; k" := (and_then m (fun _ => k))
  (at level 61, right associativity) : prog_scope.
Local Open Scope prog_scope.

(** [const { data, error } = await ...; if (error) throw error]. *)
Definition or_throw {A} (o : op) (r : world -> option A * world) : prog A :=
  fun w => match r w with
           | (Some a, w') => (inl a, w')
           | (None, w') => (inr (RequestError o), w')
           end.

(** [await ...] with the error never looked at. *)
Definition ignoring_error {A} (r : world -> option A * world) : prog (option A) :=
  fun w => let '(a, w') := r w in (inl a, w').

(** [await Promise.all(l.map(f))].  Every callback runs to its end, also
    after another one has thrown; the promise rejects with the error of a
    callback that threw, and resolves with the results in the order of [l]
    when none did.  The requests of the callbacks are taken one callback
    after the other, in the order of [l]: the callbacks of the hook work on
    the rows of different parents, so what they read and write does not
    depend on how their requests interleave, and the answers the backend
    gives in one interleaving are, in another order, the answers it gives
    in any other. *)
Fixpoint promise_all {A B} (f : A -> prog B) (l : list A) : prog (list B) :=
  match l with
  | [] => pure []
  | a :: r =>
      fun w =>
        let '(x, w1) := f a w in
        let '(xs, w2) := promise_all f r w1 in
        (match x, xs with
         | inl b, inl bs => inl (b :: bs)
         | inr e, _ => inr e
         | inl _, inr e => inr e
         end, w2)
  end.

Fixpoint for_each {A} (f : nat -> A -> prog unit) (index : nat) (l : list A)
  : prog unit :=
  match l with
  | [] => pure tt
  | a :: r => f index a ;;; for_each f (S index) r
  end.

(** *** calculateCourseProgress *)

Definition number_of_nat (n : nat) : float :=
  PrimFloat.of_uint63 (Uint63.of_Z (Z.of_nat n)).

(** [Math.round] of a finite double, as an integer: the nearest integer,
    a tie going up.  (Not-a-number and the infinities are mapped to 0; the
    quotient below is never one of them.) *)
Definition Math_round (x : float) : Z :=
  match Prim2SF x with
  | S754_finite s m e =>
      let v := if s then Z.neg m else Z.pos m in
      if (0 <=? e)%Z then (v * 2 ^ e)%Z
      else ((2 * v + 2 ^ (- e)) / (2 * 2 ^ (- e)))%Z
  | _ => 0%Z
  end.

Definition totalLessons (ms : list Module) : nat :=
  fold_left (fun total m => total + length (module_lessons m)) ms 0.

Definition completedLessons (ms : list Module) : nat :=
  fold_left
    (fun total m =>
       total + length (filter (fun l => lesson_completed (lesson_row_of l))
                         (module_lessons m)))
    ms 0.

Definition calculateCourseProgress (ms : list Module) : Z :=
  if Nat.eqb (length ms) 0 then 0%Z
  else
    let total := totalLessons ms in
    if Nat.eqb total 0 then 0%Z
    else
      let completed := completedLessons ms in
      Math_round (number_of_nat completed / number_of_nat total * 100)%float.

(** What the specification text says instead: [100 * completed / total]
    rounded to the nearest integer, computed exactly (a tie going up). *)
Definition rounded_percentage (completed total : nat) : Z :=
  ((200 * Z.of_nat completed + Z.of_nat total) / (2 * Z.of_nat total))%Z.

(** *** fetchCourses *)

Definition fetch_lesson (lesson : lesson_row) : prog Lesson :=
  quizData <- ignoring_error
                (query (SelectQuizQuestions (lesson_id lesson))
                   (select_quiz (lesson_id lesson))) ;;
  resourcesData <- ignoring_error
                     (query (SelectResources (lesson_id lesson))
                        (select_resources (lesson_id lesson))) ;;
  pure (mkLesson lesson
          (match quizData with Some d => d | None => [] end)
          (match resourcesData with Some d => d | None => [] end)).

Definition fetch_module (module : module_row) : prog Module :=
  lessonsData <- or_throw (SelectLessons (module_id module))
                   (query (SelectLessons (module_id module))
                      (select_lessons (module_id module))) ;;
  lessonsWithQuizAndResources <- promise_all fetch_lesson lessonsData ;;
  pure (mkModule module lessonsWithQuizAndResources).

Definition fetch_course (course : course_row) : prog Course :=
  modulesData <- or_throw (SelectModules (course_id course))
                   (query (SelectModules (course_id course))
                      (select_modules (course_id course))) ;;
  modulesWithLessons <- promise_all fetch_module modulesData ;;
  let progress := calculateCourseProgress modulesWithLessons in
  (if Z.eqb progress (course_progress course) then pure None
   else ignoring_error
          (command (UpdateProgress (course_id course) progress)
             (fun st => Some (update_progress (course_id course) progress st)))) ;;;
  pure (mkCourse course progress modulesWithLessons).

(** [fetchCourses] for the signed-in [user], with its catch block.  The
    world it returns is the one in which every callback has come to its
    end. *)
Definition fetchCourses (user : uuid) : world -> world :=
  fun w =>
    match (coursesData <- or_throw (SelectCourses user)
                            (query (SelectCourses user) (select_courses user)) ;;
           promise_all fetch_course coursesData) w with
    | (inl coursesWithModules, w') => setCourses (fun _ => coursesWithModules) w'
    | (inr _, w') => show_toast ToastLoadFailed w'
    end.

(** *** createCourse *)

(** The content tree of the generator's answer, as the loops of
    [createCourse] read it.  A property the loop iterates over is [None]
    when reading its [length] throws (the property is absent or [null]),
    and otherwise lists what the loop visits, [None] for an element whose
    properties cannot be read ([null]).  A property that goes into a
    column is the value the column stores, or [None] when the column
    refuses what is there (for the columns declared [NOT NULL], an absent
    or [null] property).  [objectives] is stored in a nullable column with
    a default: the stored value is the default, an empty array, when the
    property is absent, and [NULL] when it is [null]. *)
Record generated_quiz : Type := mkGeneratedQuiz
  { gq_question : option jsstring;
    gq_options : option (list jsstring);
    gq_answer : option jsstring }.

Record generated_resource : Type := mkGeneratedResource
  { gr_title : option jsstring; gr_url : option jsstring }.

Record generated_lesson : Type := mkGeneratedLesson
  { gl_lesson_title : option jsstring;
    gl_objectives : option (option (list jsstring));
    gl_content : option jsstring;
    gl_quiz : option (list (option generated_quiz));
    gl_free_resources : option (list (option generated_resource)) }.

Record generated_module : Type := mkGeneratedModule
  { gm_module_title : option jsstring;
    gm_lessons : option (list (option generated_lesson)) }.

(** How [supabase.functions.invoke('generate-course', ...)] resolves: with
    an error, or with data whose [courseContent.modules] is as given. *)
Inductive generation : Type :=
| GenerationFailed
| Generated (modules : option (list (option generated_module))).

(** Reading an array before looping over it, and an element before
    reading its properties. *)
Definition defined {A} (x : option A) : prog A :=
  match x with
  | Some a => pure a
  | None => raise ReadOfUndefined
  end.

(** An insert of values the tree may not hold: the request is issued, and
    answered with an error when a column refuses its value. *)
Definition insert_values {A B} (o : op) (values : option A)
    (ins : A -> store -> B * store) : world -> option B * world :=
  request o (fun st => match values with
                       | Some v => Some (ins v st)
                       | None => None
                       end).

Definition quiz_values (q : generated_quiz)
  : option (jsstring * list jsstring * jsstring) :=
  match gq_question q, gq_options q, gq_answer q with
  | Some question, Some options, Some answer => Some (question, options, answer)
  | _, _, _ => None
  end.

Definition resource_values (r : generated_resource)
  : option (jsstring * jsstring) :=
  match gr_title r, gr_url r with
  | Some title, Some url => Some (title, url)
  | _, _ => None
  end.

Definition lesson_values (l : generated_lesson)
  : option (jsstring * option (list jsstring) * jsstring) :=
  match gl_lesson_title l, gl_objectives l, gl_content l with
  | Some title, Some objectives, Some content => Some (title, objectives, content)
  | _, _, _ => None
  end.

Definition create_quiz_question (lesson : lesson_row) (quizIndex : nat)
    (element : option generated_quiz) : prog unit :=
  quizData <- defined element ;;
  ignoring_error
    (insert_values (InsertQuizQuestion (lesson_id lesson) (quizIndex + 1))
       (quiz_values quizData)
       (fun '(question, options, answer) =>
          insert_quiz (lesson_id lesson) question options answer
            (quizIndex + 1))) ;;;
  pure tt.

Definition create_resource (lesson : lesson_row) (resourceIndex : nat)
    (element : option generated_resource) : prog unit :=
  resourceData <- defined element ;;
  ignoring_error
    (insert_values (InsertResource (lesson_id lesson) (resourceIndex + 1))
       (resource_values resourceData)
       (fun '(title, url) =>
          insert_resource (lesson_id lesson) title url (resourceIndex + 1))) ;;;
  pure tt.

Definition create_lesson (module : module_row) (lessonIndex : nat)
    (element : option generated_lesson) : prog unit :=
  lessonData <- defined element ;;
  lesson <- or_throw (InsertLesson (module_id module) (lessonIndex + 1))
              (insert_values (InsertLesson (module_id module) (lessonIndex + 1))
                 (lesson_values lessonData)
                 (fun '(title, objectives, content) =>
                    insert_lesson (module_id module) title (lessonIndex + 1)
                      objectives content)) ;;
  (* Create quiz questions *)
  quiz <- defined (gl_quiz lessonData) ;;
  for_each (create_quiz_question lesson) 0 quiz ;;;
  (* Create resources *)
  free_resources <- defined (gl_free_resources lessonData) ;;
  for_each (create_resource lesson) 0 free_resources.

Definition create_module (course : course_row) (moduleIndex : nat)
    (element : option generated_module) : prog unit :=
  moduleData <- defined element ;;
  module <- or_throw (InsertModule (course_id course) (moduleIndex + 1))
              (insert_values (InsertModule (course_id course) (moduleIndex + 1))
                 (gm_module_title moduleData)
                 (fun title =>
                    insert_module (course_id course) title (moduleIndex + 1))) ;;
  lessons <- defined (gm_lessons moduleData) ;;
  for_each (create_lesson module) 0 lessons.

(** [createCourse] for the signed-in [user]; its catch block logs the
    error and throws it again. *)
Definition createCourse (user : uuid) (title : jsstring) (folder : option uuid)
    (generateResponse : generation) : prog course_row :=
  match generateResponse with
  | GenerationFailed => raise GenerateError
  | Generated content =>
      course <- or_throw (InsertCourse title)
                  (insert (InsertCourse title) (insert_course user title folder)) ;;
      modules <- defined content ;;
      for_each (create_module course) 0 modules ;;;
      (fun w => (inl tt, fetchCourses user w)) ;;;
      pure course
  end.

(** *** deleteCourse *)

(** [deleteCourse] in the session of [user]. *)
Definition deleteCourse (user : uuid) (courseId : uuid) : world -> world :=
  fun w =>
    match (or_throw (DeleteQuizScores courseId)
             (command (DeleteQuizScores courseId)
                (fun st => Some (delete_quiz_scores user courseId st))) ;;;
           or_throw (DeleteCourse courseId)
             (command (DeleteCourse courseId) (delete_course user courseId))) w with
    | (inl _, w') =>
        show_toast ToastCourseDeleted
          (setCourses
             (filter (fun c => negb (Nat.eqb (course_id (course_row_of c)) courseId)))
             w')
    | (inr _, w') => show_toast ToastDeleteFailed w'
    end.

End Courses.

(* ================================================================== *)
(** ** [validateAnswerWithAI] of [QuizModal.tsx] *)
(* ================================================================== *)

Module Quiz.

(** How [supabase.functions.invoke('validate-quiz-answer', ...)] ends: it
    throws, it resolves with an error, or it resolves with data whose
    [isCorrect] is a boolean or is missing. *)
Inductive invoke_outcome : Type :=
| InvokeThrows
| InvokeError
| InvokeData (isCorrect : option bool).

Section Validator.
(** [String.prototype.toLowerCase] of the engine. *)
Variable toLowerCase : jsstring -> jsstring.

(** Fallback to simple string comparison. *)
Definition simple_comparison (userAnswer correctAnswer : jsstring) : bool :=
  JsString.eqb (toLowerCase (trim userAnswer)) (toLowerCase (trim correctAnswer)).

(** [invoke] is what the edge function call would do with the trimmed
    arguments; it is not consulted when an argument is empty. *)
Definition validateAnswerWithAI
    (invoke : jsstring -> jsstring -> jsstring -> invoke_outcome)
    (userAnswer question correctAnswer : jsstring) : bool :=
  if is_empty userAnswer || is_empty question || is_empty correctAnswer
  then simple_comparison userAnswer correctAnswer
  else
    match invoke (trim userAnswer) (trim question) (trim correctAnswer) with
    | InvokeThrows => simple_comparison userAnswer correctAnswer
    | InvokeError => simple_comparison userAnswer correctAnswer
    | InvokeData (Some isCorrect) => isCorrect
    | InvokeData None => false
    end.

End Validator.

End Quiz.

(* ================================================================== *)
(** ** The quiz dialog of [QuizModal.tsx] *)
(* ================================================================== *)

Module QuizFlow.
Import Edge Courses Quiz.

(** [question.options?.[0] || '']. *)
Definition first_option (question : quiz_row) : jsstring :=
  match quiz_options question with
  | o :: _ => o
  | [] => []
  end.

(** Helper function to extract correct answer from various formats.  The
    column [correct_answer] is text, so the branch for an object value is
    never taken on a row of the table. *)
Definition getCorrectAnswer (question : quiz_row) : jsstring :=
  let correct_answer := quiz_correct_answer question in
  if is_empty correct_answer then first_option question
  else if negb (JsString.eqb correct_answer (lit "undefined")) then correct_answer
  else first_option question.

(** What [supabase.functions.invoke] resolves with for a response of the
    edge function: [error] for a status outside 200..299, otherwise [data],
    the parsed body. *)
Definition invoke_outcome_of (r : response) : invoke_outcome :=
  if Nat.leb 200 (status r) && Nat.leb (status r) 299
  then match resp_body r with
       | ValidationBody _ isCorrect _ _ => InvokeData (Some isCorrect)
       | _ => InvokeData None
       end
  else InvokeError.

(** The call [validateAnswerWithAI] makes, answered by the edge function
    [validate-quiz-answer] running with [rt] and getting [reply] from the
    inference endpoint. *)
Definition invoke_validate (rt : runtime) (options : option (list jsstring))
    (reply : groq_reply) (userAnswer question correctAnswer : jsstring)
  : invoke_outcome :=
  invoke_outcome_of
    (validate_quiz_answer rt
       (mkValidationRequest (Some userAnswer) (Some question)
          (Some correctAnswer) options)
       reply).

Section Scoring.
Variable toLowerCase : jsstring -> jsstring.
(** The outcome of the endpoint call made for the question at an index. *)
Variable invoke : nat -> jsstring -> jsstring -> jsstring -> invoke_outcome.

(** The loop of [calculateFinalScore].  [userAnswers[index]] is [undefined]
    past the end of the array, and [validateAnswerWithAI] then throws on
    [userAnswer.trim()]: the result is [None]. *)
Fixpoint calculateFinalScore_from (index : nat) (questions : list quiz_row)
    (userAnswers : list jsstring) (calculatedScore : nat)
    (validationResults : list bool) : option (nat * list bool) :=
  match questions with
  | [] => Some (calculatedScore, validationResults)
  | question :: rest =>
      match nth_error userAnswers index with
      | None => None
      | Some userAnswer =>
          let correctAnswer := getCorrectAnswer question in
          let isCorrect :=
            validateAnswerWithAI toLowerCase (invoke index) userAnswer
              (quiz_question question) correctAnswer in
          calculateFinalScore_from (S index) rest userAnswers
            (if isCorrect then S calculatedScore else calculatedScore)
            (validationResults ++ [isCorrect])
      end
  end.

Definition calculateFinalScore (questions : list quiz_row)
    (userAnswers : list jsstring) : option (nat * list bool) :=
  calculateFinalScore_from 0 questions userAnswers 0 [].

End Scoring.

(** [Math.round((calculatedScore / questions.length) * 100)]. *)
Definition finalPercentage (calculatedScore : nat) (questions : list quiz_row) : Z :=
  Math_round (number_of_nat calculatedScore / number_of_nat (length questions)
              * 100)%float.

End QuizFlow.

(* ================================================================== *)
(** ** The client hook [useRecommendedLessons] *)
(* ================================================================== *)

Module Recommended.
Import Edge.

(** The second Spanish keyword, with U+00F1. *)
Definition espanol : jsstring := lit "espa" ++ [241%N] ++ lit "ol".

(** The client's own [analyzeCourseCategory]: its web keywords differ from
    the edge function's. *)
Definition analyzeCourseCategory (toLowerCase : jsstring -> jsstring)
    (courseTitle : jsstring) : category :=
  let title := toLowerCase courseTitle in
  let has (k : string) := includes title (lit k) in
  if has "spanish"%string || includes title espanol then spanish
  else if has "react"%string || has "javascript"%string || has "web"%string
          || has "html"%string || has "css"%string then webdev
  else if has "python"%string || has "programming"%string
          || has "algorithm"%string then programming
  else if has "data"%string || has "machine learning"%string
          || has "ai"%string then datascience
  else if has "design"%string || has "ui"%string || has "ux"%string then design
  else general.

Record RecommendedLesson : Type := mkRecommendedLesson
  { rl_id : jsstring;
    rl_title : jsstring;
    rl_description : jsstring;
    rl_difficulty : difficulty;
    rl_estimatedTime : jsstring;
    rl_category : jsstring;
    rl_relevanceScore : float;
    rl_source : jsstring }.

(** Adjust based on performance: the comparisons are on [avgScore] itself. *)
Definition adjusted (avgScore : float) (t : template) : float :=
  let relevanceScore := baseRelevance t in
  if (avgScore <? 6)%float then
    let r1 := match t_difficulty t with
              | Beginner => (relevanceScore + 0.2)%float
              | _ => relevanceScore
              end in
    match t_difficulty t with
    | Advanced => (r1 - 0.3)%float
    | _ => r1
    end
  else if (8 <? avgScore)%float then
    let r1 := match t_difficulty t with
              | Advanced => (relevanceScore + 0.2)%float
              | _ => relevanceScore
              end in
    match t_difficulty t with
    | Beginner => (r1 - 0.2)%float
    | _ => r1
    end
  else relevanceScore.

(** [generateFallbackLessons]; the template table is the one of the edge
    function, entry for entry. *)
Definition generateFallbackLessons (toLowerCase : jsstring -> jsstring)
    (Date_now : N) (courseTitle : jsstring) (avgScore : float)
  : list RecommendedLesson :=
  let category := analyzeCourseCategory toLowerCase courseTitle in
  let templates := getLessonTemplatesForCategory category in
  map_indexed
    (fun t index =>
       mkRecommendedLesson
         (lit "fallback-" ++ category_name category ++ lit "-" ++ of_N Date_now
          ++ lit "-" ++ of_nat index)
         (lit (t_title t))
         (lit (t_description t))
         (t_difficulty t)
         (lit (t_estimatedTime t))
         (lit (t_category t))
         (Math_max 0.1 (Math_min 1.0 (adjusted avgScore t)))
         (lit "curated"))
    0 (firstn 6 templates).

End Recommended.


(* ================================================================== *)
(** ** The progress the components recompute *)
(* ================================================================== *)

(** [Dashboard.tsx], [LearningPath.tsx] and [ProgressCoach.tsx] each carry
    a progress computation of their own, run on the courses the hook
    [useCourses] hands out (so [modules] and [lessons] are arrays). *)

Module Dashboard.
Import Courses.

(** The callback of [course.modules.forEach], on the two counters. *)
Definition count_module (counters : nat * nat) (module : Module) : nat * nat :=
  let '(totalLessons, completedLessons) := counters in
  if Nat.ltb 0 (length (module_lessons module))
  then (totalLessons + length (module_lessons module),
        completedLessons
        + length (filter (fun lesson => lesson_completed (lesson_row_of lesson))
                    (module_lessons module)))
  else counters.

(** Calculate actual progress based on completed lessons. *)
Definition calculateCourseProgress (course : Course) : Z :=
  if Nat.eqb (length (course_modules course)) 0 then 0%Z
  else
    let '(totalLessons, completedLessons) :=
      fold_left count_module (course_modules course) (0, 0) in
    if Nat.ltb 0 totalLessons
    then Math_round (number_of_nat completedLessons / number_of_nat totalLessons
                     * 100)%float
    else 0%Z.

End Dashboard.

Module LearningPath.
Import Courses.

Definition count_module (counters : nat * nat) (module : Module) : nat * nat :=
  let '(totalLessons, completedLessons) := counters in
  if Nat.ltb 0 (length (module_lessons module))
  then (totalLessons + length (module_lessons module),
        completedLessons
        + length (filter (fun lesson => lesson_completed (lesson_row_of lesson))
                    (module_lessons module)))
  else counters.

Definition calculateCourseProgress (course : Course) : Z :=
  if Nat.eqb (length (course_modules course)) 0 then 0%Z
  else
    let '(totalLessons, completedLessons) :=
      fold_left count_module (course_modules course) (0, 0) in
    if Nat.ltb 0 totalLessons
    then Math_round (number_of_nat completedLessons / number_of_nat totalLessons
                     * 100)%float
    else 0%Z.

End LearningPath.

Module ProgressCoach.
Import Courses.

Record accurate_progress : Type := mkAccurateProgress
  { totalLessons : nat;
    completedLessons : nat;
    progressPercentage : Z;
    completedModules : nat }.

Definition completed (lesson : Lesson) : bool :=
  lesson_completed (lesson_row_of lesson).

(** Calculate accurate course progress using currentCourse data. *)
Definition calculateAccurateProgress (currentCourse : option Course)
  : accurate_progress :=
  match currentCourse with
  | None => mkAccurateProgress 0 0 0 0
  | Some currentCourse =>
      let totalLessons :=
        fold_left (fun total module => total + length (module_lessons module))
          (course_modules currentCourse) 0 in
      let completedLessons :=
        fold_left
          (fun total module =>
             total + length (filter completed (module_lessons module)))
          (course_modules currentCourse) 0 in
      let completedModules :=
        length
          (filter (fun module =>
                     Nat.ltb 0 (length (module_lessons module))
                     && forallb completed (module_lessons module))
             (course_modules currentCourse)) in
      let progressPercentage :=
        if Nat.ltb 0 totalLessons
        then Math_round (number_of_nat completedLessons
                         / number_of_nat totalLessons * 100)%float
        else 0%Z in
      mkAccurateProgress totalLessons completedLessons progressPercentage
        completedModules
  end.

End ProgressCoach.

(* ================================================================== *)
(** ** [generateRecommendedLessons] of the hook [useRecommendedLessons] *)
(* ================================================================== *)

Module RecommendedHook.
Import Edge Recommended.

(** A lesson the hook holds: one the endpoint sent, or one built from the
    templates of the hook. *)
Inductive shown_lesson : Type :=
| FromEndpoint (lesson : recommendation)
| FromTemplates (lesson : RecommendedLesson).

(** The React state of the hook (without [isLoading]). *)
Record hook_state : Type := mkHookState
  { recommendedLessons : list shown_lesson;
    lastRequestTime : N }.

Record course_context : Type := mkCourseContext
  { cc_courseTitle : jsstring;
    cc_moduleTopics : list jsstring;
    cc_lessonTopics : list jsstring;
    cc_progress : Z;
    cc_totalModules : nat }.

Definition extractCourseContext (course : Courses.Course) : course_context :=
  let moduleTopics :=
    filter (fun title => Nat.ltb 0 (length title))
      (map (fun module => Courses.module_title (Courses.module_row_of module))
         (Courses.course_modules course)) in
  let lessonTopics :=
    filter (fun title => Nat.ltb 0 (length title))
      (map (fun lesson => Courses.lesson_title (Courses.lesson_row_of lesson))
         (flat_map Courses.module_lessons (Courses.course_modules course))) in
  mkCourseContext (Courses.course_title (Courses.course_row_of course))
    moduleTopics lessonTopics (Courses.progress course)
    (length (Courses.course_modules course)).

(** [quizScores.length > 0 ? quizScores.reduce((a, b) => a + b, 0) /
    quizScores.length : 0]. *)
Definition average (quizScores : list float) : float :=
  if Nat.ltb 0 (length quizScores)
  then (fold_left (fun a b => a + b) quizScores 0
        / Courses.number_of_nat (length quizScores))%float
  else 0%float.

(** How the race between the endpoint call and the ten-second timer ends:
    the timer wins or the call rejects, or the endpoint answers. *)
Inductive invoked : Type :=
| NoAnswer
| Answer (r : response).

(** The hook's [generateAIRecommendations]: [None] when it throws (an
    error of the call, which is any status outside 200..299, or a body
    without a recommendations array). *)
Definition generateAIRecommendations (outcome : invoked)
  : option (list recommendation) :=
  match outcome with
  | NoAnswer => None
  | Answer r =>
      if Nat.leb 200 (status r) && Nat.leb (status r) 299
      then match resp_body r with
           | RecommendationsBody recommendations => Some recommendations
           | _ => None
           end
      else None
  end.

Section Hook.
Variable toLowerCase : jsstring -> jsstring.
(** [aiLessons.sort((a, b) => b.relevanceScore - a.relevanceScore)]. *)
Variable sort : list recommendation -> list recommendation.

(** One run of [generateRecommendedLessons]: [now] is the clock at its
    start, [Date_now] the clock when the template lessons get their ids,
    [invoke] what the endpoint call made with the course context ends in. *)
Definition generateRecommendedLessons (currentCourse : option Courses.Course)
    (quizScores : list float) (now Date_now : N)
    (invoke : course_context -> float -> invoked) (s : hook_state)
  : hook_state :=
  match currentCourse with
  | None => s
  | Some currentCourse =>
      (* Prevent rapid successive calls *)
      if (Z.of_N now - Z.of_N (lastRequestTime s) <? 2000)%Z then s
      else
        let courseContext := extractCourseContext currentCourse in
        let avgScore := average quizScores in
        let fallbackLessons :=
          map FromTemplates
            (generateFallbackLessons toLowerCase Date_now
               (Courses.course_title (Courses.course_row_of currentCourse))
               avgScore) in
        match generateAIRecommendations (invoke courseContext avgScore) with
        | Some aiLessons =>
            if Nat.ltb 0 (length aiLessons)
            then
              (* Sort by relevance and take top 6 *)
              mkHookState (map FromEndpoint (firstn 6 (sort aiLessons))) now
            else mkHookState fallbackLessons now
        | None => mkHookState fallbackLessons now
        end
  end.

End Hook.

End RecommendedHook.
(* ================================================================== *)
(** * Properties *)
(* ================================================================== *)

Unset Implicit Arguments.

(* ------------------------------------------------------------------ *)
(** ** Regular expressions and the repairs built from them *)

Module RegexFacts.

(** A global replace leaves a subject without any match alone. *)
Lemma replaceAll_from_no_match :
  forall r t s pos,
    test_from r pos s = false -> replaceAll_from r t pos 0 s = s.
Proof.
  intros r t s. induction s as [| c s IH]; intros pos H;
    cbn [replaceAll_from test_from] in *.
  - destruct (match_at r pos []); [discriminate | reflexivity].
  - destruct (match_at r pos (c :: s)); [discriminate|].
    f_equal. apply IH. exact H.
Qed.

Lemma replaceAll_no_match :
  forall r t s, test r s = false -> replaceAll r t s = s.
Proof. intros r t s H. apply replaceAll_from_no_match. exact H. Qed.

(** Patterns that match exactly one character of a class. *)
Definition single (r : regex) (p : char -> bool) : Prop :=
  forall pos s,
    match_at r pos s
    = match s with
      | c :: s' => if p c then Some (s', []) else None
      | [] => None
      end.

Lemma single_class : forall p, single (RClass p) p.
Proof. intros p pos [| c s]; reflexivity. Qed.

Lemma single_alt :
  forall a b, single (RAlt (chr a) (chr b)) (fun c => N.eqb a c || N.eqb b c).
Proof.
  intros a b pos [| c s]; cbn; [reflexivity|].
  destruct (N.eqb a c), (N.eqb b c); reflexivity.
Qed.

Definition substitute (p : char -> bool) (by_text : jsstring) (c : char)
  : jsstring :=
  if p c then by_text else [c].

Lemma replaceAll_from_single :
  forall r p t, single r p ->
  forall s pos,
    replaceAll_from r t pos 0 s = flat_map (substitute p (expand t [])) s.
Proof.
  intros r p t Hr s. induction s as [| c s IH]; intros pos;
    cbn [replaceAll_from flat_map]; rewrite Hr.
  - reflexivity.
  - unfold substitute at 1. destruct (p c).
    + replace (length (c :: s) - length s) with 1 by (cbn [length]; lia).
      cbn [Nat.eqb Nat.sub]. rewrite IH. reflexivity.
    + rewrite IH. reflexivity.
Qed.

Lemma replaceAll_single :
  forall r p t, single r p ->
  forall s, replaceAll r t s = flat_map (substitute p (expand t [])) s.
Proof. intros r p t Hr s. apply replaceAll_from_single. exact Hr. Qed.

Lemma test_from_single :
  forall r p, single r p -> forall s pos, test_from r pos s = existsb p s.
Proof.
  intros r p Hr s. induction s as [| c s IH]; intros pos;
    cbn [test_from existsb]; rewrite Hr.
  - reflexivity.
  - destruct (p c); [reflexivity|]. apply IH.
Qed.

(** The greedy star over a character class runs to the end of the run when
    the continuation cannot start on a character of the class.  [step] is
    the matcher of the class, [rmatch (RClass p)]. *)
Lemma star_class_greedy :
  forall (R : Type) (p : char -> bool)
         (step : nat -> jsstring -> captures
                 -> (nat -> jsstring -> captures -> option R) -> option R)
         (k : nat -> jsstring -> captures -> option R)
         (ws r : jsstring) (fuel pos : nat) (cs : captures),
    (forall pos0 s cs0 k0,
        step pos0 s cs0 k0
        = match s with
          | [] => None
          | c :: s' => if p c then k0 (S pos0) s' cs0 else None
          end) ->
    forallb p ws = true ->
    match r with [] => True | x :: _ => p x = false end ->
    length ws <= fuel ->
    (forall pos' c s' cs', p c = true -> k pos' (c :: s') cs' = None) ->
    star_loop step k fuel pos (ws ++ r) cs = k (pos + length ws) r cs.
Proof.
  intros R p step k ws r. induction ws as [| a ws IH];
    intros fuel pos cs Hstep Hws Hr Hfuel Hk.
  - cbn [app length]. rewrite Nat.add_0_r.
    destruct fuel; cbn [star_loop]; [reflexivity|]. rewrite Hstep.
    destruct r as [| x r]; [reflexivity|]. rewrite Hr. reflexivity.
  - cbn [forallb] in Hws. apply andb_true_iff in Hws. destruct Hws as [Ha Hws].
    destruct fuel as [| fuel]; [cbn [length] in Hfuel; lia|].
    cbn [star_loop app]. rewrite Hstep, Ha.
    assert (Hlt : Nat.ltb (length (ws ++ r)) (length (a :: ws ++ r)) = true).
    { apply Nat.ltb_lt. cbn [length]. lia. }
    rewrite Hlt.
    rewrite (IH fuel (S pos) cs Hstep Hws Hr);
      [| cbn [length] in Hfuel; lia | exact Hk].
    cbn [length]. replace (pos + S (length ws)) with (S pos + length ws) by lia.
    destruct (k (S pos + length ws) r cs); [reflexivity|].
    apply Hk. exact Ha.
Qed.


(** *** The trailing-comma repair, as a plain scan *)

Definition is_closer (c : char) : bool := existsb (N.eqb c) [RBRACE; RBRACKET].

Fixpoint closer_follows (s : jsstring) : bool :=
  match s with
  | c :: r => if is_space c then closer_follows r else is_closer c
  | [] => false
  end.


Lemma is_closer_cases :
  forall c, is_closer c = true -> c = RBRACE \/ c = RBRACKET.
Proof.
  intros c H. unfold is_closer in H. cbn [existsb] in H.
  rewrite orb_false_r in H. apply orb_true_iff in H.
  destruct H as [H | H]; apply N.eqb_eq in H; auto.
Qed.

Lemma closer_not_space : forall c, is_closer c = true -> is_space c = false.
Proof.
  intros c H. destruct (is_closer_cases c H) as [-> | ->]; reflexivity.
Qed.





Lemma closer_follows_run :
  forall ws cl rest,
    forallb is_space ws = true -> is_closer cl = true ->
    closer_follows (ws ++ cl :: rest) = true.
Proof.
  induction ws as [| c ws IH]; intros cl rest Hws Hcl;
    cbn [app closer_follows].
  - rewrite (closer_not_space cl Hcl). exact Hcl.
  - cbn [forallb] in Hws. apply andb_true_iff in Hws. destruct Hws as [Hc Hws].
    rewrite Hc. apply IH; assumption.
Qed.











End RegexFacts.
(* ------------------------------------------------------------------ *)
(** ** [JSON.parse] and the white space between tokens *)

Module JsonFacts.

(** The text without its characters below U+0020.  In a text that parses,
    these are the tabs, line feeds and carriage returns between tokens. *)
Definition keeps (c : char) : bool := negb (c <? 32)%N.
Definition unspaced (s : jsstring) : jsstring := filter keeps s.

Lemma unspaced_app :
  forall a b, unspaced (a ++ b) = unspaced a ++ unspaced b.
Proof. intros a b. apply filter_app. Qed.

Lemma unspaced_kept :
  forall p, forallb keeps p = true -> unspaced p = p.
Proof.
  induction p as [| c p IH]; intros H; [reflexivity|].
  cbn [forallb] in H. apply andb_true_iff in H. destruct H as [Hc Hp].
  cbn [unspaced filter]. rewrite Hc. fold (unspaced p). rewrite (IH Hp).
  reflexivity.
Qed.

Lemma unspaced_cons_kept :
  forall c s, keeps c = true -> unspaced (c :: s) = c :: unspaced s.
Proof. intros c s H. cbn [unspaced filter]. rewrite H. reflexivity. Qed.

Lemma unspaced_length_cons :
  forall c s, length (unspaced s) <= length (unspaced (c :: s)).
Proof.
  intros c s. unfold unspaced. cbn [filter].
  destruct (keeps c); cbn [length]; lia.
Qed.

Lemma ws_cases :
  forall c, is_json_ws c = true -> c = 32%N \/ keeps c = false.
Proof.
  intros c H. unfold is_json_ws in H. unfold keeps.
  destruct (N.eqb_spec c 32) as [E | _]; [left; exact E|].
  right. cbn [orb] in H.
  destruct (N.eqb_spec c 9) as [E | _]; [rewrite E; reflexivity|].
  destruct (N.eqb_spec c 10) as [E | _]; [rewrite E; reflexivity|].
  destruct (N.eqb_spec c 13) as [E | _]; [rewrite E; reflexivity | discriminate].
Qed.

Lemma skip_ws_head :
  forall s c r, skip_ws s = c :: r -> is_json_ws c = false.
Proof.
  induction s as [| a s IH]; intros c r H; [discriminate|].
  cbn [skip_ws] in H. destruct (is_json_ws a) eqn:E.
  - eapply IH. exact H.
  - injection H as <- _. exact E.
Qed.

Lemma skip_ws_stops :
  forall c r, is_json_ws c = false -> skip_ws (c :: r) = c :: r.
Proof. intros c r H. cbn [skip_ws]. rewrite H. reflexivity. Qed.

Lemma skip_ws_unspaced_nil :
  forall s, skip_ws s = [] -> skip_ws (unspaced s) = [].
Proof.
  induction s as [| a s IH]; intros H; [reflexivity|].
  cbn [skip_ws] in H. destruct (is_json_ws a) eqn:E; [| discriminate].
  cbn [unspaced filter]. destruct (ws_cases a E) as [-> | K].
  - cbn. apply IH. exact H.
  - rewrite K. apply IH. exact H.
Qed.

Lemma skip_ws_unspaced_cons :
  forall s c r,
    skip_ws s = c :: r -> keeps c = true ->
    skip_ws (unspaced s) = c :: unspaced r.
Proof.
  induction s as [| a s IH]; intros c r H K; [discriminate|].
  cbn [skip_ws] in H. destruct (is_json_ws a) eqn:E.
  - cbn [unspaced filter]. destruct (ws_cases a E) as [-> | Ka].
    + cbn. apply IH; assumption.
    + rewrite Ka. apply IH; assumption.
  - injection H as <- <-. rewrite (unspaced_cons_kept a s K).
    apply skip_ws_stops. exact E.
Qed.

Lemma skip_ws_unspaced_le :
  forall s, length (unspaced (skip_ws s)) <= length (unspaced s).
Proof.
  induction s as [| a s IH]; [apply le_n|].
  cbn [skip_ws]. destruct (is_json_ws a); [| apply le_n].
  pose proof (unspaced_length_cons a s). lia.
Qed.

Lemma skip_ws_measure :
  forall s c r,
    skip_ws s = c :: r -> keeps c = true ->
    S (length (unspaced r)) <= length (unspaced s).
Proof.
  intros s c r H K. pose proof (skip_ws_unspaced_le s) as Hle.
  rewrite H, (unspaced_cons_kept c r K) in Hle. exact Hle.
Qed.

(** *** String literals *)

Lemma keeps_from : forall c, (32 <= c)%N -> keeps c = true.
Proof.
  intros c H. unfold keeps. apply negb_true_iff. apply N.ltb_ge. exact H.
Qed.

Lemma hex_value_keeps :
  forall h x, hex_value h = Some x -> keeps h = true.
Proof.
  intros h x H. apply keeps_from. unfold hex_value, in_range in H.
  destruct (N.leb_spec 48 h); cbn [andb] in H; [lia|].
  destruct (N.leb_spec 97 h); cbn [andb] in H; [lia|].
  destruct (N.leb_spec 65 h); cbn [andb] in H; [lia | discriminate].
Qed.

Lemma hex4_keeps :
  forall a b c d u,
    hex4 a b c d = Some u ->
    keeps a = true /\ keeps b = true /\ keeps c = true /\ keeps d = true.
Proof.
  intros a b c d u H. unfold hex4 in H.
  destruct (hex_value a) eqn:Ha; [| discriminate].
  destruct (hex_value b) eqn:Hb; [| discriminate].
  destruct (hex_value c) eqn:Hc; [| discriminate].
  destruct (hex_value d) eqn:Hd; [| discriminate].
  repeat split; eapply hex_value_keeps; eassumption.
Qed.

Lemma simple_escape_keeps :
  forall e u, simple_escape e = Some u -> keeps e = true.
Proof.
  intros e u H. apply keeps_from. unfold simple_escape in H.
  repeat match type of H with
         | context [N.eqb e ?k] =>
             destruct (N.eqb_spec e k) as [E | _]; [rewrite E; lia|]
         end.
  discriminate.
Qed.

Lemma parse_string_unspaced :
  forall n s acc str rest,
    length s <= n ->
    parse_string s acc = Some (str, rest) ->
    parse_string (unspaced s) acc = Some (str, unspaced rest)
    /\ S (length (unspaced rest)) <= length (unspaced s).
Proof.
  induction n as [| n IH]; intros s acc str rest Hn H.
  - destruct s; [discriminate | cbn [length] in Hn; lia].
  - destruct s as [| c r]; [discriminate|]. cbn [parse_string] in H.
    cbn [length] in Hn.
    destruct (N.eqb c DQUOTE) eqn:Eq.
    { injection H as <- <-. apply N.eqb_eq in Eq. subst c.
      rewrite (unspaced_cons_kept DQUOTE r eq_refl).
      split; [reflexivity | cbn [length]; lia]. }
    destruct (N.eqb c BACKSLASH) eqn:Eb.
    + apply N.eqb_eq in Eb. subst c.
      destruct r as [| e r1]; [discriminate|]. cbn [length] in Hn.
      destruct (N.eqb e 117) eqn:Eu.
      * apply N.eqb_eq in Eu. subst e.
        destruct r1 as [| h1 [| h2 [| h3 [| h4 r2]]]]; try discriminate.
        destruct (hex4 h1 h2 h3 h4) as [u |] eqn:Hx; [| discriminate].
        destruct (hex4_keeps _ _ _ _ _ Hx) as [K1 [K2 [K3 K4]]].
        cbn [length] in Hn.
        destruct (IH r2 (u :: acc) str rest ltac:(lia) H) as [P L].
        rewrite (unspaced_cons_kept BACKSLASH _ eq_refl).
        rewrite (unspaced_cons_kept 117%N _ eq_refl).
        rewrite (unspaced_cons_kept h1 _ K1), (unspaced_cons_kept h2 _ K2),
          (unspaced_cons_kept h3 _ K3), (unspaced_cons_kept h4 _ K4).
        split; [| cbn [length]; lia].
        cbn [parse_string].
        change (N.eqb BACKSLASH DQUOTE) with false.
        change (N.eqb BACKSLASH BACKSLASH) with true.
        change (N.eqb 117 117)%N with true. cbv iota.
        rewrite Hx. exact P.
      * destruct (simple_escape e) as [u |] eqn:Hs; [| discriminate].
        pose proof (simple_escape_keeps e u Hs) as Ke.
        destruct (IH r1 (u :: acc) str rest ltac:(lia) H) as [P L].
        rewrite (unspaced_cons_kept BACKSLASH _ eq_refl).
        rewrite (unspaced_cons_kept e _ Ke).
        split; [| cbn [length]; lia].
        cbn [parse_string].
        change (N.eqb BACKSLASH DQUOTE) with false.
        change (N.eqb BACKSLASH BACKSLASH) with true. cbv iota.
        rewrite Eu, Hs. exact P.
    + destruct (c <? 32)%N eqn:Elow; [discriminate|].
      assert (Kc : keeps c = true) by (unfold keeps; rewrite Elow; reflexivity).
      destruct (IH r (c :: acc) str rest ltac:(lia) H) as [P L].
      rewrite (unspaced_cons_kept c r Kc).
      split; [| cbn [length]; lia].
      cbn [parse_string]. rewrite Eq, Eb, Elow. exact P.
Qed.

(** *** Number literals *)

(** The four stages of [parse_number]. *)
Definition sign_part (s : jsstring) : bool * jsstring :=
  match s with
  | c :: r => if N.eqb c HYPHEN then (true, r) else (false, s)
  | [] => (false, s)
  end.

Definition int_part (s1 : jsstring) : option (jsstring * jsstring) :=
  match s1 with
  | c :: r =>
      if N.eqb c 48%N then Some ([c], r)
      else if is_digit c then Some (take_digits s1)
      else None
  | [] => None
  end.

Definition frac_part (s2 : jsstring) : option (jsstring * jsstring) :=
  match s2 with
  | c :: r =>
      if N.eqb c DOT then
        match take_digits r with
        | ([], _) => None
        | (fs, s3) => Some (fs, s3)
        end
      else Some ([], s2)
  | [] => Some ([], s2)
  end.

Definition exp_part (s3 : jsstring) : option (Z * jsstring) :=
  match s3 with
  | c :: r =>
      if N.eqb c 101%N || N.eqb c 69%N then
        let '(eneg, r1) :=
          match r with
          | sg :: r' =>
              if N.eqb sg HYPHEN then (true, r')
              else if N.eqb sg 43%N then (false, r')
              else (false, r)
          | [] => (false, r)
          end in
        match take_digits r1 with
        | ([], _) => None
        | (es, s4) =>
            let e := Z.of_N (digits_value es) in
            Some ((if eneg then - e else e)%Z, s4)
        end
      else Some (0%Z, s3)
  | [] => Some (0%Z, s3)
  end.

Lemma parse_number_stages :
  forall s,
    parse_number s
    = let '(neg, s1) := sign_part s in
      match int_part s1 with
      | None => None
      | Some (ds, s2) =>
          match frac_part s2 with
          | None => None
          | Some (fs, s3) =>
              match exp_part s3 with
              | None => None
              | Some (e, s4) =>
                  Some (mkNumber neg (digits_value (ds ++ fs))
                          (e - Z.of_nat (length fs)), s4)
              end
          end
      end.
Proof. reflexivity. Qed.

Definition head_is (P : char -> Prop) (l : jsstring) : Prop :=
  match l with [] => True | c :: _ => P c end.

Definition nondigit (c : char) : Prop := is_digit c = false.
Definition after_frac (c : char) : Prop := is_digit c = false /\ c <> DOT.
Definition inert (c : char) : Prop :=
  is_digit c = false /\ c <> DOT /\ c <> 101%N /\ c <> 69%N.

Lemma take_digits_split :
  forall s d r,
    take_digits s = (d, r) ->
    s = d ++ r /\ forallb is_digit d = true /\ head_is nondigit r.
Proof.
  induction s as [| c s IH]; intros d r H; cbn [take_digits] in H.
  - injection H as <- <-. repeat split.
  - destruct (is_digit c) eqn:E.
    + destruct (take_digits s) as [d0 r0] eqn:T. injection H as <- <-.
      destruct (IH d0 r0 eq_refl) as [-> [Hd Hr]].
      cbn [forallb app]. rewrite E, Hd. repeat split. exact Hr.
    + injection H as <- <-. repeat split. exact E.
Qed.

Lemma take_digits_app :
  forall d r,
    forallb is_digit d = true -> head_is nondigit r ->
    take_digits (d ++ r) = (d, r).
Proof.
  induction d as [| c d IH]; intros r Hd Hr.
  - destruct r as [| a r]; [reflexivity|]. cbn [app take_digits].
    cbn [head_is] in Hr. unfold nondigit in Hr. rewrite Hr. reflexivity.
  - cbn [forallb] in Hd. apply andb_true_iff in Hd. destruct Hd as [Hc Hd].
    cbn [app take_digits]. rewrite Hc, (IH r Hd Hr). reflexivity.
Qed.

Lemma digit_keeps : forall c, is_digit c = true -> keeps c = true.
Proof.
  intros c H. apply keeps_from. unfold is_digit, in_range in H.
  apply andb_true_iff in H. destruct H as [H _]. apply N.leb_le in H. lia.
Qed.

Lemma digits_keep :
  forall d, forallb is_digit d = true -> forallb keeps d = true.
Proof.
  induction d as [| c d IH]; intros H; [reflexivity|].
  cbn [forallb] in *. apply andb_true_iff in H. destruct H as [Hc Hd].
  rewrite (digit_keeps c Hc), (IH Hd). reflexivity.
Qed.

Lemma digit_not_hyphen : forall c, is_digit c = true -> N.eqb c HYPHEN = false.
Proof.
  intros c H. apply N.eqb_neq. intros ->. discriminate H.
Qed.

Lemma int_part_token :
  forall s1 ds s2,
    int_part s1 = Some (ds, s2) ->
    exists p,
      p <> [] /\ s1 = p ++ s2 /\ forallb keeps p = true
      /\ forall s2',
          head_is nondigit s2' ->
          int_part (p ++ s2') = Some (ds, s2')
          /\ sign_part (p ++ s2') = (false, p ++ s2').
Proof.
  intros s1 ds s2 H. destruct s1 as [| c r]; [discriminate|].
  cbn [int_part] in H. destruct (N.eqb c 48) eqn:E0.
  - injection H as <- <-. apply N.eqb_eq in E0. subst c.
    exists [48%N]. split; [discriminate|]. split; [reflexivity|].
    split; [reflexivity|]. intros s2' _. split; reflexivity.
  - destruct (is_digit c) eqn:Ed; [| discriminate].
    assert (H' : take_digits (c :: r) = (ds, s2)) by congruence.
    destruct (take_digits_split _ _ _ H') as [Hs [Hd Hr]].
    assert (Hne : ds <> []).
    { intros ->. cbn [take_digits] in H'. rewrite Ed in H'.
      destruct (take_digits r); discriminate. }
    exists ds. split; [exact Hne|]. split; [exact Hs|].
    split; [apply digits_keep; exact Hd|].
    intros s2' Hs2'. destruct ds as [| a ds']; [contradiction|].
    cbn [app] in Hs. injection Hs as <- _.
    cbn [app int_part sign_part]. rewrite E0, Ed, (digit_not_hyphen c Ed).
    split; [| reflexivity].
    change (c :: ds' ++ s2') with ((c :: ds') ++ s2').
    rewrite (take_digits_app (c :: ds') s2' Hd Hs2'). reflexivity.
Qed.

Lemma frac_part_token :
  forall s2 fs s3,
    frac_part s2 = Some (fs, s3) ->
    exists p,
      s2 = p ++ s3 /\ forallb keeps p = true
      /\ forall s3',
          head_is after_frac s3' ->
          frac_part (p ++ s3') = Some (fs, s3')
          /\ head_is nondigit (p ++ s3').
Proof.
  intros s2 fs s3 H. destruct s2 as [| c r].
  - injection H as <- <-. exists []. split; [reflexivity|].
    split; [reflexivity|]. intros s3' Hh. cbn [app].
    split; [| destruct s3'; [exact I | exact (proj1 Hh)]].
    destruct s3' as [| a s]; [reflexivity|]. cbn [frac_part].
    destruct Hh as [_ Hdot]. apply N.eqb_neq in Hdot. rewrite Hdot.
    reflexivity.
  - cbn [frac_part] in H. destruct (N.eqb c DOT) eqn:Edot.
    + apply N.eqb_eq in Edot. subst c.
      destruct (take_digits r) as [d0 r0] eqn:T.
      destruct d0 as [| f d0]; [discriminate|]. injection H as <- <-.
      destruct (take_digits_split _ _ _ T) as [-> [Hd Hr]].
      exists (DOT :: f :: d0). split; [reflexivity|].
      split; [change (keeps DOT && forallb keeps (f :: d0) = true);
              rewrite (digits_keep _ Hd); reflexivity|].
      intros s3' Hh. split; [| reflexivity].
      cbn [app frac_part]. change (N.eqb DOT DOT) with true. cbv iota.
      change (f :: d0 ++ s3') with ((f :: d0) ++ s3').
      rewrite (take_digits_app (f :: d0) s3' Hd).
      * reflexivity.
      * destruct s3'; [exact I | exact (proj1 Hh)].
    + injection H as <- <-. exists []. split; [reflexivity|].
      split; [reflexivity|]. intros s3' Hh. cbn [app].
      split; [| destruct s3'; [exact I | exact (proj1 Hh)]].
      destruct s3' as [| a s]; [reflexivity|]. cbn [frac_part].
      destruct Hh as [_ Hdot]. apply N.eqb_neq in Hdot. rewrite Hdot.
      reflexivity.
Qed.

Lemma exp_part_absent :
  forall r', head_is inert r' -> exp_part r' = Some (0%Z, r').
Proof.
  intros [| a s] Hh; [reflexivity|]. cbn [exp_part].
  destruct Hh as [_ [_ [He HE]]].
  apply N.eqb_neq in He. apply N.eqb_neq in HE. rewrite He, HE. reflexivity.
Qed.

Lemma inert_after_frac :
  forall r', head_is inert r' -> head_is after_frac r'.
Proof.
  intros [| a s] Hh; [exact I|]. destruct Hh as [Hd [Hdot _]].
  split; assumption.
Qed.

Lemma exp_part_token :
  forall s3 e s4,
    exp_part s3 = Some (e, s4) ->
    exists p,
      s3 = p ++ s4 /\ forallb keeps p = true
      /\ forall r',
          head_is inert r' ->
          exp_part (p ++ r') = Some (e, r')
          /\ head_is after_frac (p ++ r').
Proof.
  intros s3 e s4 H.
  assert (Habsent :
            s3 = s4 -> e = 0%Z ->
            exists p,
              s3 = p ++ s4 /\ forallb keeps p = true
              /\ forall r',
                  head_is inert r' ->
                  exp_part (p ++ r') = Some (e, r')
                  /\ head_is after_frac (p ++ r')).
  { intros -> ->. exists []. split; [reflexivity|]. split; [reflexivity|].
    intros r' Hh. cbn [app].
    split; [apply exp_part_absent | apply inert_after_frac]; exact Hh. }
  destruct s3 as [| c r].
  { injection H as <- <-. apply Habsent; reflexivity. }
  cbn [exp_part] in H.
  destruct (N.eqb c 101 || N.eqb c 69) eqn:Ee;
    [| injection H as <- <-; apply Habsent; reflexivity].
  clear Habsent.
  assert (Kc : keeps c = true /\ after_frac c).
  { apply orb_true_iff in Ee. destruct Ee as [E | E]; apply N.eqb_eq in E;
      subst c; repeat split; discriminate. }
  destruct Kc as [Kc Hc].
  assert (Hdigits :
            forall (eneg : bool) (sp r1 : jsstring),
              r = sp ++ r1 -> forallb keeps sp = true ->
              (forall x,
                  head_is nondigit x ->
                  forall es, es <> [] -> forallb is_digit es = true ->
                  match sp ++ es ++ x with
                  | sg :: r' =>
                      if N.eqb sg HYPHEN then (true, r')
                      else if N.eqb sg 43 then (false, r')
                      else (false, sp ++ es ++ x)
                  | [] => (false, sp ++ es ++ x)
                  end = (eneg, es ++ x)) ->
              match take_digits r1 with
              | ([], _) => None
              | (es, s4) =>
                  let e := Z.of_N (digits_value es) in
                  Some ((if eneg then - e else e)%Z, s4)
              end = Some (e, s4) ->
              exists p,
                c :: r = p ++ s4 /\ forallb keeps p = true
                /\ forall r',
                    head_is inert r' ->
                    exp_part (p ++ r') = Some (e, r')
                    /\ head_is after_frac (p ++ r')).
  { intros eneg sp r1 Hr Ksp Hsign Hd.
    destruct (take_digits r1) as [es r0] eqn:T.
    destruct es as [| f es]; [discriminate|]. cbv zeta in Hd.
    injection Hd as <- <-.
    destruct (take_digits_split _ _ _ T) as [Hr1 [Hes Hr0]]. subst r1 r.
    exists (c :: sp ++ f :: es). split; [| split].
    - cbn [app]. rewrite <- app_assoc. reflexivity.
    - cbn [forallb]. rewrite Kc, forallb_app, Ksp, (digits_keep _ Hes).
      reflexivity.
    - intros r' Hh. split; [| exact Hc].
      assert (Hnd : head_is nondigit r')
        by (destruct r'; [exact I | exact (proj1 Hh)]).
      cbn [app exp_part]. rewrite Ee. rewrite <- app_assoc.
      rewrite (Hsign r' Hnd (f :: es) ltac:(discriminate) Hes).
      rewrite (take_digits_app (f :: es) r' Hes Hnd). reflexivity. }
  destruct r as [| sg r'].
  { cbn in H. discriminate. }
  destruct (N.eqb sg HYPHEN) eqn:Eh.
  - apply N.eqb_eq in Eh. subst sg.
    apply (Hdigits true [HYPHEN] r' eq_refl eq_refl); [| exact H].
    intros x _ es _ _. reflexivity.
  - destruct (N.eqb sg 43) eqn:Ep.
    + apply N.eqb_eq in Ep. subst sg.
      apply (Hdigits false [43%N] r' eq_refl eq_refl); [| exact H].
      intros x _ es _ _. reflexivity.
    + apply (Hdigits false [] (sg :: r') eq_refl eq_refl); [| exact H].
      intros x _ es Hne Hes. cbn [app].
      destruct es as [| f es]; [contradiction|]. cbn [app].
      cbn [forallb] in Hes. apply andb_true_iff in Hes.
      destruct Hes as [Hf _].
      rewrite (digit_not_hyphen f Hf).
      replace (N.eqb f 43) with false; [reflexivity|].
      symmetry. apply N.eqb_neq. intros ->. discriminate Hf.
Qed.

(** A number token does not depend on what follows it, as long as that
    cannot continue a number. *)
Lemma parse_number_token :
  forall s n rest,
    parse_number s = Some (n, rest) ->
    exists p,
      p <> [] /\ s = p ++ rest /\ forallb keeps p = true
      /\ forall r',
          head_is inert r' -> parse_number (p ++ r') = Some (n, r').
Proof.
  intros s n rest H. rewrite parse_number_stages in H.
  destruct (sign_part s) as [neg s1] eqn:Sg.
  destruct (int_part s1) as [[ds s2] |] eqn:Hi; [| discriminate].
  destruct (frac_part s2) as [[fs s3] |] eqn:Hf; [| discriminate].
  destruct (exp_part s3) as [[e s4] |] eqn:He; [| discriminate].
  injection H as <- <-.
  destruct (int_part_token _ _ _ Hi) as [pi [Hne [E1 [K1 T1]]]].
  destruct (frac_part_token _ _ _ Hf) as [pf [E2 [K2 T2]]].
  destruct (exp_part_token _ _ _ He) as [pe [E3 [K3 T3]]].
  assert (Hrun :
            forall r', head_is inert r' ->
              int_part (pi ++ pf ++ pe ++ r') = Some (ds, pf ++ pe ++ r')
              /\ sign_part (pi ++ pf ++ pe ++ r')
                 = (false, pi ++ pf ++ pe ++ r')
              /\ frac_part (pf ++ pe ++ r') = Some (fs, pe ++ r')
              /\ exp_part (pe ++ r') = Some (e, r')).
  { intros r' Hh. destruct (T3 r' Hh) as [X3 A3].
    destruct (T2 (pe ++ r') A3) as [X2 A2].
    destruct (T1 (pf ++ pe ++ r') A2) as [X1 S1]. auto. }
  destruct s as [| c r].
  { cbn in Sg. injection Sg as <- <-. discriminate. }
  cbn [sign_part] in Sg. destruct (N.eqb c HYPHEN) eqn:Eh.
  - injection Sg as <- <-. apply N.eqb_eq in Eh. subst c.
    exists (HYPHEN :: pi ++ pf ++ pe). split; [discriminate|].
    split; [| split].
    + cbn [app]. rewrite E1, E2, E3, <- !app_assoc. reflexivity.
    + cbn [forallb]. rewrite !forallb_app, K1, K2, K3. reflexivity.
    + intros r' Hh. destruct (Hrun r' Hh) as [X1 [_ [X2 X3]]].
      rewrite parse_number_stages. cbn [app sign_part].
      change (N.eqb HYPHEN HYPHEN) with true. cbv iota.
      rewrite <- !app_assoc, X1, X2, X3. reflexivity.
  - injection Sg as <- <-.
    exists (pi ++ pf ++ pe). split; [| split; [| split]].
    + destruct pi; [contradiction | discriminate].
    + rewrite E1, E2, E3, <- !app_assoc. reflexivity.
    + rewrite !forallb_app, K1, K2, K3. reflexivity.
    + intros r' Hh. destruct (Hrun r' Hh) as [X1 [S1 [X2 X3]]].
      rewrite parse_number_stages, <- !app_assoc, S1, X1, X2, X3.
      reflexivity.
Qed.

(** *** What follows a value *)

Definition is_delim (d : char) : Prop :=
  d = COMMA \/ d = RBRACKET \/ d = RBRACE.

(** After a value of a text that parses come white space and then a comma,
    a closing bracket or brace, or the end of the text. *)
Definition ends_value (rest : jsstring) : Prop :=
  head_is is_delim (skip_ws rest).

Lemma delim_keeps : forall d, is_delim d -> keeps d = true.
Proof. intros d [-> | [-> | ->]]; reflexivity. Qed.

Lemma delim_inert : forall d, is_delim d -> inert d.
Proof.
  intros d [-> | [-> | ->]]; repeat split; discriminate.
Qed.

Lemma ends_value_inert :
  forall rest, ends_value rest -> head_is inert (unspaced rest).
Proof.
  induction rest as [| a rest IH]; intros H; [exact I|].
  unfold ends_value in H. cbn [skip_ws] in H.
  destruct (is_json_ws a) eqn:E.
  - unfold unspaced. cbn [filter]. destruct (ws_cases a E) as [-> | K].
    + cbn. repeat split; discriminate.
    + rewrite K. apply IH. exact H.
  - cbn [head_is] in H. rewrite (unspaced_cons_kept a rest (delim_keeps a H)).
    exact (delim_inert a H).
Qed.

(** The length of the text that is kept. *)
Definition L (s : jsstring) : nat := length (unspaced s).

Lemma L_cons : forall c s, keeps c = true -> L (c :: s) = S (L s).
Proof. intros c s K. unfold L. rewrite (unspaced_cons_kept c s K). reflexivity. Qed.

Lemma L_skip :
  forall s c r, skip_ws s = c :: r -> keeps c = true -> S (L r) <= L s.
Proof. intros s c r H K. exact (skip_ws_measure s c r H K). Qed.

Lemma L_token :
  forall p r, forallb keeps p = true -> L (p ++ r) = length p + L r.
Proof.
  intros p r K. unfold L. rewrite unspaced_app, (unspaced_kept p K), length_app.
  reflexivity.
Qed.

Lemma parse_number_unspaced :
  forall s n rest,
    parse_number s = Some (n, rest) -> ends_value rest ->
    parse_number (unspaced s) = Some (n, unspaced rest)
    /\ S (L rest) <= L s.
Proof.
  intros s n rest H He.
  destruct (parse_number_token s n rest H) as [p [Hne [-> [K T]]]].
  rewrite unspaced_app, (unspaced_kept p K), (L_token p rest K).
  split; [apply T; apply ends_value_inert; exact He|].
  destruct p; [contradiction | cbn [length]; lia].
Qed.

(** *** Keywords and the first character of a value *)

Lemma low_differs :
  forall c k, keeps c = false -> keeps k = true ->
    N.eqb c k = false /\ N.eqb k c = false.
Proof.
  intros c k Hc Hk. split; apply N.eqb_neq; intros E; subst;
    rewrite Hc in Hk; discriminate.
Qed.

Lemma startsWith_head :
  forall c r k kw, startsWith (c :: r) (k :: kw) = true -> c = k.
Proof.
  intros c r k kw H. cbn [startsWith] in H. apply andb_true_iff in H.
  destruct H as [H _]. apply N.eqb_eq in H. symmetry. exact H.
Qed.

Lemma startsWith_other :
  forall c r k kw, c <> k -> startsWith (c :: r) (k :: kw) = false.
Proof.
  intros c r k kw H. cbn [startsWith].
  replace (N.eqb k c) with false; [reflexivity|].
  symmetry. apply N.eqb_neq. intros E. apply H. symmetry. exact E.
Qed.

Lemma keyword_unspaced :
  forall kw s,
    forallb keeps kw = true -> startsWith s kw = true ->
    s = kw ++ skipn (length kw) s
    /\ startsWith (unspaced s) kw = true
    /\ skipn (length kw) (unspaced s) = unspaced (skipn (length kw) s).
Proof.
  induction kw as [| k kw IH]; intros s K H.
  - split; [reflexivity|]. split; [| reflexivity].
    destruct (unspaced s); reflexivity.
  - destruct s as [| c s]; [discriminate|].
    cbn [forallb] in K. apply andb_true_iff in K. destruct K as [Kk K].
    cbn [startsWith] in H. apply andb_true_iff in H. destruct H as [E H].
    apply N.eqb_eq in E. subst c.
    destruct (IH s K H) as [Hs [Hw Hk]].
    rewrite (unspaced_cons_kept k s Kk). cbn [length skipn app startsWith].
    rewrite N.eqb_refl, Hw, Hk, <- Hs. repeat split.
Qed.

Lemma parse_number_head :
  forall c r x,
    parse_number (c :: r) = Some x -> c = HYPHEN \/ is_digit c = true.
Proof.
  intros c r x H. rewrite parse_number_stages in H. cbn [sign_part] in H.
  destruct (N.eqb c HYPHEN) eqn:E; [left; apply N.eqb_eq; exact E|].
  right. cbn [int_part] in H.
  destruct (N.eqb c 48) eqn:E0; [apply N.eqb_eq in E0; subst c; reflexivity|].
  destruct (is_digit c); [reflexivity | discriminate].
Qed.

Lemma number_head_keeps :
  forall c, c = HYPHEN \/ is_digit c = true -> keeps c = true.
Proof. intros c [-> | H]; [reflexivity | apply digit_keeps; exact H]. Qed.

Lemma number_head_no_keyword :
  forall c r k kw,
    c = HYPHEN \/ is_digit c = true -> is_digit k = false -> k <> HYPHEN ->
    startsWith (c :: r) (k :: kw) = false.
Proof.
  intros c r k kw H Hk Hh. apply startsWith_other.
  destruct H as [-> | H]; [intros E; apply Hh; symmetry; exact E|].
  intros ->. rewrite H in Hk. discriminate.
Qed.

(** A value cannot start on a character below U+0020. *)
Lemma parse_value_low_head :
  forall f c r,
    keeps c = false -> is_json_ws c = false -> parse_value f (c :: r) = None.
Proof.
  intros f c r K W. destruct f as [| f]; [reflexivity|].
  cbn [parse_value]. rewrite (skip_ws_stops c r W).
  destruct (low_differs c LBRACE K eq_refl) as [-> _].
  destruct (low_differs c LBRACKET K eq_refl) as [-> _].
  destruct (low_differs c DQUOTE K eq_refl) as [-> _].
  change (lit "true") with (@cons char 116%N (lit "rue")).
  change (lit "false") with (@cons char 102%N (lit "alse")).
  change (lit "null") with (@cons char 110%N (lit "ull")).
  rewrite (startsWith_other c r 116%N (lit "rue"))
    by (intros ->; discriminate K).
  rewrite (startsWith_other c r 102%N (lit "alse"))
    by (intros ->; discriminate K).
  rewrite (startsWith_other c r 110%N (lit "ull"))
    by (intros ->; discriminate K).
  destruct (parse_number (c :: r)) as [[n rest] |] eqn:P; [| reflexivity].
  pose proof (number_head_keeps c (parse_number_head c r _ P)) as K'.
  rewrite K in K'. discriminate.
Qed.

Lemma parse_elements_low_head :
  forall f c r acc,
    keeps c = false -> is_json_ws c = false ->
    parse_elements f (c :: r) acc = None.
Proof.
  intros f c r acc K W. destruct f as [| f]; [reflexivity|].
  cbn [parse_elements]. rewrite (parse_value_low_head f c r K W). reflexivity.
Qed.

Lemma parse_members_low_head :
  forall f c r acc,
    keeps c = false -> is_json_ws c = false ->
    parse_members f (c :: r) acc = None.
Proof.
  intros f c r acc K W. destruct f as [| f]; [reflexivity|].
  cbn [parse_members]. rewrite (skip_ws_stops c r W).
  destruct (low_differs c DQUOTE K eq_refl) as [-> _]. reflexivity.
Qed.

(** *** The parser on the text without its control characters *)

(** If a text parses, the text without its characters below U+0020 parses
    to the same value, with any fuel that is twice the number of
    characters consumed. *)
Definition value_ok (f : nat) : Prop :=
  forall s v rest,
    parse_value f s = Some (v, rest) -> ends_value rest ->
    S (L rest) <= L s
    /\ forall g,
        2 * L s <= g + 2 * L rest + 1 ->
        parse_value g (unspaced s) = Some (v, unspaced rest).

Definition elements_ok (f : nat) : Prop :=
  forall s acc v rest,
    parse_elements f s acc = Some (v, rest) ->
    2 + L rest <= L s
    /\ forall g,
        2 * L s <= g + 2 * L rest ->
        parse_elements g (unspaced s) acc = Some (v, unspaced rest).

Definition members_ok (f : nat) : Prop :=
  forall s acc v rest,
    parse_members f s acc = Some (v, rest) ->
    2 + L rest <= L s
    /\ forall g,
        2 * L s <= g + 2 * L rest ->
        parse_members g (unspaced s) acc = Some (v, unspaced rest).

Lemma head_keeps_or_fails :
  forall (c : char) (r : jsstring) (A : Type) (x : option A),
    is_json_ws c = false ->
    (keeps c = false -> x = None) ->
    forall y, x = Some y -> keeps c = true.
Proof.
  intros c r A x W Hlow y Hx. destruct (keeps c) eqn:K; [reflexivity|].
  rewrite (Hlow eq_refl) in Hx. discriminate.
Qed.

Lemma value_step :
  forall f, elements_ok f -> members_ok f -> value_ok (S f).
Proof.
  intros f IHe IHm s v rest H Hend.
  cbn [parse_value] in H.
  destruct (skip_ws s) as [| c r] eqn:Sk; [discriminate|].
  pose proof (skip_ws_head s c r Sk) as Wc.
  assert (Kc : keeps c = true).
  { destruct (keeps c) eqn:K; [reflexivity|].
    pose proof (parse_value_low_head (S f) c r K Wc) as Hn.
    cbn [parse_value] in Hn. rewrite (skip_ws_stops c r Wc) in Hn.
    rewrite Hn in H. discriminate. }
  pose proof (L_skip s c r Sk Kc) as Ms.
  pose proof (skip_ws_unspaced_cons s c r Sk Kc) as Sk'.
  destruct (N.eqb c LBRACE) eqn:E1.
  { destruct (skip_ws r) as [| c' r'] eqn:Sk2; [discriminate|].
    pose proof (skip_ws_head r c' r' Sk2) as Wc'.
    destruct (N.eqb c' RBRACE) eqn:E2.
    - injection H as <- <-.
      assert (Kc' : keeps c' = true)
        by (apply N.eqb_eq in E2; subst c'; reflexivity).
      pose proof (L_skip r c' r' Sk2 Kc') as Mr.
      split; [lia|]. intros g Hg. destruct g as [| g]; [lia|].
      cbn [parse_value].
      rewrite Sk', E1, (skip_ws_unspaced_cons r c' r' Sk2 Kc'), E2.
      reflexivity.
    - assert (Kc' : keeps c' = true).
      { destruct (keeps c') eqn:K; [reflexivity|].
        rewrite (parse_members_low_head f c' r' [] K Wc') in H.
        discriminate. }
      pose proof (L_skip r c' r' Sk2 Kc') as Mr.
      destruct (IHm _ _ _ _ H) as [Mm Hm].
      rewrite (L_cons c' r' Kc') in Mm.
      split; [lia|]. intros g Hg. destruct g as [| g]; [lia|].
      cbn [parse_value].
      rewrite Sk', E1, (skip_ws_unspaced_cons r c' r' Sk2 Kc'), E2.
      rewrite <- (unspaced_cons_kept c' r' Kc'). apply Hm.
      rewrite (L_cons c' r' Kc'). lia. }
  destruct (N.eqb c LBRACKET) eqn:E2.
  { destruct (skip_ws r) as [| c' r'] eqn:Sk2; [discriminate|].
    pose proof (skip_ws_head r c' r' Sk2) as Wc'.
    destruct (N.eqb c' RBRACKET) eqn:E3.
    - injection H as <- <-.
      assert (Kc' : keeps c' = true)
        by (apply N.eqb_eq in E3; subst c'; reflexivity).
      pose proof (L_skip r c' r' Sk2 Kc') as Mr.
      split; [lia|]. intros g Hg. destruct g as [| g]; [lia|].
      cbn [parse_value].
      rewrite Sk', E1, E2, (skip_ws_unspaced_cons r c' r' Sk2 Kc'), E3.
      reflexivity.
    - assert (Kc' : keeps c' = true).
      { destruct (keeps c') eqn:K; [reflexivity|].
        rewrite (parse_elements_low_head f c' r' [] K Wc') in H.
        discriminate. }
      pose proof (L_skip r c' r' Sk2 Kc') as Mr.
      destruct (IHe _ _ _ _ H) as [Me He].
      rewrite (L_cons c' r' Kc') in Me.
      split; [lia|]. intros g Hg. destruct g as [| g]; [lia|].
      cbn [parse_value].
      rewrite Sk', E1, E2, (skip_ws_unspaced_cons r c' r' Sk2 Kc'), E3.
      rewrite <- (unspaced_cons_kept c' r' Kc'). apply He.
      rewrite (L_cons c' r' Kc'). lia. }
  destruct (N.eqb c DQUOTE) eqn:E3.
  { destruct (parse_string r []) as [[str rest0] |] eqn:Ps; [| discriminate].
    injection H as <- <-.
    destruct (parse_string_unspaced (length r) r [] str rest0 (le_n _) Ps)
      as [Ps' Mp].
    fold (L rest0) in Mp. fold (L r) in Mp.
    split; [lia|]. intros g Hg. destruct g as [| g]; [lia|].
    cbn [parse_value]. rewrite Sk', E1, E2, E3, Ps'. reflexivity. }
  assert (Hkw :
            forall (kw : jsstring) (w : json),
              kw <> [] -> forallb keeps kw = true ->
              startsWith (c :: r) kw = true ->
              v = w -> rest = skipn (length kw) (c :: r) ->
              S (L rest) <= L s
              /\ startsWith (c :: unspaced r) kw = true
              /\ skipn (length kw) (c :: unspaced r) = unspaced rest).
  { intros kw w Hne K Hs -> ->.
    destruct (keyword_unspaced kw (c :: r) K Hs) as [Hsplit [Hw Hk]].
    rewrite (unspaced_cons_kept c r Kc) in Hw, Hk.
    split; [| split; assumption].
    assert (Hl : L (c :: r) = length kw + L (skipn (length kw) (c :: r)))
      by (rewrite Hsplit at 1; apply L_token; exact K).
    rewrite (L_cons c r Kc) in Hl.
    destruct kw; [contradiction | cbn [length] in *; lia]. }
  change (lit "true") with (@cons char 116%N (lit "rue")) in H.
  change (lit "false") with (@cons char 102%N (lit "alse")) in H.
  change (lit "null") with (@cons char 110%N (lit "ull")) in H.
  destruct (startsWith (c :: r) (@cons char 116%N (lit "rue"))) eqn:T1.
  { injection H as Hv Hr.
    destruct (Hkw (@cons char 116%N (lit "rue")) (JBool true) ltac:(discriminate)
                eq_refl T1 (eq_sym Hv) (eq_sym Hr)) as [M [Hw Hk]].
    split; [exact M|]. intros g Hg. destruct g as [| g]; [lia|].
    cbn [parse_value]. rewrite Sk', E1, E2, E3.
    change (lit "true") with (@cons char 116%N (lit "rue")).
    rewrite Hw. subst v. f_equal. f_equal. exact Hk. }
  destruct (startsWith (c :: r) (@cons char 102%N (lit "alse"))) eqn:T2.
  { injection H as Hv Hr.
    destruct (Hkw (@cons char 102%N (lit "alse")) (JBool false) ltac:(discriminate)
                eq_refl T2 (eq_sym Hv) (eq_sym Hr)) as [M [Hw Hk]].
    split; [exact M|]. intros g Hg. destruct g as [| g]; [lia|].
    cbn [parse_value]. rewrite Sk', E1, E2, E3.
    change (lit "true") with (@cons char 116%N (lit "rue")).
    change (lit "false") with (@cons char 102%N (lit "alse")).
    pose proof (startsWith_head _ _ _ _ T2) as Ec. subst c.
    rewrite (startsWith_other 102%N (unspaced r) 116%N (lit "rue"))
      by discriminate.
    rewrite Hw. subst v. f_equal. f_equal. exact Hk. }
  destruct (startsWith (c :: r) (@cons char 110%N (lit "ull"))) eqn:T3.
  { injection H as Hv Hr.
    destruct (Hkw (@cons char 110%N (lit "ull")) JNull ltac:(discriminate)
                eq_refl T3 (eq_sym Hv) (eq_sym Hr)) as [M [Hw Hk]].
    split; [exact M|]. intros g Hg. destruct g as [| g]; [lia|].
    cbn [parse_value]. rewrite Sk', E1, E2, E3.
    change (lit "true") with (@cons char 116%N (lit "rue")).
    change (lit "false") with (@cons char 102%N (lit "alse")).
    change (lit "null") with (@cons char 110%N (lit "ull")).
    pose proof (startsWith_head _ _ _ _ T3) as Ec. subst c.
    rewrite (startsWith_other 110%N (unspaced r) 116%N (lit "rue"))
      by discriminate.
    rewrite (startsWith_other 110%N (unspaced r) 102%N (lit "alse"))
      by discriminate.
    rewrite Hw. subst v. f_equal. f_equal. exact Hk. }
  destruct (parse_number (c :: r)) as [[n rest0] |] eqn:Pn; [| discriminate].
  injection H as <- <-.
  destruct (parse_number_unspaced (c :: r) n rest0 Pn Hend) as [Pn' Mn].
  rewrite (L_cons c r Kc) in Mn.
  rewrite (unspaced_cons_kept c r Kc) in Pn'.
  pose proof (parse_number_head c r _ Pn) as Hh.
  split; [lia|]. intros g Hg. destruct g as [| g]; [lia|].
  cbn [parse_value]. rewrite Sk', E1, E2, E3.
  change (lit "true") with (@cons char 116%N (lit "rue")).
  change (lit "false") with (@cons char 102%N (lit "alse")).
  change (lit "null") with (@cons char 110%N (lit "ull")).
  rewrite (number_head_no_keyword c (unspaced r) 116%N (lit "rue") Hh eq_refl)
    by discriminate.
  rewrite (number_head_no_keyword c (unspaced r) 102%N (lit "alse") Hh eq_refl)
    by discriminate.
  rewrite (number_head_no_keyword c (unspaced r) 110%N (lit "ull") Hh eq_refl)
    by discriminate.
  rewrite Pn'. reflexivity.
Qed.

Lemma elements_step :
  forall f, value_ok f -> elements_ok f -> elements_ok (S f).
Proof.
  intros f IHv IHe s acc v rest H.
  cbn [parse_elements] in H.
  destruct (parse_value f s) as [[v0 rest0] |] eqn:Pv; [| discriminate].
  destruct (skip_ws rest0) as [| c r] eqn:Sk; [discriminate|].
  destruct (N.eqb c COMMA) eqn:Ec.
  - apply N.eqb_eq in Ec. subst c.
    assert (Hend : ends_value rest0)
      by (unfold ends_value; rewrite Sk; left; reflexivity).
    destruct (IHv _ _ _ Pv Hend) as [Mv Hv].
    pose proof (L_skip rest0 COMMA r Sk eq_refl) as Mr.
    destruct (IHe _ _ _ _ H) as [Me He].
    split; [lia|]. intros g Hg. destruct g as [| g]; [lia|].
    cbn [parse_elements]. rewrite (Hv g) by lia.
    rewrite (skip_ws_unspaced_cons rest0 COMMA r Sk eq_refl).
    change (N.eqb COMMA COMMA) with true. cbv iota. apply He. lia.
  - destruct (N.eqb c RBRACKET) eqn:Eb; [| discriminate].
    apply N.eqb_eq in Eb. subst c. injection H as <- <-.
    assert (Hend : ends_value rest0)
      by (unfold ends_value; rewrite Sk; right; left; reflexivity).
    destruct (IHv _ _ _ Pv Hend) as [Mv Hv].
    pose proof (L_skip rest0 RBRACKET r Sk eq_refl) as Mr.
    split; [lia|]. intros g Hg. destruct g as [| g]; [lia|].
    cbn [parse_elements]. rewrite (Hv g) by lia.
    rewrite (skip_ws_unspaced_cons rest0 RBRACKET r Sk eq_refl).
    reflexivity.
Qed.

Lemma members_step :
  forall f, value_ok f -> members_ok f -> members_ok (S f).
Proof.
  intros f IHv IHm s acc v rest H.
  cbn [parse_members] in H.
  destruct (skip_ws s) as [| q r0] eqn:Sk0; [discriminate|].
  destruct (N.eqb q DQUOTE) eqn:Eq; [| discriminate].
  apply N.eqb_eq in Eq. subst q.
  destruct (parse_string r0 []) as [[key r1] |] eqn:Ps; [| discriminate].
  destruct (skip_ws r1) as [| c r2] eqn:Sk1; [discriminate|].
  destruct (N.eqb c COLON) eqn:Ec; [| discriminate].
  apply N.eqb_eq in Ec. subst c.
  destruct (parse_value f r2) as [[v0 rest0] |] eqn:Pv; [| discriminate].
  destruct (skip_ws rest0) as [| d r3] eqn:Sk2; [discriminate|].
  pose proof (L_skip s DQUOTE r0 Sk0 eq_refl) as M0.
  destruct (parse_string_unspaced (length r0) r0 [] key r1 (le_n _) Ps)
    as [Ps' M1].
  fold (L r1) in M1. fold (L r0) in M1.
  pose proof (L_skip r1 COLON r2 Sk1 eq_refl) as M2.
  assert (Hrun :
            forall g,
              parse_value g (unspaced r2) = Some (v0, unspaced rest0) ->
              keeps d = true ->
              parse_members (S g) (unspaced s) acc
              = if N.eqb d COMMA
                then parse_members g (unspaced r3) ((key, v0) :: acc)
                else if N.eqb d RBRACE
                     then Some (JObj (rev ((key, v0) :: acc)), unspaced r3)
                     else None).
  { intros g Hv Kd. cbn [parse_members].
    rewrite (skip_ws_unspaced_cons s DQUOTE r0 Sk0 eq_refl).
    change (N.eqb DQUOTE DQUOTE) with true. cbv iota.
    rewrite Ps', (skip_ws_unspaced_cons r1 COLON r2 Sk1 eq_refl).
    change (N.eqb COLON COLON) with true. cbv iota.
    rewrite Hv, (skip_ws_unspaced_cons rest0 d r3 Sk2 Kd). reflexivity. }
  destruct (N.eqb d COMMA) eqn:Ed.
  - apply N.eqb_eq in Ed. subst d.
    assert (Hend : ends_value rest0)
      by (unfold ends_value; rewrite Sk2; left; reflexivity).
    destruct (IHv _ _ _ Pv Hend) as [Mv Hv].
    pose proof (L_skip rest0 COMMA r3 Sk2 eq_refl) as M3.
    destruct (IHm _ _ _ _ H) as [Mm Hm].
    split; [lia|]. intros g Hg. destruct g as [| g]; [lia|].
    rewrite (Hrun g) by (try reflexivity; apply Hv; lia).
    change (N.eqb COMMA COMMA) with true. cbv iota. apply Hm. lia.
  - destruct (N.eqb d RBRACE) eqn:Eb; [| discriminate].
    apply N.eqb_eq in Eb. subst d. injection H as <- <-.
    assert (Hend : ends_value rest0)
      by (unfold ends_value; rewrite Sk2; right; right; reflexivity).
    destruct (IHv _ _ _ Pv Hend) as [Mv Hv].
    pose proof (L_skip rest0 RBRACE r3 Sk2 eq_refl) as M3.
    split; [lia|]. intros g Hg. destruct g as [| g]; [lia|].
    rewrite (Hrun g) by (try reflexivity; apply Hv; lia).
    reflexivity.
Qed.

Lemma parse_unspaced :
  forall f, value_ok f /\ elements_ok f /\ members_ok f.
Proof.
  induction f as [| f [IHv [IHe IHm]]].
  - split; [| split]; unfold value_ok, elements_ok, members_ok; intros;
      discriminate.
  - split; [apply value_step; assumption|].
    split; [apply elements_step | apply members_step]; assumption.
Qed.

(** [JSON.parse] of a text that parses and of the same text without its
    characters below U+0020 give the same value. *)
Lemma JSON_parse_unspaced :
  forall s v, JSON_parse s = Some v -> JSON_parse (unspaced s) = Some v.
Proof.
  intros s v H. unfold JSON_parse in *.
  destruct (parse_value (2 * length s + 2) s) as [[v0 rest] |] eqn:P;
    [| discriminate].
  destruct (skip_ws rest) as [| c r] eqn:Sk; [| discriminate].
  injection H as <-.
  assert (Hend : ends_value rest) by (unfold ends_value; rewrite Sk; exact I).
  destruct (proj1 (parse_unspaced _) _ _ _ P Hend) as [M Hg].
  rewrite (Hg (2 * length (unspaced s) + 2)) by (unfold L; lia).
  rewrite (skip_ws_unspaced_nil rest Sk). reflexivity.
Qed.

End JsonFacts.
(* ------------------------------------------------------------------ *)
(** ** The extraction procedure *)

Module ExtractFacts.
Import RegexFacts.

(** *** Trimming *)

Lemma trimStart_app_nonspace :
  forall a x b,
    is_space x = false -> trimStart (a ++ x :: b) = trimStart a ++ x :: b.
Proof.
  induction a as [| c a IH]; intros x b Hx; cbn [app trimStart].
  - rewrite Hx. reflexivity.
  - destruct (is_space c); [apply IH; exact Hx | reflexivity].
Qed.

Lemma trimEnd_app_nonspace :
  forall p x v,
    is_space x = false -> trimEnd (p ++ x :: v) = p ++ x :: trimEnd v.
Proof.
  intros p x v Hx. unfold trimEnd.
  rewrite rev_app_distr. cbn [rev]. rewrite <- app_assoc. cbn [app].
  rewrite trimStart_app_nonspace by exact Hx.
  rewrite rev_app_distr. cbn [rev]. rewrite rev_involutive, <- app_assoc.
  reflexivity.
Qed.

Lemma trim_object_prefix :
  forall u x v,
    is_space x = false ->
    trim (LBRACE :: u ++ x :: v) = LBRACE :: u ++ x :: trimEnd v.
Proof.
  intros u x v Hx. unfold trim.
  change (trimStart (LBRACE :: u ++ x :: v)) with (LBRACE :: u ++ x :: v).
  apply (trimEnd_app_nonspace (LBRACE :: u) x v Hx).
Qed.

(** *** Fences and brace boundaries on a text that starts with a brace *)

Lemma strip_fences_object :
  forall r, strip_fences (LBRACE :: r) = LBRACE :: r.
Proof. intros r. reflexivity. Qed.

Definition cut_tail (c1 : jsstring) : jsstring :=
  let jsonEnd := lastIndexOf RBRACE c1 in
  if ((0 <? jsonEnd) && (jsonEnd <? Z.of_nat (length c1) - 1))%Z
  then substring_to c1 (jsonEnd + 1)
  else c1.

Lemma trim_to_braces_object :
  forall r, trim_to_braces (LBRACE :: r) = cut_tail (LBRACE :: r).
Proof. intros r. reflexivity. Qed.

Lemma lastIndexOf_lower : forall c s, (-1 <= lastIndexOf c s)%Z.
Proof.
  intros c s. induction s as [| x s IH]; cbn [lastIndexOf]; [lia|].
  destruct (Z.leb_spec 0 (lastIndexOf c s)); [lia|].
  destruct (N.eqb x c); lia.
Qed.


Lemma lastIndexOf_app :
  forall c a b,
    lastIndexOf c (a ++ b)
    = if (0 <=? lastIndexOf c b)%Z
      then (Z.of_nat (length a) + lastIndexOf c b)%Z
      else lastIndexOf c a.
Proof.
  intros c a b. induction a as [| x a IH]; cbn [app lastIndexOf length].
  - pose proof (lastIndexOf_lower c b).
    destruct (Z.leb_spec 0 (lastIndexOf c b)); lia.
  - rewrite IH. pose proof (lastIndexOf_lower c a).
    destruct (Z.leb_spec 0 (lastIndexOf c b)).
    + destruct (Z.leb_spec 0 (Z.of_nat (length a) + lastIndexOf c b)); lia.
    + reflexivity.
Qed.

Lemma firstn_past_prefix :
  forall (p q : jsstring) n,
    firstn (length p + n) (p ++ q) = p ++ firstn n q.
Proof.
  intros p q n. rewrite firstn_app, firstn_all2 by lia.
  replace (length p + n - length p) with n by lia. reflexivity.
Qed.


(** *** Character cleaning, character by character *)

Lemma replaceAll_single_app :
  forall r p t, single r p ->
  forall a b, replaceAll r t (a ++ b) = replaceAll r t a ++ replaceAll r t b.
Proof.
  intros r p t Hr a b. rewrite !(replaceAll_single r p t Hr).
  apply flat_map_app.
Qed.

Lemma single_control : single re_control is_control.
Proof. apply single_class. Qed.
Lemma single_smart_double :
  single re_smart_double (fun c => N.eqb LDQUO c || N.eqb RDQUO c).
Proof. apply single_alt. Qed.
Lemma single_smart_single :
  single re_smart_single (fun c => N.eqb LSQUO c || N.eqb RSQUO c).
Proof. apply single_alt. Qed.
Lemma single_dashes :
  single re_dashes (fun c => N.eqb ENDASH c || N.eqb EMDASH c).
Proof. apply single_alt. Qed.
Lemma single_ellipsis : single re_ellipsis (N.eqb ELLIPSIS).
Proof. apply single_class. Qed.
Lemma single_japanese : single re_japanese is_japanese.
Proof. apply single_class. Qed.
Lemma single_non_ascii : single re_non_ascii is_non_ascii.
Proof. apply single_class. Qed.

Lemma clean_characters_app :
  forall a b,
    clean_characters (a ++ b) = clean_characters a ++ clean_characters b.
Proof.
  intros a b. unfold clean_characters.
  rewrite (replaceAll_single_app _ _ _ single_control).
  rewrite (replaceAll_single_app _ _ _ single_smart_double).
  rewrite (replaceAll_single_app _ _ _ single_smart_single).
  rewrite (replaceAll_single_app _ _ _ single_dashes).
  rewrite (replaceAll_single_app _ _ _ single_ellipsis).
  rewrite (replaceAll_single_app _ _ _ single_japanese).
  rewrite (replaceAll_single_app _ _ _ single_non_ascii).
  reflexivity.
Qed.



(** *** The trailing comma *)






(** The array with a trailing comma of the witness does parse. *)
Example trailing_comma_in_array :
  extract_course (text "{'a':[1,]}")
  = Some (JObj [(lit "a", JArr [num_of_nat 1])]).
Proof. vm_compute. reflexivity. Qed.

(** *** Texts the cleaning leaves alone *)

Definition printable (c : char) : bool := in_range 32 126 c.

Definition is_smart (c : char) : bool :=
  existsb (N.eqb c) [LDQUO; RDQUO; LSQUO; RSQUO; ENDASH; EMDASH].

Definition roadmap_safe (c : char) : bool :=
  negb (is_control c) && negb (is_smart c).

(** No site any of the four syntax repairs of generate-course rewrites. *)
Definition no_repair_site (s : jsstring) : bool :=
  negb (test re_trailing_comma s) && negb (test re_adjacent_objects s)
  && negb (test re_adjacent_arrays s) && negb (test re_inner_quotes s).

Lemma existsb_excluded :
  forall (p q : char -> bool) (s : jsstring),
    (forall c, q c = true -> p c = false) ->
    forallb q s = true -> existsb p s = false.
Proof.
  intros p q s Hpq. induction s as [| c s IH]; intros H; [reflexivity|].
  cbn [forallb] in H. apply andb_true_iff in H. destruct H as [Hc Hs].
  cbn [existsb]. rewrite (Hpq c Hc), (IH Hs). reflexivity.
Qed.

Lemma replaceAll_single_absent :
  forall r p t s,
    single r p -> existsb p s = false -> replaceAll r t s = s.
Proof.
  intros r p t s Hr Hs. apply replaceAll_no_match.
  unfold test. rewrite (test_from_single r p Hr). exact Hs.
Qed.

Ltac by_ranges :=
  intros;
  repeat match goal with
         | H : _ && _ = true |- _ => apply andb_true_iff in H; destruct H
         | H : negb _ = true |- _ => apply negb_true_iff in H
         | H : _ || _ = false |- _ => apply orb_false_iff in H; destruct H
         end;
  repeat match goal with
         | H : context [N.leb ?a ?b] |- _ => destruct (N.leb_spec a b); try discriminate
         | H : context [N.eqb ?a ?b] |- _ => destruct (N.eqb_spec a b); try discriminate
         end;
  repeat match goal with
         | |- context [N.leb ?a ?b] => destruct (N.leb_spec a b)
         | |- context [N.eqb ?a ?b] => destruct (N.eqb_spec a b)
         end;
  subst; cbn; try reflexivity; try discriminate; try lia.

Lemma printable_not_control : forall c, printable c = true -> is_control c = false.
Proof. unfold printable, is_control, in_range. by_ranges. Qed.

Lemma printable_not_japanese : forall c, printable c = true -> is_japanese c = false.
Proof. unfold printable, is_japanese, in_range. by_ranges. Qed.

Lemma printable_ascii : forall c, printable c = true -> is_non_ascii c = false.
Proof. unfold printable, is_non_ascii, in_range. by_ranges. Qed.

Lemma printable_not : forall a c,
    (126 < a)%N -> printable c = true -> N.eqb a c = false.
Proof. unfold printable, in_range. by_ranges. Qed.

Lemma printable_not_either : forall a b c,
    (126 < a)%N -> (126 < b)%N -> printable c = true ->
    N.eqb a c || N.eqb b c = false.
Proof.
  intros a b c Ha Hb Hc.
  rewrite (printable_not a c Ha Hc), (printable_not b c Hb Hc). reflexivity.
Qed.

Lemma safe_not_control : forall c, roadmap_safe c = true -> is_control c = false.
Proof.
  intros c H. unfold roadmap_safe in H. apply andb_true_iff in H.
  destruct H as [H _]. apply negb_true_iff in H. exact H.
Qed.

Lemma safe_not_smart :
  forall c, roadmap_safe c = true ->
    N.eqb LDQUO c || N.eqb RDQUO c = false
    /\ N.eqb LSQUO c || N.eqb RSQUO c = false
    /\ N.eqb ENDASH c || N.eqb EMDASH c = false.
Proof.
  intros c H. unfold roadmap_safe in H. apply andb_true_iff in H.
  destruct H as [_ H]. apply negb_true_iff in H.
  unfold is_smart in H. cbn [existsb] in H.
  repeat (apply orb_false_iff in H; destruct H as [? H]).
  repeat split; apply orb_false_iff; split; rewrite N.eqb_sym; assumption.
Qed.

Lemma clean_characters_printable :
  forall s, forallb printable s = true -> clean_characters s = s.
Proof.
  intros s H. unfold clean_characters.
  rewrite (replaceAll_single_absent re_control _ [] s single_control)
    by (apply (existsb_excluded _ printable); [apply printable_not_control | exact H]).
  rewrite (replaceAll_single_absent re_smart_double _ _ s single_smart_double)
    by (apply (existsb_excluded _ printable);
        [intros c; apply printable_not_either; reflexivity | exact H]).
  rewrite (replaceAll_single_absent re_smart_single _ _ s single_smart_single)
    by (apply (existsb_excluded _ printable);
        [intros c; apply printable_not_either; reflexivity | exact H]).
  rewrite (replaceAll_single_absent re_dashes _ _ s single_dashes)
    by (apply (existsb_excluded _ printable);
        [intros c; apply printable_not_either; reflexivity | exact H]).
  rewrite (replaceAll_single_absent re_ellipsis _ _ s single_ellipsis)
    by (apply (existsb_excluded _ printable);
        [intros c; apply printable_not; reflexivity | exact H]).
  rewrite (replaceAll_single_absent re_japanese _ _ s single_japanese)
    by (apply (existsb_excluded _ printable); [apply printable_not_japanese | exact H]).
  apply (replaceAll_single_absent re_non_ascii _ _ s single_non_ascii).
  apply (existsb_excluded _ printable); [apply printable_ascii | exact H].
Qed.

Lemma clean_special_safe :
  forall s, forallb roadmap_safe s = true -> clean_special s = s.
Proof.
  intros s H. unfold clean_special.
  rewrite (replaceAll_single_absent re_control _ [] s single_control)
    by (apply (existsb_excluded _ roadmap_safe); [apply safe_not_control | exact H]).
  rewrite (replaceAll_single_absent re_smart_double _ _ s single_smart_double)
    by (apply (existsb_excluded _ roadmap_safe);
        [intros c Hc; apply (safe_not_smart c Hc) | exact H]).
  rewrite (replaceAll_single_absent re_smart_single _ _ s single_smart_single)
    by (apply (existsb_excluded _ roadmap_safe);
        [intros c Hc; apply (safe_not_smart c Hc) | exact H]).
  apply (replaceAll_single_absent re_dashes _ _ s single_dashes).
  apply (existsb_excluded _ roadmap_safe);
    [intros c Hc; apply (safe_not_smart c Hc) | exact H].
Qed.

Lemma fix_common_issues_no_site :
  forall s, no_repair_site s = true -> fix_common_issues s = s.
Proof.
  intros s H. unfold no_repair_site in H.
  repeat (apply andb_true_iff in H; destruct H as [H ?]).
  repeat match goal with
         | X : negb _ = true |- _ => apply negb_true_iff in X
         end.
  unfold fix_common_issues.
  rewrite (replaceAll_no_match re_trailing_comma _ s) by assumption.
  rewrite (replaceAll_no_match re_adjacent_objects _ s) by assumption.
  rewrite (replaceAll_no_match re_adjacent_arrays _ s) by assumption.
  apply replaceAll_no_match. assumption.
Qed.

(** Trimming, fence stripping and brace trimming leave a text that starts
    with an opening and ends with a closing brace alone. *)
Lemma object_text_kept :
  forall body,
    trim_to_braces (strip_fences (trim (LBRACE :: body ++ [RBRACE])))
    = LBRACE :: body ++ [RBRACE].
Proof.
  intros body.
  rewrite (trim_object_prefix body RBRACE [] eq_refl).
  change (trimEnd []) with (@nil char).
  rewrite strip_fences_object, trim_to_braces_object.
  unfold cut_tail.
  change (LBRACE :: body ++ [RBRACE]) with ((LBRACE :: body) ++ [RBRACE]).
  rewrite lastIndexOf_app, length_app.
  change (lastIndexOf RBRACE [RBRACE]) with 0%Z.
  change ((0 <=? 0)%Z) with true. cbv iota.
  replace ((Z.of_nat (length (LBRACE :: body)) + 0
            <? Z.of_nat (length (LBRACE :: body) + length [RBRACE]) - 1)%Z)
    with false by (symmetry; apply Z.ltb_ge; cbn [length]; lia).
  rewrite andb_false_r. reflexivity.
Qed.

Definition accented_value : jsstring :=
  text "{'a':'" ++ [233%N] ++ text "'}".

(** C2, as stated, fails.  The text of the object whose member a is the
    one-letter string U+00E9 is valid JSON without any noise, yet the
    generate-course extractor strips the letter and returns the empty
    string for a; and the valid JSON array text below loses its brackets
    and second element in either extractor. *)
Lemma extraction_is_not_the_identity :
  JSON_parse accented_value = Some (JObj [(lit "a", JStr [233%N])])
  /\ extract_course accented_value = Some (JObj [(lit "a", JStr [])])
  /\ JSON_parse (text "[{'a':1},2]")
     = Some (JArr [JObj [(lit "a", num_of_nat 1)]; num_of_nat 2])
  /\ extract_roadmap (text "[{'a':1},2]") = Some (JObj [(lit "a", num_of_nat 1)])
  /\ extract_course (text "[{'a':1},2]") = Some (JObj [(lit "a", num_of_nat 1)]).
Proof. repeat split; vm_compute; reflexivity. Qed.

(** *** Tabs and line breaks between the tokens *)

(** What the cleaning of generate-roadmap-content leaves alone inside a
    string: anything but U+007F-U+009F and the smart quotes and dashes.
    (A character below U+0020 cannot stand inside a string of a text that
    parses.) *)
Definition roadmap_kept (c : char) : bool :=
  negb (in_range 127 159 c) && negb (is_smart c).

(** What the cleaning of generate-course leaves alone inside a string:
    the characters up to U+007E. *)
Definition course_kept (c : char) : bool := (c <? 127)%N.

Lemma control_removal :
  forall s,
    forallb (fun c => negb (in_range 127 159 c)) s = true ->
    replaceAll re_control [] s = JsonFacts.unspaced s.
Proof.
  intros s H. rewrite (replaceAll_single _ _ [] single_control).
  induction s as [| c s IH]; [reflexivity|].
  cbn [forallb] in H. apply andb_true_iff in H. destruct H as [Hc Hs].
  apply negb_true_iff in Hc.
  cbn [flat_map]. unfold JsonFacts.unspaced. cbn [filter].
  fold (JsonFacts.unspaced s). rewrite (IH Hs).
  unfold substitute, is_control. rewrite Hc, orb_false_r.
  unfold JsonFacts.keeps, in_range.
  replace (N.leb 0 c) with true by (symmetry; apply N.leb_le; lia).
  cbn [andb expand].
  destruct (N.leb_spec c 31), (N.ltb_spec c 32); try lia; reflexivity.
Qed.

Lemma forallb_unspaced :
  forall (p : char -> bool) s,
    forallb p s = true -> forallb p (JsonFacts.unspaced s) = true.
Proof.
  intros p s H. apply forallb_forall. intros c Hc.
  apply filter_In in Hc. destruct Hc as [Hc _].
  exact (proj1 (forallb_forall p s) H c Hc).
Qed.

Lemma forallb_weaken :
  forall (p q : char -> bool) s,
    (forall c, p c = true -> q c = true) ->
    forallb p s = true -> forallb q s = true.
Proof.
  intros p q s Hpq H. apply forallb_forall. intros c Hc.
  apply Hpq. exact (proj1 (forallb_forall p s) H c Hc).
Qed.

Lemma unspaced_keeps :
  forall s, forallb JsonFacts.keeps (JsonFacts.unspaced s) = true.
Proof.
  intros s. apply forallb_forall. intros c Hc.
  apply filter_In in Hc. exact (proj2 Hc).
Qed.

Lemma clean_special_kept :
  forall s,
    forallb roadmap_kept s = true -> clean_special s = JsonFacts.unspaced s.
Proof.
  intros s H. unfold clean_special.
  rewrite control_removal
    by (apply (forallb_weaken roadmap_kept); [| exact H];
        intros c Hc; unfold roadmap_kept in Hc;
        apply andb_true_iff in Hc; exact (proj1 Hc)).
  assert (Hsmart : forall c, roadmap_kept c = true -> is_smart c = false).
  { intros c Hc. unfold roadmap_kept in Hc. apply andb_true_iff in Hc.
    apply negb_true_iff. exact (proj2 Hc). }
  assert (Hpairs :
            forall c, roadmap_kept c = true ->
              N.eqb LDQUO c || N.eqb RDQUO c = false
              /\ N.eqb LSQUO c || N.eqb RSQUO c = false
              /\ N.eqb ENDASH c || N.eqb EMDASH c = false).
  { intros c Hc. pose proof (Hsmart c Hc) as Hs.
    unfold is_smart in Hs. cbn [existsb] in Hs.
    repeat (apply orb_false_iff in Hs; destruct Hs as [? Hs]).
    repeat split; apply orb_false_iff; split; rewrite N.eqb_sym; assumption. }
  pose proof (forallb_unspaced roadmap_kept s H) as Hu.
  rewrite (replaceAll_single_absent re_smart_double _ _ _ single_smart_double)
    by (apply (existsb_excluded _ roadmap_kept);
        [intros c Hc; apply (Hpairs c Hc) | exact Hu]).
  rewrite (replaceAll_single_absent re_smart_single _ _ _ single_smart_single)
    by (apply (existsb_excluded _ roadmap_kept);
        [intros c Hc; apply (Hpairs c Hc) | exact Hu]).
  apply (replaceAll_single_absent re_dashes _ _ _ single_dashes).
  apply (existsb_excluded _ roadmap_kept);
    [intros c Hc; apply (Hpairs c Hc) | exact Hu].
Qed.

Lemma clean_characters_kept :
  forall s,
    forallb course_kept s = true -> clean_characters s = JsonFacts.unspaced s.
Proof.
  intros s H.
  assert (Hp : forallb printable (JsonFacts.unspaced s) = true).
  { apply forallb_forall. intros c Hc. apply filter_In in Hc.
    destruct Hc as [Hin Hk].
    pose proof (proj1 (forallb_forall course_kept s) H c Hin) as Hlt.
    unfold course_kept in Hlt. apply N.ltb_lt in Hlt.
    unfold JsonFacts.keeps in Hk. apply negb_true_iff in Hk.
    apply N.ltb_ge in Hk. unfold printable, in_range.
    apply andb_true_iff. split; apply N.leb_le; lia. }
  pose proof (clean_characters_printable _ Hp) as Hid.
  unfold clean_characters in *.
  rewrite (replaceAll_single_absent re_control _ [] (JsonFacts.unspaced s)
             single_control) in Hid
    by (apply (existsb_excluded _ printable);
        [apply printable_not_control | exact Hp]).
  rewrite control_removal; [exact Hid|].
  apply (forallb_weaken course_kept); [| exact H].
  intros c Hc. unfold course_kept in Hc. apply N.ltb_lt in Hc.
  apply negb_true_iff. unfold in_range. apply andb_false_iff. left.
  apply N.leb_gt. exact Hc.
Qed.

(** C2, amended.  For a text that starts with an opening brace, ends with
    a closing brace and is valid JSON (tabs and line breaks between its
    tokens included), the roadmap-content extractor returns the value
    JSON.parse gives for the text when the text holds no character of
    U+007F-U+009F and no smart quote or dash; the generate-course extractor
    does so when the text holds no character above U+007E and, once its
    control characters are removed, no site that the syntax repairs
    rewrite. *)
Theorem object_text_extracts_as_parsed :
  forall (body : jsstring) (v : json),
    JSON_parse (LBRACE :: body ++ [RBRACE]) = Some v ->
    (forallb roadmap_kept (LBRACE :: body ++ [RBRACE]) = true ->
     extract_roadmap (LBRACE :: body ++ [RBRACE]) = Some v)
    /\ (forallb course_kept (LBRACE :: body ++ [RBRACE]) = true ->
        no_repair_site (clean_characters (LBRACE :: body ++ [RBRACE])) = true ->
        extract_course (LBRACE :: body ++ [RBRACE]) = Some v).
Proof.
  intros body v Hv. split.
  - intros Hkept. unfold extract_roadmap, roadmap_cleaned.
    rewrite object_text_kept, (clean_special_kept _ Hkept).
    apply JsonFacts.JSON_parse_unspaced. exact Hv.
  - intros Hkept Hsite. unfold extract_course, course_fixed.
    rewrite object_text_kept, (fix_common_issues_no_site _ Hsite),
      (clean_characters_kept _ Hkept).
    apply JsonFacts.JSON_parse_unspaced. exact Hv.
Qed.

(** A pretty-printed object: line feeds, tabs and a carriage return
    between the tokens. *)
Definition sample_object_body : jsstring :=
  [LF; 9%N] ++ text "'modules': [" ++ [LF; 9%N; 9%N]
  ++ text "{'module_title': 'Basics', 'lessons': []}" ++ [13%N; LF; 9%N]
  ++ text "]" ++ [LF].

Definition sample_object_value : json :=
  JObj [(lit "modules",
         JArr [JObj [(lit "module_title", JStr (lit "Basics"));
                     (lit "lessons", JArr [])]])].

Lemma object_text_witness :
  extract_roadmap (LBRACE :: sample_object_body ++ [RBRACE])
  = Some sample_object_value
  /\ extract_course (LBRACE :: sample_object_body ++ [RBRACE])
     = Some sample_object_value.
Proof.
  destruct (object_text_extracts_as_parsed sample_object_body
              sample_object_value eq_refl)
    as [Hroadmap Hcourse].
  split; [apply Hroadmap; reflexivity | apply Hcourse; reflexivity].
Defined.

(** Without the condition on the repair sites the statement fails even on
    seven-bit text: the key below holds two escaped quotes, a line feed
    separates it from its colon, and once the line feed is removed the
    quote repair fires on the key and the text no longer parses. *)
Example repair_site_after_cleaning :
  let t := text "{'k\'x\'y'" ++ [LF] ++ text ":1}" in
  JSON_parse t = Some (JObj [(text "k'x'y", num_of_nat 1)])
  /\ forallb course_kept t = true
  /\ no_repair_site t = true
  /\ no_repair_site (clean_characters t) = false
  /\ extract_course t = None.
Proof. vm_compute. repeat split; reflexivity. Qed.

(** *** Smart quotes inside a string value *)

Definition scenario_smart : jsstring :=
  text "{'title': 'He said " ++ [LDQUO] ++ lit "hi" ++ [RDQUO] ++ text "'}".

(** C3 on the code.  The text is valid JSON as it stands; the cleaning turns
    both smart quotes into plain quotes, the quote repair (which only fires
    on a quoted text followed by a colon) leaves them unescaped, JSON.parse
    throws, and generate-course answers with the fallback course instead of
    a title that holds [He said], a quote, [hi] and a quote. *)
Theorem smart_quotes_in_value_fall_back :
  JSON_parse scenario_smart
  = Some (JObj [(lit "title",
                 JStr (lit "He said " ++ [LDQUO] ++ lit "hi" ++ [RDQUO]))])
  /\ course_fixed scenario_smart = text "{'title': 'He said 'hi''}"
  /\ extract_course scenario_smart = None
  /\ Edge.generate_course (Edge.example_runtime (Some (lit "gsk")))
       (Edge.mkCourseRequest (Some (lit "Chess")) (Some (lit "beginner"))
          (Some (lit "1-2 hours")) None)
       (Edge.ReplyOk scenario_smart)
     = Edge.mkResponse 200
         (Edge.CourseBody true (Edge.fallback_course (lit "Chess"))).
Proof. repeat split; vm_compute; reflexivity. Qed.

(** The same on a text that carries the modules array the handler looks
    for: as it stands it parses to a course, after the cleaning it does not
    parse at all. *)
Definition course_with_smart_quotes : jsstring :=
  text "{'modules': [{'module_title': 'The " ++ [LDQUO] ++ lit "best"
  ++ [RDQUO] ++ text " openings', 'lessons': []}]}".

Example smart_quotes_in_course_fall_back :
  match JSON_parse course_with_smart_quotes with
  | Some v => Edge.has_modules_array v
  | None => false
  end = true
  /\ extract_course course_with_smart_quotes = None
  /\ Edge.generate_course (Edge.example_runtime (Some (lit "gsk")))
       (Edge.mkCourseRequest (Some (lit "Chess")) (Some (lit "beginner"))
          (Some (lit "1-2 hours")) None)
       (Edge.ReplyOk course_with_smart_quotes)
     = Edge.mkResponse 200
         (Edge.CourseBody true (Edge.fallback_course (lit "Chess"))).
Proof. repeat split; vm_compute; reflexivity. Qed.

(** Smart dashes and apostrophes inside a value do come back as their plain
    forms. *)
Example smart_dashes_round_trip :
  extract_course
    (text "{'a': '1" ++ [ENDASH] ++ lit "2 " ++ [EMDASH] ++ lit " it"
     ++ [RSQUO] ++ text "s'}")
  = extract_course (text "{'a': '1-2 - it" ++ [APOSTROPHE] ++ text "s'}")
  /\ extract_course (text "{'a': '1-2 - it" ++ [APOSTROPHE] ++ text "s'}")
     = Some (JObj [(lit "a", JStr (lit "1-2 - it" ++ [APOSTROPHE] ++ lit "s"))]).
Proof. split; vm_compute; reflexivity. Qed.

(** The quote repair does fire on a key: a quoted text with one embedded
    pair of quotes that is followed by a colon. *)
Example quotes_in_key_are_escaped :
  extract_course (text "{'my 'quoted' key': 1}")
  = Some (JObj [(lit "my " ++ [DQUOTE] ++ lit "quoted" ++ [DQUOTE] ++ lit " key",
                 num_of_nat 1)]).
Proof. vm_compute. reflexivity. Qed.

End ExtractFacts.
(* ------------------------------------------------------------------ *)
(** ** The handlers *)

Module EdgeFacts.
Import Edge.

#[local] Arguments fallback_course : simpl never.
#[local] Arguments parse_course : simpl never.
#[local] Arguments extract_course : simpl never.
#[local] Arguments extract_roadmap : simpl never.
#[local] Arguments extract_plain : simpl never.
#[local] Arguments lit : simpl never.
#[local] Arguments of_nat : simpl never.

Lemma fallback_course_complete :
  forall courseTitle, course_complete (fallback_course courseTitle) = true.
Proof. intros courseTitle. reflexivity. Qed.

(** C1.  generate-course: when the request is well formed, the credential is
    set and the inference call succeeded, but the returned text does not
    clean up into JSON with a top-level modules array, the handler answers
    200 with [success: true] and the hard-coded fallback course; that
    fallback has at least one module, every module has at least one lesson,
    and every lesson has objectives, content, exactly two quiz questions and
    exactly two resources. *)
Theorem soft_failure_yields_fallback_course :
  forall (rt : runtime) (req : course_request) (content : jsstring),
    validated_field_missing (GenerateCourse req) = false ->
    key_unset rt = false ->
    (extract_course content = None
     \/ exists v, extract_course content = Some v /\ has_modules_array v = false) ->
    generate_course rt req (ReplyOk content)
    = mkResponse 200
        (CourseBody true (fallback_course (interpolate (cr_title req))))
    /\ course_complete (fallback_course (interpolate (cr_title req))) = true.
Proof.
  intros rt req content Hfields Hkey Hparse.
  split; [| apply fallback_course_complete].
  unfold generate_course, respond, try_catch, bind, assert.
  cbn in Hfields. apply negb_false_iff in Hfields. rewrite Hfields.
  unfold require_key, key_unset in *.
  destruct (GROQ_API_KEY rt) as [[| c k] |]; try discriminate.
  cbn.
  assert (Hnone : parse_course content = None).
  { unfold parse_course.
    destruct Hparse as [H | [v [H Hv]]]; rewrite H; [reflexivity|].
    rewrite Hv. reflexivity. }
  rewrite Hnone. reflexivity.
Qed.

Definition sample_course_request : course_request :=
  mkCourseRequest (Some (lit "Chess")) (Some (lit "beginner"))
    (Some (lit "1-2 hours")) None.

Lemma soft_failure_witness :
  generate_course (example_runtime (Some (lit "gsk"))) sample_course_request
    (ReplyOk (lit "not json"))
  = mkResponse 200 (CourseBody true (fallback_course (lit "Chess")))
  /\ course_complete (fallback_course (lit "Chess")) = true.
Proof.
  apply (@soft_failure_yields_fallback_course
           (example_runtime (Some (lit "gsk"))) sample_course_request
           (lit "not json")).
  - reflexivity.
  - reflexivity.
  - left. vm_compute. reflexivity.
Defined.

Definition sample_recommendations_request : recommendations_request :=
  mkRecommendationsRequest (Some (lit "Spanish Basics"))
    (Some [lit "Greetings"]) (Some [lit "Hola"]) (Some 9%float) None.

(** C5, as stated, fails: with the credential unset, and also with a
    rate-limited inference call, the lesson-recommendation endpoint answers
    200 with the static templates. *)
Lemma recommendations_fall_back_with_200 :
  key_unset (example_runtime None) = true
  /\ status (serve (example_runtime None)
               (GenerateLessonRecommendations sample_recommendations_request)
               (ReplyOk [])) = 200
  /\ reply_not_ok (ReplyNotOk 429 []) = true
  /\ status (serve (example_runtime (Some (lit "gsk")))
               (GenerateLessonRecommendations sample_recommendations_request)
               (ReplyNotOk 429 [])) = 200.
Proof. repeat split; vm_compute; reflexivity. Qed.

Ltac destruct_field f :=
  let c := fresh "c" in
  let r := fresh "r" in
  destruct f as [[| c r] |]; cbn; try discriminate.

(** C5, amended.  A request that lacks a field its handler validates, an
    unset GROQ_API_KEY, or a non-success status of the inference call is
    answered with HTTP 500 carrying the message and the string rendering of
    the error, by generate-course, validate-quiz-answer,
    generate-roadmap-content, generate-adaptive-feedback and ai-tutor-chat
    (the last two validate no field).  generate-lesson-recommendations does
    so only for a missing courseTitle: with the credential unset or the
    inference call refused it answers 200 with the static templates. *)
Theorem hard_failures_by_handler :
  forall (rt : runtime) (c : call) (reply : groq_reply),
    validated_field_missing c = true \/ key_unset rt = true
    \/ reply_not_ok reply = true ->
    if validated_field_missing c || negb (falls_back_on_provider_failure c)
    then exists e : exn,
        serve rt c reply
        = mkResponse 500 (ErrorBody (exn_message e) (exn_toString e))
    else exists req,
        c = GenerateLessonRecommendations req
        /\ serve rt c reply
           = getFallbackRecommendations rt (interpolate (rr_courseTitle req))
               (rr_averageQuizScore req) (requested_count req).
Proof.
  intros rt c reply H.
  assert (Hkey : key_unset rt = true ->
                 exists e, require_key rt = inr e).
  { unfold key_unset, require_key.
    destruct (GROQ_API_KEY rt) as [[| ? ?] |]; intros; try discriminate;
      eexists; reflexivity. }
  assert (Hset : key_unset rt = false -> exists k, require_key rt = inl k).
  { unfold key_unset, require_key.
    destruct (GROQ_API_KEY rt) as [[| ? ?] |]; intros; try discriminate;
      eexists; reflexivity. }
  destruct c as [req | req | req | req | req | req]; cbn in *.
  - (* generate-course *)
    rewrite orb_true_r. unfold generate_course, respond, try_catch, bind, assert.
    destruct (truthy_str (cr_title req) && truthy_str (cr_audience_level req)
              && truthy_str (cr_duration req)); cbn in *;
      [| eexists; reflexivity].
    destruct (key_unset rt) eqn:K.
    + destruct (Hkey eq_refl) as [e ->]. exists e. reflexivity.
    + destruct (Hset eq_refl) as [k ->].
      destruct reply; cbn in *;
        try (destruct H as [H | [H | H]]; discriminate).
      eexists; reflexivity.
  - (* generate-lesson-recommendations *)
    rewrite orb_false_r.
    unfold generate_lesson_recommendations, respond, try_catch, bind, assert.
    destruct (truthy_str (rr_courseTitle req)); cbn in *;
      [| eexists; reflexivity].
    exists req. split; [reflexivity|].
    destruct (key_unset rt) eqn:K.
    + destruct (Hkey eq_refl) as [e ->]. reflexivity.
    + destruct (Hset eq_refl) as [k ->]. cbn.
      destruct reply as [st txt | msg | msg | other | content | msg]; cbn in *;
        try (destruct H as [H | [H | H]]; discriminate).
      unfold generateAIRecommendations, bind, assert.
      destruct (rr_moduleTopics req), (rr_lessonTopics req); cbn;
        try reflexivity.
      destruct (Nat.eqb st 429); reflexivity.
  - (* validate-quiz-answer *)
    rewrite orb_true_r. unfold validate_quiz_answer, respond, try_catch, bind, assert.
    destruct (truthy_str (vr_userAnswer req) && truthy_str (vr_question req)
              && truthy_str (vr_correctAnswer req)); cbn in *;
      [| eexists; reflexivity].
    destruct (key_unset rt) eqn:K.
    + destruct (Hkey eq_refl) as [e ->]. exists e. reflexivity.
    + destruct (Hset eq_refl) as [k ->].
      destruct reply; cbn in *;
        try (destruct H as [H | [H | H]]; discriminate).
      eexists; reflexivity.
  - (* generate-adaptive-feedback *)
    unfold generate_adaptive_feedback, respond, try_catch, bind, assert.
    destruct (key_unset rt) eqn:K.
    + destruct (Hkey eq_refl) as [e ->]. exists e. reflexivity.
    + destruct (Hset eq_refl) as [k ->].
      destruct (fr_struggle_topics req), (fr_understanding_topics req);
        cbn; try (eexists; reflexivity).
      destruct reply; cbn in *;
        try (destruct H as [H | [H | H]]; discriminate).
      eexists; reflexivity.
  - (* generate-roadmap-content *)
    rewrite orb_true_r.
    unfold generate_roadmap_content, respond, try_catch, bind, assert.
    destruct (truthy_str (rm_courseTitle req) && truthy_str (rm_category req)
              && truthy_str (rm_contentType req)); cbn in *;
      [| eexists; reflexivity].
    destruct (key_unset rt) eqn:K.
    + destruct (Hkey eq_refl) as [e ->]. exists e. reflexivity.
    + destruct (Hset eq_refl) as [k ->].
      destruct reply; cbn in *;
        try (destruct H as [H | [H | H]]; discriminate).
      eexists; reflexivity.
  - (* ai-tutor-chat *)
    unfold ai_tutor_chat, respond, try_catch, bind.
    destruct (key_unset rt) eqn:K.
    + destruct (Hkey eq_refl) as [e ->]. exists e. reflexivity.
    + destruct (Hset eq_refl) as [k ->].
      destruct reply; cbn in *;
        try (destruct H as [H | [H | H]]; discriminate).
      eexists; reflexivity.
Qed.

Lemma hard_failures_witness :
  exists e : exn,
    serve (example_runtime None) (GenerateCourse sample_course_request)
      (ReplyOk [])
    = mkResponse 500 (ErrorBody (exn_message e) (exn_toString e)).
Proof.
  apply (@hard_failures_by_handler (example_runtime None)
           (GenerateCourse sample_course_request) (ReplyOk [])).
  right; left; reflexivity.
Defined.

(** The model-supplied path clamps: a score of 3 comes back as 1, a score
    of 0.1 as 0.7, and a missing difficulty as Intermediate. *)
Example ai_path_clamps :
  match resp_body
          (generate_lesson_recommendations (example_runtime (Some (lit "gsk")))
             sample_recommendations_request
             (ReplyOk (text "{'recommendations':[{'relevanceScore':3},{'relevanceScore':0.1}]}")))
  with
  | RecommendationsBody l =>
      map (fun r => (relevanceScore r, rec_difficulty r)) l
      = [(1%float, jstr "Intermediate"); (0.7%float, jstr "Intermediate")]
  | _ => False
  end.
Proof. vm_compute. reflexivity. Qed.

(** C6 on the static-template path.  With the credential unset, a Spanish
    course and an average quiz score of 9, the first recommendation leaves
    the handler with relevanceScore 0.9 + 0.2, above 1; for a course of no
    known category and an average score of 3 the scores are 0.5, 0.4 and
    0.45, below 0.7.  Nothing on this path clamps. *)
Theorem fallback_relevance_is_not_clamped :
  (match resp_body
           (generate_lesson_recommendations (example_runtime None)
              sample_recommendations_request (ReplyOk []))
   with
   | RecommendationsBody (first :: _) =>
       relevanceScore first = (0.9 + 0.2)%float
       /\ (1 <? relevanceScore first)%float = true
   | _ => False
   end)
  /\ (match resp_body
            (generate_lesson_recommendations (example_runtime None)
               (mkRecommendationsRequest (Some (lit "Cooking")) None None
                  (Some 3%float) None)
               (ReplyOk []))
      with
      | RecommendationsBody l =>
          forallb (fun r => (relevanceScore r <? 0.7)%float) l = true
          /\ length l = 3
      | _ => False
      end).
Proof. split; vm_compute; split; reflexivity. Qed.

End EdgeFacts.

(* ------------------------------------------------------------------ *)
(** ** The [useCourses] hook *)

Module CoursesFacts.
Import Courses.
Local Open Scope prog_scope.

(** *** deleteCourse *)

(** C8.  deleteCourse issues the deletion of the quiz_scores rows first.
    When that request is answered without an error, the deletion of the
    course row is issued next, and nothing else; when it is answered with
    an error, the course deletion is never issued, the database (the
    course and everything under it) and the course list of the UI are left
    as they were, and the failure is reported. *)
Theorem quiz_scores_deleted_before_course :
  forall (w : world) (user courseId : uuid),
    log (deleteCourse user courseId w)
    = log w ++ DeleteQuizScores courseId
               :: (if hd false (faults w) then [] else [DeleteCourse courseId])
    /\ (hd false (faults w) = true ->
        db (deleteCourse user courseId w) = db w
        /\ ui_courses (deleteCourse user courseId w) = ui_courses w
        /\ toasts (deleteCourse user courseId w)
           = toasts w ++ [ToastDeleteFailed]).
Proof.
  intros w user courseId.
  unfold deleteCourse, and_then, or_throw, command, request.
  destruct (faults w) as [| [|] fs] eqn:F; simpl; rewrite ?F; simpl.
  - destruct (delete_course user courseId
                (delete_quiz_scores user courseId (db w)));
      simpl; rewrite <- app_assoc; simpl; split; auto; discriminate.
  - split; auto.
  - split; [| discriminate].
    destruct fs as [| [|] fs']; simpl;
      try destruct (delete_course user courseId
                      (delete_quiz_scores user courseId (db w)));
      simpl; rewrite <- app_assoc; simpl; auto.
Qed.

Definition refusing_world : world :=
  mkWorld (mkStore [mkCourseRow 1 7 (lit "Chess") 0 0 None] [] [] [] []
             [mkScoreRow 2 3 1] [] 4 1)
    [true] [] [] [].

Lemma quiz_scores_deleted_before_course_witness :
  log (deleteCourse 7 1 refusing_world) = [DeleteQuizScores 1]
  /\ db (deleteCourse 7 1 refusing_world) = db refusing_world
  /\ ui_courses (deleteCourse 7 1 refusing_world) = []
  /\ toasts (deleteCourse 7 1 refusing_world) = [ToastDeleteFailed].
Proof.
  destruct (quiz_scores_deleted_before_course refusing_world 7 1) as [Hlog Hkept].
  split; [exact Hlog | apply Hkept; reflexivity].
Defined.

(** *** calculateCourseProgress *)

Definition one_module (ls : list Lesson) : list Module :=
  [mkModule (mkModuleRow 1 0 [] 1) ls].

Definition plain_lesson (completed : bool) : Lesson :=
  mkLesson (mkLessonRow 0 1 [] 0 (Some []) [] completed) [] [].

(** C7, as stated, fails: with 23 of 40 lessons completed the hook computes
    (23 / 40) * 100 in double precision, which is 57.499999999999993, and
    returns 57, where 100 * 23 / 40 = 57.5 rounds to 58. *)
Lemma progress_23_of_40 :
  let ms := one_module (repeat (plain_lesson true) 23
                        ++ repeat (plain_lesson false) 17) in
  completedLessons ms = 23 /\ totalLessons ms = 40
  /\ calculateCourseProgress ms = 57%Z
  /\ rounded_percentage (completedLessons ms) (totalLessons ms) = 58%Z.
Proof. vm_compute. repeat split; reflexivity. Qed.

Lemma fold_left_add_le :
  forall (A : Type) (f g : A -> nat) (l : list A) (a b : nat),
    (forall x, f x <= g x) -> a <= b ->
    fold_left (fun t x => t + f x) l a <= fold_left (fun t x => t + g x) l b.
Proof.
  intros A f g l. induction l as [| x l IH]; intros a b Hfg Hab; simpl.
  - exact Hab.
  - apply IH; [exact Hfg|]. specialize (Hfg x). lia.
Qed.

Lemma completed_le_total :
  forall ms, completedLessons ms <= totalLessons ms.
Proof.
  intros ms. unfold completedLessons, totalLessons.
  apply fold_left_add_le; [| lia].
  intros m. apply filter_length_le.
Qed.

Definition percentage (completed total : nat) : Z :=
  Math_round (number_of_nat completed / number_of_nat total * 100)%float.

Definition agree_below (bound : nat) : bool :=
  forallb
    (fun total =>
       forallb
         (fun completed =>
            Z.eqb (percentage completed total)
              (rounded_percentage completed total))
         (seq 0 (S total)))
    (seq 1 (bound - 1)).

Lemma agree_below_40 : agree_below 40 = true.
Proof. vm_compute. reflexivity. Qed.

Lemma percentage_exact_below_40 :
  forall completed total,
    0 < total < 40 -> completed <= total ->
    percentage completed total = rounded_percentage completed total.
Proof.
  intros completed total Ht Hc.
  pose proof agree_below_40 as H. unfold agree_below in H.
  rewrite forallb_forall in H.
  specialize (H total). rewrite in_seq in H.
  assert (Hin : 1 <= total < 1 + (40 - 1)) by lia.
  specialize (H Hin). rewrite forallb_forall in H.
  specialize (H completed). rewrite in_seq in H.
  apply Z.eqb_eq. apply H. lia.
Qed.

(** *** fetchCourses only reads, then writes progress back on a change *)

Definition is_select (o : op) : bool :=
  match o with
  | SelectCourses _ | SelectModules _ | SelectLessons _
  | SelectQuizQuestions _ | SelectResources _ => true
  | _ => false
  end.

Definition reads_only {A} (m : prog A) : Prop :=
  forall w, exists reads,
    forallb is_select reads = true /\ log (snd (m w)) = log w ++ reads.

Lemma request_log :
  forall A (o : op) (run : store -> option (A * store)) (w : world),
    log (snd (request o run w)) = log w ++ [o].
Proof.
  intros A o run w. unfold request.
  destruct (faults w) as [| [|] fs]; simpl; try reflexivity;
    destruct (run (db w)) as [[a st] |]; reflexivity.
Qed.

Lemma reads_only_pure : forall A (a : A), reads_only (pure a).
Proof. intros A a w. exists []. simpl. rewrite app_nil_r. auto. Qed.

Lemma reads_only_and_then :
  forall A B (m : prog A) (k : A -> prog B),
    reads_only m -> (forall a, reads_only (k a)) -> reads_only (and_then m k).
Proof.
  intros A B m k Hm Hk w. unfold and_then.
  destruct (Hm w) as [r1 [S1 L1]].
  destruct (m w) as [[a | e] w1]; simpl in *.
  - destruct (Hk a w1) as [r2 [S2 L2]].
    exists (r1 ++ r2). rewrite forallb_app, S1, S2. split; [reflexivity|].
    rewrite L2, L1, app_assoc. reflexivity.
  - exists r1. auto.
Qed.

Lemma reads_only_or_throw :
  forall A (e o : op) (read : store -> A),
    is_select o = true -> reads_only (or_throw e (query o read)).
Proof.
  intros A e o read Ho w. exists [o]. simpl. rewrite Ho. split; [reflexivity|].
  unfold or_throw, query.
  pose proof (request_log _ o (fun st => Some (read st, st)) w) as L.
  destruct (request o (fun st => Some (read st, st)) w) as [[a |] w1];
    simpl in *; exact L.
Qed.

Lemma reads_only_ignoring :
  forall A (o : op) (read : store -> A),
    is_select o = true -> reads_only (ignoring_error (query o read)).
Proof.
  intros A o read Ho w. exists [o]. simpl. rewrite Ho. split; [reflexivity|].
  unfold ignoring_error, query.
  pose proof (request_log _ o (fun st => Some (read st, st)) w) as L.
  destruct (request o (fun st => Some (read st, st)) w) as [a w1];
    simpl in *; exact L.
Qed.

Lemma reads_only_promise_all :
  forall A B (f : A -> prog B) (l : list A),
    (forall a, reads_only (f a)) -> reads_only (promise_all f l).
Proof.
  intros A B f l Hf. induction l as [| a l IH]; intros w.
  - apply reads_only_pure.
  - cbn [promise_all].
    destruct (Hf a w) as [r1 [S1 L1]].
    destruct (f a w) as [x w1]. cbn [snd] in L1.
    destruct (IH w1) as [r2 [S2 L2]].
    destruct (promise_all f l w1) as [xs w2]. cbn [snd] in *.
    exists (r1 ++ r2). rewrite forallb_app, S1, S2. split; [reflexivity|].
    rewrite L2, L1, app_assoc. reflexivity.
Qed.

Lemma reads_only_fetch_lesson : forall l, reads_only (fetch_lesson l).
Proof.
  intros l. unfold fetch_lesson.
  apply reads_only_and_then; [apply reads_only_ignoring; reflexivity|].
  intros q.
  apply reads_only_and_then; [apply reads_only_ignoring; reflexivity|].
  intros r. apply reads_only_pure.
Qed.

Lemma reads_only_fetch_module : forall m, reads_only (fetch_module m).
Proof.
  intros m. unfold fetch_module.
  apply reads_only_and_then; [apply reads_only_or_throw; reflexivity|].
  intros ls.
  apply reads_only_and_then;
    [apply reads_only_promise_all; apply reads_only_fetch_lesson|].
  intros x. apply reads_only_pure.
Qed.

(** What one fetch of a course issues: reads only, followed by exactly one
    progress update when, and only when, the computed value differs from
    the stored one. *)
Lemma fetch_course_writes_back_on_change :
  forall (course : course_row) (w : world),
  exists reads,
    forallb is_select reads = true
    /\ match fetch_course course w with
       | (inl view, w') =>
           progress view = calculateCourseProgress (course_modules view)
           /\ log w' = log w ++ reads ++
                (if Z.eqb (progress view) (course_progress course) then []
                 else [UpdateProgress (course_id course) (progress view)])
       | (inr _, w') => log w' = log w ++ reads
       end.
Proof.
  intros course w. unfold fetch_course.
  set (load :=
         modulesData <- or_throw (SelectModules (course_id course))
                          (query (SelectModules (course_id course))
                             (select_modules (course_id course))) ;;
         promise_all fetch_module modulesData).
  assert (Hload : reads_only load).
  { apply reads_only_and_then; [apply reads_only_or_throw; reflexivity|].
    intros ms. apply reads_only_promise_all. apply reads_only_fetch_module. }
  destruct (Hload w) as [reads [Hsel Hlog]]. exists reads.
  split; [exact Hsel|].
  subst load. unfold and_then in *.
  destruct (or_throw (SelectModules (course_id course))
              (query (SelectModules (course_id course))
                 (select_modules (course_id course))) w) as [[ms | e] w1];
    simpl in *; [| exact Hlog].
  destruct (promise_all fetch_module ms w1) as [[views | e] w2]; simpl in *;
    [| exact Hlog].
  destruct (Z.eqb (calculateCourseProgress views) (course_progress course))
    eqn:E; simpl; rewrite ?E.
  - split; [reflexivity|]. rewrite app_nil_r. exact Hlog.
  - unfold ignoring_error, command.
    pose proof (request_log _
                  (UpdateProgress (course_id course)
                     (calculateCourseProgress views))
                  (fun st => match Some (update_progress (course_id course)
                                           (calculateCourseProgress views) st)
                             with
                             | Some st' => Some (tt, st')
                             | None => None
                             end) w2) as L.
    destruct (request _ _ w2) as [r w3]; simpl in *. rewrite ?E.
    split; [reflexivity|]. rewrite L, Hlog, app_assoc. reflexivity.
Qed.

(** C7, amended.  The progress computation returns 0 when there are no
    lessons (in particular for an empty module list); otherwise it returns
    Math.round of (completed / total) * 100 as computed in double
    precision, which for every course of fewer than 40 lessons is the
    exactly rounded percentage; and a fetch writes the value back to the
    course row when, and only when, it differs from the stored progress. *)
Theorem progress_computed_and_written_back_on_change :
  forall (ms : list Module) (course : course_row) (w : world),
    (totalLessons ms = 0 -> calculateCourseProgress ms = 0%Z)
    /\ (totalLessons ms <> 0 ->
        calculateCourseProgress ms
        = Math_round (number_of_nat (completedLessons ms)
                      / number_of_nat (totalLessons ms) * 100)%float)
    /\ (0 < totalLessons ms < 40 ->
        calculateCourseProgress ms
        = rounded_percentage (completedLessons ms) (totalLessons ms))
    /\ (exists reads,
           forallb is_select reads = true
           /\ match fetch_course course w with
              | (inl view, w') =>
                  progress view = calculateCourseProgress (course_modules view)
                  /\ log w' = log w ++ reads ++
                       (if Z.eqb (progress view) (course_progress course)
                        then []
                        else [UpdateProgress (course_id course) (progress view)])
              | (inr _, w') => log w' = log w ++ reads
              end).
Proof.
  intros ms course w.
  assert (Hnonempty : totalLessons ms <> 0 -> Nat.eqb (length ms) 0 = false).
  { destruct ms; [intros H; exfalso; apply H; reflexivity | reflexivity]. }
  repeat split.
  - intros H0. unfold calculateCourseProgress.
    destruct (Nat.eqb (length ms) 0); [reflexivity|].
    rewrite H0. reflexivity.
  - intros Hne. unfold calculateCourseProgress.
    rewrite (Hnonempty Hne).
    destruct (Nat.eqb (totalLessons ms) 0) eqn:E; [| reflexivity].
    apply Nat.eqb_eq in E. contradiction.
  - intros Hlt. unfold calculateCourseProgress.
    rewrite Hnonempty by lia.
    destruct (Nat.eqb (totalLessons ms) 0) eqn:E;
      [apply Nat.eqb_eq in E; lia|].
    apply percentage_exact_below_40; [exact Hlt | apply completed_le_total].
  - apply fetch_course_writes_back_on_change.
Qed.

End CoursesFacts.
(* ------------------------------------------------------------------ *)
(** ** createCourse followed by fetchCourses *)

Module CreateFacts.
Import Courses.
Local Open Scope prog_scope.

(** *** Ordered selects *)

Section Selects.
Variable A : Type.
Variable parent : A -> uuid.

Definition children (pid : uuid) (rows : list A) : list A :=
  filter (fun r => Nat.eqb (parent r) pid) rows.

Lemma children_app :
  forall pid a b, children pid (a ++ b) = children pid a ++ children pid b.
Proof. intros. apply filter_app. Qed.

Lemma children_none :
  forall pid rows,
    Forall (fun r => parent r <> pid) rows -> children pid rows = [].
Proof.
  intros pid rows H. induction H as [| r rows Hr _ IH]; [reflexivity|].
  cbn [children filter]. destruct (Nat.eqb_spec (parent r) pid); [contradiction|].
  exact IH.
Qed.

Lemma children_all :
  forall pid rows,
    Forall (fun r => parent r = pid) rows -> children pid rows = rows.
Proof.
  intros pid rows H. induction H as [| r rows Hr _ IH]; [reflexivity|].
  cbn [children filter]. rewrite Hr, Nat.eqb_refl. f_equal. exact IH.
Qed.

End Selects.

Arguments children {A} parent pid rows.

Section Ordering.
Variable A : Type.
Variable key : A -> nat.

(** Rows whose keys count up from some number are already in order. *)
Lemma order_by_counting :
  forall rows a, map key rows = seq a (length rows) -> order_by key rows = rows.
Proof.
  induction rows as [| x rows IH]; intros a H; [reflexivity|].
  cbn [map length seq] in H. injection H as Hx Hrows.
  cbn [order_by]. rewrite (IH (S a) Hrows).
  destruct rows as [| y rows]; [reflexivity|].
  cbn [map length seq] in Hrows. injection Hrows as Hy _.
  cbn [insert_by]. rewrite Hx, Hy.
  replace (Nat.leb a (S a)) with true by (symmetry; apply Nat.leb_le; lia).
  reflexivity.
Qed.

Lemma insert_by_In :
  forall x y rows, In y (insert_by key x rows) <-> y = x \/ In y rows.
Proof.
  intros x y rows. induction rows as [| z rows IH]; cbn [insert_by].
  - cbn [In]. intuition.
  - destruct (Nat.leb (key x) (key z)); cbn [In] in *.
    + intuition.
    + rewrite IH. intuition.
Qed.

Lemma order_by_In :
  forall y rows, In y (order_by key rows) <-> In y rows.
Proof.
  intros y rows. induction rows as [| x rows IH]; cbn [order_by]; [tauto|].
  rewrite insert_by_In, IH. cbn [In]. intuition.
Qed.

End Ordering.

(** *** Running client code when the backend answers every request *)

Definition calm (w : world) : Prop := faults w = [].

Lemma request_calm :
  forall A (o : op) (run : store -> option (A * store)) (w : world) a st,
    calm w -> run (db w) = Some (a, st) ->
    request o run w
    = (Some a, mkWorld st [] (log w ++ [o]) (ui_courses w) (toasts w)).
Proof.
  intros A o run w a st Hw Hrun. unfold request, calm in *.
  rewrite Hw, Hrun. unfold with_db, issued. cbn. rewrite Hw. reflexivity.
Qed.

(** *** Content trees with every property in place *)

(** A content tree in which every array is an array of objects and every
    column gets a value it stores. *)
Record quiz_data : Type := mkQuizData
  { qd_question : jsstring; qd_options : list jsstring; qd_answer : jsstring }.

Record resource_data : Type := mkResourceData
  { rd_title : jsstring; rd_url : jsstring }.

Record lesson_data : Type := mkLessonData
  { ld_lesson_title : jsstring;
    ld_objectives : option (list jsstring);
    ld_content : jsstring;
    ld_quiz : list quiz_data;
    ld_free_resources : list resource_data }.

Record module_data : Type := mkModuleData
  { md_module_title : jsstring; md_lessons : list lesson_data }.

(** The same tree as [createCourse] reads it. *)
Definition generated_quiz_of (q : quiz_data) : option generated_quiz :=
  Some (mkGeneratedQuiz (Some (qd_question q)) (Some (qd_options q))
          (Some (qd_answer q))).

Definition generated_resource_of (r : resource_data)
  : option generated_resource :=
  Some (mkGeneratedResource (Some (rd_title r)) (Some (rd_url r))).

Definition generated_lesson_of (l : lesson_data) : option generated_lesson :=
  Some (mkGeneratedLesson (Some (ld_lesson_title l)) (Some (ld_objectives l))
          (Some (ld_content l))
          (Some (map generated_quiz_of (ld_quiz l)))
          (Some (map generated_resource_of (ld_free_resources l)))).

Definition generated_module_of (m : module_data) : option generated_module :=
  Some (mkGeneratedModule (Some (md_module_title m))
          (Some (map generated_lesson_of (md_lessons m)))).

Definition generated_of (content : list module_data) : generation :=
  Generated (Some (map generated_module_of content)).

(** The inserts of createCourse as functions on the store. *)
Fixpoint add_quiz (lesson : uuid) (index : nat) (qs : list quiz_data)
    (st : store) : store :=
  match qs with
  | [] => st
  | q :: r =>
      add_quiz lesson (S index) r
        (snd (insert_quiz lesson (qd_question q) (qd_options q) (qd_answer q)
                (index + 1) st))
  end.

Fixpoint add_resources (lesson : uuid) (index : nat) (rs : list resource_data)
    (st : store) : store :=
  match rs with
  | [] => st
  | r :: rest =>
      add_resources lesson (S index) rest
        (snd (insert_resource lesson (rd_title r) (rd_url r) (index + 1) st))
  end.

Definition add_lesson (module : uuid) (index : nat) (l : lesson_data)
    (st : store) : store :=
  let '(row, st1) :=
    insert_lesson module (ld_lesson_title l) (index + 1) (ld_objectives l)
      (ld_content l) st in
  add_resources (lesson_id row) 0 (ld_free_resources l)
    (add_quiz (lesson_id row) 0 (ld_quiz l) st1).

Fixpoint add_lessons (module : uuid) (index : nat) (ls : list lesson_data)
    (st : store) : store :=
  match ls with
  | [] => st
  | l :: r => add_lessons module (S index) r (add_lesson module index l st)
  end.

Definition add_module (course : uuid) (index : nat) (m : module_data)
    (st : store) : store :=
  let '(row, st1) := insert_module course (md_module_title m) (index + 1) st in
  add_lessons (module_id row) 0 (md_lessons m) st1.

Fixpoint add_modules (course : uuid) (index : nat) (ms : list module_data)
    (st : store) : store :=
  match ms with
  | [] => st
  | m :: r => add_modules course (S index) r (add_module course index m st)
  end.

(** A run that returned [a] and left the world calm with database [st],
    the UI state untouched. *)
Definition runs_to {A} (m : prog A) (w : world) (a : A) (st : store) : Prop :=
  exists w', m w = (inl a, w') /\ calm w' /\ db w' = st
             /\ ui_courses w' = ui_courses w /\ toasts w' = toasts w.

Lemma runs_to_bind :
  forall A B (m : prog A) (k : A -> prog B) w a st b st',
    runs_to m w a st ->
    (forall w1, calm w1 -> db w1 = st -> ui_courses w1 = ui_courses w ->
                toasts w1 = toasts w -> runs_to (k a) w1 b st') ->
    runs_to (and_then m k) w b st'.
Proof.
  intros A B m k w a st b st' [w1 [Hm [Hc [Hdb [Hui Hto]]]]] Hk.
  destruct (Hk w1 Hc Hdb Hui Hto) as [w2 [Hk2 [Hc2 [Hdb2 [Hui2 Hto2]]]]].
  exists w2. unfold and_then. rewrite Hm, Hk2.
  repeat split; try assumption; congruence.
Qed.

Lemma runs_to_pure :
  forall A (a : A) w, calm w -> runs_to (pure a) w a (db w).
Proof. intros A a w Hw. exists w. repeat split; assumption. Qed.

Lemma runs_to_insert_ignoring :
  forall A (o : op) (ins : store -> A * store) w,
    calm w ->
    runs_to (ignoring_error (insert o ins)) w (Some (fst (ins (db w))))
      (snd (ins (db w))).
Proof.
  intros A o ins w Hw. unfold runs_to, ignoring_error, insert.
  rewrite (request_calm A o _ w (fst (ins (db w))) (snd (ins (db w))) Hw)
    by (destruct (ins (db w)); reflexivity).
  eexists. split; [reflexivity|]. repeat split.
Qed.

Lemma runs_to_insert_or_throw :
  forall A (e o : op) (ins : store -> A * store) w,
    calm w ->
    runs_to (or_throw e (insert o ins)) w (fst (ins (db w))) (snd (ins (db w))).
Proof.
  intros A e o ins w Hw. unfold runs_to, or_throw, insert.
  rewrite (request_calm A o _ w (fst (ins (db w))) (snd (ins (db w))) Hw)
    by (destruct (ins (db w)); reflexivity).
  eexists. split; [reflexivity|]. repeat split.
Qed.

Lemma runs_to_query_or_throw :
  forall A (e o : op) (read : store -> A) w,
    calm w -> runs_to (or_throw e (query o read)) w (read (db w)) (db w).
Proof.
  intros A e o read w Hw. unfold runs_to, or_throw, query.
  rewrite (request_calm A o _ w (read (db w)) (db w) Hw) by reflexivity.
  eexists. split; [reflexivity|]. repeat split.
Qed.

Lemma runs_to_query_ignoring :
  forall A (o : op) (read : store -> A) w,
    calm w ->
    runs_to (ignoring_error (query o read)) w (Some (read (db w))) (db w).
Proof.
  intros A o read w Hw. unfold runs_to, ignoring_error, query.
  rewrite (request_calm A o _ w (read (db w)) (db w) Hw) by reflexivity.
  eexists. split; [reflexivity|]. repeat split.
Qed.

Lemma runs_to_defined :
  forall A (a : A) w, calm w -> runs_to (defined (Some a)) w a (db w).
Proof. intros A a w Hw. apply runs_to_pure. exact Hw. Qed.

Lemma runs_to_insert_values_ignoring :
  forall A B (o : op) (v : A) (ins : A -> store -> B * store) w,
    calm w ->
    runs_to (ignoring_error (insert_values o (Some v) ins)) w
      (Some (fst (ins v (db w)))) (snd (ins v (db w))).
Proof.
  intros A B o v ins w Hw.
  exact (runs_to_insert_ignoring B o (ins v) w Hw).
Qed.

Lemma runs_to_insert_values_or_throw :
  forall A B (e o : op) (v : A) (ins : A -> store -> B * store) w,
    calm w ->
    runs_to (or_throw e (insert_values o (Some v) ins)) w
      (fst (ins v (db w))) (snd (ins v (db w))).
Proof.
  intros A B e o v ins w Hw.
  exact (runs_to_insert_or_throw B e o (ins v) w Hw).
Qed.

(** Running a loop whose body is known, one element after the other. *)
Lemma run_for_each :
  forall A B (body : nat -> option B -> prog unit) (embed : A -> option B)
         (step : nat -> A -> store -> store)
         (all : nat -> list A -> store -> store),
    (forall index st, all index [] st = st) ->
    (forall index a r st,
        all index (a :: r) st = all (S index) r (step index a st)) ->
    (forall index a w,
        calm w -> runs_to (body index (embed a)) w tt (step index a (db w))) ->
    forall l index w,
      calm w ->
      runs_to (for_each body index (map embed l)) w tt (all index l (db w)).
Proof.
  intros A B body embed step all Hnil Hcons Hbody l.
  induction l as [| a l IH]; intros index w Hw.
  - cbn [map for_each]. rewrite Hnil. apply runs_to_pure. exact Hw.
  - cbn [map for_each]. rewrite Hcons.
    eapply runs_to_bind.
    + apply Hbody. exact Hw.
    + intros w1 Hc1 Hdb1 Hui1 Hto1.
      destruct (IH (S index) w1 Hc1) as [w2 [E [Hc2 [Hdb2 [Hui2 Hto2]]]]].
      exists w2. rewrite Hdb1 in Hdb2. repeat split; try assumption; congruence.
Qed.

Lemma run_add_quiz :
  forall lesson qs index w,
    calm w ->
    runs_to (for_each (create_quiz_question lesson) index
               (map generated_quiz_of qs)) w tt
      (add_quiz (lesson_id lesson) index qs (db w)).
Proof.
  intros lesson.
  apply (run_for_each _ _ (create_quiz_question lesson) generated_quiz_of
           (fun index q st =>
              snd (insert_quiz (lesson_id lesson) (qd_question q)
                     (qd_options q) (qd_answer q) (index + 1) st))
           (add_quiz (lesson_id lesson))); try reflexivity.
  intros index q w Hw. unfold create_quiz_question, generated_quiz_of.
  eapply runs_to_bind; [apply runs_to_defined; exact Hw|].
  intros w0 Hc0 Hdb0 Hui0 Hto0.
  eapply runs_to_bind.
  - apply runs_to_insert_values_ignoring. exact Hc0.
  - intros w1 Hc1 Hdb1 Hui1 Hto1.
    exists w1. rewrite Hdb0 in Hdb1. repeat split; eauto; congruence.
Qed.

Lemma run_add_resources :
  forall lesson rs index w,
    calm w ->
    runs_to (for_each (create_resource lesson) index
               (map generated_resource_of rs)) w tt
      (add_resources (lesson_id lesson) index rs (db w)).
Proof.
  intros lesson.
  apply (run_for_each _ _ (create_resource lesson) generated_resource_of
           (fun index r st =>
              snd (insert_resource (lesson_id lesson) (rd_title r) (rd_url r)
                     (index + 1) st))
           (add_resources (lesson_id lesson))); try reflexivity.
  intros index r w Hw. unfold create_resource, generated_resource_of.
  eapply runs_to_bind; [apply runs_to_defined; exact Hw|].
  intros w0 Hc0 Hdb0 Hui0 Hto0.
  eapply runs_to_bind.
  - apply runs_to_insert_values_ignoring. exact Hc0.
  - intros w1 Hc1 Hdb1 Hui1 Hto1.
    exists w1. rewrite Hdb0 in Hdb1. repeat split; eauto; congruence.
Qed.

Lemma run_add_lesson :
  forall module index l w,
    calm w ->
    runs_to (create_lesson module index (generated_lesson_of l)) w tt
      (add_lesson (module_id module) index l (db w)).
Proof.
  intros module index l w Hw. unfold create_lesson, add_lesson, generated_lesson_of.
  eapply runs_to_bind; [apply runs_to_defined; exact Hw|].
  intros w0 Hc0 Hdb0 Hui0 Hto0.
  eapply runs_to_bind.
  - apply runs_to_insert_values_or_throw. exact Hc0.
  - intros w1 Hc1 Hdb1 Hui1 Hto1. cbn [gl_quiz gl_free_resources].
    eapply runs_to_bind; [apply runs_to_defined; exact Hc1|].
    intros w1' Hc1' Hdb1' Hui1' Hto1'.
    eapply runs_to_bind.
    + apply run_add_quiz. exact Hc1'.
    + intros w2 Hc2 Hdb2 Hui2 Hto2.
      eapply runs_to_bind; [apply runs_to_defined; exact Hc2|].
      intros w2' Hc2' Hdb2' Hui2' Hto2'.
      destruct (run_add_resources
                  (fst (insert_lesson (module_id module) (ld_lesson_title l)
                          (index + 1) (ld_objectives l) (ld_content l) (db w)))
                  (ld_free_resources l) 0 w2' Hc2')
        as [w3 [E [Hc3 [Hdb3 [Hui3 Hto3]]]]].
      exists w3. rewrite Hdb2', Hdb2, Hdb1', Hdb1, Hdb0 in Hdb3.
      rewrite Hdb0.
      repeat split; try assumption; try congruence.
Qed.

Lemma run_add_lessons :
  forall module ls index w,
    calm w ->
    runs_to (for_each (create_lesson module) index
               (map generated_lesson_of ls)) w tt
      (add_lessons (module_id module) index ls (db w)).
Proof.
  intros module.
  apply (run_for_each _ _ (create_lesson module) generated_lesson_of
           (add_lesson (module_id module)) (add_lessons (module_id module)));
    try reflexivity.
  intros index l w Hw. apply run_add_lesson. exact Hw.
Qed.

Lemma run_add_module :
  forall course index m w,
    calm w ->
    runs_to (create_module course index (generated_module_of m)) w tt
      (add_module (course_id course) index m (db w)).
Proof.
  intros course index m w Hw. unfold create_module, add_module, generated_module_of.
  eapply runs_to_bind; [apply runs_to_defined; exact Hw|].
  intros w0 Hc0 Hdb0 Hui0 Hto0.
  eapply runs_to_bind.
  - apply runs_to_insert_values_or_throw. exact Hc0.
  - intros w1 Hc1 Hdb1 Hui1 Hto1. cbn [gm_lessons gm_module_title].
    eapply runs_to_bind; [apply runs_to_defined; exact Hc1|].
    intros w1' Hc1' Hdb1' Hui1' Hto1'.
    destruct (run_add_lessons
                (fst (insert_module (course_id course) (md_module_title m)
                        (index + 1) (db w)))
                (md_lessons m) 0 w1' Hc1')
      as [w2 [E [Hc2 [Hdb2 [Hui2 Hto2]]]]].
    exists w2. rewrite Hdb1', Hdb1, Hdb0 in Hdb2. rewrite Hdb0.
    repeat split; try assumption; try congruence.
Qed.

Lemma run_add_modules :
  forall course ms index w,
    calm w ->
    runs_to (for_each (create_module course) index
               (map generated_module_of ms)) w tt
      (add_modules (course_id course) index ms (db w)).
Proof.
  intros course.
  apply (run_for_each _ _ (create_module course) generated_module_of
           (add_module (course_id course)) (add_modules (course_id course)));
    try reflexivity.
  intros index m w Hw. apply run_add_module. exact Hw.
Qed.

(** *** What is read back from a store *)

Definition span_lesson (Q : list quiz_row) (R : list resource_row)
    (l : lesson_row) : Lesson :=
  mkLesson l
    (order_by question_order (children quiz_lesson_id (lesson_id l) Q))
    (order_by resource_order (children resource_lesson_id (lesson_id l) R)).

Definition span_module (L : list lesson_row) (Q : list quiz_row)
    (R : list resource_row) (m : module_row) : Module :=
  mkModule m
    (map (span_lesson Q R)
       (order_by lesson_order (children lesson_module_id (module_id m) L))).

Definition span_modules (M : list module_row) (L : list lesson_row)
    (Q : list quiz_row) (R : list resource_row) (course : uuid) : list Module :=
  map (span_module L Q R)
    (order_by module_order (children module_course_id course M)).

Definition read_modules (st : store) (course : uuid) : list Module :=
  span_modules (modules st) (lessons st) (quiz_questions st) (resources st)
    course.

(** The generator's view of what the UI got. *)
Definition quiz_data_of (q : quiz_row) : quiz_data :=
  mkQuizData (quiz_question q) (quiz_options q) (quiz_correct_answer q).

Definition resource_data_of (r : resource_row) : resource_data :=
  mkResourceData (resource_title r) (resource_url r).

Definition lesson_data_of (l : Lesson) : lesson_data :=
  mkLessonData (lesson_title (lesson_row_of l))
    (lesson_objectives (lesson_row_of l)) (lesson_content (lesson_row_of l))
    (map quiz_data_of (quiz l)) (map resource_data_of (free_resources l)).

Definition module_data_of (m : Module) : module_data :=
  mkModuleData (module_title (module_row_of m))
    (map lesson_data_of (module_lessons m)).

(** Order columns that count 1, 2, 3, ... at every level. *)
Definition lesson_orders_ok (l : Lesson) : Prop :=
  map question_order (quiz l) = seq 1 (length (quiz l))
  /\ map resource_order (free_resources l) = seq 1 (length (free_resources l)).

Definition module_orders_ok (m : Module) : Prop :=
  map (fun l => lesson_order (lesson_row_of l)) (module_lessons m)
  = seq 1 (length (module_lessons m))
  /\ Forall lesson_orders_ok (module_lessons m).

Definition modules_orders_ok (ms : list Module) : Prop :=
  map (fun m => module_order (module_row_of m)) ms = seq 1 (length ms)
  /\ Forall module_orders_ok ms.

(** *** The rows a run of inserts appends *)

Definition appended (st st' : store) (M : list module_row)
    (L : list lesson_row) (Q : list quiz_row) (R : list resource_row) : Prop :=
  courses st' = courses st
  /\ modules st' = modules st ++ M
  /\ lessons st' = lessons st ++ L
  /\ quiz_questions st' = quiz_questions st ++ Q
  /\ resources st' = resources st ++ R.

Lemma appended_trans :
  forall st st1 st2 M1 L1 Q1 R1 M2 L2 Q2 R2,
    appended st st1 M1 L1 Q1 R1 -> appended st1 st2 M2 L2 Q2 R2 ->
    appended st st2 (M1 ++ M2) (L1 ++ L2) (Q1 ++ Q2) (R1 ++ R2).
Proof.
  unfold appended.
  intros st st1 st2 M1 L1 Q1 R1 M2 L2 Q2 R2
         [Hc [Hm [Hl [Hq Hr]]]] [Hc' [Hm' [Hl' [Hq' Hr']]]].
  rewrite Hc', Hm', Hl', Hq', Hr', Hc, Hm, Hl, Hq, Hr, !app_assoc.
  repeat split.
Qed.

Lemma appended_refl : forall st, appended st st [] [] [] [].
Proof. intros st. unfold appended. rewrite !app_nil_r. repeat split. Qed.

Ltac appended_by H1 H2 :=
  let Hc := fresh in let Hm := fresh in let Hl := fresh in
  let Hq := fresh in let Hr := fresh in
  let Hc' := fresh in let Hm' := fresh in let Hl' := fresh in
  let Hq' := fresh in let Hr' := fresh in
  destruct H1 as [Hc [Hm [Hl [Hq Hr]]]];
  destruct H2 as [Hc' [Hm' [Hl' [Hq' Hr']]]];
  unfold appended;
  rewrite Hc', Hm', Hl', Hq', Hr', Hc, Hm, Hl, Hq, Hr;
  rewrite <- ?app_assoc; cbn [app]; rewrite ?app_nil_r;
  repeat split; reflexivity.

Lemma seq_shift_one :
  forall a n, a + 1 :: seq (S a + 1) n = seq (a + 1) (S n).
Proof. intros a n. cbn [seq]. f_equal. Qed.

Lemma add_quiz_spec :
  forall qs lesson index st,
  exists Q,
    appended st (add_quiz lesson index qs st) [] [] Q []
    /\ Forall (fun q => quiz_lesson_id q = lesson) Q
    /\ map question_order Q = seq (index + 1) (length qs)
    /\ map quiz_data_of Q = qs
    /\ next_id (add_quiz lesson index qs st) = next_id st + length qs.
Proof.
  induction qs as [| q qs IH]; intros lesson index st.
  - exists []. cbn [add_quiz length map seq].
    split; [apply appended_refl|]. repeat split; auto.
  - cbn [add_quiz].
    set (st1 := snd (insert_quiz lesson (qd_question q) (qd_options q)
                       (qd_answer q) (index + 1) st)).
    destruct (IH lesson (S index) st1) as [Q [Happ [Hpar [Hord [Hdata Hnext]]]]].
    exists (mkQuizRow (next_id st) lesson (qd_question q) (qd_options q)
              (qd_answer q) (index + 1) :: Q).
    split; [| repeat split].
    + assert (H1 : appended st st1 [] []
                     [mkQuizRow (next_id st) lesson (qd_question q)
                        (qd_options q) (qd_answer q) (index + 1)] [])
        by (unfold appended, st1; cbn; rewrite !app_nil_r; repeat split).
      appended_by H1 Happ.
    + constructor; [reflexivity | exact Hpar].
    + cbn [map length question_order]. rewrite Hord. apply seq_shift_one.
    + cbn [map]. rewrite Hdata. destruct q; reflexivity.
    + rewrite Hnext. unfold st1. cbn. lia.
Qed.

Lemma add_resources_spec :
  forall rs lesson index st,
  exists R,
    appended st (add_resources lesson index rs st) [] [] [] R
    /\ Forall (fun r => resource_lesson_id r = lesson) R
    /\ map resource_order R = seq (index + 1) (length rs)
    /\ map resource_data_of R = rs
    /\ next_id (add_resources lesson index rs st) = next_id st + length rs.
Proof.
  induction rs as [| r rs IH]; intros lesson index st.
  - exists []. cbn [add_resources length map seq].
    split; [apply appended_refl|]. repeat split; auto.
  - cbn [add_resources].
    set (st1 := snd (insert_resource lesson (rd_title r) (rd_url r)
                       (index + 1) st)).
    destruct (IH lesson (S index) st1) as [R [Happ [Hpar [Hord [Hdata Hnext]]]]].
    exists (mkResourceRow (next_id st) lesson (rd_title r) (rd_url r)
              (index + 1) :: R).
    split; [| repeat split].
    + assert (H1 : appended st st1 [] [] []
                     [mkResourceRow (next_id st) lesson (rd_title r) (rd_url r)
                        (index + 1)])
        by (unfold appended, st1; cbn; rewrite !app_nil_r; repeat split).
      appended_by H1 Happ.
    + constructor; [reflexivity | exact Hpar].
    + cbn [map length resource_order]. rewrite Hord. apply seq_shift_one.
    + cbn [map]. rewrite Hdata. destruct r; reflexivity.
    + rewrite Hnext. unfold st1. cbn. lia.
Qed.

Lemma span_lesson_own_rows :
  forall Q R l,
    Forall (fun q => quiz_lesson_id q = lesson_id l) Q ->
    Forall (fun r => resource_lesson_id r = lesson_id l) R ->
    map question_order Q = seq 1 (length Q) ->
    map resource_order R = seq 1 (length R) ->
    span_lesson Q R l = mkLesson l Q R.
Proof.
  intros Q R l HQ HR HoQ HoR. unfold span_lesson.
  rewrite (children_all _ quiz_lesson_id _ _ HQ).
  rewrite (children_all _ resource_lesson_id _ _ HR).
  rewrite (order_by_counting _ question_order Q 1 HoQ).
  rewrite (order_by_counting _ resource_order R 1 HoR).
  reflexivity.
Qed.

(** Rows of other lessons, before or after, do not show up under a
    lesson. *)
Lemma span_lesson_among :
  forall Q0 Q Q1 R0 R R1 l,
    Forall (fun q => quiz_lesson_id q <> lesson_id l) Q0 ->
    Forall (fun q => quiz_lesson_id q <> lesson_id l) Q1 ->
    Forall (fun r => resource_lesson_id r <> lesson_id l) R0 ->
    Forall (fun r => resource_lesson_id r <> lesson_id l) R1 ->
    span_lesson (Q0 ++ Q ++ Q1) (R0 ++ R ++ R1) l = span_lesson Q R l.
Proof.
  intros Q0 Q Q1 R0 R R1 l HQ0 HQ1 HR0 HR1. unfold span_lesson.
  rewrite !children_app.
  rewrite (children_none _ quiz_lesson_id _ Q0 HQ0).
  rewrite (children_none _ quiz_lesson_id _ Q1 HQ1).
  rewrite (children_none _ resource_lesson_id _ R0 HR0).
  rewrite (children_none _ resource_lesson_id _ R1 HR1).
  rewrite !app_nil_r. reflexivity.
Qed.

Lemma span_lesson_before :
  forall Q Q1 R R1 l,
    Forall (fun q => quiz_lesson_id q <> lesson_id l) Q1 ->
    Forall (fun r => resource_lesson_id r <> lesson_id l) R1 ->
    span_lesson (Q ++ Q1) (R ++ R1) l = span_lesson Q R l.
Proof.
  intros Q Q1 R R1 l HQ1 HR1.
  apply (span_lesson_among [] Q Q1 [] R R1 l); auto.
Qed.

Lemma span_lesson_after :
  forall Q0 Q R0 R l,
    Forall (fun q => quiz_lesson_id q <> lesson_id l) Q0 ->
    Forall (fun r => resource_lesson_id r <> lesson_id l) R0 ->
    span_lesson (Q0 ++ Q) (R0 ++ R) l = span_lesson Q R l.
Proof.
  intros Q0 Q R0 R l HQ0 HR0.
  pose proof (span_lesson_among Q0 Q [] R0 R [] l HQ0 (Forall_nil _)
                HR0 (Forall_nil _)) as H.
  rewrite !app_nil_r in H. exact H.
Qed.

Definition between (a b x : uuid) : Prop := a <= x < b.

Lemma add_lesson_spec :
  forall l module index st,
  exists row Q R,
    appended st (add_lesson module index l st) [] [row] Q R
    /\ lesson_id row = next_id st
    /\ lesson_module_id row = module
    /\ lesson_order row = index + 1
    /\ Forall (fun q => quiz_lesson_id q = next_id st) Q
    /\ Forall (fun r => resource_lesson_id r = next_id st) R
    /\ lesson_data_of (span_lesson Q R row) = l
    /\ lesson_orders_ok (span_lesson Q R row)
    /\ next_id st < next_id (add_lesson module index l st).
Proof.
  intros l module index st. unfold add_lesson.
  cbn [insert_lesson].
  set (row := mkLessonRow (next_id st) module (ld_lesson_title l) (index + 1)
                (ld_objectives l) (ld_content l) false).
  set (st1 := bump st (courses st) (modules st) (lessons st ++ [row])
                (quiz_questions st) (resources st)).
  destruct (add_quiz_spec (ld_quiz l) (lesson_id row) 0 st1)
    as [Q [HappQ [HparQ [HordQ [HdataQ HnextQ]]]]].
  destruct (add_resources_spec (ld_free_resources l) (lesson_id row) 0
              (add_quiz (lesson_id row) 0 (ld_quiz l) st1))
    as [R [HappR [HparR [HordR [HdataR HnextR]]]]].
  exists row, Q, R.
  assert (HlenQ : length Q = length (ld_quiz l))
    by (rewrite <- HdataQ; rewrite length_map; reflexivity).
  assert (HlenR : length R = length (ld_free_resources l))
    by (rewrite <- HdataR; rewrite length_map; reflexivity).
  assert (Hspan : span_lesson Q R row = mkLesson row Q R).
  { apply span_lesson_own_rows; try assumption.
    - rewrite HlenQ. exact HordQ.
    - rewrite HlenR. exact HordR. }
  split; [| repeat split].
  - assert (H1 : appended st st1 [] [row] [] [])
      by (unfold appended, st1; cbn; rewrite !app_nil_r; repeat split).
    pose proof (appended_trans _ _ _ _ _ _ _ _ _ _ _ H1 HappQ) as H2.
    appended_by H2 HappR.
  - exact HparQ.
  - exact HparR.
  - rewrite Hspan. unfold lesson_data_of. cbn.
    rewrite HdataQ, HdataR. destruct l; reflexivity.
  - rewrite Hspan. cbn. rewrite HlenQ. exact HordQ.
  - rewrite Hspan. cbn. rewrite HlenR. exact HordR.
  - rewrite HnextR, HnextQ. unfold st1. cbn. lia.
Qed.

Lemma Forall_weaken :
  forall (A : Type) (P Q : A -> Prop) (l : list A),
    Forall P l -> (forall x, P x -> Q x) -> Forall Q l.
Proof. intros A P Q l H HPQ. eapply Forall_impl; eauto. Qed.

Ltac weaken H :=
  eapply Forall_weaken; [exact H|];
  unfold between in *; cbv beta; intros;
  repeat match goal with X : _ /\ _ |- _ => destruct X end;
  cbv beta in *; repeat split; try assumption; try lia.

Lemma add_lessons_spec :
  forall ls module index st,
  exists L Q R,
    appended st (add_lessons module index ls st) [] L Q R
    /\ next_id st <= next_id (add_lessons module index ls st)
    /\ Forall (fun l => lesson_module_id l = module
                        /\ between (next_id st)
                             (next_id (add_lessons module index ls st))
                             (lesson_id l)) L
    /\ map lesson_order L = seq (index + 1) (length ls)
    /\ Forall (fun q => between (next_id st)
                          (next_id (add_lessons module index ls st))
                          (quiz_lesson_id q)) Q
    /\ Forall (fun r => between (next_id st)
                          (next_id (add_lessons module index ls st))
                          (resource_lesson_id r)) R
    /\ map (fun l => lesson_data_of (span_lesson Q R l)) L = ls
    /\ Forall (fun l => lesson_orders_ok (span_lesson Q R l)) L.
Proof.
  induction ls as [| l ls IH]; intros module index st.
  - exists [], [], []. cbn [add_lessons length map seq].
    split; [apply appended_refl|]. repeat split; auto.
  - cbn [add_lessons].
    destruct (add_lesson_spec l module index st)
      as [row [Q0 [R0 [Happ0 [Hid [Hmod [Hord0 [HQ0 [HR0 [Hdata0 [Hok0 Hnext0]]]]]]]]]]].
    remember (add_lesson module index l st) as st1 eqn:Est1.
    destruct (IH module (S index) st1)
      as [L [Q [R [Happ [Hnext [HL [Hord [HQ [HR [Hdata Hok]]]]]]]]]].
    remember (add_lessons module (S index) ls st1) as st2 eqn:Est2.
    exists (row :: L), (Q0 ++ Q), (R0 ++ R).
    assert (Hfirst : span_lesson (Q0 ++ Q) (R0 ++ R) row = span_lesson Q0 R0 row).
    { apply span_lesson_before.
      - weaken HQ.
      - weaken HR. }
    assert (Hrest : forall x, In x L ->
              span_lesson (Q0 ++ Q) (R0 ++ R) x = span_lesson Q R x).
    { intros x Hx. rewrite Forall_forall in HL. destruct (HL x Hx) as [_ Hb].
      unfold between in Hb.
      apply span_lesson_after.
      - weaken HQ0.
      - weaken HR0. }
    split; [| repeat split].
    + appended_by Happ0 Happ.
    + lia.
    + constructor.
      * split; [exact Hmod|]. unfold between. lia.
      * weaken HL.
    + cbn [map length]. rewrite Hord0, Hord. apply seq_shift_one.
    + apply Forall_app. split.
      * weaken HQ0.
      * weaken HQ.
    + apply Forall_app. split.
      * weaken HR0.
      * weaken HR.
    + cbn [map]. rewrite Hfirst, Hdata0. f_equal.
      rewrite <- Hdata. apply map_ext_in. intros x Hx.
      rewrite (Hrest x Hx). reflexivity.
    + constructor.
      * rewrite Hfirst. exact Hok0.
      * rewrite Forall_forall in *. intros x Hx.
        rewrite (Hrest x Hx). apply Hok. exact Hx.
Qed.

Lemma span_module_own_rows :
  forall L Q R m,
    Forall (fun l => lesson_module_id l = module_id m) L ->
    map lesson_order L = seq 1 (length L) ->
    span_module L Q R m = mkModule m (map (span_lesson Q R) L).
Proof.
  intros L Q R m HL Hord. unfold span_module.
  rewrite (children_all _ lesson_module_id _ _ HL).
  rewrite (order_by_counting _ lesson_order L 1 Hord).
  reflexivity.
Qed.

Lemma In_ordered_children :
  forall (A : Type) (parent : A -> uuid) (key : A -> nat) pid rows x,
    In x (order_by key (children parent pid rows)) -> In x rows.
Proof.
  intros A parent key pid rows x H.
  apply (proj1 (order_by_In A key x (children parent pid rows))) in H.
  unfold children in H.
  apply (proj1 (filter_In _ x rows)) in H. destruct H as [H _]. exact H.
Qed.

(** Rows appended later do not show up under a module. *)
Lemma span_module_before :
  forall L L1 Q Q1 R R1 m,
    Forall (fun l => lesson_module_id l <> module_id m) L1 ->
    (forall l, In l L ->
       Forall (fun q => quiz_lesson_id q <> lesson_id l) Q1
       /\ Forall (fun r => resource_lesson_id r <> lesson_id l) R1) ->
    span_module (L ++ L1) (Q ++ Q1) (R ++ R1) m = span_module L Q R m.
Proof.
  intros L L1 Q Q1 R R1 m HL1 Hrows. unfold span_module.
  rewrite children_app, (children_none _ lesson_module_id _ L1 HL1), app_nil_r.
  f_equal. apply map_ext_in. intros l Hl.
  apply In_ordered_children in Hl. destruct (Hrows l Hl) as [HQ HR].
  apply span_lesson_before; assumption.
Qed.

(** Nor do the rows that were there before. *)
Lemma span_module_after :
  forall L0 L Q0 Q R0 R m,
    Forall (fun l => lesson_module_id l <> module_id m) L0 ->
    (forall l, In l L ->
       Forall (fun q => quiz_lesson_id q <> lesson_id l) Q0
       /\ Forall (fun r => resource_lesson_id r <> lesson_id l) R0) ->
    span_module (L0 ++ L) (Q0 ++ Q) (R0 ++ R) m = span_module L Q R m.
Proof.
  intros L0 L Q0 Q R0 R m HL0 Hrows. unfold span_module.
  rewrite children_app, (children_none _ lesson_module_id _ L0 HL0), app_nil_l.
  f_equal. apply map_ext_in. intros l Hl.
  apply In_ordered_children in Hl. destruct (Hrows l Hl) as [HQ HR].
  apply span_lesson_after; assumption.
Qed.

Lemma add_module_spec :
  forall m course index st,
  exists row L Q R,
    appended st (add_module course index m st) [row] L Q R
    /\ next_id st < next_id (add_module course index m st)
    /\ module_id row = next_id st
    /\ module_course_id row = course
    /\ module_order row = index + 1
    /\ Forall (fun l => lesson_module_id l = next_id st
                        /\ between (S (next_id st))
                             (next_id (add_module course index m st))
                             (lesson_id l)) L
    /\ Forall (fun q => between (S (next_id st))
                          (next_id (add_module course index m st))
                          (quiz_lesson_id q)) Q
    /\ Forall (fun r => between (S (next_id st))
                          (next_id (add_module course index m st))
                          (resource_lesson_id r)) R
    /\ module_data_of (span_module L Q R row) = m
    /\ module_orders_ok (span_module L Q R row).
Proof.
  intros m course index st. unfold add_module. cbn [insert_module].
  set (row := mkModuleRow (next_id st) course (md_module_title m) (index + 1)).
  remember (bump st (courses st) (modules st ++ [row]) (lessons st)
              (quiz_questions st) (resources st)) as st1 eqn:Est1.
  assert (Hn1 : next_id st1 = S (next_id st)) by (subst st1; reflexivity).
  assert (H1 : appended st st1 [row] [] [] [])
    by (subst st1; unfold appended; cbn; rewrite !app_nil_r; repeat split).
  destruct (add_lessons_spec (md_lessons m) (module_id row) 0 st1)
    as [L [Q [R [Happ [Hnext [HL [Hord [HQ [HR [Hdata Hok]]]]]]]]]].
  remember (add_lessons (module_id row) 0 (md_lessons m) st1) as st2 eqn:Est2.
  rewrite Hn1 in *.
  assert (HlenL : length L = length (md_lessons m))
    by (rewrite <- Hdata; rewrite length_map; reflexivity).
  assert (Hspan : span_module L Q R row = mkModule row (map (span_lesson Q R) L)).
  { apply span_module_own_rows.
    - weaken HL.
    - rewrite HlenL. exact Hord. }
  exists row, L, Q, R.
  split; [appended_by H1 Happ | repeat split].
  - lia.
  - weaken HL.
  - exact HQ.
  - exact HR.
  - rewrite Hspan. unfold module_data_of. cbn [module_row_of module_lessons].
    rewrite map_map, Hdata. destruct m; reflexivity.
  - rewrite Hspan. cbn [module_lessons]. rewrite map_map, length_map, HlenL.
    cbn [lesson_row_of span_lesson]. exact Hord.
  - rewrite Hspan. cbn [module_lessons]. apply Forall_map. exact Hok.
Qed.

Lemma add_modules_spec :
  forall ms course index st,
  exists M L Q R,
    appended st (add_modules course index ms st) M L Q R
    /\ next_id st <= next_id (add_modules course index ms st)
    /\ Forall (fun m => module_course_id m = course
                        /\ between (next_id st)
                             (next_id (add_modules course index ms st))
                             (module_id m)) M
    /\ map module_order M = seq (index + 1) (length ms)
    /\ Forall (fun l => between (next_id st)
                          (next_id (add_modules course index ms st))
                          (lesson_module_id l)
                        /\ between (next_id st)
                             (next_id (add_modules course index ms st))
                             (lesson_id l)) L
    /\ Forall (fun q => between (next_id st)
                          (next_id (add_modules course index ms st))
                          (quiz_lesson_id q)) Q
    /\ Forall (fun r => between (next_id st)
                          (next_id (add_modules course index ms st))
                          (resource_lesson_id r)) R
    /\ map (fun m => module_data_of (span_module L Q R m)) M = ms
    /\ Forall (fun m => module_orders_ok (span_module L Q R m)) M.
Proof.
  induction ms as [| m ms IH]; intros course index st.
  - exists [], [], [], []. cbn [add_modules length map seq].
    split; [apply appended_refl|]. repeat split; auto.
  - cbn [add_modules].
    destruct (add_module_spec m course index st)
      as [row [L0 [Q0 [R0 [Happ0 [Hnext0 [Hid [Hcourse [Hord0
           [HL0 [HQ0 [HR0 [Hdata0 Hok0]]]]]]]]]]]]].
    remember (add_module course index m st) as st1 eqn:Est1.
    destruct (IH course (S index) st1)
      as [M [L [Q [R [Happ [Hnext [HM [Hord [HL [HQ [HR [Hdata Hok]]]]]]]]]]]].
    remember (add_modules course (S index) ms st1) as st2 eqn:Est2.
    exists (row :: M), (L0 ++ L), (Q0 ++ Q), (R0 ++ R).
    assert (Hfirst : span_module (L0 ++ L) (Q0 ++ Q) (R0 ++ R) row
                     = span_module L0 Q0 R0 row).
    { apply span_module_before.
      - weaken HL.
      - intros l Hl. rewrite Forall_forall in HL0.
        destruct (HL0 l Hl) as [_ Hb]. unfold between in Hb.
        split; [weaken HQ | weaken HR]. }
    assert (Hrest : forall x, In x M ->
              span_module (L0 ++ L) (Q0 ++ Q) (R0 ++ R) x = span_module L Q R x).
    { intros x Hx. rewrite Forall_forall in HM. destruct (HM x Hx) as [_ Hb].
      unfold between in Hb.
      apply span_module_after.
      - weaken HL0.
      - intros l Hl. rewrite Forall_forall in HL.
        destruct (HL l Hl) as [_ Hb']. unfold between in Hb'.
        split; [weaken HQ0 | weaken HR0]. }
    split; [appended_by Happ0 Happ | repeat split].
    + lia.
    + constructor; [split; [exact Hcourse | unfold between; lia] | weaken HM].
    + cbn [map length]. rewrite Hord0, Hord. apply seq_shift_one.
    + apply Forall_app. split; [weaken HL0 | weaken HL].
    + apply Forall_app. split; [weaken HQ0 | weaken HQ].
    + apply Forall_app. split; [weaken HR0 | weaken HR].
    + cbn [map]. rewrite Hfirst, Hdata0. f_equal.
      rewrite <- Hdata. apply map_ext_in. intros x Hx.
      rewrite (Hrest x Hx). reflexivity.
    + constructor.
      * rewrite Hfirst. exact Hok0.
      * rewrite Forall_forall in *. intros x Hx.
        rewrite (Hrest x Hx). apply Hok. exact Hx.
Qed.

(** *** fetchCourses when the backend answers every request *)

Definition runs_keeping {A} (I : store -> Prop) (m : prog A) (w : world)
    (a : A) : Prop :=
  exists w', m w = (inl a, w') /\ calm w' /\ I (db w').

Lemma runs_to_keeping :
  forall A (I : store -> Prop) (m : prog A) w a st,
    runs_to m w a st -> I st -> runs_keeping I m w a.
Proof.
  intros A I m w a st [w' [Hm [Hc [Hdb _]]]] HI.
  exists w'. rewrite Hdb. auto.
Qed.

Lemma promise_all_keeping :
  forall A B (I : store -> Prop) (f : A -> prog B) (g : A -> B) (l : list A),
    (forall a w, calm w -> I (db w) -> runs_keeping I (f a) w (g a)) ->
    forall w, calm w -> I (db w) -> runs_keeping I (promise_all f l) w (map g l).
Proof.
  intros A B I f g l Hf. induction l as [| a l IH]; intros w Hw HI.
  - exists w. cbn [promise_all map]. auto.
  - unfold runs_keeping. cbn [promise_all map].
    destruct (Hf a w Hw HI) as [w1 [E1 [Hc1 HI1]]]. rewrite E1.
    destruct (IH w1 Hc1 HI1) as [w2 [E2 [Hc2 HI2]]]. rewrite E2.
    exists w2. auto.
Qed.

Definition read_lesson (st : store) (l : lesson_row) : Lesson :=
  span_lesson (quiz_questions st) (resources st) l.

Definition read_module (st : store) (m : module_row) : Module :=
  span_module (lessons st) (quiz_questions st) (resources st) m.

Lemma fetch_lesson_calm :
  forall st l w,
    calm w -> db w = st ->
    runs_keeping (fun s => s = st) (fetch_lesson l) w (read_lesson st l).
Proof.
  intros st l w Hw Hdb. apply (runs_to_keeping _ _ _ _ _ st); [| reflexivity].
  unfold fetch_lesson.
  eapply runs_to_bind; [apply runs_to_query_ignoring; exact Hw|].
  intros w1 Hc1 Hdb1 Hui1 Hto1.
  eapply runs_to_bind; [apply runs_to_query_ignoring; exact Hc1|].
  intros w2 Hc2 Hdb2 Hui2 Hto2.
  exists w2. rewrite Hdb1, Hdb. rewrite Hdb1, Hdb in Hdb2.
  repeat split; auto; congruence.
Qed.

Lemma fetch_module_calm :
  forall st m w,
    calm w -> db w = st ->
    runs_keeping (fun s => s = st) (fetch_module m) w (read_module st m).
Proof.
  intros st m w Hw Hdb. unfold runs_keeping, fetch_module, and_then.
  destruct (runs_to_query_or_throw _ (SelectLessons (module_id m))
              (SelectLessons (module_id m)) (select_lessons (module_id m)) w Hw)
    as [w1 [E1 [Hc1 [Hdb1 _]]]].
  rewrite E1.
  destruct (promise_all_keeping _ _ (fun s => s = st) fetch_lesson (read_lesson st)
              (select_lessons (module_id m) (db w))
              (fun a w0 Hc0 Hdb0 => fetch_lesson_calm st a w0 Hc0 Hdb0)
              w1 Hc1 (eq_trans Hdb1 Hdb))
    as [w2 [E2 [Hc2 Hdb2]]].
  rewrite E2. exists w2. rewrite Hdb. auto.
Qed.

Definition same_children (st st' : store) : Prop :=
  modules st' = modules st /\ lessons st' = lessons st
  /\ quiz_questions st' = quiz_questions st /\ resources st' = resources st.

Lemma read_modules_same_children :
  forall st st' course,
    same_children st st' -> read_modules st' course = read_modules st course.
Proof.
  intros st st' course [Hm [Hl [Hq Hr]]]. unfold read_modules.
  rewrite Hm, Hl, Hq, Hr. reflexivity.
Qed.

Definition view_of (st : store) (c : course_row) : Course :=
  mkCourse c (calculateCourseProgress (read_modules st (course_id c)))
    (read_modules st (course_id c)).

Lemma fetch_course_calm :
  forall st c w,
    calm w -> same_children st (db w) ->
    runs_keeping (same_children st) (fetch_course c) w (view_of st c).
Proof.
  intros st c w Hw Hsame. unfold runs_keeping, fetch_course, and_then.
  destruct (runs_to_query_or_throw _ (SelectModules (course_id c))
              (SelectModules (course_id c)) (select_modules (course_id c)) w Hw)
    as [w1 [E1 [Hc1 [Hdb1 _]]]].
  rewrite E1.
  destruct (promise_all_keeping _ _ (fun s => s = db w) fetch_module
              (read_module (db w)) (select_modules (course_id c) (db w))
              (fun a w0 Hc0 Hdb0 => fetch_module_calm (db w) a w0 Hc0 Hdb0)
              w1 Hc1 Hdb1)
    as [w2 [E2 [Hc2 Hdb2]]].
  rewrite E2.
  assert (Hread : map (read_module (db w)) (select_modules (course_id c) (db w))
                  = read_modules st (course_id c)).
  { rewrite <- (read_modules_same_children st (db w) (course_id c) Hsame).
    reflexivity. }
  rewrite Hread. unfold view_of.
  destruct (Z.eqb (calculateCourseProgress (read_modules st (course_id c)))
              (course_progress c)).
  - exists w2. cbn. rewrite Hdb2. auto.
  - unfold ignoring_error, command.
    rewrite (request_calm _ _ _ w2 tt
               (update_progress (course_id c)
                  (calculateCourseProgress (read_modules st (course_id c)))
                  (db w2)) Hc2 eq_refl).
    eexists. split; [reflexivity|]. split; [reflexivity|].
    cbn. rewrite Hdb2. exact Hsame.
Qed.

Lemma fetchCourses_calm :
  forall user w,
    calm w ->
    ui_courses (fetchCourses user w)
    = map (view_of (db w)) (select_courses user (db w))
    /\ same_children (db w) (db (fetchCourses user w)).
Proof.
  intros user w Hw. unfold fetchCourses, and_then.
  destruct (runs_to_query_or_throw _ (SelectCourses user) (SelectCourses user)
              (select_courses user) w Hw)
    as [w1 [E1 [Hc1 [Hdb1 _]]]].
  rewrite E1.
  assert (Hsame : same_children (db w) (db w1))
    by (rewrite Hdb1; repeat split).
  destruct (promise_all_keeping _ _ (same_children (db w)) fetch_course
              (view_of (db w)) (select_courses user (db w))
              (fun a w0 Hc0 Hs0 => fetch_course_calm (db w) a w0 Hc0 Hs0)
              w1 Hc1 Hsame)
    as [w2 [E2 [_ Hsame2]]].
  rewrite E2. split; [reflexivity | exact Hsame2].
Qed.

(** *** fetchCourses writes nothing but progress *)

Definition forget_progress (c : course_row) : course_row :=
  mkCourseRow (course_id c) (course_user_id c) (course_title c) 0
    (course_created_at c) (course_folder_id c).

Definition same_but_progress (st st' : store) : Prop :=
  map forget_progress (courses st') = map forget_progress (courses st)
  /\ modules st' = modules st /\ lessons st' = lessons st
  /\ quiz_questions st' = quiz_questions st /\ resources st' = resources st
  /\ quiz_scores st' = quiz_scores st /\ tutor_chats st' = tutor_chats st
  /\ next_id st' = next_id st /\ clock st' = clock st.

Lemma same_but_progress_refl : forall st, same_but_progress st st.
Proof. intros st. unfold same_but_progress. repeat split. Qed.

Lemma same_but_progress_trans :
  forall a b c,
    same_but_progress a b -> same_but_progress b c -> same_but_progress a c.
Proof.
  unfold same_but_progress.
  intros a b c [H1 [H2 [H3 [H4 [H5 [H6 [H7 [H8 H9]]]]]]]]
    [K1 [K2 [K3 [K4 [K5 [K6 [K7 [K8 K9]]]]]]]].
  repeat split; congruence.
Qed.

Lemma update_progress_same_but_progress :
  forall course p st, same_but_progress st (update_progress course p st).
Proof.
  intros course p st. unfold same_but_progress, update_progress.
  cbn [courses modules lessons quiz_questions resources quiz_scores tutor_chats
       next_id clock].
  repeat split. rewrite map_map. apply map_ext. intros c.
  destruct (Nat.eqb (course_id c) course); reflexivity.
Qed.

(** Client code that leaves the React state alone and changes nothing in
    the database but progress values. *)
Definition steady {A} (m : prog A) : Prop :=
  forall w,
    same_but_progress (db w) (db (snd (m w)))
    /\ ui_courses (snd (m w)) = ui_courses w
    /\ toasts (snd (m w)) = toasts w.

Lemma steady_pure : forall A (a : A), steady (pure a).
Proof.
  intros A a w. cbn. split; [apply same_but_progress_refl | split; reflexivity].
Qed.

Lemma steady_and_then :
  forall A B (m : prog A) (k : A -> prog B),
    steady m -> (forall a, steady (k a)) -> steady (and_then m k).
Proof.
  intros A B m k Hm Hk w. unfold and_then.
  destruct (Hm w) as [S1 [U1 T1]].
  destruct (m w) as [[a | e] w1]; cbn [snd] in *.
  - destruct (Hk a w1) as [S2 [U2 T2]].
    split; [eapply same_but_progress_trans; eassumption|].
    split; congruence.
  - split; [exact S1 | split; assumption].
Qed.

Lemma steady_promise_all :
  forall A B (f : A -> prog B) (l : list A),
    (forall a, steady (f a)) -> steady (promise_all f l).
Proof.
  intros A B f l Hf. induction l as [| a l IH]; intros w.
  - apply steady_pure.
  - cbn [promise_all].
    destruct (Hf a w) as [S1 [U1 T1]].
    destruct (f a w) as [x w1]. cbn [snd] in *.
    destruct (IH w1) as [S2 [U2 T2]].
    destruct (promise_all f l w1) as [xs w2]. cbn [snd] in *.
    split; [eapply same_but_progress_trans; eassumption|].
    split; congruence.
Qed.

Lemma request_steady :
  forall A (o : op) (run : store -> option (A * store)) (w : world),
    (forall st a st', run st = Some (a, st') -> same_but_progress st st') ->
    same_but_progress (db w) (db (snd (request o run w)))
    /\ ui_courses (snd (request o run w)) = ui_courses w
    /\ toasts (snd (request o run w)) = toasts w.
Proof.
  intros A o run w Hrun. unfold request.
  destruct (faults w) as [| [|] fs]; cbn;
    try (split; [apply same_but_progress_refl | split; reflexivity]);
    destruct (run (db w)) as [[a st'] |] eqn:E; cbn;
    try (split; [apply same_but_progress_refl | split; reflexivity]);
    (split; [eapply Hrun; exact E | split; reflexivity]).
Qed.

Lemma steady_query_or_throw :
  forall A (e o : op) (read : store -> A), steady (or_throw e (query o read)).
Proof.
  intros A e o read w. unfold or_throw, query.
  pose proof (request_steady _ o (fun st => Some (read st, st)) w) as H.
  destruct (request o (fun st => Some (read st, st)) w) as [[a |] w1];
    cbn [snd] in *; apply H; intros st a' st' E; injection E as _ <-;
    apply same_but_progress_refl.
Qed.

Lemma steady_query_ignoring :
  forall A (o : op) (read : store -> A), steady (ignoring_error (query o read)).
Proof.
  intros A o read w. unfold ignoring_error, query.
  pose proof (request_steady _ o (fun st => Some (read st, st)) w) as H.
  destruct (request o (fun st => Some (read st, st)) w) as [a w1];
    cbn [snd] in *; apply H; intros st a' st' E; injection E as _ <-;
    apply same_but_progress_refl.
Qed.

Lemma steady_update_progress :
  forall course p,
    steady (ignoring_error
              (command (UpdateProgress course p)
                 (fun st => Some (update_progress course p st)))).
Proof.
  intros course p w. unfold ignoring_error, command.
  match goal with
  | |- context [request ?o ?run w] =>
      pose proof (request_steady _ o run w) as H;
      destruct (request o run w) as [a w1]
  end.
  cbn [snd] in *. apply H. intros st a' st' E. injection E as _ <-.
  apply update_progress_same_but_progress.
Qed.

Lemma steady_fetch_lesson : forall l, steady (fetch_lesson l).
Proof.
  intros l. unfold fetch_lesson.
  apply steady_and_then; [apply steady_query_ignoring|]. intros q.
  apply steady_and_then; [apply steady_query_ignoring|]. intros r.
  apply steady_pure.
Qed.

Lemma steady_fetch_module : forall m, steady (fetch_module m).
Proof.
  intros m. unfold fetch_module.
  apply steady_and_then; [apply steady_query_or_throw|]. intros ls.
  apply steady_and_then; [apply steady_promise_all; apply steady_fetch_lesson|].
  intros x. apply steady_pure.
Qed.

Lemma steady_fetch_course : forall c, steady (fetch_course c).
Proof.
  intros c. unfold fetch_course.
  apply steady_and_then; [apply steady_query_or_throw|]. intros ms.
  apply steady_and_then; [apply steady_promise_all; apply steady_fetch_module|].
  intros views. apply steady_and_then; [| intros u; apply steady_pure].
  destruct (Z.eqb (calculateCourseProgress views) (course_progress c));
    [apply steady_pure | apply steady_update_progress].
Qed.

Lemma promise_all_Forall :
  forall A B (P : B -> Prop) (f : A -> prog B),
    (forall a w b w', f a w = (inl b, w') -> P b) ->
    forall l w bs w', promise_all f l w = (inl bs, w') -> Forall P bs.
Proof.
  intros A B P f Hf. induction l as [| a l IH]; intros w bs w' H;
    cbn [promise_all] in H; unfold pure in H.
  - injection H as <- _. constructor.
  - destruct (f a w) as [[b | e] w1] eqn:E1;
      destruct (promise_all f l w1) as [[bs1 | e'] w2] eqn:E2;
      try discriminate.
    injection H as <- _. constructor; [eapply Hf; exact E1 | eapply IH; exact E2].
Qed.

Lemma fetch_course_progress :
  forall c w view w',
    fetch_course c w = (inl view, w') ->
    progress view = calculateCourseProgress (course_modules view).
Proof.
  intros c w view w' H.
  destruct (CoursesFacts.fetch_course_writes_back_on_change c w) as [reads [_ Hm]].
  rewrite H in Hm. apply Hm.
Qed.

Lemma fetchCourses_outcome :
  forall (user : uuid) (w : world),
    same_but_progress (db w) (db (fetchCourses user w))
    /\ ((ui_courses (fetchCourses user w) = ui_courses w
         /\ toasts (fetchCourses user w) = toasts w ++ [ToastLoadFailed])
        \/ (toasts (fetchCourses user w) = toasts w
            /\ Forall (fun view =>
                         progress view
                         = calculateCourseProgress (course_modules view))
                 (ui_courses (fetchCourses user w)))).
Proof.
  intros user w. unfold fetchCourses.
  set (load := coursesData <- or_throw (SelectCourses user)
                                (query (SelectCourses user) (select_courses user)) ;;
               promise_all fetch_course coursesData).
  assert (Hs : steady load).
  { apply steady_and_then; [apply steady_query_or_throw|]. intros cs.
    apply steady_promise_all. apply steady_fetch_course. }
  destruct (Hs w) as [Hdb [Hui Hto]].
  destruct (load w) as [[views | e] w1] eqn:E; cbn [snd] in *.
  - split; [exact Hdb|]. right. cbn. split; [exact Hto|].
    subst load. unfold and_then in E.
    destruct (or_throw (SelectCourses user)
                (query (SelectCourses user) (select_courses user)) w)
      as [[cs | e] w0]; [| discriminate].
    eapply promise_all_Forall; [| exact E]. apply fetch_course_progress.
  - split; [exact Hdb|]. left. cbn. split; [exact Hui | rewrite Hto; reflexivity].
Qed.

(** *** Reading does not depend on the storage order *)

(** A table has no order of its own; each select sorts the rows of one
    parent by their order column.  Where those order values are distinct,
    the answer is the same whatever order the table keeps its rows in. *)

Section Sorting.
Variable A : Type.
Variable key : A -> nat.

Definition by_key (a b : A) : Prop := key a <= key b.

Lemma insert_by_perm :
  forall x rows, Permutation (x :: rows) (insert_by key x rows).
Proof.
  intros x rows. induction rows as [| y rows IH]; cbn [insert_by];
    [apply Permutation_refl|].
  destruct (Nat.leb (key x) (key y)); [apply Permutation_refl|].
  eapply perm_trans; [apply perm_swap|]. apply perm_skip. exact IH.
Qed.

Lemma order_by_perm : forall rows, Permutation rows (order_by key rows).
Proof.
  induction rows as [| x rows IH]; cbn [order_by]; [apply perm_nil|].
  eapply perm_trans; [apply perm_skip; exact IH | apply insert_by_perm].
Qed.

Lemma insert_by_sorted :
  forall x rows,
    StronglySorted by_key rows -> StronglySorted by_key (insert_by key x rows).
Proof.
  intros x rows H. induction H as [| y rows Hs IH Hy]; cbn [insert_by].
  - constructor; constructor.
  - destruct (Nat.leb_spec (key x) (key y)) as [Hle | Hgt].
    + constructor; [constructor; assumption|].
      constructor; [exact Hle|].
      eapply Forall_impl; [| exact Hy]. intros z Hz. unfold by_key in *. lia.
    + constructor; [exact IH|].
      apply Forall_forall. intros z Hz. apply insert_by_In in Hz.
      destruct Hz as [-> | Hz].
      * unfold by_key. lia.
      * rewrite Forall_forall in Hy. apply Hy. exact Hz.
Qed.

Lemma order_by_sorted : forall rows, StronglySorted by_key (order_by key rows).
Proof.
  induction rows as [| x rows IH]; cbn [order_by]; [constructor|].
  apply insert_by_sorted. exact IH.
Qed.

(** Two sorted lists with the same rows and no repeated key are equal. *)
Lemma sorted_unique :
  forall l1 l2,
    StronglySorted by_key l1 -> StronglySorted by_key l2 ->
    Permutation l1 l2 -> NoDup (map key l1) -> l1 = l2.
Proof.
  induction l1 as [| x l1 IH]; intros l2 H1 H2 Hp Hn.
  - apply Permutation_nil in Hp. symmetry. exact Hp.
  - destruct l2 as [| y l2];
      [apply Permutation_sym, Permutation_nil in Hp; discriminate|].
    inversion H1 as [| ? ? Hs1 Hx]; subst.
    inversion H2 as [| ? ? Hs2 Hy]; subst.
    cbn [map] in Hn. inversion Hn as [| ? ? Hnotin Hn']; subst.
    assert (E : x = y).
    { assert (Hin : In x (y :: l2))
        by (eapply Permutation_in; [exact Hp | left; reflexivity]).
      assert (Hin' : In y (x :: l1))
        by (eapply Permutation_in;
            [apply Permutation_sym; exact Hp | left; reflexivity]).
      destruct Hin as [E | Hin]; [symmetry; exact E|].
      destruct Hin' as [E | Hin']; [exact E|].
      exfalso. apply Hnotin.
      rewrite Forall_forall in Hx, Hy.
      pose proof (Hx y Hin') as Hxy. pose proof (Hy x Hin) as Hyx.
      unfold by_key in Hxy, Hyx.
      replace (key x) with (key y) by lia. apply in_map. exact Hin'. }
    subst y. f_equal. apply IH; try assumption.
    eapply Permutation_cons_inv. exact Hp.
Qed.

Lemma order_by_any_order :
  forall rows rows',
    Permutation rows rows' -> NoDup (map key (order_by key rows)) ->
    order_by key rows' = order_by key rows.
Proof.
  intros rows rows' Hp Hn. symmetry.
  apply sorted_unique; [apply order_by_sorted | apply order_by_sorted | | exact Hn].
  eapply perm_trans; [apply Permutation_sym, order_by_perm|].
  eapply perm_trans; [exact Hp | apply order_by_perm].
Qed.

Variable parent : A -> uuid.

Lemma children_perm :
  forall pid rows rows',
    Permutation rows rows' ->
    Permutation (children parent pid rows) (children parent pid rows').
Proof.
  intros pid rows rows' Hp.
  induction Hp as [| x l l' _ IH | x y l | l l' l'' _ IH1 _ IH2];
    cbn [children filter].
  - apply perm_nil.
  - destruct (Nat.eqb (parent x) pid); [apply perm_skip|]; exact IH.
  - destruct (Nat.eqb (parent x) pid), (Nat.eqb (parent y) pid);
      try apply Permutation_refl. apply perm_swap.
  - eapply perm_trans; [exact IH1 | exact IH2].
Qed.

(** One select: the rows of one parent, sorted by their order column. *)
Lemma select_any_order :
  forall pid rows rows' a n,
    Permutation rows rows' ->
    map key (order_by key (children parent pid rows)) = seq a n ->
    order_by key (children parent pid rows')
    = order_by key (children parent pid rows).
Proof.
  intros pid rows rows' a n Hp Hseq. apply order_by_any_order.
  - apply children_perm. exact Hp.
  - rewrite Hseq. apply seq_NoDup.
Qed.

End Sorting.

Lemma span_lesson_any_order :
  forall Q Q' R R' l,
    Permutation Q Q' -> Permutation R R' ->
    lesson_orders_ok (span_lesson Q R l) ->
    span_lesson Q' R' l = span_lesson Q R l.
Proof.
  intros Q Q' R R' l HQ HR [Hq Hr]. unfold span_lesson in *.
  cbn [quiz free_resources] in Hq, Hr.
  rewrite (select_any_order _ question_order quiz_lesson_id _ Q Q' _ _ HQ Hq).
  rewrite (select_any_order _ resource_order resource_lesson_id _ R R' _ _ HR Hr).
  reflexivity.
Qed.

Lemma span_module_any_order :
  forall L L' Q Q' R R' m,
    Permutation L L' -> Permutation Q Q' -> Permutation R R' ->
    module_orders_ok (span_module L Q R m) ->
    span_module L' Q' R' m = span_module L Q R m.
Proof.
  intros L L' Q Q' R R' m HL HQ HR [Hord Hok]. unfold span_module in *.
  cbn [module_lessons] in Hord, Hok. rewrite map_map in Hord.
  cbn [span_lesson lesson_row_of] in Hord.
  rewrite (select_any_order _ lesson_order lesson_module_id _ L L' _ _ HL Hord).
  f_equal. apply map_ext_in. intros l Hl.
  apply span_lesson_any_order; [exact HQ | exact HR |].
  rewrite Forall_forall in Hok. apply Hok. apply in_map. exact Hl.
Qed.

Lemma span_modules_any_order :
  forall M M' L L' Q Q' R R' course,
    Permutation M M' -> Permutation L L' -> Permutation Q Q' ->
    Permutation R R' ->
    modules_orders_ok (span_modules M L Q R course) ->
    span_modules M' L' Q' R' course = span_modules M L Q R course.
Proof.
  intros M M' L L' Q Q' R R' course HM HL HQ HR [Hord Hok].
  unfold span_modules in *. rewrite map_map in Hord.
  cbn [span_module module_row_of] in Hord.
  rewrite (select_any_order _ module_order module_course_id _ M M' _ _ HM Hord).
  apply map_ext_in. intros m Hm.
  apply span_module_any_order; [exact HL | exact HQ | exact HR |].
  rewrite Forall_forall in Hok. apply Hok. apply in_map. exact Hm.
Qed.

(** The same rows in every table, kept in any order. *)
Definition shuffled (st st' : store) : Prop :=
  Permutation (modules st) (modules st')
  /\ Permutation (lessons st) (lessons st')
  /\ Permutation (quiz_questions st) (quiz_questions st')
  /\ Permutation (resources st) (resources st').

Lemma read_modules_shuffled :
  forall st st' course,
    shuffled st st' -> modules_orders_ok (read_modules st course) ->
    read_modules st' course = read_modules st course.
Proof.
  intros st st' course [HM [HL [HQ HR]]] Hok. unfold read_modules in *.
  apply span_modules_any_order; assumption.
Qed.

(** *** The theorem *)

(** No row refers to a key that has not been handed out yet. *)
Definition wf_store (st : store) : bool :=
  forallb (fun m => Nat.ltb (module_course_id m) (next_id st)) (modules st)
  && forallb (fun l => Nat.ltb (lesson_module_id l) (next_id st)) (lessons st)
  && forallb (fun q => Nat.ltb (quiz_lesson_id q) (next_id st)) (quiz_questions st)
  && forallb (fun r => Nat.ltb (resource_lesson_id r) (next_id st)) (resources st).

Lemma forallb_below :
  forall (A : Type) (parent : A -> uuid) (n : uuid) (rows : list A),
    forallb (fun r => Nat.ltb (parent r) n) rows = true ->
    Forall (fun r => parent r < n) rows.
Proof.
  intros A parent n rows H. apply Forall_forall. intros r Hr.
  rewrite forallb_forall in H. apply Nat.ltb_lt. apply H. exact Hr.
Qed.

(** Reading a course whose rows were appended to older tables. *)
Lemma read_modules_appended :
  forall st st' course M L Q R,
    Forall (fun m => module_course_id m <> course) (modules st) ->
    modules st' = modules st ++ M ->
    lessons st' = lessons st ++ L ->
    quiz_questions st' = quiz_questions st ++ Q ->
    resources st' = resources st ++ R ->
    Forall (fun m => module_course_id m = course) M ->
    map module_order M = seq 1 (length M) ->
    (forall m, In m M ->
       Forall (fun l => lesson_module_id l <> module_id m) (lessons st)) ->
    (forall l, In l L ->
       Forall (fun q => quiz_lesson_id q <> lesson_id l) (quiz_questions st)
       /\ Forall (fun r => resource_lesson_id r <> lesson_id l) (resources st)) ->
    read_modules st' course = map (span_module L Q R) M.
Proof.
  intros st st' course M L Q R Hold Hm Hl Hq Hr HM Hord HL HQR.
  unfold read_modules, span_modules. rewrite Hm, Hl, Hq, Hr.
  rewrite children_app, (children_none _ module_course_id _ _ Hold), app_nil_l.
  rewrite (children_all _ module_course_id _ _ HM).
  rewrite (order_by_counting _ module_order M 1 Hord).
  apply map_ext_in. intros m Hm'.
  apply span_module_after; [apply HL; exact Hm' | exact HQR].
Qed.

(** Every select of fetchCourses answers in the order of its column. *)
Definition sorted_by {A : Type} (key : A -> nat) (rows : list A) : Prop :=
  StronglySorted (by_key A key) rows.

Lemma selects_are_sorted :
  forall (st : store) (parent : uuid),
    sorted_by module_order (select_modules parent st)
    /\ sorted_by lesson_order (select_lessons parent st)
    /\ sorted_by question_order (select_quiz parent st)
    /\ sorted_by resource_order (select_resources parent st).
Proof.
  intros st parent. repeat split; apply order_by_sorted.
Qed.

(** The same rows in every table, kept in any order. *)
Definition reordered (st st' : store) : Prop :=
  Permutation (courses st) (courses st') /\ shuffled st st'.

Lemma fetchCourses_stays_calm :
  forall user w, calm w -> calm (fetchCourses user w).
Proof.
  intros user w Hw. unfold fetchCourses, and_then.
  destruct (runs_to_query_or_throw _ (SelectCourses user) (SelectCourses user)
              (select_courses user) w Hw)
    as [w1 [E1 [Hc1 [Hdb1 _]]]].
  rewrite E1.
  assert (Hsame : same_children (db w) (db w1))
    by (rewrite Hdb1; repeat split).
  destruct (promise_all_keeping _ _ (same_children (db w)) fetch_course
              (view_of (db w)) (select_courses user (db w))
              (fun a w0 Hc0 Hs0 => fetch_course_calm (db w) a w0 Hc0 Hs0)
              w1 Hc1 Hsame)
    as [w2 [E2 [Hc2 _]]].
  rewrite E2. exact Hc2.
Qed.

Lemma forget_progress_In :
  forall (c : course_row) (rows rows' : list course_row),
    map forget_progress rows' = map forget_progress rows ->
    In c rows ->
    exists c', In c' rows' /\ forget_progress c' = forget_progress c.
Proof.
  intros c rows rows' Hmap Hin.
  apply (in_map forget_progress) in Hin. rewrite <- Hmap in Hin.
  apply in_map_iff in Hin. destruct Hin as [c' [E Hin]].
  exists c'. split; assumption.
Qed.

(** C10, as stated, fails: the errors of the quiz question and resource
    inserts are not looked at.  When the backend refuses the first quiz
    question of a lesson and takes the second, createCourse still returns
    the course, and the lesson the UI gets has one question, the second,
    with question_order 2. *)
Lemma refused_insert_leaves_a_gap :
  match createCourse 7 (lit "Chess") None
          (generated_of
             [mkModuleData (lit "Openings")
                [mkLessonData (lit "Italian Game") (Some [])
                   (lit "Develop knights before bishops.")
                   [mkQuizData (lit "First move?") [lit "e4"; lit "a4"] (lit "e4");
                    mkQuizData (lit "Second move?") [lit "Nf3"; lit "h4"]
                      (lit "Nf3")]
                   []]])
          (mkWorld (mkStore [] [] [] [] [] [] [] 0 0)
             [false; false; false; true] [] [] [])
  with
  | (inl course, w') =>
      map (fun c =>
             map (fun m =>
                    map (fun l => map (fun q => (quiz_question q, question_order q))
                                    (quiz l))
                      (module_lessons m))
               (course_modules c))
        (ui_courses w')
      = [[[[(lit "Second move?", 2)]]]]
  | _ => False
  end.
Proof. vm_compute. reflexivity. Qed.

(** C10, amended.  When the backend answers every request without an
    error, no stored row refers to a key not yet handed out, and the
    generated content tree has every property in place, createCourse
    returns the new course row; every select of fetchCourses answers
    sorted by its order column; and the course list createCourse leaves in
    the UI holds a view of the new course whose modules, lessons, quiz
    questions and resources are exactly the generated ones in generation
    order, with order columns that count 1, 2, 3, ... at every level.  The
    order comes from the sort and not from the order the tables keep their
    rows in: fetchCourses run on the same rows kept in any other order
    shows the course with the same modules. *)
Theorem created_course_reads_back_in_generation_order :
  forall (w : world) (user : uuid) (title : jsstring) (folder : option uuid)
         (content : list module_data),
    faults w = [] ->
    wf_store (db w) = true ->
    exists course w',
      createCourse user title folder (generated_of content) w = (inl course, w')
      /\ (forall st parent,
            sorted_by module_order (select_modules parent st)
            /\ sorted_by lesson_order (select_lessons parent st)
            /\ sorted_by question_order (select_quiz parent st)
            /\ sorted_by resource_order (select_resources parent st))
      /\ exists view,
          In view (ui_courses w')
          /\ course_row_of view = course
          /\ map module_data_of (course_modules view) = content
          /\ modules_orders_ok (course_modules view)
          /\ forall st',
               reordered (db w') st' ->
               exists view',
                 In view' (ui_courses (fetchCourses user (with_db st' w')))
                 /\ course_id (course_row_of view') = course_id course
                 /\ course_modules view' = course_modules view.
Proof.
  intros w user title folder content Hw Hwf.
  unfold wf_store in Hwf.
  apply andb_true_iff in Hwf. destruct Hwf as [Hwf HwR].
  apply andb_true_iff in Hwf. destruct Hwf as [Hwf HwQ].
  apply andb_true_iff in Hwf. destruct Hwf as [HwM HwL].
  pose proof (forallb_below _ module_course_id _ _ HwM) as HoldM.
  pose proof (forallb_below _ lesson_module_id _ _ HwL) as HoldL.
  pose proof (forallb_below _ quiz_lesson_id _ _ HwQ) as HoldQ.
  pose proof (forallb_below _ resource_lesson_id _ _ HwR) as HoldR.
  clear HwM HwL HwQ HwR.
  set (course := fst (insert_course user title folder (db w))).
  remember (snd (insert_course user title folder (db w))) as st1 eqn:Est1.
  assert (Hn1 : next_id st1 = S (next_id (db w))) by (subst st1; reflexivity).
  assert (H01 : modules st1 = modules (db w) /\ lessons st1 = lessons (db w)
                /\ quiz_questions st1 = quiz_questions (db w)
                /\ resources st1 = resources (db w))
    by (subst st1; repeat split).
  assert (Hc1 : courses st1 = courses (db w) ++ [course])
    by (subst st1; reflexivity).
  destruct (add_modules_spec content (course_id course) 0 st1)
    as [M [L [Q [R [Happ [Hnext [HM [Hord [HL [HQ [HR [Hdata Hok]]]]]]]]]]]].
  remember (add_modules (course_id course) 0 content st1) as st2 eqn:Est2.
  rewrite Hn1 in *.
  assert (HlenM : length M = length content)
    by (rewrite <- Hdata; rewrite length_map; reflexivity).
  (* the run *)
  unfold createCourse, generated_of, and_then.
  destruct (runs_to_insert_or_throw _ (InsertCourse title) (InsertCourse title)
              (insert_course user title folder) w Hw)
    as [wa [Ea [Hca [Hdba _]]]].
  rewrite Ea. fold course. cbn [defined pure].
  destruct (run_add_modules course content 0 wa Hca)
    as [wb [Eb [Hcb [Hdbb _]]]].
  rewrite Eb. cbn [pure].
  rewrite Hdba, <- Est1, <- Est2 in Hdbb.
  eexists. eexists. split; [reflexivity|].
  split; [apply selects_are_sorted|].
  exists (view_of st2 course).
  destruct (fetchCourses_calm user wb Hcb) as [Hui Hkept].
  pose proof (fetchCourses_stays_calm user wb Hcb) as Hcalm.
  destruct (fetchCourses_outcome user wb) as [Hprogress _].
  rewrite Hui. rewrite Hdbb in Hkept, Hprogress |- *.
  assert (Hread : read_modules st2 (course_id course) = map (span_module L Q R) M).
  { apply (read_modules_appended (db w) st2 (course_id course) M L Q R).
    - weaken HoldM. cbn in *. lia.
    - destruct Happ as [_ [E _]], H01 as [E1 _]. rewrite E, E1. reflexivity.
    - destruct Happ as [_ [_ [E _]]], H01 as [_ [E1 _]].
      rewrite E, E1. reflexivity.
    - destruct Happ as [_ [_ [_ [E _]]]], H01 as [_ [_ [E1 _]]].
      rewrite E, E1. reflexivity.
    - destruct Happ as [_ [_ [_ [_ E]]]], H01 as [_ [_ [_ E1]]].
      rewrite E, E1. reflexivity.
    - weaken HM.
    - rewrite HlenM. exact Hord.
    - intros m Hm. rewrite Forall_forall in HM. destruct (HM m Hm) as [_ Hb].
      unfold between in Hb. weaken HoldL.
    - intros l Hl. rewrite Forall_forall in HL. destruct (HL l Hl) as [_ Hb].
      unfold between in Hb. split; [weaken HoldQ | weaken HoldR]. }
  assert (Hok2 : modules_orders_ok (read_modules st2 (course_id course))).
  { rewrite Hread. unfold modules_orders_ok. split.
    + rewrite map_map, length_map, HlenM. cbn [module_row_of span_module].
      exact Hord.
    + apply Forall_map. exact Hok. }
  assert (Hin2 : In course (courses st2)).
  { destruct Happ as [Hc _]. rewrite Hc, Hc1. apply in_or_app. right. left.
    reflexivity. }
  split; [| split; [reflexivity | split; [| split]]].
  - apply in_map. unfold select_courses, order_by_desc.
    apply -> in_rev. apply order_by_In. apply filter_In. split.
    + exact Hin2.
    + cbn. apply Nat.eqb_refl.
  - cbn [view_of course_modules]. rewrite Hread, map_map. exact Hdata.
  - cbn [view_of course_modules]. exact Hok2.
  - intros st' [HsC [HsM [HsL [HsQ HsR]]]]. cbn [view_of course_modules].
    destruct Hkept as [Em [El [Eq Er]]].
    rewrite Em in HsM. rewrite El in HsL. rewrite Eq in HsQ. rewrite Er in HsR.
    destruct Hprogress as [Hrows _].
    destruct (forget_progress_In course _ _ Hrows Hin2) as [c' [Hin' Hsame]].
    assert (Hid : course_id c' = course_id course)
      by (apply (f_equal course_id) in Hsame; exact Hsame).
    assert (Huser : course_user_id c' = user)
      by (apply (f_equal course_user_id) in Hsame; exact Hsame).
    exists (view_of st' c').
    assert (Hcalm' : calm (with_db st' (fetchCourses user wb))) by exact Hcalm.
    destruct (fetchCourses_calm user _ Hcalm') as [Hui' _].
    rewrite Hui'. cbn [with_db db].
    split; [| split].
    + apply in_map. unfold select_courses, order_by_desc.
      apply -> in_rev. apply order_by_In. apply filter_In. split.
      * eapply Permutation_in; [exact HsC | exact Hin'].
      * rewrite Huser. apply Nat.eqb_refl.
    + exact Hid.
    + cbn [view_of course_modules]. rewrite Hid.
      apply read_modules_shuffled; [repeat split; assumption | exact Hok2].
Qed.

Definition empty_world : world :=
  mkWorld (mkStore [] [] [] [] [] [] [] 0 0) [] [] [] [].

Definition sample_content : list module_data :=
  [mkModuleData (lit "Openings")
     [mkLessonData (lit "Italian Game") (Some [lit "Know the first moves"])
        (lit "Develop knights before bishops.")
        [mkQuizData (lit "First move?") [lit "e4"; lit "a4"] (lit "e4");
         mkQuizData (lit "Second move?") [lit "Nf3"; lit "h4"] (lit "Nf3")]
        [mkResourceData (lit "Guide") (lit "https://example.com/guide");
         mkResourceData (lit "Video") (lit "https://example.com/video")];
      mkLessonData (lit "Sicilian Defence") (Some []) (lit "Answer e4 with c5.")
        [] []];
   mkModuleData (lit "Endgames")
     [mkLessonData (lit "King and pawn") (Some [lit "Opposition"])
        (lit "Take the opposition.")
        [mkQuizData (lit "Key idea?") [lit "Opposition"; lit "Luck"]
           (lit "Opposition")]
        []]].

Lemma created_course_witness :
  exists course w',
    createCourse 7 (lit "Chess") None (generated_of sample_content) empty_world
    = (inl course, w')
    /\ (forall st parent,
          sorted_by module_order (select_modules parent st)
          /\ sorted_by lesson_order (select_lessons parent st)
          /\ sorted_by question_order (select_quiz parent st)
          /\ sorted_by resource_order (select_resources parent st))
    /\ exists view,
        In view (ui_courses w')
        /\ course_row_of view = course
        /\ map module_data_of (course_modules view) = sample_content
        /\ modules_orders_ok (course_modules view)
        /\ forall st',
             reordered (db w') st' ->
             exists view',
               In view' (ui_courses (fetchCourses 7 (with_db st' w')))
               /\ course_id (course_row_of view') = course_id course
               /\ course_modules view' = course_modules view.
Proof.
  apply (created_course_reads_back_in_generation_order empty_world 7
           (lit "Chess") None sample_content); reflexivity.
Defined.

(** The same run, evaluated: the UI holds one course, with the order
    columns 1, 2 on its modules and 1, 2 on the quiz questions of its first
    lesson. *)
Example created_course_evaluated :
  match createCourse 7 (lit "Chess") None (generated_of sample_content)
          empty_world with
  | (inl course, w') =>
      map (fun c =>
             map (fun m =>
                    (module_order (module_row_of m),
                     map (fun l => map question_order (quiz l))
                       (module_lessons m)))
               (course_modules c))
        (ui_courses w')
      = [[(1, [[1; 2]; []]); (2, [[1]])]]
  | _ => False
  end.
Proof. vm_compute. reflexivity. Qed.

End CreateFacts.
(* ------------------------------------------------------------------ *)
(** ** The quiz answer validator *)

Module QuizFacts.
Import Quiz.

(** C9.  Whenever the AI validation cannot be used (one of the three
    arguments is empty, or the edge-function call resolves with an error or
    throws) the validator returns exactly the comparison of the trimmed,
    lower-cased user answer with the trimmed, lower-cased correct answer. *)
Theorem validator_falls_back_to_comparison :
  forall (toLowerCase : jsstring -> jsstring)
         (invoke : jsstring -> jsstring -> jsstring -> invoke_outcome)
         (userAnswer question correctAnswer : jsstring),
    is_empty userAnswer = true \/ is_empty question = true
    \/ is_empty correctAnswer = true
    \/ invoke (trim userAnswer) (trim question) (trim correctAnswer) = InvokeError
    \/ invoke (trim userAnswer) (trim question) (trim correctAnswer) = InvokeThrows ->
    validateAnswerWithAI toLowerCase invoke userAnswer question correctAnswer
    = JsString.eqb (toLowerCase (trim userAnswer))
        (toLowerCase (trim correctAnswer)).
Proof.
  intros lower invoke ua q ca H.
  unfold validateAnswerWithAI, simple_comparison.
  destruct (is_empty ua) eqn:Eua; [reflexivity|].
  destruct (is_empty q) eqn:Eq; [reflexivity|].
  destruct (is_empty ca) eqn:Eca; [reflexivity|].
  simpl.
  destruct H as [H | [H | [H | [H | H]]]]; try discriminate;
    rewrite H; reflexivity.
Qed.

Lemma validator_falls_back_witness :
  validateAnswerWithAI Edge.ascii_lower (fun _ _ _ => InvokeError)
    (lit " Paris") (lit "Capital of France?") (lit "paris ")
  = JsString.eqb (Edge.ascii_lower (trim (lit " Paris")))
      (Edge.ascii_lower (trim (lit "paris "))).
Proof.
  apply validator_falls_back_to_comparison.
  right; right; right; left; reflexivity.
Defined.

(** The comparison ignores case and surrounding white space. *)
Example comparison_ignores_case_and_space :
  validateAnswerWithAI Edge.ascii_lower (fun _ _ _ => InvokeThrows)
    (lit " Paris") (lit "Capital of France?") (lit "paris ") = true.
Proof. reflexivity. Qed.

End QuizFacts.

(* ------------------------------------------------------------------ *)
(** ** The hook against the schema: deletion, refresh and partial writes *)

Module StoreFacts.
Import Courses.
Import CreateFacts.
Local Open Scope prog_scope.

#[local] Arguments delete_quiz_scores : simpl never.
#[local] Arguments delete_course : simpl never.

(** *** deleteCourse against the policies and foreign keys of the schema *)

Definition dead_modules (course : uuid) (st : store) : list uuid :=
  map module_id (children module_course_id course (modules st)).

Definition dead_lessons (course : uuid) (st : store) : list uuid :=
  map lesson_id
    (filter (fun l => mem (lesson_module_id l) (dead_modules course st))
       (lessons st)).

(** The course is a row of [user]. *)
Definition owns (user course : uuid) (st : store) : bool :=
  existsb (fun c => Nat.eqb (course_id c) course
                    && Nat.eqb (course_user_id c) user) (courses st).

(** A quiz score or a chat message names the course, or a quiz score names
    one of its lessons. *)
Definition referenced (course : uuid) (st : store) : bool :=
  existsb (fun s => Nat.eqb (score_course_id s) course) (quiz_scores st)
  || existsb (fun c => Nat.eqb (chat_course_id c) course) (tutor_chats st)
  || existsb (fun s => mem (score_lesson_id s) (dead_lessons course st))
       (quiz_scores st).

Lemma filter_all :
  forall (A : Type) (keep : A -> bool) (l : list A),
    (forall a, keep a = true) -> filter keep l = l.
Proof.
  intros A keep l H. induction l as [| a l IH]; [reflexivity|].
  cbn [filter]. rewrite H, IH. reflexivity.
Qed.

(** No policy lets the client delete a quiz score. *)
Lemma delete_quiz_scores_removes_nothing :
  forall user course st, delete_quiz_scores user course st = st.
Proof.
  intros user course st. unfold delete_quiz_scores.
  rewrite filter_all.
  - destruct st; reflexivity.
  - intros s. unfold may_delete_score. rewrite andb_false_r. reflexivity.
Qed.

Lemma delete_course_refused :
  forall user course st,
    owns user course st = true -> referenced course st = true ->
    delete_course user course st = None.
Proof.
  intros user course st Hown Href. unfold delete_course.
  unfold owns in Hown. unfold may_delete_course. rewrite Hown. cbn [negb].
  unfold referenced, dead_lessons, dead_modules, children in Href.
  rewrite Href. reflexivity.
Qed.

Lemma delete_course_keeps_scores :
  forall user course st st',
    delete_course user course st = Some st' -> quiz_scores st' = quiz_scores st.
Proof.
  intros user course st st' H. unfold delete_course in H.
  destruct (negb _); [injection H as <-; reflexivity|].
  destruct (_ || _); [discriminate|]. injection H as <-. reflexivity.
Qed.

(** What deleteCourse leaves in the database: what the course delete
    leaves when both requests reach it and it is accepted, and otherwise
    what there was. *)
Lemma deleteCourse_db :
  forall w user courseId,
    db (deleteCourse user courseId w) = db w
    \/ delete_course user courseId (db w) = Some (db (deleteCourse user courseId w)).
Proof.
  intros w user courseId.
  unfold deleteCourse, and_then, or_throw, command, request.
  destruct (faults w) as [| [|] fs] eqn:F; cbn; rewrite ?F; cbn;
    rewrite ?delete_quiz_scores_removes_nothing.
  - destruct (delete_course user courseId (db w)) eqn:D; cbn; auto.
  - auto.
  - destruct fs as [| [|] fs']; cbn;
      rewrite ?delete_quiz_scores_removes_nothing; auto;
      destruct (delete_course user courseId (db w)) eqn:D; cbn; auto.
Qed.

(** X1.  No policy of the schema lets the client delete a row of
    quiz_scores, so the first request of deleteCourse removes nothing:
    whatever the backend answers, the quiz scores after deleteCourse are
    the quiz scores before.  A course of the signed-in user that a quiz
    score or a chat message still names (or a lesson of which a quiz score
    names) is therefore never deleted: the database and the course list of
    the UI stay as they were and the failure toast is shown. *)
Theorem delete_never_removes_quiz_scores :
  forall (w : world) (user courseId : uuid),
    quiz_scores (db (deleteCourse user courseId w)) = quiz_scores (db w)
    /\ (owns user courseId (db w) = true ->
        referenced courseId (db w) = true ->
        db (deleteCourse user courseId w) = db w
        /\ ui_courses (deleteCourse user courseId w) = ui_courses w
        /\ toasts (deleteCourse user courseId w)
           = toasts w ++ [ToastDeleteFailed]).
Proof.
  intros w user courseId. split.
  - destruct (deleteCourse_db w user courseId) as [E | E].
    + rewrite E. reflexivity.
    + apply (delete_course_keeps_scores _ _ _ _ E).
  - intros Hown Href.
    pose proof (delete_course_refused user courseId (db w) Hown Href) as Hno.
    unfold deleteCourse, and_then, or_throw, command, request.
    destruct (faults w) as [| [|] fs] eqn:F; cbn; rewrite ?F; cbn;
      rewrite ?delete_quiz_scores_removes_nothing, ?Hno; cbn.
    + repeat split.
    + repeat split.
    + destruct fs as [| [|] fs']; cbn;
        rewrite ?delete_quiz_scores_removes_nothing, ?Hno; cbn; repeat split.
Qed.

Definition chat_store : store :=
  mkStore [mkCourseRow 0 7 (lit "Chess") 0 0 None] [] [] [] []
    [mkScoreRow 1 5 0] [mkChatRow 2 0] 3 3.

Lemma delete_never_removes_quiz_scores_witness :
  quiz_scores (db (deleteCourse 7 0 (mkWorld chat_store [] [] [] [])))
  = [mkScoreRow 1 5 0]
  /\ db (deleteCourse 7 0 (mkWorld chat_store [] [] [] [])) = chat_store
  /\ ui_courses (deleteCourse 7 0 (mkWorld chat_store [] [] [] [])) = []
  /\ toasts (deleteCourse 7 0 (mkWorld chat_store [] [] [] []))
     = [ToastDeleteFailed].
Proof.
  destruct (delete_never_removes_quiz_scores (mkWorld chat_store [] [] [] []) 7 0)
    as [Hscores Hkept].
  split; [exact Hscores | apply Hkept; reflexivity].
Defined.

(** *** A successful delete *)

Fixpoint distinct (l : list uuid) : bool :=
  match l with
  | [] => true
  | x :: r => negb (mem x r) && distinct r
  end.

(** The primary keys of modules and lessons. *)
Definition keys_ok (st : store) : bool :=
  distinct (map module_id (modules st)) && distinct (map lesson_id (lessons st)).

Lemma mem_In : forall x l, mem x l = true <-> In x l.
Proof.
  intros x l. unfold mem. rewrite existsb_exists. split.
  - intros [y [Hy E]]. apply Nat.eqb_eq in E. subst y. exact Hy.
  - intros H. exists x. split; [exact H | apply Nat.eqb_refl].
Qed.

Lemma distinct_inj :
  forall (A : Type) (key : A -> uuid) (rows : list A) (a b : A),
    distinct (map key rows) = true ->
    In a rows -> In b rows -> key a = key b -> a = b.
Proof.
  intros A key rows. induction rows as [| x rows IH]; intros a b Hd Ha Hb E;
    [contradiction|].
  cbn [map distinct] in Hd. apply andb_true_iff in Hd. destruct Hd as [Hx Hd].
  apply negb_true_iff in Hx.
  assert (Hfresh : forall y, In y rows -> key y <> key x).
  { intros y Hy Ey. rewrite <- Ey in Hx.
    assert (mem (key y) (map key rows) = true)
      by (apply mem_In; apply in_map; exact Hy).
    congruence. }
  destruct Ha as [<- | Ha], Hb as [<- | Hb].
  - reflexivity.
  - exfalso. apply (Hfresh b Hb). symmetry. exact E.
  - exfalso. apply (Hfresh a Ha). exact E.
  - apply IH; assumption.
Qed.

Lemma children_filter_keep :
  forall (A : Type) (parent : A -> uuid) (keep : A -> bool) (pid : uuid)
         (rows : list A),
    (forall r, In r rows -> parent r = pid -> keep r = true) ->
    children parent pid (filter keep rows) = children parent pid rows.
Proof.
  intros A parent keep pid rows H. induction rows as [| x rows IH];
    [reflexivity|].
  cbn [filter]. destruct (keep x) eqn:K; cbn [children filter].
  - fold (children parent pid (filter keep rows)).
    fold (children parent pid rows).
    rewrite IH by (intros r Hr; apply H; right; exact Hr). reflexivity.
  - fold (children parent pid rows).
    destruct (Nat.eqb_spec (parent x) pid) as [E | _].
    + rewrite (H x (or_introl eq_refl) E) in K. discriminate.
    + apply IH. intros r Hr. apply H. right. exact Hr.
Qed.

Lemma children_In :
  forall (A : Type) (parent : A -> uuid) (pid : uuid) (rows : list A) (r : A),
    In r (children parent pid rows) <-> In r rows /\ parent r = pid.
Proof.
  intros A parent pid rows r. unfold children. rewrite filter_In.
  rewrite Nat.eqb_eq. tauto.
Qed.

(** A module of another course is not among the modules that go. *)
Lemma module_survives :
  forall st course m,
    keys_ok st = true -> In m (modules st) -> module_course_id m <> course ->
    mem (module_id m) (dead_modules course st) = false.
Proof.
  intros st course m Hk Hm Hc.
  destruct (mem (module_id m) (dead_modules course st)) eqn:E; [| reflexivity].
  exfalso. apply mem_In in E. unfold dead_modules in E.
  apply in_map_iff in E. destruct E as [m' [Eid Hm']].
  apply children_In in Hm'. destruct Hm' as [Hin Hcourse].
  unfold keys_ok in Hk. apply andb_true_iff in Hk. destruct Hk as [Hk _].
  assert (m' = m) by (apply (distinct_inj _ module_id (modules st)); assumption).
  subst m'. contradiction.
Qed.

Lemma lesson_survives :
  forall st course l,
    keys_ok st = true -> In l (lessons st) ->
    mem (lesson_module_id l) (dead_modules course st) = false ->
    mem (lesson_id l) (dead_lessons course st) = false.
Proof.
  intros st course l Hk Hl Hm.
  destruct (mem (lesson_id l) (dead_lessons course st)) eqn:E; [| reflexivity].
  exfalso. apply mem_In in E. unfold dead_lessons in E.
  apply in_map_iff in E. destruct E as [l' [Eid Hl']].
  apply filter_In in Hl'. destruct Hl' as [Hin Hdead].
  unfold keys_ok in Hk. apply andb_true_iff in Hk. destruct Hk as [_ Hk].
  assert (l' = l) by (apply (distinct_inj _ lesson_id (lessons st)); assumption).
  subst l'. congruence.
Qed.

Lemma delete_course_tables :
  forall user course st st',
    owns user course st = true ->
    delete_course user course st = Some st' ->
    courses st'
    = filter (fun c => negb (Nat.eqb (course_id c) course)) (courses st)
    /\ modules st'
       = filter (fun m => negb (Nat.eqb (module_course_id m) course)) (modules st)
    /\ lessons st'
       = filter (fun l => negb (mem (lesson_module_id l) (dead_modules course st)))
           (lessons st)
    /\ quiz_questions st'
       = filter (fun q => negb (mem (quiz_lesson_id q) (dead_lessons course st)))
           (quiz_questions st)
    /\ resources st'
       = filter (fun r => negb (mem (resource_lesson_id r) (dead_lessons course st)))
           (resources st)
    /\ quiz_scores st' = quiz_scores st
    /\ tutor_chats st' = tutor_chats st.
Proof.
  intros user course st st' Hown H. unfold delete_course in H.
  unfold owns in Hown. unfold may_delete_course in H. rewrite Hown in H.
  cbn [negb] in H.
  destruct (_ || _); [discriminate|].
  injection H as <-. repeat split.
Qed.

(** The course that was deleted has nothing left to read. *)
Lemma delete_course_own :
  forall user course st st',
    owns user course st = true ->
    delete_course user course st = Some st' -> read_modules st' course = [].
Proof.
  intros user course st st' Hown H.
  destruct (delete_course_tables user course st st' Hown H) as [_ [Hm _]].
  unfold read_modules, span_modules. rewrite Hm.
  rewrite (children_none _ module_course_id); [reflexivity|].
  apply Forall_forall. intros m Hin. apply filter_In in Hin.
  destruct Hin as [_ Hne]. apply negb_true_iff in Hne.
  apply Nat.eqb_neq. exact Hne.
Qed.

(** Every other course reads as before. *)
Lemma delete_course_other :
  forall user course other st st',
    keys_ok st = true -> owns user course st = true ->
    delete_course user course st = Some st' ->
    other <> course -> read_modules st' other = read_modules st other.
Proof.
  intros user course other st st' Hk Hown H Hne.
  destruct (delete_course_tables user course st st' Hown H)
    as [_ [Hm [Hl [Hq [Hr _]]]]].
  unfold read_modules, span_modules. rewrite Hm, Hl, Hq, Hr.
  rewrite children_filter_keep.
  2:{ intros m _ E. apply negb_true_iff. apply Nat.eqb_neq. congruence. }
  apply map_ext_in. intros m Hin. apply order_by_In in Hin.
  apply children_In in Hin. destruct Hin as [Hin Hc].
  assert (Hsurv : mem (module_id m) (dead_modules course st) = false)
    by (apply module_survives; [exact Hk | exact Hin | congruence]).
  unfold span_module. rewrite children_filter_keep.
  2:{ intros l _ E. rewrite E, Hsurv. reflexivity. }
  f_equal. apply map_ext_in. intros l Hl'. apply order_by_In in Hl'.
  apply children_In in Hl'. destruct Hl' as [Hl' Hlm].
  assert (Hsl : mem (lesson_id l) (dead_lessons course st) = false)
    by (apply lesson_survives; [exact Hk | exact Hl' | rewrite Hlm; exact Hsurv]).
  unfold span_lesson. rewrite !children_filter_keep.
  - reflexivity.
  - intros r _ E. rewrite E, Hsl. reflexivity.
  - intros q _ E. rewrite E, Hsl. reflexivity.
Qed.

(** X2.  When both requests are answered, the course is a row of the
    signed-in user, no quiz score and no chat message names it, no quiz
    score names one of its lessons, and the primary keys of modules and
    lessons are distinct, deleteCourse removes the course row, leaves
    nothing to read under the course, leaves what is read under every
    other course, the quiz scores and the chat messages exactly as they
    were, drops the course from the list of the UI and shows the success
    toast. *)
Theorem delete_course_removes_one_course :
  forall (w : world) (user courseId : uuid),
    hd false (faults w) = false ->
    hd false (tl (faults w)) = false ->
    owns user courseId (db w) = true ->
    referenced courseId (db w) = false ->
    keys_ok (db w) = true ->
    courses (db (deleteCourse user courseId w))
    = filter (fun c => negb (Nat.eqb (course_id c) courseId)) (courses (db w))
    /\ quiz_scores (db (deleteCourse user courseId w)) = quiz_scores (db w)
    /\ tutor_chats (db (deleteCourse user courseId w)) = tutor_chats (db w)
    /\ read_modules (db (deleteCourse user courseId w)) courseId = []
    /\ (forall other,
          other <> courseId ->
          read_modules (db (deleteCourse user courseId w)) other
          = read_modules (db w) other)
    /\ ui_courses (deleteCourse user courseId w)
       = filter (fun c => negb (Nat.eqb (course_id (course_row_of c)) courseId))
           (ui_courses w)
    /\ toasts (deleteCourse user courseId w) = toasts w ++ [ToastCourseDeleted].
Proof.
  intros w user courseId Hf1 Hf2 Hown Href Hk.
  destruct (delete_course user courseId (db w)) as [st' |] eqn:Hdel.
  2:{ unfold delete_course in Hdel. unfold owns in Hown.
      unfold may_delete_course in Hdel. rewrite Hown in Hdel. cbn [negb] in Hdel.
      unfold referenced, dead_lessons, dead_modules, children in Href.
      rewrite Href in Hdel. discriminate. }
  assert (Hdb : db (deleteCourse user courseId w) = st'
                /\ ui_courses (deleteCourse user courseId w)
                   = filter (fun c => negb (Nat.eqb (course_id (course_row_of c))
                                              courseId)) (ui_courses w)
                /\ toasts (deleteCourse user courseId w)
                   = toasts w ++ [ToastCourseDeleted]).
  { unfold deleteCourse, and_then, or_throw, command, request.
    destruct (faults w) as [| [|] fs] eqn:F; cbn [hd tl] in Hf1, Hf2;
      try discriminate; cbn; rewrite ?F; cbn;
      rewrite ?delete_quiz_scores_removes_nothing.
    - rewrite Hdel. cbn. repeat split.
    - destruct fs as [| [|] fs']; cbn [hd] in Hf2; try discriminate; cbn;
        rewrite ?delete_quiz_scores_removes_nothing, Hdel; cbn; repeat split. }
  destruct Hdb as [Hdb [Hui Hto]]. rewrite Hdb.
  destruct (delete_course_tables _ _ _ _ Hown Hdel)
    as [Hc [_ [_ [_ [_ [Hs Ht]]]]]].
  repeat split.
  - rewrite Hc. reflexivity.
  - exact Hs.
  - exact Ht.
  - apply (delete_course_own _ _ _ _ Hown Hdel).
  - intros other Hne.
    exact (delete_course_other user courseId other (db w) st' Hk Hown Hdel Hne).
  - exact Hui.
  - exact Hto.
Qed.

Definition two_courses : store :=
  mkStore
    [mkCourseRow 0 7 (lit "Chess") 0 0 None; mkCourseRow 1 7 (lit "Go") 0 1 None]
    [mkModuleRow 2 0 (lit "Openings") 1; mkModuleRow 3 1 (lit "Joseki") 1]
    [mkLessonRow 4 2 (lit "Italian") 1 (Some []) (lit "e4 e5") false;
     mkLessonRow 5 3 (lit "Corners") 1 (Some []) (lit "3-4 point") true]
    [mkQuizRow 6 4 (lit "First move?") [lit "e4"] (lit "e4") 1;
     mkQuizRow 7 5 (lit "Where?") [lit "corner"] (lit "corner") 1]
    [mkResourceRow 8 5 (lit "Sensei") (lit "https://senseis.xmp.net") 1]
    [mkScoreRow 10 5 1] [] 11 11.

Definition two_courses_world : world :=
  mkWorld two_courses [] []
    [view_of two_courses (mkCourseRow 1 7 (lit "Go") 0 1 None);
     view_of two_courses (mkCourseRow 0 7 (lit "Chess") 0 0 None)] [].

Lemma delete_course_witness :
  courses (db (deleteCourse 7 0 two_courses_world))
  = filter (fun c => negb (Nat.eqb (course_id c) 0)) (courses two_courses)
  /\ quiz_scores (db (deleteCourse 7 0 two_courses_world))
     = quiz_scores two_courses
  /\ tutor_chats (db (deleteCourse 7 0 two_courses_world))
     = tutor_chats two_courses
  /\ read_modules (db (deleteCourse 7 0 two_courses_world)) 0 = []
  /\ (forall other,
        other <> 0 ->
        read_modules (db (deleteCourse 7 0 two_courses_world)) other
        = read_modules two_courses other)
  /\ ui_courses (deleteCourse 7 0 two_courses_world)
     = filter (fun c => negb (Nat.eqb (course_id (course_row_of c)) 0))
         (ui_courses two_courses_world)
  /\ toasts (deleteCourse 7 0 two_courses_world) = [] ++ [ToastCourseDeleted].
Proof.
  apply (delete_course_removes_one_course two_courses_world 7 0); reflexivity.
Defined.

(** *** fetchCourses writes nothing but progress *)

(** X3.  Whatever the backend answers, fetchCourses changes nothing in
    the database except progress values of course rows.  It ends in one of
    two ways: the course list of the UI is left as it was and the
    load-failed toast is shown; or no toast is shown and the list is
    replaced by views that each carry the progress computed from their own
    modules. *)
Theorem fetchCourses_changes_progress_only :
  forall (user : uuid) (w : world),
    same_but_progress (db w) (db (fetchCourses user w))
    /\ ((ui_courses (fetchCourses user w) = ui_courses w
         /\ toasts (fetchCourses user w) = toasts w ++ [ToastLoadFailed])
        \/ (toasts (fetchCourses user w) = toasts w
            /\ Forall (fun view =>
                         progress view
                         = calculateCourseProgress (course_modules view))
                 (ui_courses (fetchCourses user w)))).
Proof.
  intros user w. destruct (fetchCourses_outcome user w) as [Hdb Hui].
  split; [exact Hdb|]. destruct Hui as [[Hsame Htoast] | [Htoast Hviews]].
  - left. split; assumption.
  - right. split; assumption.
Qed.

(** *** createCourse never rolls back *)

Definition grows (st st' : store) : Prop :=
  (exists C,
      map forget_progress (courses st') = map forget_progress (courses st) ++ C)
  /\ (exists M, modules st' = modules st ++ M)
  /\ (exists L, lessons st' = lessons st ++ L)
  /\ (exists Q, quiz_questions st' = quiz_questions st ++ Q)
  /\ (exists R, resources st' = resources st ++ R)
  /\ quiz_scores st' = quiz_scores st /\ tutor_chats st' = tutor_chats st.

Lemma grows_refl : forall st, grows st st.
Proof.
  intros st. unfold grows.
  repeat split; try (exists []; rewrite app_nil_r; reflexivity).
Qed.

Lemma grows_trans : forall a b c, grows a b -> grows b c -> grows a c.
Proof.
  unfold grows.
  intros a b c [[C1 H1] [[M1 H2] [[L1 H3] [[Q1 H4] [[R1 H5] [H6 H7]]]]]]
    [[C2 K1] [[M2 K2] [[L2 K3] [[Q2 K4] [[R2 K5] [K6 K7]]]]]].
  repeat split; try congruence.
  - exists (C1 ++ C2). rewrite K1, H1, app_assoc. reflexivity.
  - exists (M1 ++ M2). rewrite K2, H2, app_assoc. reflexivity.
  - exists (L1 ++ L2). rewrite K3, H3, app_assoc. reflexivity.
  - exists (Q1 ++ Q2). rewrite K4, H4, app_assoc. reflexivity.
  - exists (R1 ++ R2). rewrite K5, H5, app_assoc. reflexivity.
Qed.

Lemma same_but_progress_grows :
  forall st st', same_but_progress st st' -> grows st st'.
Proof.
  unfold same_but_progress, grows.
  intros st st' [H1 [H2 [H3 [H4 [H5 [H6 [H7 _]]]]]]].
  repeat split; try assumption;
    exists []; rewrite app_nil_r; assumption.
Qed.

(** The requests whose failure createCourse throws. *)
Definition structural (o : op) : bool :=
  match o with
  | InsertCourse _ | InsertModule _ _ | InsertLesson _ _ => true
  | _ => false
  end.

(** What createCourse throws once the generator has answered: the error
    of such a request, or the [TypeError] of reading into a content tree
    that lacks what is read. *)
Definition thrown_after_generation (e : thrown) : bool :=
  match e with
  | RequestError o => structural o
  | ReadOfUndefined => true
  | GenerateError => false
  end.

Definition appends {A} (m : prog A) : Prop :=
  forall w,
    grows (db w) (db (snd (m w)))
    /\ ui_courses (snd (m w)) = ui_courses w
    /\ toasts (snd (m w)) = toasts w
    /\ match fst (m w) with
       | inr e => thrown_after_generation e = true
       | inl _ => True
       end.

Lemma appends_pure : forall A (a : A), appends (pure a).
Proof.
  intros A a w. cbn. split; [apply grows_refl | repeat split].
Qed.

Lemma appends_and_then :
  forall A B (m : prog A) (k : A -> prog B),
    appends m -> (forall a, appends (k a)) -> appends (and_then m k).
Proof.
  intros A B m k Hm Hk w. unfold and_then.
  destruct (Hm w) as [S1 [U1 [T1 E1]]].
  destruct (m w) as [[a | e] w1]; cbn [snd fst] in *.
  - destruct (Hk a w1) as [S2 [U2 [T2 E2]]].
    split; [eapply grows_trans; eassumption|].
    split; [congruence|]. split; [congruence | exact E2].
  - split; [exact S1|]. split; [exact U1|]. split; [exact T1 | exact E1].
Qed.

Lemma appends_for_each :
  forall A (f : nat -> A -> prog unit) (l : list A) (index : nat),
    (forall i a, appends (f i a)) -> appends (for_each f index l).
Proof.
  intros A f l. induction l as [| a l IH]; intros index Hf; cbn [for_each].
  - apply appends_pure.
  - apply appends_and_then; [apply Hf|]. intros u. apply IH. exact Hf.
Qed.

Lemma request_appends :
  forall A (o : op) (run : store -> option (A * store)) (w : world),
    (forall st a st', run st = Some (a, st') -> grows st st') ->
    grows (db w) (db (snd (request o run w)))
    /\ ui_courses (snd (request o run w)) = ui_courses w
    /\ toasts (snd (request o run w)) = toasts w.
Proof.
  intros A o run w Hrun. unfold request.
  destruct (faults w) as [| [|] fs]; cbn;
    try (split; [apply grows_refl | split; reflexivity]);
    destruct (run (db w)) as [[a st'] |] eqn:E; cbn;
    try (split; [apply grows_refl | split; reflexivity]);
    (split; [eapply Hrun; exact E | split; reflexivity]).
Qed.

Definition inserts {A} (ins : store -> A * store) : Prop :=
  forall st, grows st (snd (ins st)).

Lemma appends_defined : forall A (x : option A), appends (defined x).
Proof.
  intros A [a |] w; cbn; (split; [apply grows_refl | repeat split]).
Qed.

Lemma request_insert_appends :
  forall A B (o : op) (values : option A) (ins : A -> store -> B * store)
         (w : world),
    (forall v, inserts (ins v)) ->
    grows (db w) (db (snd (insert_values o values ins w)))
    /\ ui_courses (snd (insert_values o values ins w)) = ui_courses w
    /\ toasts (snd (insert_values o values ins w)) = toasts w.
Proof.
  intros A B o values ins w Hins. unfold insert_values.
  apply request_appends. intros st a st' E.
  destruct values as [v |]; [| discriminate].
  injection E as E. specialize (Hins v st). rewrite E in Hins. exact Hins.
Qed.

Lemma appends_insert_or_throw :
  forall A (e o : op) (ins : store -> A * store),
    structural e = true -> inserts ins -> appends (or_throw e (insert o ins)).
Proof.
  intros A e o ins He Hins w. unfold or_throw, insert.
  assert (Hg : forall st a st', Some (ins st) = Some (a, st') -> grows st st').
  { intros st a' st' E. injection E as E. specialize (Hins st).
    rewrite E in Hins. exact Hins. }
  pose proof (request_appends _ o (fun st => Some (ins st)) w Hg) as H.
  destruct (request o (fun st => Some (ins st)) w) as [[a |] w1];
    cbn [snd fst] in *; destruct H as [H1 [H2 H3]].
  - split; [exact H1|]. split; [exact H2|]. split; [exact H3 | exact I].
  - split; [exact H1|]. split; [exact H2|]. split; [exact H3 | exact He].
Qed.

Lemma appends_insert_values_or_throw :
  forall A B (e o : op) (values : option A) (ins : A -> store -> B * store),
    structural e = true -> (forall v, inserts (ins v)) ->
    appends (or_throw e (insert_values o values ins)).
Proof.
  intros A B e o values ins He Hins w. unfold or_throw.
  pose proof (request_insert_appends _ _ o values ins w Hins) as H.
  destruct (insert_values o values ins w) as [[a |] w1];
    cbn [snd fst] in *; destruct H as [H1 [H2 H3]].
  - split; [exact H1|]. split; [exact H2|]. split; [exact H3 | exact I].
  - split; [exact H1|]. split; [exact H2|]. split; [exact H3 | exact He].
Qed.

Lemma appends_insert_values_ignoring :
  forall A B (o : op) (values : option A) (ins : A -> store -> B * store),
    (forall v, inserts (ins v)) ->
    appends (ignoring_error (insert_values o values ins)).
Proof.
  intros A B o values ins Hins w. unfold ignoring_error.
  pose proof (request_insert_appends _ _ o values ins w Hins) as H.
  destruct (insert_values o values ins w) as [a w1]; cbn [snd fst] in *.
  destruct H as [H1 [H2 H3]].
  split; [exact H1|]. split; [exact H2|]. split; [exact H3 | exact I].
Qed.

Ltac one_more_row :=
  intros st; unfold grows; cbn;
  repeat split;
  try (exists []; rewrite app_nil_r; reflexivity);
  try (eexists; reflexivity);
  try (eexists; rewrite map_app; reflexivity).

Lemma inserts_course : forall u t f, inserts (insert_course u t f).
Proof. intros u t f. one_more_row. Qed.

Lemma inserts_module : forall c t o, inserts (insert_module c t o).
Proof. intros c t o. one_more_row. Qed.

Lemma inserts_lesson : forall m t o ob c, inserts (insert_lesson m t o ob c).
Proof. intros m t o ob c. one_more_row. Qed.

Lemma inserts_quiz : forall l q os a o, inserts (insert_quiz l q os a o).
Proof. intros l q os a o. one_more_row. Qed.

Lemma inserts_resource : forall l t u o, inserts (insert_resource l t u o).
Proof. intros l t u o. one_more_row. Qed.

Lemma appends_create_lesson :
  forall module i element, appends (create_lesson module i element).
Proof.
  intros module i element. unfold create_lesson.
  apply appends_and_then; [apply appends_defined|]. intros lessonData.
  apply appends_and_then.
  { apply appends_insert_values_or_throw; [reflexivity|].
    intros [[title objectives] content]. apply inserts_lesson. }
  intros lesson.
  apply appends_and_then; [apply appends_defined|]. intros quiz.
  apply appends_and_then.
  - apply appends_for_each. intros j q. unfold create_quiz_question.
    apply appends_and_then; [apply appends_defined|]. intros quizData.
    apply appends_and_then.
    { apply appends_insert_values_ignoring.
      intros [[question options] answer]. apply inserts_quiz. }
    intros u. apply appends_pure.
  - intros u.
    apply appends_and_then; [apply appends_defined|]. intros free_resources.
    apply appends_for_each. intros j r. unfold create_resource.
    apply appends_and_then; [apply appends_defined|]. intros resourceData.
    apply appends_and_then.
    { apply appends_insert_values_ignoring.
      intros [title url]. apply inserts_resource. }
    intros u'. apply appends_pure.
Qed.

Lemma appends_create_module :
  forall course i element, appends (create_module course i element).
Proof.
  intros course i element. unfold create_module.
  apply appends_and_then; [apply appends_defined|]. intros moduleData.
  apply appends_and_then.
  { apply appends_insert_values_or_throw; [reflexivity|].
    intros title. apply inserts_module. }
  intros module.
  apply appends_and_then; [apply appends_defined|]. intros lessons.
  apply appends_for_each. intros j l.
  apply appends_create_lesson.
Qed.

(** X4.  createCourse never rolls back and never removes anything.
    Whatever the generator and the backend answer, every table afterwards
    is the table before with rows added at the end (course rows compared
    without their progress), and quiz scores and chats are untouched.
    When the generator call resolved with an error, createCourse throws
    that error before any request and changes nothing.  Otherwise it
    throws only for an insert of the course, of a module or of a lesson
    that is answered with an error, or for a TypeError of reading into a
    content tree that lacks an array or an element the loops read; never
    for a quiz question or a resource insert; and when it throws, the
    course list and the toasts of the UI are as before.  Once the course
    insert has been answered, the new course row is in the store whether
    or not the rest succeeds. *)
Theorem createCourse_keeps_what_it_wrote :
  forall (user : uuid) (title : jsstring) (folder : option uuid)
         (generateResponse : generation) (w : world),
    grows (db w) (db (snd (createCourse user title folder generateResponse w)))
    /\ match fst (createCourse user title folder generateResponse w) with
       | inr e =>
           match generateResponse with
           | GenerationFailed =>
               e = GenerateError
               /\ snd (createCourse user title folder generateResponse w) = w
           | Generated _ => thrown_after_generation e = true
           end
           /\ ui_courses (snd (createCourse user title folder generateResponse w))
              = ui_courses w
           /\ toasts (snd (createCourse user title folder generateResponse w))
              = toasts w
       | inl course =>
           generateResponse <> GenerationFailed
           /\ course_id course = next_id (db w) /\ course_user_id course = user
       end
    /\ (generateResponse <> GenerationFailed ->
        hd false (faults w) = false ->
        exists c,
          In c (courses
                  (db (snd (createCourse user title folder generateResponse w))))
          /\ course_id c = next_id (db w)
          /\ course_user_id c = user /\ course_title c = title).
Proof.
  intros user title folder [| content] w.
  { cbn. split; [apply grows_refl|]. split; [repeat split|].
    intros H. contradiction H. reflexivity. }
  pose proof (appends_insert_or_throw _ (InsertCourse title) (InsertCourse title)
                (insert_course user title folder) eq_refl
                (inserts_course user title folder) w) as H0.
  assert (Hrow :
            match or_throw (InsertCourse title)
                    (insert (InsertCourse title) (insert_course user title folder))
                    w with
            | (inl course, w0) =>
                course = fst (insert_course user title folder (db w))
                /\ In (forget_progress course) (map forget_progress (courses (db w0)))
            | (inr _, _) => hd false (faults w) = true
            end).
  { unfold or_throw, insert, request.
    destruct (faults w) as [| [|] fs]; cbn; try reflexivity;
      (split; [reflexivity|]); rewrite map_app; apply in_or_app; right;
      left; reflexivity. }
  destruct (createCourse user title folder (Generated content) w) as [r w'] eqn:E.
  cbn [fst snd]. unfold createCourse, and_then in E.
  destruct (or_throw (InsertCourse title)
              (insert (InsertCourse title) (insert_course user title folder)) w)
    as [[course | e] w0]; cbn [fst snd] in *.
  2:{ injection E as <- <-. destruct H0 as [G [U [T S]]].
      split; [exact G|]. split; [auto|].
      intros _ Hf. rewrite Hrow in Hf. discriminate. }
  destruct H0 as [G0 [U0 [T0 _]]]. destruct Hrow as [Hcourse Hin0].
  assert (Hkept : forall st,
             grows (db w0) st ->
             exists c, In c (courses st) /\ course_id c = next_id (db w)
                       /\ course_user_id c = user /\ course_title c = title).
  { intros st [[C HC] _].
    assert (Hin : In (forget_progress course) (map forget_progress (courses st)))
      by (rewrite HC; apply in_or_app; left; exact Hin0).
    apply in_map_iff in Hin. destruct Hin as [c [Ec Hc]].
    exists c. split; [exact Hc|]. subst course.
    unfold forget_progress in Ec. cbn in Ec. injection Ec as E1 E2 E3 _ _.
    auto. }
  destruct content as [modules |]; cbn [defined pure raise] in E.
  2:{ injection E as <- <-.
      split; [exact G0|]. split; [split; [reflexivity | split; assumption]|].
      intros _ _. apply Hkept. apply grows_refl. }
  pose proof (appends_for_each _ (create_module course) modules 0
                (appends_create_module course) w0) as H1.
  destruct (for_each (create_module course) 0 modules w0) as [[u | e] w1];
    cbn [fst snd] in *; destruct H1 as [G1 [U1 [T1 S1]]].
  - cbn in E. injection E as <- <-.
    pose proof (fetchCourses_outcome user w1) as [G2 _].
    apply same_but_progress_grows in G2.
    assert (G12 : grows (db w0) (db (fetchCourses user w1)))
      by (eapply grows_trans; eassumption).
    split; [eapply grows_trans; eassumption|].
    split; [subst course; split; [discriminate | split; reflexivity]|].
    intros _ _. apply Hkept. exact G12.
  - injection E as <- <-.
    split; [eapply grows_trans; eassumption|].
    split; [split; [exact S1 | split; congruence]|].
    intros _ _. apply Hkept. exact G1.
Qed.

Definition module_without_lessons : generation :=
  Generated (Some [Some (mkGeneratedModule (Some (lit "Openings")) None)]).

Lemma createCourse_keeps_witness :
  exists c,
    In c (courses
            (db (snd (createCourse 7 (lit "Chess") None module_without_lessons
                        CreateFacts.empty_world))))
    /\ course_id c = 0 /\ course_user_id c = 7
    /\ course_title c = lit "Chess".
Proof.
  destruct (createCourse_keeps_what_it_wrote 7 (lit "Chess") None
              module_without_lessons CreateFacts.empty_world) as [_ [_ H]].
  apply H; [discriminate | reflexivity].
Defined.

(** A module whose lessons are missing: the course row and the module row
    are written, then reading the length of the missing array throws; the
    rows stay and the course list of the UI is not refreshed. *)
Example createCourse_on_a_module_without_lessons :
  match createCourse 7 (lit "Chess") None module_without_lessons
          CreateFacts.empty_world
  with
  | (inr e, w') =>
      e = ReadOfUndefined
      /\ map course_title (courses (db w')) = [lit "Chess"]
      /\ map module_title (modules (db w')) = [lit "Openings"]
      /\ log w' = [InsertCourse (lit "Chess"); InsertModule 0 1]
      /\ ui_courses w' = []
  | _ => False
  end.
Proof. vm_compute. repeat split; reflexivity. Qed.

(** *** A refresh settles the stored progress *)

Lemma distinct_NoDup : forall l, distinct l = true -> NoDup l.
Proof.
  induction l as [| x l IH]; intros H; [constructor|].
  cbn [distinct] in H. apply andb_true_iff in H. destruct H as [Hx Hl].
  constructor; [| apply IH; exact Hl].
  intros Hin. apply mem_In in Hin. rewrite Hin in Hx. discriminate.
Qed.

Lemma NoDup_inj :
  forall (A : Type) (key : A -> uuid) (rows : list A) (a b : A),
    NoDup (map key rows) -> In a rows -> In b rows -> key a = key b -> a = b.
Proof.
  intros A key rows. induction rows as [| x rows IH]; intros a b Hd Ha Hb E;
    [contradiction|].
  cbn [map] in Hd. inversion Hd as [| ? ? Hx Hd']; subst.
  destruct Ha as [<- | Ha], Hb as [<- | Hb].
  - reflexivity.
  - exfalso. apply Hx. rewrite E. apply in_map. exact Hb.
  - exfalso. apply Hx. rewrite <- E. apply in_map. exact Ha.
  - apply IH; assumption.
Qed.

Lemma NoDup_map_filter :
  forall (A : Type) (key : A -> uuid) (keep : A -> bool) (rows : list A),
    NoDup (map key rows) -> NoDup (map key (filter keep rows)).
Proof.
  intros A key keep rows. induction rows as [| x rows IH]; intros H;
    [constructor|].
  cbn [map] in H. inversion H as [| ? ? Hx Hd]; subst. cbn [filter].
  destruct (keep x); [| apply IH; exact Hd].
  cbn [map]. constructor; [| apply IH; exact Hd].
  intros Hin. apply Hx. apply in_map_iff in Hin. destruct Hin as [y [Ey Hy]].
  apply filter_In in Hy. rewrite <- Ey. apply in_map. apply Hy.
Qed.

(** The progress a refresh computes for a course row. *)
Definition due (st : store) (c : course_row) : Z :=
  calculateCourseProgress (read_modules st (course_id c)).

Definition settled (user : uuid) (st : store) : Prop :=
  forall c, In c (courses st) -> course_user_id c = user ->
            course_progress c = due st c.

Lemma fetch_course_step :
  forall st c w,
    calm w -> same_children st (db w) ->
    exists w',
      fetch_course c w = (inl (view_of st c), w') /\ calm w'
      /\ db w' = (if Z.eqb (due st c) (course_progress c) then db w
                  else update_progress (course_id c) (due st c) (db w)).
Proof.
  intros st c w Hw Hsame. unfold fetch_course, and_then.
  destruct (runs_to_query_or_throw _ (SelectModules (course_id c))
              (SelectModules (course_id c)) (select_modules (course_id c)) w Hw)
    as [w1 [E1 [Hc1 [Hdb1 _]]]].
  rewrite E1.
  destruct (promise_all_keeping _ _ (fun s => s = db w) fetch_module
              (read_module (db w)) (select_modules (course_id c) (db w))
              (fun a w0 Hc0 Hdb0 => fetch_module_calm (db w) a w0 Hc0 Hdb0)
              w1 Hc1 Hdb1)
    as [w2 [E2 [Hc2 Hdb2]]].
  rewrite E2.
  assert (Hread : map (read_module (db w)) (select_modules (course_id c) (db w))
                  = read_modules st (course_id c)).
  { rewrite <- (read_modules_same_children st (db w) (course_id c) Hsame).
    reflexivity. }
  rewrite Hread. unfold view_of, due.
  destruct (Z.eqb (calculateCourseProgress (read_modules st (course_id c)))
              (course_progress c)).
  - exists w2. cbn. rewrite Hdb2. auto.
  - unfold ignoring_error, command.
    rewrite (request_calm _ _ _ w2 tt
               (update_progress (course_id c)
                  (calculateCourseProgress (read_modules st (course_id c)))
                  (db w2)) Hc2 eq_refl).
    eexists. split; [reflexivity|]. split; [reflexivity|].
    cbn. rewrite Hdb2. reflexivity.
Qed.

(** What holds of the store while the rows in [pending] are still to be
    refreshed: the child tables are those of the snapshot, the pending rows
    are in the courses table as they were selected, and every other course
    row of the user already carries the progress due to it. *)
Definition refreshing (st0 : store) (user : uuid) (pending : list course_row)
    (st : store) : Prop :=
  same_children st0 st
  /\ NoDup (map course_id (courses st))
  /\ NoDup (map course_id pending)
  /\ (forall c, In c pending -> In c (courses st))
  /\ (forall c, In c (courses st) -> course_user_id c = user ->
                In c pending \/ course_progress c = due st0 c).

Lemma update_progress_ids :
  forall course p st,
    map course_id (courses (update_progress course p st))
    = map course_id (courses st).
Proof.
  intros course p st. unfold update_progress. cbn [courses].
  rewrite map_map. apply map_ext. intros c.
  destruct (Nat.eqb (course_id c) course); reflexivity.
Qed.

Lemma refreshing_step :
  forall st0 user c pending st,
    refreshing st0 user (c :: pending) st ->
    refreshing st0 user pending
      (if Z.eqb (due st0 c) (course_progress c) then st
       else update_progress (course_id c) (due st0 c) st).
Proof.
  intros st0 user c pending st [Hsame [Hids [Hpend [Hin Hdone]]]].
  cbn [map] in Hpend. inversion Hpend as [| ? ? Hfresh Hpend']; subst.
  assert (Hc : In c (courses st)) by (apply Hin; left; reflexivity).
  assert (Hother : forall r, In r pending -> course_id r <> course_id c).
  { intros r Hr E. apply Hfresh. rewrite <- E. apply in_map. exact Hr. }
  destruct (Z.eqb (due st0 c) (course_progress c)) eqn:E.
  - apply Z.eqb_eq in E.
    split; [exact Hsame|]. split; [exact Hids|]. split; [exact Hpend'|].
    split; [intros r Hr; apply Hin; right; exact Hr|].
    intros x Hx Hu. destruct (Hdone x Hx Hu) as [[<- | Hp] | Hs].
    + right. symmetry. exact E.
    + left. exact Hp.
    + right. exact Hs.
  - split; [exact Hsame|].
    split; [rewrite update_progress_ids; exact Hids|].
    split; [exact Hpend'|].
    unfold update_progress. cbn [courses].
    split.
    + intros r Hr. apply in_map_iff. exists r.
      split; [| apply Hin; right; exact Hr].
      destruct (Nat.eqb_spec (course_id r) (course_id c)) as [Eid | _];
        [exfalso; apply (Hother r Hr); exact Eid | reflexivity].
    + intros x Hx Hu. apply in_map_iff in Hx. destruct Hx as [x0 [Ex Hx0]].
      destruct (Nat.eqb_spec (course_id x0) (course_id c)) as [Eid | Nid].
      * right. subst x. cbn [course_progress]. unfold due. cbn [course_id].
        rewrite Eid. reflexivity.
      * subst x. destruct (Hdone x0 Hx0 Hu) as [[<- | Hp] | Hs].
        -- exfalso. apply Nid. reflexivity.
        -- left. exact Hp.
        -- right. exact Hs.
Qed.

Lemma refresh_loop :
  forall st0 user pending w,
    calm w -> refreshing st0 user pending (db w) ->
    exists w',
      promise_all fetch_course pending w = (inl (map (view_of st0) pending), w')
      /\ calm w' /\ refreshing st0 user [] (db w').
Proof.
  intros st0 user pending. induction pending as [| c pending IH];
    intros w Hw Hinv.
  - exists w. cbn [promise_all map]. auto.
  - cbn [promise_all map].
    destruct Hinv as [Hsame Hrest].
    destruct (fetch_course_step st0 c w Hw Hsame) as [w1 [E1 [Hc1 Hdb1]]].
    rewrite E1.
    assert (Hinv1 : refreshing st0 user pending (db w1)).
    { rewrite Hdb1. apply refreshing_step. split; assumption. }
    destruct (IH w1 Hc1 Hinv1) as [w2 [E2 [Hc2 Hinv2]]].
    rewrite E2. exists w2. auto.
Qed.

Lemma select_courses_In :
  forall user st c,
    In c (select_courses user st) <-> In c (courses st) /\ course_user_id c = user.
Proof.
  intros user st c. unfold select_courses, order_by_desc.
  rewrite <- in_rev, order_by_In, filter_In, Nat.eqb_eq. tauto.
Qed.

Lemma select_courses_NoDup :
  forall user st,
    NoDup (map course_id (courses st)) ->
    NoDup (map course_id (select_courses user st)).
Proof.
  intros user st H. unfold select_courses, order_by_desc.
  eapply Permutation_NoDup.
  - apply Permutation_map. eapply perm_trans; [| apply Permutation_rev].
    apply order_by_perm.
  - apply NoDup_map_filter. exact H.
Qed.

Lemma refresh_run :
  forall user w,
    calm w -> NoDup (map course_id (courses (db w))) ->
    ui_courses (fetchCourses user w)
    = map (view_of (db w)) (select_courses user (db w))
    /\ faults (fetchCourses user w) = []
    /\ refreshing (db w) user [] (db (fetchCourses user w)).
Proof.
  intros user w Hw Hids. unfold fetchCourses, and_then.
  destruct (runs_to_query_or_throw _ (SelectCourses user) (SelectCourses user)
              (select_courses user) w Hw)
    as [w1 [E1 [Hc1 [Hdb1 _]]]].
  rewrite E1.
  assert (Hinv : refreshing (db w) user (select_courses user (db w)) (db w1)).
  { rewrite Hdb1. split; [repeat split|]. split; [exact Hids|].
    split; [apply select_courses_NoDup; exact Hids|].
    split.
    - intros c Hc. apply select_courses_In in Hc. apply Hc.
    - intros c Hc Hu. left. apply select_courses_In. auto. }
  destruct (refresh_loop (db w) user _ w1 Hc1 Hinv) as [w2 [E2 [Hc2 Hinv2]]].
  rewrite E2. cbn. auto.
Qed.

Lemma refreshed_settled :
  forall st0 user st, refreshing st0 user [] st -> settled user st.
Proof.
  intros st0 user st [Hsame [_ [_ [_ Hdone]]]] c Hc Hu.
  destruct (Hdone c Hc Hu) as [[] | Hs]. rewrite Hs. unfold due.
  rewrite (read_modules_same_children st0 st (course_id c) Hsame).
  reflexivity.
Qed.

(** A settled store is left alone by a refresh. *)
Lemma settled_loop :
  forall user pending w,
    calm w -> settled user (db w) ->
    (forall c, In c pending -> In c (courses (db w)) /\ course_user_id c = user) ->
    exists w',
      promise_all fetch_course pending w = (inl (map (view_of (db w)) pending), w')
      /\ calm w' /\ db w' = db w.
Proof.
  intros user pending. induction pending as [| c pending IH];
    intros w Hw Hset Hin.
  - exists w. cbn [promise_all map]. auto.
  - cbn [promise_all map].
    assert (Hsame : same_children (db w) (db w)) by (repeat split).
    destruct (fetch_course_step (db w) c w Hw Hsame) as [w1 [E1 [Hc1 Hdb1]]].
    rewrite E1.
    destruct (Hin c (or_introl eq_refl)) as [Hc Hu].
    rewrite <- (Hset c Hc Hu), Z.eqb_refl in Hdb1.
    assert (Hset1 : settled user (db w1)) by (rewrite Hdb1; exact Hset).
    destruct (IH w1 Hc1 Hset1) as [w2 [E2 [Hc2 Hdb2]]].
    { intros r Hr. rewrite Hdb1. apply Hin. right. exact Hr. }
    rewrite E2, Hdb1. exists w2. split; [reflexivity|].
    split; [exact Hc2 | congruence].
Qed.

(** X5.  When the backend answers every request and course ids are
    distinct, a refresh leaves every course row of the user with exactly
    the progress computed from the lessons stored under it, whatever the
    rows said before, and shows each course with that progress; a second
    refresh then changes nothing in the database. *)
Theorem refresh_settles_progress :
  forall (user : uuid) (w : world),
    faults w = [] ->
    distinct (map course_id (courses (db w))) = true ->
    (forall c,
        In c (courses (db (fetchCourses user w))) -> course_user_id c = user ->
        course_progress c
        = calculateCourseProgress
            (read_modules (db (fetchCourses user w)) (course_id c)))
    /\ ui_courses (fetchCourses user w)
       = map (view_of (db w)) (select_courses user (db w))
    /\ db (fetchCourses user (fetchCourses user w)) = db (fetchCourses user w).
Proof.
  intros user w Hw Hd. apply distinct_NoDup in Hd.
  destruct (refresh_run user w Hw Hd) as [Hui [Hf Hinv]].
  pose proof (refreshed_settled _ _ _ Hinv) as Hset.
  split; [exact Hset|]. split; [exact Hui|].
  set (w1 := fetchCourses user w) in *.
  unfold fetchCourses at 1, and_then.
  destruct (runs_to_query_or_throw _ (SelectCourses user) (SelectCourses user)
              (select_courses user) w1 Hf)
    as [w2 [E2 [Hc2 [Hdb2 _]]]].
  rewrite E2.
  destruct (settled_loop user (select_courses user (db w1)) w2 Hc2) as
    [w3 [E3 [_ Hdb3]]].
  - rewrite Hdb2. exact Hset.
  - intros c Hc. rewrite Hdb2. apply select_courses_In. exact Hc.
  - rewrite Hdb2 in E3. rewrite E3. cbn. congruence.
Qed.

Definition stale_store : store :=
  mkStore
    [mkCourseRow 0 7 (lit "Chess") 40 0 None; mkCourseRow 1 7 (lit "Go") 0 1 None]
    [mkModuleRow 2 0 (lit "Openings") 1; mkModuleRow 3 1 (lit "Joseki") 1]
    [mkLessonRow 4 2 (lit "Italian") 1 (Some []) (lit "e4 e5") false;
     mkLessonRow 5 3 (lit "Corners") 1 (Some []) (lit "3-4 point") true]
    [] [] [] [] 6 6.

Definition stale_world : world := mkWorld stale_store [] [] [] [].

Lemma refresh_settles_witness :
  (forall c,
      In c (courses (db (fetchCourses 7 stale_world))) -> course_user_id c = 7 ->
      course_progress c
      = calculateCourseProgress
          (read_modules (db (fetchCourses 7 stale_world)) (course_id c)))
  /\ ui_courses (fetchCourses 7 stale_world)
     = map (view_of stale_store) (select_courses 7 stale_store)
  /\ db (fetchCourses 7 (fetchCourses 7 stale_world))
     = db (fetchCourses 7 stale_world).
Proof.
  apply (refresh_settles_progress 7 stale_world); reflexivity.
Defined.

(** The stale rows of the witness end at 0 and 100. *)
Example refresh_settles_evaluated :
  map course_progress (courses (db (fetchCourses 7 stale_world)))
  = [0%Z; 100%Z].
Proof. vm_compute. reflexivity. Qed.

(** One callback of [Promise.all] failing does not stop the others: with
    the modules of the newer course refused, the load-failed toast is
    shown and the list of the UI stays, and the older course still has its
    stale progress of 40 replaced by 0. *)
Example refresh_goes_on_after_a_failure :
  let w := fetchCourses 7 (mkWorld stale_store [false; true] [] [] []) in
  toasts w = [ToastLoadFailed]
  /\ ui_courses w = []
  /\ map course_progress (courses (db w)) = [0%Z; 0%Z]
  /\ log w = [SelectCourses 7; SelectModules 1; SelectModules 0;
              SelectLessons 2; SelectQuizQuestions 4; SelectResources 4;
              UpdateProgress 0 0].
Proof. vm_compute. repeat split; reflexivity. Qed.

End StoreFacts.
(* ------------------------------------------------------------------ *)
(** ** Fences and prose around the object *)

Module NoiseFacts.
Import RegexFacts ExtractFacts.

(** *** The two fence patterns as functions on strings *)

Lemma trimStart_split :
  forall s, exists ws,
    s = ws ++ trimStart s /\ forallb is_space ws = true
    /\ match trimStart s with [] => True | x :: _ => is_space x = false end.
Proof.
  induction s as [| c s [ws [Hs [Hws Hx]]]].
  - exists []. cbn. auto.
  - cbn [trimStart]. destruct (is_space c) eqn:E.
    + exists (c :: ws). cbn [app forallb]. rewrite E, Hws.
      split; [f_equal; exact Hs | auto].
    + exists []. cbn. rewrite E. auto.
Qed.

Lemma startsWith_split :
  forall l s, startsWith s l = true -> s = l ++ skipn (length l) s.
Proof.
  induction l as [| c l IH]; intros s H; [reflexivity|].
  destruct s as [| x s]; [discriminate|]. cbn [startsWith] in H.
  apply andb_true_iff in H. destruct H as [E H]. apply N.eqb_eq in E. subst x.
  cbn [length skipn app]. f_equal. apply IH. exact H.
Qed.

Lemma word_prefix :
  forall (R : Type) (l : jsstring) (k : regex) (pos : nat) (rest : jsstring)
         (cs : captures) (K : nat -> jsstring -> captures -> option R),
    rmatch (word l k) pos (l ++ rest) cs K
    = rmatch k (pos + length l) rest cs K.
Proof.
  intros R l k. induction l as [| c l IH]; intros pos rest cs K.
  - cbn [word app length]. rewrite Nat.add_0_r. reflexivity.
  - cbn [word app length rmatch]. unfold chr. cbn [rmatch].
    rewrite N.eqb_refl, IH. f_equal. lia.
Qed.

Lemma word_eos :
  forall (R : Type) (l r : jsstring) (pos : nat) (cs : captures)
         (K : nat -> jsstring -> captures -> option R),
    rmatch (word l REos) pos r cs K
    = if JsString.eqb r l then K (pos + length l) [] cs else None.
Proof.
  intros R l. induction l as [| c l IH]; intros r pos cs K.
  - cbn [word rmatch length]. rewrite Nat.add_0_r.
    destruct r; reflexivity.
  - cbn [word rmatch]. unfold chr. cbn [rmatch].
    destruct r as [| x r]; [reflexivity|]. cbn [JsString.eqb length].
    rewrite (N.eqb_sym c x). destruct (N.eqb x c); [| reflexivity].
    rewrite IH. cbn [andb]. replace (S pos + length l) with (pos + S (length l))
      by lia. reflexivity.
Qed.

(** The greedy star takes the whole run when the continuation succeeds
    after it. *)
Lemma star_class_longest :
  forall (R : Type) (p : char -> bool)
         (step : nat -> jsstring -> captures
                 -> (nat -> jsstring -> captures -> option R) -> option R)
         (k : nat -> jsstring -> captures -> option R)
         (ws r : jsstring) (fuel pos : nat) (cs : captures) (x : R),
    (forall pos0 s cs0 k0,
        step pos0 s cs0 k0
        = match s with
          | [] => None
          | c :: s' => if p c then k0 (S pos0) s' cs0 else None
          end) ->
    forallb p ws = true ->
    match r with [] => True | c :: _ => p c = false end ->
    length ws <= fuel ->
    k (pos + length ws) r cs = Some x ->
    star_loop step k fuel pos (ws ++ r) cs = Some x.
Proof.
  intros R p step k ws r. induction ws as [| a ws IH];
    intros fuel pos cs x Hstep Hws Hr Hfuel Hk.
  - cbn [app length] in *. rewrite Nat.add_0_r in Hk.
    destruct fuel; cbn [star_loop]; [exact Hk|]. rewrite Hstep.
    destruct r as [| c r]; [exact Hk|]. rewrite Hr. exact Hk.
  - cbn [forallb] in Hws. apply andb_true_iff in Hws. destruct Hws as [Ha Hws].
    destruct fuel as [| fuel]; [cbn [length] in Hfuel; lia|].
    cbn [star_loop app]. rewrite Hstep, Ha.
    assert (Hlt : Nat.ltb (length (ws ++ r)) (length (a :: ws ++ r)) = true).
    { apply Nat.ltb_lt. cbn [length]. lia. }
    rewrite Hlt.
    rewrite (IH fuel (S pos) cs x Hstep Hws Hr);
      [reflexivity | cbn [length] in Hfuel; lia|].
    cbn [length] in Hk. replace (S pos + length ws) with (pos + S (length ws))
      by lia. exact Hk.
Qed.

(** The opening fence: the literal and the white space after it go. *)
Lemma replace_fence_open :
  forall l s,
    startsWith s l = true ->
    replace (RSeq RBos (word l spaces)) [] s = trimStart (skipn (length l) s).
Proof.
  intros l s H. rewrite (startsWith_split l s H) at 1.
  remember (skipn (length l) s) as rest eqn:Hrest. clear Hrest H.
  destruct (trimStart_split rest) as [ws [Hs [Hws Hx]]].
  assert (Hm : match_at (RSeq RBos (word l spaces)) 0 (l ++ rest)
               = Some (trimStart rest, [])).
  { unfold match_at. cbn [rmatch Nat.eqb]. rewrite word_prefix.
    unfold spaces. cbn [rmatch]. rewrite Hs at 1 2.
    apply (star_class_longest _ is_space);
      [reflexivity | exact Hws | exact Hx | | reflexivity].
    rewrite length_app. lia. }
  unfold replace. destruct (l ++ rest) as [| c r] eqn:E;
    cbn [replace_from]; rewrite Hm; reflexivity.
Qed.

(** White space and three backticks up to the end of the text. *)
Fixpoint fence_tail (s : jsstring) : bool :=
  match s with
  | [] => false
  | c :: r => if is_space c then fence_tail r else JsString.eqb s (lit "```")
  end.

Lemma fence_tail_run :
  forall ws r,
    forallb is_space ws = true ->
    match r with [] => True | c :: _ => is_space c = false end ->
    fence_tail (ws ++ r) = JsString.eqb r (lit "```").
Proof.
  induction ws as [| a ws IH]; intros r Hws Hr.
  - cbn [app]. destruct r as [| c r]; [reflexivity|]. cbn [fence_tail].
    rewrite Hr. reflexivity.
  - cbn [forallb] in Hws. apply andb_true_iff in Hws. destruct Hws as [Ha Hws].
    cbn [app fence_tail]. rewrite Ha. apply IH; assumption.
Qed.

Lemma match_fence_close :
  forall pos s,
    match_at re_fence_close pos s
    = if fence_tail s then Some ([], []) else None.
Proof.
  intros pos s. destruct (trimStart_split s) as [ws [Hs [Hws Hx]]].
  remember (trimStart s) as r eqn:Hr. clear Hr. subst s.
  rewrite (fence_tail_run ws r Hws Hx).
  unfold match_at, re_fence_close, spaces. cbn [rmatch].
  rewrite (star_class_greedy _ is_space _ _ ws r).
  - rewrite word_eos. destruct (JsString.eqb r (lit "```")); reflexivity.
  - reflexivity.
  - exact Hws.
  - exact Hx.
  - rewrite length_app. lia.
  - intros pos' c s' cs' Hc. cbn [lit word rmatch]. unfold chr. cbn [rmatch].
    destruct (N.eqb _ c) eqn:E; [| reflexivity].
    apply N.eqb_eq in E. subst c. discriminate.
Qed.

(** The closing fence: the leftmost place from which only white space and
    three backticks follow. *)
Fixpoint strip_close (s : jsstring) : jsstring :=
  match s with
  | [] => []
  | c :: r => if fence_tail s then [] else c :: strip_close r
  end.

Lemma replace_fence_close :
  forall s pos, replace_from re_fence_close [] pos s = strip_close s.
Proof.
  induction s as [| c s IH]; intros pos.
  - cbn [replace_from]. rewrite match_fence_close. reflexivity.
  - cbn [replace_from strip_close]. rewrite match_fence_close.
    destruct (fence_tail (c :: s)); [reflexivity|]. rewrite IH. reflexivity.
Qed.

(** One of the two guarded blocks of [strip_fences]. *)
Definition fence_step (l s : jsstring) : jsstring :=
  if startsWith s l then strip_close (trimStart (skipn (length l) s)) else s.

Lemma replace_close :
  forall s, replace re_fence_close [] s = strip_close s.
Proof. intros s. apply replace_fence_close. Qed.

Lemma strip_fences_steps :
  forall s,
    strip_fences s = fence_step (lit "```") (fence_step (lit "```json") s).
Proof.
  intros s. unfold strip_fences, fence_step.
  destruct (startsWith s (lit "```json")) eqn:E1.
  - unfold re_fence_json_open. rewrite (replace_fence_open _ s E1).
    rewrite replace_close.
    match goal with |- context [startsWith ?x (lit "```")] =>
      destruct (startsWith x (lit "```")) eqn:E2 end; [| reflexivity].
    unfold re_fence_open. rewrite (replace_fence_open _ _ E2).
    rewrite replace_close. reflexivity.
  - destruct (startsWith s (lit "```")) eqn:E2; [| reflexivity].
    unfold re_fence_open. rewrite (replace_fence_open _ s E2).
    rewrite replace_close. reflexivity.
Qed.

(** *** Texts of the shape prefix, object, suffix *)

Definition free_of (x : char) (s : jsstring) : bool :=
  forallb (fun c => negb (N.eqb c x)) s.

Lemma free_of_app :
  forall x a b, free_of x (a ++ b) = free_of x a && free_of x b.
Proof. intros x a b. apply forallb_app. Qed.

Lemma free_of_rev : forall x s, free_of x (rev s) = free_of x s.
Proof.
  intros x s. induction s as [| c s IH]; [reflexivity|].
  cbn [rev]. rewrite free_of_app, IH. cbn [free_of forallb].
  rewrite andb_true_r. apply andb_comm.
Qed.

Lemma free_of_trimStart :
  forall x s, free_of x s = true -> free_of x (trimStart s) = true.
Proof.
  intros x s. induction s as [| c s IH]; intros H; [reflexivity|].
  cbn [trimStart]. destruct (is_space c); [| exact H].
  cbn [free_of forallb] in H. apply andb_true_iff in H. apply IH. apply H.
Qed.

Lemma free_of_trimEnd :
  forall x s, free_of x s = true -> free_of x (trimEnd s) = true.
Proof.
  intros x s H. unfold trimEnd. rewrite free_of_rev.
  apply free_of_trimStart. rewrite free_of_rev. exact H.
Qed.

Lemma free_of_strip_close :
  forall x s, free_of x s = true -> free_of x (strip_close s) = true.
Proof.
  intros x s. induction s as [| c s IH]; intros H; [reflexivity|].
  cbn [strip_close]. destruct (fence_tail (c :: s)); [reflexivity|].
  cbn [free_of forallb] in *. apply andb_true_iff in H. destruct H as [Hc Hs].
  rewrite Hc. apply IH. exact Hs.
Qed.

Lemma eqb_eq : forall a b, JsString.eqb a b = true -> a = b.
Proof.
  induction a as [| x a IH]; intros [| y b] H; try discriminate;
    [reflexivity|].
  cbn [JsString.eqb] in H. apply andb_true_iff in H. destruct H as [E H].
  apply N.eqb_eq in E. subst y. f_equal. apply IH. exact H.
Qed.

Lemma fence_tail_brace :
  forall u q, fence_tail (u ++ RBRACE :: q) = false.
Proof.
  induction u as [| c u IH]; intros q.
  - reflexivity.
  - cbn [app fence_tail]. destruct (is_space c); [apply IH|].
    destruct (JsString.eqb (c :: u ++ RBRACE :: q) (lit "```")) eqn:E;
      [| reflexivity].
    apply eqb_eq in E.
    assert (Hin : In RBRACE (c :: u ++ RBRACE :: q))
      by (right; apply in_or_app; right; left; reflexivity).
    rewrite E in Hin. cbn in Hin.
    destruct Hin as [H | [H | [H | []]]]; discriminate.
Qed.

Lemma strip_close_brace :
  forall u q, strip_close (u ++ RBRACE :: q) = u ++ RBRACE :: strip_close q.
Proof.
  induction u as [| c u IH]; intros q.
  - reflexivity.
  - cbn [app strip_close].
    pose proof (fence_tail_brace (c :: u) q) as F. cbn [app] in F.
    rewrite F, IH. reflexivity.
Qed.

Lemma startsWith_within :
  forall l p x,
    free_of LBRACE l = true -> startsWith (p ++ LBRACE :: x) l = true ->
    exists p2, p = l ++ p2.
Proof.
  induction l as [| c l IH]; intros p x Hl H.
  - exists p. reflexivity.
  - cbn [free_of forallb] in Hl. apply andb_true_iff in Hl.
    destruct Hl as [Hc Hl]. apply negb_true_iff in Hc.
    destruct p as [| y p]; cbn [app startsWith] in H;
      apply andb_true_iff in H; destruct H as [E H].
    + rewrite E in Hc. discriminate.
    + apply N.eqb_eq in E. subst y.
      destruct (IH p x Hl H) as [p2 Hp]. exists p2. rewrite Hp. reflexivity.
Qed.

Lemma free_of_open_not_space : is_space LBRACE = false.
Proof. reflexivity. Qed.

(** One guarded block keeps the shape: it takes a prefix of what is before
    the object and a suffix of what is after it. *)
Lemma fence_step_shape :
  forall l p body q,
    free_of LBRACE l = true ->
    free_of LBRACE p = true -> free_of RBRACE q = true ->
    exists p' q',
      fence_step l (p ++ LBRACE :: body ++ RBRACE :: q)
      = p' ++ LBRACE :: body ++ RBRACE :: q'
      /\ free_of LBRACE p' = true /\ free_of RBRACE q' = true.
Proof.
  intros l p body q Hl Hp Hq. unfold fence_step.
  destruct (startsWith (p ++ LBRACE :: body ++ RBRACE :: q) l) eqn:E.
  - destruct (startsWith_within l p _ Hl E) as [p2 Hp2]. subst p.
    rewrite <- app_assoc, skipn_app, skipn_all, Nat.sub_diag.
    cbn [app skipn].
    rewrite trimStart_app_nonspace by reflexivity.
    change (trimStart p2 ++ LBRACE :: body ++ RBRACE :: q)
      with (trimStart p2 ++ (LBRACE :: body) ++ RBRACE :: q).
    rewrite app_assoc, strip_close_brace, <- app_assoc.
    exists (trimStart p2), (strip_close q).
    split; [reflexivity|]. split.
    + apply free_of_trimStart. rewrite free_of_app in Hp.
      apply andb_true_iff in Hp. apply Hp.
    + apply free_of_strip_close. exact Hq.
  - exists p, q. auto.
Qed.

Lemma indexOf_first :
  forall p x,
    free_of LBRACE p = true ->
    indexOf LBRACE (p ++ LBRACE :: x) = Z.of_nat (length p).
Proof.
  induction p as [| c p IH]; intros x H.
  - reflexivity.
  - cbn [free_of forallb] in H. apply andb_true_iff in H. destruct H as [Hc H].
    apply negb_true_iff in Hc. cbn [app indexOf length]. rewrite Hc.
    rewrite (IH x H).
    destruct (Z.ltb_spec (Z.of_nat (length p)) 0); lia.
Qed.

Lemma lastIndexOf_free :
  forall c q, free_of c q = true -> lastIndexOf c q = (-1)%Z.
Proof.
  intros c q. induction q as [| x q IH]; intros H; [reflexivity|].
  cbn [free_of forallb] in H. apply andb_true_iff in H. destruct H as [Hx H].
  apply negb_true_iff in Hx. cbn [lastIndexOf]. rewrite (IH H), Hx.
  reflexivity.
Qed.

Lemma trim_to_braces_shape :
  forall p body q,
    free_of LBRACE p = true -> free_of RBRACE q = true ->
    trim_to_braces (p ++ LBRACE :: body ++ RBRACE :: q)
    = LBRACE :: body ++ [RBRACE].
Proof.
  intros p body q Hp Hq. unfold trim_to_braces.
  rewrite (indexOf_first p _ Hp).
  assert (Hcut : (if (0 <? Z.of_nat (length p))%Z
                  then substring_from (p ++ LBRACE :: body ++ RBRACE :: q)
                         (Z.of_nat (length p))
                  else p ++ LBRACE :: body ++ RBRACE :: q)
                 = LBRACE :: body ++ RBRACE :: q).
  { destruct p as [| c p]; [reflexivity|].
    replace ((0 <? Z.of_nat (length (c :: p)))%Z) with true
      by (symmetry; apply Z.ltb_lt; cbn [length]; lia).
    unfold substring_from. rewrite Nat2Z.id.
    rewrite skipn_app, skipn_all, Nat.sub_diag. reflexivity. }
  rewrite Hcut.
  assert (Hlast : lastIndexOf RBRACE ((LBRACE :: body) ++ RBRACE :: q)
                  = Z.of_nat (S (length body))).
  { rewrite lastIndexOf_app. cbn [lastIndexOf].
    rewrite (lastIndexOf_free _ q Hq).
    change ((0 <=? -1)%Z) with false. cbv iota.
    change (N.eqb RBRACE RBRACE) with true. cbv iota.
    change ((0 <=? 0)%Z) with true. cbv iota. cbn [length]. lia. }
  change (LBRACE :: body ++ RBRACE :: q)
    with ((LBRACE :: body) ++ RBRACE :: q).
  rewrite Hlast, length_app. cbn [length].
  replace ((0 <? Z.of_nat (S (length body)))%Z) with true
    by (symmetry; apply Z.ltb_lt; lia).
  cbn [andb].
  destruct (Z.ltb_spec (Z.of_nat (S (length body)))
              (Z.of_nat (S (length body) + S (length q)) - 1)) as [Hlt | Hge].
  - unfold substring_to.
    replace (Z.to_nat (Z.of_nat (S (length body)) + 1))
      with (length (LBRACE :: body) + 1) by (cbn [length]; lia).
    rewrite firstn_past_prefix. reflexivity.
  - destruct q as [| c q]; [reflexivity | cbn [length] in Hge; lia].
Qed.

Lemma trim_shape :
  forall p body q,
    trim (p ++ LBRACE :: body ++ RBRACE :: q)
    = trimStart p ++ LBRACE :: body ++ RBRACE :: trimEnd q.
Proof.
  intros p body q. unfold trim.
  rewrite trimStart_app_nonspace by reflexivity.
  change (trimStart p ++ LBRACE :: body ++ RBRACE :: q)
    with (trimStart p ++ (LBRACE :: body) ++ RBRACE :: q).
  rewrite app_assoc, trimEnd_app_nonspace by reflexivity.
  rewrite <- app_assoc. reflexivity.
Qed.

(** What the first four cleaning steps leave of a text that holds an object
    between a prefix without an opening brace and a suffix without a
    closing brace. *)
Lemma object_is_isolated :
  forall p body q,
    free_of LBRACE p = true -> free_of RBRACE q = true ->
    trim_to_braces (strip_fences (trim (p ++ LBRACE :: body ++ RBRACE :: q)))
    = LBRACE :: body ++ [RBRACE].
Proof.
  intros p body q Hp Hq. rewrite trim_shape, strip_fences_steps.
  destruct (fence_step_shape (lit "```json") (trimStart p) body (trimEnd q))
    as [p1 [q1 [E1 [Hp1 Hq1]]]];
    [reflexivity | apply free_of_trimStart; exact Hp
     | apply free_of_trimEnd; exact Hq |].
  rewrite E1.
  destruct (fence_step_shape (lit "```") p1 body q1)
    as [p2 [q2 [E2 [Hp2 Hq2]]]]; [reflexivity | exact Hp1 | exact Hq1 |].
  rewrite E2. apply trim_to_braces_shape; assumption.
Qed.

(** X6.  Whatever stands before the first opening brace and after the
    last closing brace is dropped by every extractor: if the text before an
    object holds no opening brace and the text after it no closing brace
    (code fences with or without the json tag, prose, white space), then
    the trimming, fence stripping and brace cutting leave exactly the
    object, and each handler's extraction returns what it returns for the
    bare object. *)
Theorem noise_around_object_is_removed :
  forall (p body q : jsstring),
    free_of LBRACE p = true ->
    free_of RBRACE q = true ->
    trim_to_braces (strip_fences (trim (p ++ LBRACE :: body ++ RBRACE :: q)))
    = LBRACE :: body ++ [RBRACE]
    /\ extract_plain (p ++ LBRACE :: body ++ RBRACE :: q)
       = JSON_parse (LBRACE :: body ++ [RBRACE])
    /\ extract_roadmap (p ++ LBRACE :: body ++ RBRACE :: q)
       = extract_roadmap (LBRACE :: body ++ [RBRACE])
    /\ extract_course (p ++ LBRACE :: body ++ RBRACE :: q)
       = extract_course (LBRACE :: body ++ [RBRACE]).
Proof.
  intros p body q Hp Hq.
  pose proof (object_is_isolated p body q Hp Hq) as H.
  pose proof (object_is_isolated [] body [] eq_refl eq_refl) as H0.
  cbn [app] in H0.
  split; [exact H|].
  unfold extract_plain, extract_roadmap, roadmap_cleaned, extract_course,
    course_fixed.
  rewrite H, H0. repeat split.
Qed.

Definition chatty_reply : jsstring :=
  lit "Sure, here is the JSON:" ++ [LF] ++ lit "```json" ++ [LF]
  ++ LBRACE :: text "'a': [1, 2]" ++ RBRACE :: [LF] ++ lit "```" ++ [LF]
  ++ lit "Let me know if you need more.".

Lemma noise_around_object_witness :
  trim_to_braces (strip_fences (trim chatty_reply))
  = LBRACE :: text "'a': [1, 2]" ++ [RBRACE]
  /\ extract_plain chatty_reply
     = JSON_parse (LBRACE :: text "'a': [1, 2]" ++ [RBRACE])
  /\ extract_roadmap chatty_reply
     = extract_roadmap (LBRACE :: text "'a': [1, 2]" ++ [RBRACE])
  /\ extract_course chatty_reply
     = extract_course (LBRACE :: text "'a': [1, 2]" ++ [RBRACE]).
Proof.
  apply (noise_around_object_is_removed
           (lit "Sure, here is the JSON:" ++ [LF] ++ lit "```json" ++ [LF])
           (text "'a': [1, 2]")
           ([LF] ++ lit "```" ++ [LF] ++ lit "Let me know if you need more."));
    reflexivity.
Defined.

(** A fenced object, with and without the tag. *)
Example fenced_objects :
  extract_plain (lit "```json" ++ [LF] ++ text "{'a': 1}" ++ [LF] ++ lit "```")
  = Some (JObj [(lit "a", num_of_nat 1)])
  /\ extract_plain (lit "```" ++ [LF] ++ text "{'a': 1}" ++ [LF] ++ lit "```")
     = Some (JObj [(lit "a", num_of_nat 1)]).
Proof. split; vm_compute; reflexivity. Qed.

(** *** The character cleaning of generate-course, one character at a time *)

Definition clean_char (c : char) : jsstring :=
  if is_control c then []
  else if N.eqb LDQUO c || N.eqb RDQUO c then [DQUOTE]
  else if N.eqb LSQUO c || N.eqb RSQUO c then [APOSTROPHE]
  else if N.eqb ENDASH c || N.eqb EMDASH c then [HYPHEN]
  else if N.eqb ELLIPSIS c then lit "..."
  else if is_japanese c then []
  else if is_non_ascii c then []
  else [c].

Lemma clean_characters_one : forall c, clean_characters [c] = clean_char c.
Proof.
  intros c. unfold clean_characters, clean_char.
  rewrite (replaceAll_single _ _ _ single_control).
  cbn [flat_map app]. unfold substitute at 1.
  destruct (is_control c); [reflexivity|]. cbn [expand app].
  rewrite (replaceAll_single _ _ _ single_smart_double).
  cbn [flat_map app]. unfold substitute at 1.
  destruct (N.eqb LDQUO c || N.eqb RDQUO c); [reflexivity|].
  cbn [expand app].
  rewrite (replaceAll_single _ _ _ single_smart_single).
  cbn [flat_map app]. unfold substitute at 1.
  destruct (N.eqb LSQUO c || N.eqb RSQUO c); [reflexivity|].
  cbn [expand app].
  rewrite (replaceAll_single _ _ _ single_dashes).
  cbn [flat_map app]. unfold substitute at 1.
  destruct (N.eqb ENDASH c || N.eqb EMDASH c); [reflexivity|].
  cbn [expand app].
  rewrite (replaceAll_single _ _ _ single_ellipsis).
  cbn [flat_map app]. unfold substitute at 1.
  destruct (N.eqb ELLIPSIS c); [reflexivity|].
  cbn [expand app].
  rewrite (replaceAll_single _ _ _ single_japanese).
  cbn [flat_map app]. unfold substitute at 1.
  destruct (is_japanese c); [reflexivity|].
  cbn [expand app].
  rewrite (replaceAll_single _ _ _ single_non_ascii).
  cbn [flat_map app]. unfold substitute.
  destruct (is_non_ascii c); reflexivity.
Qed.

Lemma clean_characters_by_char :
  forall s, clean_characters s = flat_map clean_char s.
Proof.
  induction s as [| c s IH]; [reflexivity|].
  change (c :: s) with ([c] ++ s).
  rewrite clean_characters_app, clean_characters_one, IH. reflexivity.
Qed.

(** A UTF-16 code unit. *)
Definition code_unit (c : char) : bool := (c <=? 65535)%N.

Lemma clean_char_printable :
  forall c, code_unit c = true -> forallb printable (clean_char c) = true.
Proof.
  intros c Hc. unfold clean_char.
  destruct (is_control c) eqn:E1; [reflexivity|].
  destruct (N.eqb LDQUO c || N.eqb RDQUO c); [reflexivity|].
  destruct (N.eqb LSQUO c || N.eqb RSQUO c); [reflexivity|].
  destruct (N.eqb ENDASH c || N.eqb EMDASH c); [reflexivity|].
  destruct (N.eqb ELLIPSIS c); [reflexivity|].
  destruct (is_japanese c); [reflexivity|].
  destruct (is_non_ascii c) eqn:E2; [reflexivity|].
  cbn [forallb]. rewrite andb_true_r.
  revert Hc E1 E2. unfold code_unit, printable, is_control, is_non_ascii,
    in_range. by_ranges.
Qed.

(** X7.  After the character cleaning of generate-course the text is
    printable ASCII throughout: every code unit lies between U+0020 and
    U+007E, so line breaks, tabs and every letter outside ASCII are gone.
    Cleaning a second time changes nothing. *)
Theorem cleaned_text_is_printable_ascii :
  forall s : jsstring,
    forallb code_unit s = true ->
    forallb printable (clean_characters s) = true
    /\ clean_characters (clean_characters s) = clean_characters s.
Proof.
  intros s Hs.
  assert (Hp : forallb printable (clean_characters s) = true).
  { rewrite clean_characters_by_char. induction s as [| c s IH];
      [reflexivity|].
    cbn [forallb] in Hs. apply andb_true_iff in Hs. destruct Hs as [Hc Hs].
    cbn [flat_map]. rewrite forallb_app, (clean_char_printable c Hc).
    apply IH. exact Hs. }
  split; [exact Hp | apply clean_characters_printable; exact Hp].
Qed.

Definition mixed_text : jsstring :=
  text "{'name': 'Jos" ++ [233%N] ++ lit " " ++ [LDQUO] ++ lit "Pepe"
  ++ [RDQUO] ++ text "'," ++ [LF; 9%N] ++ text "'years': '2020" ++ [ENDASH]
  ++ lit "2024" ++ [ELLIPSIS] ++ text "'}".

Lemma cleaned_text_witness :
  forallb printable (clean_characters mixed_text) = true
  /\ clean_characters (clean_characters mixed_text) = clean_characters mixed_text.
Proof.
  apply (cleaned_text_is_printable_ascii mixed_text). reflexivity.
Defined.

Example cleaned_text_evaluated :
  clean_characters mixed_text
  = text "{'name': 'Jos 'Pepe'','years': '2020-2024...'}".
Proof. vm_compute. reflexivity. Qed.

End NoiseFacts.
(* ------------------------------------------------------------------ *)
(** ** The lesson-recommendation endpoint *)

Module RecsFacts.
Import Edge.

(** *** Decimal rendering *)

(** Reading a run of decimal digits back. *)
Definition decimal_value (s : jsstring) : N :=
  fold_left (fun a d => (10 * a + (d - 48))%N) s 0%N.

Lemma decimal_value_snoc :
  forall s d, decimal_value (s ++ [d]) = (10 * decimal_value s + (d - 48))%N.
Proof.
  intros s d. unfold decimal_value. rewrite fold_left_app. reflexivity.
Qed.

Lemma digits_of_value :
  forall fuel n acc,
    (n < 10 ^ N.of_nat fuel)%N ->
    exists D, digits_of fuel n acc = D ++ acc /\ decimal_value D = n.
Proof.
  induction fuel as [| fuel IH]; intros n acc Hn.
  - exists []. cbn in *. split; [reflexivity|]. unfold decimal_value. cbn. lia.
  - cbn [digits_of]. destruct (N.ltb_spec n 10) as [Hlt | Hge].
    + exists [(48 + n mod 10)%N]. split; [reflexivity|].
      unfold decimal_value. cbn [fold_left].
      rewrite N.mod_small by exact Hlt.
      rewrite (N.add_comm 48), N.add_sub. reflexivity.
    + assert (Hq : (n / 10 < 10 ^ N.of_nat fuel)%N).
      { apply N.Div0.div_lt_upper_bound.
        rewrite Nat2N.inj_succ, N.pow_succ_r' in Hn. exact Hn. }
      destruct (IH (n / 10)%N ((48 + n mod 10)%N :: acc) Hq) as [D [HD Hv]].
      exists (D ++ [(48 + n mod 10)%N]).
      rewrite HD, <- app_assoc. split; [reflexivity|].
      rewrite decimal_value_snoc, Hv.
      pose proof (N.div_mod n 10 ltac:(lia)) as Hdm.
      rewrite (N.add_comm 48), N.add_sub.
      symmetry. exact Hdm.
Qed.

Lemma of_N_value : forall n, decimal_value (of_N n) = n.
Proof.
  intros n. unfold of_N.
  destruct (digits_of_value (S (N.to_nat (N.log2 n))) n []) as [D [HD Hv]].
  - rewrite Nat2N.inj_succ, N2Nat.id.
    destruct (N.eq_dec n 0) as [-> | Hn]; [reflexivity|].
    apply N.lt_le_trans with (2 ^ N.succ (N.log2 n))%N.
    + apply N.log2_spec. lia.
    + apply N.pow_le_mono_l. lia.
  - rewrite HD, app_nil_r. exact Hv.
Qed.

Lemma of_nat_inj : forall a b, of_nat a = of_nat b -> a = b.
Proof.
  intros a b H. unfold of_nat in H.
  apply (f_equal decimal_value) in H. rewrite !of_N_value in H.
  apply Nat2N.inj. exact H.
Qed.

(** *** The static templates *)

Lemma templates_are_three :
  forall c, length (getLessonTemplatesForCategory c) = 3.
Proof. intros []; reflexivity. Qed.

Lemma map_indexed_length :
  forall (A B : Type) (f : A -> nat -> B) (l : list A) (i : nat),
    length (map_indexed f i l) = length l.
Proof.
  intros A B f l. induction l as [| a l IH]; intros i; [reflexivity|].
  cbn [map_indexed length]. rewrite IH. reflexivity.
Qed.

Lemma map_indexed_Forall :
  forall (A B : Type) (P : B -> Prop) (f : A -> nat -> B) (l : list A) (i : nat),
    (forall a j, P (f a j)) -> Forall P (map_indexed f i l).
Proof.
  intros A B P f l. induction l as [| a l IH]; intros i H; cbn [map_indexed];
    constructor; auto.
Qed.

Lemma map_indexed_by_index :
  forall (A B C : Type) (g : B -> C) (h : nat -> C) (f : A -> nat -> B)
         (l : list A) (i : nat),
    (forall a j, g (f a j) = h j) ->
    map g (map_indexed f i l) = map h (seq i (length l)).
Proof.
  intros A B C g h f l. induction l as [| a l IH]; intros i H; [reflexivity|].
  cbn [map_indexed map length seq]. rewrite H, IH by exact H. reflexivity.
Qed.

Lemma NoDup_map_injective :
  forall (A B : Type) (h : A -> B) (l : list A),
    (forall a b, h a = h b -> a = b) -> NoDup l -> NoDup (map h l).
Proof.
  intros A B h l Hinj H. induction H as [| a l Ha _ IH]; cbn [map];
    constructor; [| exact IH].
  intros Hin. apply in_map_iff in Hin. destruct Hin as [b [E Hb]].
  apply Hinj in E. subst b. contradiction.
Qed.

(** X8.  The static-template path of the lesson-recommendation endpoint
    (credential unset, or the model path failed) returns as many
    recommendations as were asked for but never more than the three
    templates of a category; their ids are pairwise distinct; each is marked
    curated, carries the difficulty of its template and a title that ends in
    the course title in parentheses. *)
Theorem static_recommendations_shape :
  forall (rt : runtime) (courseTitle : jsstring)
         (averageQuizScore : option float) (requestedCount : nat),
    length (fallback_recommendations rt courseTitle averageQuizScore
              requestedCount)
    = Nat.min requestedCount 3
    /\ NoDup (map rec_id
                (fallback_recommendations rt courseTitle averageQuizScore
                   requestedCount))
    /\ Forall
         (fun r =>
            rec_source r = lit "curated"
            /\ exists t,
                In t (getLessonTemplatesForCategory
                        (analyzeCourseCategory rt courseTitle))
                /\ rec_difficulty r = jstr (difficulty_name (t_difficulty t))
                /\ rec_title r
                   = JStr (lit (t_title t) ++ lit " (Advanced " ++ courseTitle
                           ++ lit ")"))
         (fallback_recommendations rt courseTitle averageQuizScore
            requestedCount).
Proof.
  intros rt courseTitle averageQuizScore requestedCount.
  unfold fallback_recommendations.
  set (category := analyzeCourseCategory rt courseTitle).
  set (templates := getLessonTemplatesForCategory category).
  split; [| split].
  - rewrite map_indexed_length, length_firstn. unfold templates.
    rewrite templates_are_three. reflexivity.
  - rewrite (map_indexed_by_index _ _ _ rec_id
               (fun index =>
                  JStr (lit "fallback-" ++ category_name category ++ lit "-"
                        ++ of_N (Date_now rt) ++ lit "-" ++ of_nat index)))
      by reflexivity.
    apply NoDup_map_injective; [| apply seq_NoDup].
    intros a b E.
    apply (f_equal (fun v => match v with JStr s => s | _ => [] end)) in E.
    cbv beta iota in E.
    repeat (apply app_inv_head in E). apply of_nat_inj. exact E.
  - assert (Hsub : forall t, In t (firstn requestedCount templates) ->
                             In t templates)
      by (intros t Ht; rewrite <- (firstn_skipn requestedCount templates);
          apply in_or_app; left; exact Ht).
    revert Hsub. generalize (firstn requestedCount templates) as picked.
    generalize 0 as index. intros index picked. revert index.
    induction picked as [| t picked IH]; intros index Hsub;
      cbn [map_indexed]; constructor.
    + cbn [rec_source rec_difficulty rec_title]. split; [reflexivity|].
      exists t. split; [apply Hsub; left; reflexivity|]. split; reflexivity.
    + apply IH. intros t' Ht'. apply Hsub. right. exact Ht'.
Qed.

(** *** Every answer of the endpoint *)

(** An element of the model's array the field defaulting throws on:
    [null], whose properties cannot be read, or an object whose
    relevanceScore is truthy and cannot be converted to a number (an
    object with a toString property of its own, or an array that holds
    one). *)
Definition unusable (rec : json) : bool :=
  match rec with
  | JNull => true
  | JObj m =>
      match get (lit "relevanceScore") m with
      | Some v => truthy v && conversion_throws v
      | None => false
      end
  | _ => false
  end.

Lemma normalize_recommendation_outcome :
  forall rt courseTitle rec index,
    match normalize_recommendation rt courseTitle rec index with
    | inl r => unusable rec = false /\ rec_source r = lit "ai-generated"
    | inr _ => unusable rec = true
    end.
Proof.
  intros rt courseTitle rec index.
  unfold normalize_recommendation, prop, to_number, unusable, bind, ret, throw.
  destruct rec as [| b | n | s | l | m]; try (split; reflexivity);
    try reflexivity.
  destruct (get (lit "relevanceScore") m) as [v |]; cbv beta iota;
    [| split; reflexivity].
  destruct (truthy v); cbv beta iota; [| split; reflexivity].
  destruct (conversion_throws v); cbv beta iota;
    [reflexivity | split; reflexivity].
Qed.

Lemma normalize_all_outcome :
  forall rt courseTitle recs index,
    match normalize_all rt courseTitle recs index with
    | inl rs =>
        existsb unusable recs = false
        /\ length rs = length recs
        /\ Forall (fun r => rec_source r = lit "ai-generated") rs
    | inr _ => existsb unusable recs = true
    end.
Proof.
  intros rt courseTitle recs. induction recs as [| rec recs IH];
    intros index; cbn [normalize_all existsb].
  - repeat split. constructor.
  - unfold bind, ret.
    pose proof (normalize_recommendation_outcome rt courseTitle rec index) as H.
    destruct (normalize_recommendation rt courseTitle rec index) as [r | e].
    + destruct H as [Hu Hs]. rewrite Hu. cbn [orb].
      specialize (IH (S index)).
      destruct (normalize_all rt courseTitle recs (S index)) as [rs | e].
      * destruct IH as [Hno [Hlen Hall]]. split; [exact Hno|].
        split; [cbn [length]; rewrite Hlen; reflexivity|].
        constructor; assumption.
      * exact IH.
    + rewrite H. reflexivity.
Qed.

(** The array of the model's answer, when the handler uses it: the
    credential is set, the request carries both topic arrays (the prompt
    reads them), the inference call answered with a text that cleans up
    into an object with a recommendations array, and the defaulting throws
    on none of its elements. *)
Definition model_list (rt : runtime) (req : recommendations_request)
    (reply : groq_reply) : option (list json) :=
  if key_unset rt then None
  else
    match rr_moduleTopics req, rr_lessonTopics req, reply with
    | Some _, Some _, ReplyOk content =>
        match extract_plain content with
        | Some (JObj m) =>
            match get (lit "recommendations") m with
            | Some (JArr sent) =>
                if existsb unusable sent then None else Some sent
            | _ => None
            end
        | _ => None
        end
    | _, _, _ => None
    end.

(** X9.  Once the course title is present the lesson-recommendation
    endpoint answers 200 with a list of recommendations, whatever the
    credential, the answer of the inference call or the text the model
    returned.  The list is the model's exactly when the credential is set,
    the request carries both topic arrays, the inference call answered
    with a text that cleans up into an object with a recommendations
    array, and no element of that array is null or carries a truthy
    relevanceScore that cannot be converted to a number; there is then one
    recommendation per element the model sent (not per recommendation
    requested), each marked ai-generated.  In every other case the list
    is the static one. *)
Theorem recommendations_always_answer :
  forall (rt : runtime) (req : recommendations_request) (reply : groq_reply),
    truthy_str (rr_courseTitle req) = true ->
    exists recs,
      generate_lesson_recommendations rt req reply
      = mkResponse 200 (RecommendationsBody recs)
      /\ match model_list rt req reply with
         | Some sent =>
             normalize_all rt (interpolate (rr_courseTitle req)) sent 0
             = inl recs
             /\ length recs = length sent
             /\ Forall (fun r => rec_source r = lit "ai-generated") recs
         | None =>
             recs = fallback_recommendations rt
                      (interpolate (rr_courseTitle req))
                      (rr_averageQuizScore req) (requested_count req)
         end.
Proof.
  intros rt req reply Htitle.
  unfold generate_lesson_recommendations, respond, try_catch, bind, assert.
  rewrite Htitle. unfold model_list, require_key, key_unset, ret.
  destruct (GROQ_API_KEY rt) as [[| c k] |];
    try (eexists; split; reflexivity).
  unfold getFallbackRecommendations.
  unfold generateAIRecommendations, bind, assert, throw, ret.
  destruct (rr_moduleTopics req); [| eexists; split; reflexivity].
  destruct (rr_lessonTopics req); [| eexists; split; reflexivity].
  destruct reply as [st errorText | msg | msg | other | content | msg];
    try (eexists; split; reflexivity).
  { destruct (Nat.eqb st 429); eexists; split; reflexivity. }
  destruct (extract_plain content) as [[| | | | | m] |] eqn:Ep;
    try (eexists; split; reflexivity).
  destruct (get (lit "recommendations") m) as [[| | | | sent |] |] eqn:Eg;
    try (eexists; split; reflexivity).
  pose proof (normalize_all_outcome rt (interpolate (rr_courseTitle req)) sent 0)
    as Hn.
  destruct (normalize_all rt (interpolate (rr_courseTitle req)) sent 0)
    as [rs | e] eqn:En.
  - destruct Hn as [Hno [Hlen Hall]]. rewrite Hno. cbv beta iota.
    exists rs. split; [reflexivity|].
    split; [exact En | split; assumption].
  - rewrite Hn. cbv beta iota. eexists. split; reflexivity.
Qed.

Lemma recommendations_always_answer_witness :
  exists recs,
    generate_lesson_recommendations (example_runtime (Some (lit "gsk")))
      (mkRecommendationsRequest (Some (lit "Chess")) (Some []) (Some [])
         (Some 7%float) None)
      (ReplyOk (text "{'recommendations': [{'title': 'Endgames'}]}"))
    = mkResponse 200 (RecommendationsBody recs)
    /\ match model_list (example_runtime (Some (lit "gsk")))
               (mkRecommendationsRequest (Some (lit "Chess")) (Some [])
                  (Some []) (Some 7%float) None)
               (ReplyOk (text "{'recommendations': [{'title': 'Endgames'}]}"))
       with
       | Some sent =>
           normalize_all (example_runtime (Some (lit "gsk"))) (lit "Chess")
             sent 0
           = inl recs
           /\ length recs = length sent
           /\ Forall (fun r => rec_source r = lit "ai-generated") recs
       | None =>
           recs = fallback_recommendations (example_runtime (Some (lit "gsk")))
                    (lit "Chess") (Some 7%float) 6
       end.
Proof.
  apply (recommendations_always_answer (example_runtime (Some (lit "gsk")))
           (mkRecommendationsRequest (Some (lit "Chess")) (Some []) (Some [])
              (Some 7%float) None)
           (ReplyOk (text "{'recommendations': [{'title': 'Endgames'}]}"))).
  reflexivity.
Defined.

(** The cases the static list covers on an answer that parses: a null
    element, and a relevanceScore that is an object with a toString
    property; a relevanceScore of 1e-400, which is zero as a number, takes
    the default 0.8. *)
Example recommendations_on_unusable_elements :
  let rt := example_runtime (Some (lit "gsk")) in
  let req := mkRecommendationsRequest (Some (lit "Chess")) (Some []) (Some [])
               (Some 7%float) None in
  model_list rt req (ReplyOk (text "{'recommendations': [null]}")) = None
  /\ model_list rt req
       (ReplyOk (text "{'recommendations': [{'relevanceScore': {'toString': 1}}]}"))
     = None
  /\ match resp_body
             (generate_lesson_recommendations rt req
                (ReplyOk (text "{'recommendations': [{'relevanceScore': 1e-400}]}")))
     with
     | RecommendationsBody [r] =>
         relevanceScore r = 0.8%float /\ rec_source r = lit "ai-generated"
     | _ => False
     end.
Proof. vm_compute. repeat split; reflexivity. Qed.

End RecsFacts.
(* ------------------------------------------------------------------ *)
(** ** The quiz dialog *)

Module QuizFlowFacts.
Import Edge Courses Quiz QuizFlow.

(** *** The validator against the edge function *)

Lemma trim_empty : forall s, is_empty s = true -> is_empty (trim s) = true.
Proof. intros [| c s] H; [reflexivity | discriminate]. Qed.

(** X10.  The quiz answer validator composed with the validate-quiz-answer
    edge function.  The answer is decided by the model exactly when the
    user answer, the question and the correct answer all hold something
    other than white space, the credential is set and the inference call
    answered with a text; it then counts as correct if and only if the
    model's text, trimmed and lower-cased, is the word true.  In every
    other case (an answer of white space only, which passes the client's
    check and is rejected by the function; an inference call that did
    not answer or was refused, or whose answer is not JSON or carries no
    text) the result is
    the plain comparison of the trimmed, lower-cased answers. *)
Theorem validator_end_to_end :
  forall (lower : jsstring -> jsstring) (rt : runtime)
         (options : option (list jsstring)) (reply : groq_reply)
         (userAnswer question correctAnswer : jsstring),
    validateAnswerWithAI lower (invoke_validate rt options reply)
      userAnswer question correctAnswer
    = if is_empty (trim userAnswer) || is_empty (trim question)
         || is_empty (trim correctAnswer) || key_unset rt
      then simple_comparison lower userAnswer correctAnswer
      else match reply with
           | ReplyOk content =>
               JsString.eqb (toLowerCase rt (trim content)) (lit "true")
           | _ => simple_comparison lower userAnswer correctAnswer
           end.
Proof.
  intros lower rt options reply ua q ca. unfold validateAnswerWithAI.
  destruct (is_empty ua) eqn:Eua;
    [rewrite (trim_empty ua Eua); reflexivity|].
  destruct (is_empty q) eqn:Eq;
    [rewrite (trim_empty q Eq); cbn [orb]; rewrite !orb_true_r; reflexivity|].
  destruct (is_empty ca) eqn:Eca;
    [rewrite (trim_empty ca Eca); cbn [orb]; rewrite !orb_true_r; reflexivity|].
  cbn [orb].
  unfold invoke_validate, validate_quiz_answer, respond, try_catch, bind,
    assert, truthy_str.
  cbn [vr_userAnswer vr_question vr_correctAnswer].
  destruct (trim ua) as [| a1 ua']; [reflexivity|].
  destruct (trim q) as [| a2 q']; [reflexivity|].
  destruct (trim ca) as [| a3 ca']; [reflexivity|].
  cbn [is_empty orb andb]. unfold require_key, key_unset.
  destruct (GROQ_API_KEY rt) as [[| c k] |]; try reflexivity.
  destruct reply; reflexivity.
Qed.

(** *** calculateFinalScore *)

Definition mark (lower : jsstring -> jsstring)
    (invoke : nat -> jsstring -> jsstring -> jsstring -> invoke_outcome)
    (index : nat) (question : quiz_row) (userAnswer : jsstring) : bool :=
  validateAnswerWithAI lower (invoke index) userAnswer (quiz_question question)
    (getCorrectAnswer question).

Definition correct_count (results : list bool) : nat :=
  length (filter (fun b => b) results).

Lemma correct_count_app :
  forall a b, correct_count (a ++ b) = correct_count a + correct_count b.
Proof.
  intros a b. unfold correct_count. rewrite filter_app, length_app.
  reflexivity.
Qed.

Lemma correct_count_le : forall l, correct_count l <= length l.
Proof. intros l. apply filter_length_le. Qed.

Lemma score_loop :
  forall lower invoke questions index userAnswers score results,
    index + length questions <= length userAnswers ->
    exists more,
      calculateFinalScore_from lower invoke index questions userAnswers score
        results
      = Some (score + correct_count more, results ++ more)
      /\ length more = length questions
      /\ forall k question,
           nth_error questions k = Some question ->
           exists answer,
             nth_error userAnswers (index + k) = Some answer
             /\ nth_error more k
                = Some (mark lower invoke (index + k) question answer).
Proof.
  intros lower invoke questions.
  induction questions as [| question rest IH];
    intros index userAnswers score results Hlen.
  - exists []. cbn [calculateFinalScore_from]. rewrite app_nil_r.
    split; [f_equal; f_equal; cbn; lia|]. split; [reflexivity|].
    intros [| k] q H; discriminate.
  - cbn [calculateFinalScore_from length] in *.
    destruct (nth_error userAnswers index) as [answer |] eqn:Ea.
    2:{ apply nth_error_None in Ea. lia. }
    fold (mark lower invoke index question answer).
    destruct (IH (S index) userAnswers
                (if mark lower invoke index question answer
                 then S score else score)
                (results ++ [mark lower invoke index question answer]))
      as [more [Hrun [Hmore Hnth]]]; [lia|].
    exists (mark lower invoke index question answer :: more).
    rewrite Hrun. split.
    + f_equal. f_equal.
      * unfold correct_count at 2. cbn [filter].
        destruct (mark lower invoke index question answer); cbn [length];
          fold (correct_count more); lia.
      * rewrite <- app_assoc. reflexivity.
    + split; [cbn [length]; rewrite Hmore; reflexivity|].
      intros [| k] q Hq; cbn [nth_error] in *.
      * injection Hq as <-. exists answer. rewrite Nat.add_0_r. auto.
      * destruct (Hnth k q Hq) as [a [Ha Hm]]. exists a.
        replace (index + S k) with (S index + k) by lia. auto.
Qed.

Lemma rounded_percentage_bounds :
  forall c t, 0 < t -> c <= t ->
    (0 <= rounded_percentage c t <= 100)%Z.
Proof.
  intros c t Ht Hc. unfold rounded_percentage. split.
  - apply Z.div_pos; lia.
  - apply Z.lt_succ_r. apply Z.div_lt_upper_bound; lia.
Qed.

(** X11.  calculateFinalScore, for one answer slot per question: it
    returns one validation result per question, in order, the result at
    each index being what validateAnswerWithAI answers for the answer and
    the question at that index (with the correct answer getCorrectAnswer
    extracts), and the score is the number of results that are true, so it
    never exceeds the number of questions; a question left unanswered (its
    slot still the empty string) is never sent to the validation endpoint,
    it is decided by the plain comparison of the empty string with the
    correct answer; and for a quiz of fewer than 40 questions the
    percentage shown is the score percentage rounded to the nearest
    integer, between 0 and 100. *)
Theorem final_score_counts_validated_answers :
  forall (lower : jsstring -> jsstring)
         (invoke : nat -> jsstring -> jsstring -> jsstring -> invoke_outcome)
         (questions : list quiz_row) (userAnswers : list jsstring),
    length userAnswers = length questions ->
    exists results,
      calculateFinalScore lower invoke questions userAnswers
      = Some (correct_count results, results)
      /\ length results = length questions
      /\ correct_count results <= length questions
      /\ (forall i question answer,
            nth_error questions i = Some question ->
            nth_error userAnswers i = Some answer ->
            nth_error results i
            = Some (validateAnswerWithAI lower (invoke i) answer
                      (quiz_question question) (getCorrectAnswer question)))
      /\ (forall i question,
            nth_error questions i = Some question ->
            nth_error userAnswers i = Some [] ->
            nth_error results i
            = Some (simple_comparison lower [] (getCorrectAnswer question)))
      /\ (0 < length questions < 40 ->
          finalPercentage (correct_count results) questions
          = rounded_percentage (correct_count results) (length questions)
          /\ (0 <= finalPercentage (correct_count results) questions <= 100)%Z).
Proof.
  intros lower invoke questions userAnswers Hlen.
  destruct (score_loop lower invoke questions 0 userAnswers 0 [])
    as [results [Hrun [Hres Hnth]]]; [lia|].
  exists results. unfold calculateFinalScore. rewrite Hrun.
  assert (Hle : correct_count results <= length questions)
    by (rewrite <- Hres; apply correct_count_le).
  split; [reflexivity|]. split; [exact Hres|]. split; [exact Hle|].
  split; [| split].
  - intros i question answer Hq Ha.
    destruct (Hnth i question Hq) as [answer' [Ha' Hm]].
    cbn [Nat.add] in Ha', Hm. rewrite Ha in Ha'. injection Ha' as <-.
    exact Hm.
  - intros i question Hq Ha.
    destruct (Hnth i question Hq) as [answer [Ha' Hm]].
    cbn [Nat.add] in Ha', Hm. rewrite Ha in Ha'. injection Ha' as <-.
    rewrite Hm. reflexivity.
  - intros Hn.
    assert (E : finalPercentage (correct_count results) questions
                = rounded_percentage (correct_count results) (length questions))
      by (apply (CoursesFacts.percentage_exact_below_40 _ _ Hn Hle)).
    split; [exact E|]. rewrite E. apply rounded_percentage_bounds; lia.
Qed.

Definition sample_questions : list quiz_row :=
  [mkQuizRow 1 9 (lit "Capital of France?") [lit "Paris"; lit "Rome"]
     (lit "Paris") 1;
   mkQuizRow 2 9 (lit "Capital of Italy?") [lit "Paris"; lit "Rome"]
     (lit "Rome") 2;
   mkQuizRow 3 9 (lit "Capital of Spain?") [lit "Madrid"; lit "Rome"]
     (lit "Madrid") 3].

Lemma final_score_witness :
  exists results,
    calculateFinalScore ascii_lower (fun _ _ _ _ => InvokeError)
      sample_questions [lit " paris"; []; lit "Rome"]
    = Some (correct_count results, results)
    /\ length results = length sample_questions
    /\ correct_count results <= length sample_questions
    /\ (forall i question answer,
          nth_error sample_questions i = Some question ->
          nth_error [lit " paris"; []; lit "Rome"] i = Some answer ->
          nth_error results i
          = Some (validateAnswerWithAI ascii_lower (fun _ _ _ => InvokeError)
                    answer
                    (quiz_question question) (getCorrectAnswer question)))
    /\ (forall i question,
          nth_error sample_questions i = Some question ->
          nth_error [lit " paris"; []; lit "Rome"] i = Some [] ->
          nth_error results i
          = Some (simple_comparison ascii_lower [] (getCorrectAnswer question)))
    /\ (0 < length sample_questions < 40 ->
        finalPercentage (correct_count results) sample_questions
        = rounded_percentage (correct_count results) (length sample_questions)
        /\ (0 <= finalPercentage (correct_count results) sample_questions
            <= 100)%Z).
Proof.
  apply (final_score_counts_validated_answers ascii_lower
           (fun _ _ _ _ => InvokeError) sample_questions
           [lit " paris"; []; lit "Rome"]).
  reflexivity.
Defined.

(** The witness run: one of three, 33 per cent. *)
Example final_score_evaluated :
  calculateFinalScore ascii_lower (fun _ _ _ _ => InvokeError)
    sample_questions [lit " paris"; []; lit "Rome"]
  = Some (1, [true; false; false])
  /\ finalPercentage 1 sample_questions = 33%Z.
Proof. split; vm_compute; reflexivity. Qed.

End QuizFlowFacts.
(* ------------------------------------------------------------------ *)
(** ** The client's fallback lessons *)

Module RecommendedFacts.
Import Edge Recommended.

Definition in_unit_range (x : float) : bool :=
  ((0.1 <=? x) && (x <=? 1))%float.

(** The clamp applied to the adjusted score of one template, for the three
    ways the two comparisons on the average can go. *)
Lemma clamped_template :
  forall (avgScore : float) (t : template),
    In t (spanish_templates ++ webdev_templates ++ programming_templates
          ++ general_templates) ->
    in_unit_range (Math_max 0.1 (Math_min 1.0 (adjusted avgScore t))) = true.
Proof.
  intros avgScore t Ht. unfold adjusted.
  destruct (avgScore <? 6)%float; [| destruct (8 <? avgScore)%float];
    cbn in Ht;
    repeat (destruct Ht as [<- | Ht]; [vm_compute; reflexivity|]);
    contradiction.
Qed.

Lemma templates_known :
  forall c t,
    In t (getLessonTemplatesForCategory c) ->
    In t (spanish_templates ++ webdev_templates ++ programming_templates
          ++ general_templates).
Proof.
  intros c t H. destruct c; cbn [getLessonTemplatesForCategory] in H;
    repeat (apply in_or_app; ((left; exact H) || right)); exact H.
Qed.

(** X12.  The client's own fallback lessons (used when the call to the
    recommendation endpoint fails or returns nothing): for every course
    title and every average score, not-a-number included, there are exactly
    three of them, each marked curated, with a relevance score between 0.1
    and 1. *)
Theorem client_fallback_lessons_are_clamped :
  forall (lower : jsstring -> jsstring) (now : N) (courseTitle : jsstring)
         (avgScore : float),
    length (generateFallbackLessons lower now courseTitle avgScore) = 3
    /\ Forall
         (fun l =>
            in_unit_range (rl_relevanceScore l) = true
            /\ rl_source l = lit "curated")
         (generateFallbackLessons lower now courseTitle avgScore).
Proof.
  intros lower now courseTitle avgScore. unfold generateFallbackLessons.
  set (category := analyzeCourseCategory lower courseTitle).
  split.
  - rewrite RecsFacts.map_indexed_length, length_firstn,
      RecsFacts.templates_are_three. reflexivity.
  - assert (Hsub : forall t,
               In t (firstn 6 (getLessonTemplatesForCategory category)) ->
               In t (getLessonTemplatesForCategory category)).
    { intros t Ht.
      rewrite <- (firstn_skipn 6 (getLessonTemplatesForCategory category)).
      apply in_or_app. left. exact Ht. }
    revert Hsub.
    generalize (firstn 6 (getLessonTemplatesForCategory category)) as picked.
    generalize 0 as index. intros index picked. revert index.
    induction picked as [| t picked IH]; intros index Hsub;
      cbn [map_indexed]; constructor.
    + cbn [rl_relevanceScore rl_source]. split; [| reflexivity].
      apply clamped_template. apply (templates_known category).
      apply Hsub. left. reflexivity.
    + apply IH. intros t' Ht'. apply Hsub. right. exact Ht'.
Qed.

End RecommendedFacts.
(* ------------------------------------------------------------------ *)
(** ** The clamp on model-supplied relevance scores *)

Module ClampFacts.
Import Edge.
Import RecsFacts.

(** *** The order on binary64 values, at the level of their specification *)

Lemma SFcompare_antisym :
  forall a b, SFcompare b a = option_map CompOpp (SFcompare a b).
Proof.
  intros [sa | sa | | sa ma ea] [sb | sb | | sb mb eb]; cbn;
    try reflexivity;
    try (destruct sa; reflexivity);
    try (destruct sb; reflexivity);
    try (destruct sa, sb; reflexivity).
  destruct sa, sb; try reflexivity; f_equal;
    rewrite (Z.compare_antisym ea eb);
    destruct (Z.compare ea eb); cbn; try reflexivity;
    pose proof (Pos.compare_cont_antisym ma mb Eq) as Hp;
    cbn [CompOpp] in Hp; rewrite <- Hp;
    destruct (Pos.compare_cont Eq ma mb); reflexivity.
Qed.

Lemma SFcompare_opp :
  forall a b, SFcompare (SFopp a) (SFopp b) = SFcompare b a.
Proof.
  intros [sa | sa | | sa ma ea] [sb | sb | | sb mb eb]; cbn;
    try reflexivity;
    try (destruct sa; reflexivity);
    try (destruct sb; reflexivity);
    try (destruct sa, sb; reflexivity).
  destruct sa, sb; cbn; try reflexivity; f_equal;
    rewrite (Z.compare_antisym ea eb);
    destruct (Z.compare ea eb); cbn; try reflexivity;
    pose proof (Pos.compare_cont_antisym ma mb Eq) as Hp;
    cbn [CompOpp] in Hp; rewrite <- Hp;
    destruct (Pos.compare_cont Eq ma mb); reflexivity.
Qed.

Lemma SFopp_involutive : forall a, SFopp (SFopp a) = a.
Proof. intros [s | s | | s m e]; cbn; rewrite ?negb_involutive; reflexivity. Qed.

Lemma SFcompare_refl :
  forall a, a <> S754_nan -> SFcompare a a = Some Eq.
Proof.
  intros [s | s | | s m e] H; cbn; try reflexivity;
    try (destruct s; reflexivity); [contradiction|].
  destruct s; rewrite Z.compare_refl, Pos.compare_cont_refl; reflexivity.
Qed.

Lemma SFcompare_total :
  forall a b, a <> S754_nan -> b <> S754_nan -> exists c, SFcompare a b = Some c.
Proof.
  intros [sa | sa | | sa ma ea] [sb | sb | | sb mb eb] Ha Hb; cbn;
    try contradiction; eexists; reflexivity.
Qed.

Lemma SFcompare_zero_eq :
  forall a z, SFcompare a (S754_zero z) = Some Eq -> exists s, a = S754_zero s.
Proof.
  intros [sa | sa | | sa ma ea] z H; cbn in H; try discriminate.
  - exists sa. reflexivity.
  - destruct sa; discriminate.
  - destruct sa; discriminate.
Qed.

Definition number (x : float) : Prop := Prim2SF x <> S754_nan.

Lemma is_nan_number : forall x, is_nan x = false -> number x.
Proof.
  intros x H Hn. unfold is_nan in H. rewrite eqb_spec, Hn in H. discriminate.
Qed.

Lemma number_is_nan : forall x, number x -> is_nan x = false.
Proof.
  intros x H. unfold is_nan, SFeqb. rewrite eqb_spec. unfold SFeqb.
  rewrite (SFcompare_refl _ H). reflexivity.
Qed.

Lemma number_opp : forall x, number x -> number (- x)%float.
Proof.
  intros x H. unfold number in *. rewrite opp_spec.
  destruct (Prim2SF x); cbn; congruence.
Qed.

(** [Math.max] of two numbers, the second one not a zero. *)
Lemma Math_max_cases :
  forall a b s m e,
    number a -> Prim2SF b = S754_finite s m e ->
    (SFcompare (Prim2SF a) (Prim2SF b) = Some Lt /\ Math_max a b = b)
    \/ ((SFcompare (Prim2SF a) (Prim2SF b) = Some Gt
         \/ SFcompare (Prim2SF a) (Prim2SF b) = Some Eq)
        /\ Math_max a b = a).
Proof.
  intros a b s m e Ha Hb.
  assert (Hnb : number b) by (unfold number; rewrite Hb; discriminate).
  unfold Math_max.
  rewrite (number_is_nan a Ha), (number_is_nan b Hnb). cbn [orb].
  rewrite !ltb_spec, eqb_spec. unfold SFltb, SFeqb.
  rewrite (SFcompare_antisym (Prim2SF a) (Prim2SF b)).
  destruct (SFcompare_total _ _ Ha Hnb) as [c Hc]. rewrite Hc.
  destruct c; cbn [option_map CompOpp].
  - right. split; [right; reflexivity|].
    destruct (SFcompare (Prim2SF a) (Prim2SF 0)) as [[| |] |] eqn:Ez;
      try reflexivity.
    exfalso.
    change (Prim2SF 0) with (S754_zero false) in Ez.
    destruct (SFcompare_zero_eq _ _ Ez) as [sz Hz].
    rewrite Hz, Hb in Hc. cbn in Hc. destruct s; discriminate.
  - left. split; reflexivity.
  - right. split; [left; reflexivity | reflexivity].
Qed.

Definition clamp (x : float) : float := Math_min (Math_max x 0.7) 1.0.

Definition score_in_range (x : float) : bool :=
  ((0.7 <=? x) && (x <=? 1))%float.

Lemma leb_of_compare :
  forall x y,
    SFcompare (Prim2SF x) (Prim2SF y) = Some Lt
    \/ SFcompare (Prim2SF x) (Prim2SF y) = Some Eq ->
    (x <=? y)%float = true.
Proof.
  intros x y H. rewrite leb_spec. unfold SFleb.
  destruct H as [-> | ->]; reflexivity.
Qed.

Lemma compare_flip :
  forall a b c, SFcompare a b = Some c -> SFcompare b a = Some (CompOpp c).
Proof.
  intros a b c H. rewrite SFcompare_antisym, H. reflexivity.
Qed.

(** The clamp of a number lies between 0.7 and 1. *)
Lemma clamp_in_range : forall x, number x -> score_in_range (clamp x) = true.
Proof.
  intros x Hx. unfold clamp, Math_min, score_in_range.
  assert (H07 : Prim2SF 0.7 = S754_finite false 6305039478318694 (-53))
    by (vm_compute; reflexivity).
  assert (H1 : Prim2SF (PrimFloat.opp 1) = S754_finite true 4503599627370496 (-52))
    by (vm_compute; reflexivity).
  assert (Hlow : exists y,
             Math_max x 0.7 = y /\ number y
             /\ (SFcompare (Prim2SF 0.7) (Prim2SF y) = Some Lt
                 \/ SFcompare (Prim2SF 0.7) (Prim2SF y) = Some Eq)).
  { destruct (Math_max_cases x 0.7 _ _ _ Hx H07) as [[Hc Hy] | [Hc Hy]];
      rewrite Hy.
    - exists 0.7%float. split; [reflexivity|].
      split; [unfold number; rewrite H07; discriminate|].
      right. apply SFcompare_refl. rewrite H07. discriminate.
    - exists x. split; [reflexivity|]. split; [exact Hx|].
      destruct Hc as [Hc | Hc]; apply compare_flip in Hc; cbn in Hc; auto. }
  destruct Hlow as [y [Ey [Hy Hlow]]]. rewrite Ey. clear Ey.
  pose proof (number_opp y Hy) as Hny.
  assert (Hsame : forall r,
             Prim2SF r = Prim2SF y ->
             SFcompare (Prim2SF y) (Prim2SF 1) = Some Lt
             \/ SFcompare (Prim2SF y) (Prim2SF 1) = Some Eq ->
             ((0.7 <=? r) && (r <=? 1))%float = true).
  { intros r Hr Hup. apply andb_true_iff. split; apply leb_of_compare;
      rewrite Hr; assumption. }
  destruct (Math_max_cases (- y) (PrimFloat.opp 1) _ _ _ Hny H1)
    as [[Hc Hm] | [Hc Hm]];
    rewrite Hm.
  - vm_compute. reflexivity.
  - apply Hsame; [rewrite !opp_spec; apply SFopp_involutive|].
    rewrite !opp_spec, SFcompare_opp in Hc.
    destruct Hc as [Hc | Hc]; apply compare_flip in Hc; cbn in Hc; auto.
Qed.

Lemma clamp_nan : forall x, is_nan x = true -> is_nan (clamp x) = true.
Proof.
  intros x H. unfold clamp, Math_max. rewrite H. cbn [orb].
  vm_compute. reflexivity.
Qed.

(** *** The model path of the endpoint *)

(** [rec.relevanceScore || 0.8], as the number [Math.max] makes of it. *)
Definition supplied_score (rt : runtime) (rec : json) : float :=
  match rec with
  | JObj m =>
      match get (lit "relevanceScore") m with
      | Some v => if truthy v then toNumber rt v else 0.8%float
      | None => 0.8%float
      end
  | _ => 0.8%float
  end.

Lemma normalize_recommendation_score :
  forall rt courseTitle rec index,
    match normalize_recommendation rt courseTitle rec index with
    | inl r => relevanceScore r = clamp (supplied_score rt rec)
    | inr _ => True
    end.
Proof.
  intros rt courseTitle rec index.
  unfold normalize_recommendation, prop, to_number, supplied_score, bind, ret,
    throw.
  destruct rec as [| b | n | s | l | m]; try reflexivity; try exact I.
  destruct (get (lit "relevanceScore") m) as [v |]; cbv beta iota;
    [| reflexivity].
  destruct (truthy v); cbv beta iota; [| reflexivity].
  destruct (conversion_throws v); cbv beta iota; [exact I | reflexivity].
Qed.

(** X13.  The model path of the lesson-recommendation endpoint, element by
    element of the array the model sent.  The field defaulting fails, and
    the whole model path is abandoned, exactly when some element is null
    or carries a truthy relevanceScore that cannot be converted to a
    number (an object with a toString property of its own, or an array
    holding one).  Otherwise every element yields a recommendation whose
    relevance score is the clamp of the supplied value (0.8 when it is
    missing, null, false, empty or a number that reads as zero): between
    0.7 and 1 whenever the supplied value is a number, and not-a-number
    otherwise (which JSON.stringify then writes as null). *)
Theorem model_relevance_is_clamped :
  forall (rt : runtime) (courseTitle : jsstring) (sent : list json)
         (index : nat),
    match normalize_all rt courseTitle sent index with
    | inl recs =>
        existsb unusable sent = false
        /\ Forall2
             (fun rec r =>
                relevanceScore r = clamp (supplied_score rt rec)
                /\ if is_nan (supplied_score rt rec)
                   then is_nan (relevanceScore r) = true
                   else score_in_range (relevanceScore r) = true)
             sent recs
    | inr _ => existsb unusable sent = true
    end.
Proof.
  intros rt courseTitle sent. induction sent as [| rec sent IH];
    intros index; cbn [normalize_all existsb].
  { split; [reflexivity | constructor]. }
  unfold bind, ret.
  pose proof (normalize_recommendation_score rt courseTitle rec index) as Hr.
  pose proof (normalize_recommendation_outcome rt courseTitle rec index) as Ho.
  destruct (normalize_recommendation rt courseTitle rec index) as [r | e].
  - destruct Ho as [Hu _]. rewrite Hu. cbn [orb].
    specialize (IH (S index)).
    destruct (normalize_all rt courseTitle sent (S index)) as [rs | e].
    + destruct IH as [Hno Hall]. split; [exact Hno|].
      constructor; [| exact Hall]. split; [exact Hr|]. rewrite Hr.
      destruct (is_nan (supplied_score rt rec)) eqn:E.
      * apply clamp_nan. exact E.
      * apply clamp_in_range. apply is_nan_number. exact E.
    + exact IH.
  - rewrite Ho. reflexivity.
Qed.

(** Three supplied values: 3 is clamped to 1; 1e-400, read as zero, takes
    the default 0.8; an object with a toString property abandons the model
    path. *)
Example model_relevance_evaluated :
  let rt := example_runtime (Some (lit "gsk")) in
  match JSON_parse (text "[{'relevanceScore': 3}, {'relevanceScore': 1e-400}]"),
        JSON_parse (text "[{'relevanceScore': {'toString': null}}]")
  with
  | Some (JArr sent), Some (JArr bad) =>
      match normalize_all rt (lit "Chess") sent 0 with
      | inl recs => map relevanceScore recs = [1%float; 0.8%float]
      | inr _ => False
      end
      /\ match normalize_all rt (lit "Chess") bad 0 with
         | inl _ => False
         | inr e => e = TypeError (convert_error_message rt)
         end
  | _, _ => False
  end.
Proof. vm_compute. split; reflexivity. Qed.

End ClampFacts.
(* ------------------------------------------------------------------ *)
(** ** Every answer of generate-course *)

Module HandlerFacts.
Import Edge.

Lemma parse_course_modules :
  forall content v,
    parse_course content = Some v ->
    extract_course content = Some v /\ has_modules_array v = true.
Proof.
  intros content v H. unfold parse_course in H.
  destruct (extract_course content) as [v' |]; [| discriminate].
  destruct (has_modules_array v') eqn:E; [| discriminate].
  injection H as <-. auto.
Qed.

(** The inference call left nothing to read a text from: it did not
    answer, it was refused, its body is not JSON, or the body has no
    choices[0].message. *)
Definition reply_without_message (reply : groq_reply) : bool :=
  match reply with
  | ReplyNotOk _ _ | ReplyNotJson _ | ReplyNoMessage _ | FetchFailed _ => true
  | ReplyNotText _ | ReplyOk _ => false
  end.

(** X14.  generate-course has two kinds of answer and no other.  It
    answers 500 with an error body exactly when a required field is
    missing, the credential is unset, the inference call did not answer
    or was refused, or its answer is not JSON or carries no
    choices[0].message.  Otherwise it
    answers 200 with [success: true] and a course content that has a
    modules array, which is what createCourse reads: either the value the
    cleaned model text parsed to, or the fallback course (also when the
    message carries something that is not a text). *)
Theorem course_answer_has_modules_or_is_an_error :
  forall (rt : runtime) (req : course_request) (reply : groq_reply),
    (validated_field_missing (GenerateCourse req) || key_unset rt
     || reply_without_message reply = true
     /\ status (generate_course rt req reply) = 500
     /\ exists error details,
         resp_body (generate_course rt req reply) = ErrorBody error details)
    \/ (validated_field_missing (GenerateCourse req) || key_unset rt
        || reply_without_message reply = false
        /\ exists courseContent,
            generate_course rt req reply
            = mkResponse 200 (CourseBody true courseContent)
            /\ has_modules_array courseContent = true
            /\ ((exists content,
                    reply = ReplyOk content
                    /\ extract_course content = Some courseContent)
                \/ courseContent
                   = fallback_course (interpolate (cr_title req)))).
Proof.
  intros rt req reply.
  unfold generate_course, respond, try_catch, bind, assert, failure,
    validated_field_missing.
  destruct (truthy_str (cr_title req) && truthy_str (cr_audience_level req)
            && truthy_str (cr_duration req));
    cbn [negb orb];
    [| left; split; [reflexivity|]; split; [reflexivity|];
       eexists; eexists; reflexivity].
  unfold require_key, key_unset, throw, ret.
  destruct (GROQ_API_KEY rt) as [[| c k] |]; cbn [orb];
    try (left; split; [reflexivity|]; split; [reflexivity|];
         eexists; eexists; reflexivity).
  destruct reply as [st errorText | msg | msg | other | content | msg];
    cbn [reply_without_message];
    try (left; split; [reflexivity|]; split; [reflexivity|];
         eexists; eexists; reflexivity).
  - right. split; [reflexivity|].
    exists (fallback_course (interpolate (cr_title req))).
    split; [reflexivity|]. split; [reflexivity|]. right. reflexivity.
  - right. split; [reflexivity|].
    destruct (parse_course content) as [v |] eqn:E.
    + destruct (parse_course_modules content v E) as [Hx Hm].
      exists v. split; [reflexivity|]. split; [exact Hm|].
      left. exists content. auto.
    + exists (fallback_course (interpolate (cr_title req))).
      split; [reflexivity|]. split; [reflexivity|].
      right. reflexivity.
Qed.

(** A success status with a body that has no choices is answered with 500
    and the message of the TypeError. *)
Example course_answer_on_a_reply_without_choices :
  generate_course (example_runtime (Some (lit "gsk")))
    (mkCourseRequest (Some (lit "Chess")) (Some (lit "beginner"))
       (Some (lit "1-2 hours")) None)
    (ReplyNoMessage (lit "Cannot read properties of undefined (reading '0')"))
  = mkResponse 500
      (ErrorBody (lit "Cannot read properties of undefined (reading '0')")
         (lit "TypeError: Cannot read properties of undefined (reading '0')")).
Proof. vm_compute. reflexivity. Qed.

End HandlerFacts.
(* ------------------------------------------------------------------ *)
(** ** The progress shown by the components *)

Module ViewsFacts.
Import Courses.

Lemma count_module_folds :
  forall (ms : list Module) (t c : nat),
    fold_left Dashboard.count_module ms (t, c)
    = (fold_left (fun total m => total + length (module_lessons m)) ms t,
       fold_left
         (fun total m =>
            total + length (filter (fun l => lesson_completed (lesson_row_of l))
                              (module_lessons m)))
         ms c).
Proof.
  induction ms as [| m ms IH]; intros t c; [reflexivity|].
  cbn [fold_left]. unfold Dashboard.count_module at 2.
  destruct (module_lessons m) as [| l ls] eqn:E.
  - cbn [length filter Nat.ltb Nat.leb]. rewrite !Nat.add_0_r. apply IH.
  - cbn [length Nat.ltb Nat.leb]. rewrite IH. reflexivity.
Qed.

Lemma dashboard_progress :
  forall course,
    Dashboard.calculateCourseProgress course
    = calculateCourseProgress (course_modules course).
Proof.
  intros course.
  unfold Dashboard.calculateCourseProgress, calculateCourseProgress.
  destruct (Nat.eqb (length (course_modules course)) 0); [reflexivity|].
  rewrite count_module_folds.
  fold (totalLessons (course_modules course)).
  fold (completedLessons (course_modules course)).
  destruct (totalLessons (course_modules course)); reflexivity.
Qed.

Lemma coach_completed_le_total :
  forall (ms : list Module) (t c : nat),
    c <= t ->
    fold_left
      (fun total m =>
         total + length (filter ProgressCoach.completed (module_lessons m)))
      ms c
    <= fold_left (fun total m => total + length (module_lessons m)) ms t.
Proof.
  induction ms as [| m ms IH]; intros t c H; [exact H|].
  cbn [fold_left]. apply IH.
  pose proof (filter_length_le ProgressCoach.completed (module_lessons m)).
  lia.
Qed.

(** X15.  The three components that recompute a course's progress agree
    with the hook.  For every course, calculateCourseProgress of the
    dashboard, calculateCourseProgress of the learning path and the
    progressPercentage of the coach's calculateAccurateProgress all equal
    calculateCourseProgress of useCourses on the course's modules, although
    each is written differently (a forEach that skips empty modules, two
    reduces, a guard on the total in another place); the coach's lesson
    counts are the hook's, and it never counts more completed lessons than
    lessons or more completed modules than modules. *)
Theorem components_recompute_the_progress_of_the_hook :
  forall course : Course,
    Dashboard.calculateCourseProgress course
    = calculateCourseProgress (course_modules course)
    /\ LearningPath.calculateCourseProgress course
       = calculateCourseProgress (course_modules course)
    /\ (let shown := ProgressCoach.calculateAccurateProgress (Some course) in
        ProgressCoach.progressPercentage shown
        = calculateCourseProgress (course_modules course)
        /\ ProgressCoach.totalLessons shown = totalLessons (course_modules course)
        /\ ProgressCoach.completedLessons shown
           = completedLessons (course_modules course)
        /\ ProgressCoach.completedLessons shown
           <= ProgressCoach.totalLessons shown
        /\ ProgressCoach.completedModules shown
           <= length (course_modules course)).
Proof.
  intros course. split; [apply dashboard_progress|].
  split; [exact (dashboard_progress course)|].
  cbn zeta. unfold ProgressCoach.calculateAccurateProgress.
  cbn [ProgressCoach.progressPercentage ProgressCoach.totalLessons
       ProgressCoach.completedLessons ProgressCoach.completedModules].
  split.
  - unfold calculateCourseProgress.
    fold (totalLessons (course_modules course)).
    change (fold_left
              (fun total module =>
                 total + length (filter ProgressCoach.completed
                                   (module_lessons module)))
              (course_modules course) 0)
      with (completedLessons (course_modules course)).
    destruct (course_modules course) as [| m ms] eqn:E; [reflexivity|].
    cbn [length Nat.eqb].
    destruct (totalLessons (m :: ms)); reflexivity.
  - split; [reflexivity|]. split; [reflexivity|].
    split; [apply coach_completed_le_total; lia | apply filter_length_le].
Qed.

(** *** The number on the course cards *)

Definition agrees (course : Course) : Prop :=
  progress course = Dashboard.calculateCourseProgress course.

Lemma Forall_agrees_filter :
  forall (keep : Course -> bool) (cs : list Course),
    Forall agrees cs -> Forall agrees (filter keep cs).
Proof.
  intros keep cs H. apply Forall_forall. intros c Hc.
  apply filter_In in Hc. destruct Hc as [Hc _].
  exact (proj1 (Forall_forall agrees cs) H c Hc).
Qed.

Lemma fetched_agree :
  forall cs : list Course,
    Forall (fun view =>
              progress view = calculateCourseProgress (course_modules view)) cs ->
    Forall agrees cs.
Proof.
  intros cs H. eapply Forall_impl; [| exact H].
  intros c Hc. unfold agrees. rewrite dashboard_progress. exact Hc.
Qed.

Lemma fetchCourses_agrees :
  forall user w,
    Forall agrees (ui_courses w) -> Forall agrees (ui_courses (fetchCourses user w)).
Proof.
  intros user w H.
  destruct (CreateFacts.fetchCourses_outcome user w) as [_ [[E _] | [_ F]]].
  - rewrite E. exact H.
  - apply fetched_agree. exact F.
Qed.

Lemma request_keeps_ui :
  forall A (o : op) (run : store -> option (A * store)) (w : world),
    ui_courses (snd (request o run w)) = ui_courses w.
Proof.
  intros A o run w. unfold request.
  destruct (faults w) as [| [|] fs]; try reflexivity;
    destruct (run (db w)) as [[a st] |]; reflexivity.
Qed.

Lemma command_or_throw_keeps_ui :
  forall (o : op) (run : store -> option store) (w : world),
    ui_courses (snd (or_throw o (command o run) w)) = ui_courses w.
Proof.
  intros o run w. unfold or_throw, command.
  pose proof (request_keeps_ui _ o
                (fun st => match run st with
                           | Some st' => Some (tt, st')
                           | None => None
                           end) w) as H.
  destruct (request o _ w) as [[u |] w']; exact H.
Qed.

Lemma deleteCourse_agrees :
  forall user courseId w,
    Forall agrees (ui_courses w) ->
    Forall agrees (ui_courses (deleteCourse user courseId w)).
Proof.
  intros user courseId w H.
  unfold deleteCourse, and_then.
  pose proof (command_or_throw_keeps_ui (DeleteQuizScores courseId)
                (fun st => Some (delete_quiz_scores user courseId st)) w) as U1.
  destruct (or_throw (DeleteQuizScores courseId) _ w) as [[u | e] w1];
    cbn [snd] in U1.
  - pose proof (command_or_throw_keeps_ui (DeleteCourse courseId)
                  (delete_course user courseId) w1) as U2.
    destruct (or_throw (DeleteCourse courseId) _ w1) as [[u2 | e] w2];
      cbn [snd] in U2; cbn.
    + apply Forall_agrees_filter. rewrite U2, U1. exact H.
    + rewrite U2, U1. exact H.
  - cbn. rewrite U1. exact H.
Qed.

Lemma createCourse_agrees :
  forall user title folder generateResponse w,
    Forall agrees (ui_courses w) ->
    Forall agrees
      (ui_courses (snd (createCourse user title folder generateResponse w))).
Proof.
  intros user title folder [| content] w H; [exact H|].
  pose proof (StoreFacts.appends_insert_or_throw _ (InsertCourse title)
                (InsertCourse title) (insert_course user title folder) eq_refl
                (StoreFacts.inserts_course user title folder) w) as H0.
  unfold createCourse, and_then.
  destruct (or_throw (InsertCourse title)
              (insert (InsertCourse title) (insert_course user title folder)) w)
    as [[course | e] w0]; cbn [fst snd] in *;
    destruct H0 as [_ [U0 _]]; [| rewrite U0; exact H].
  destruct content as [modules |]; cbn [defined pure raise fst snd];
    [| rewrite U0; exact H].
  pose proof (StoreFacts.appends_for_each _ (create_module course) modules 0
                (StoreFacts.appends_create_module course) w0) as H1.
  destruct (for_each (create_module course) 0 modules w0) as [[u | e] w1];
    cbn [fst snd] in *; destruct H1 as [_ [U1 _]].
  - cbn. apply fetchCourses_agrees. rewrite U1, U0. exact H.
  - rewrite U1, U0. exact H.
Qed.

(** X16.  The progress on a course card is the progress the dashboard
    recomputes.  If every course the hook holds carries, as [progress], the
    value the dashboard's calculateCourseProgress gives for it, this is
    still so after fetchCourses, after deleteCourse and after createCourse,
    whatever the generator and the backend answer to each request. *)
Theorem card_progress_stays_the_recomputed_progress :
  forall (w : world),
    Forall agrees (ui_courses w) ->
    forall (user courseId : uuid) (title : jsstring) (folder : option uuid)
           (generateResponse : generation),
      Forall agrees (ui_courses (fetchCourses user w))
      /\ Forall agrees (ui_courses (deleteCourse user courseId w))
      /\ Forall agrees
           (ui_courses
              (snd (createCourse user title folder generateResponse w))).
Proof.
  intros w H user courseId title folder generateResponse.
  split; [apply fetchCourses_agrees; exact H|].
  split; [apply deleteCourse_agrees; exact H|].
  apply createCourse_agrees; exact H.
Qed.

Lemma card_progress_witness :
  Forall agrees (ui_courses (fetchCourses 7 StoreFacts.stale_world))
  /\ Forall agrees
       (ui_courses (fetchCourses 7 (fetchCourses 7 StoreFacts.stale_world)))
  /\ Forall agrees
       (ui_courses (deleteCourse 7 0 (fetchCourses 7 StoreFacts.stale_world)))
  /\ Forall agrees
       (ui_courses
          (snd (createCourse 7 (lit "Shogi") None
                  (CreateFacts.generated_of CreateFacts.sample_content)
                  (fetchCourses 7 StoreFacts.stale_world)))).
Proof.
  assert (H : Forall agrees (ui_courses (fetchCourses 7 StoreFacts.stale_world)))
    by (vm_compute; repeat constructor).
  split; [exact H|].
  apply (card_progress_stays_the_recomputed_progress
           (fetchCourses 7 StoreFacts.stale_world) H 7 0 (lit "Shogi") None
           (CreateFacts.generated_of CreateFacts.sample_content)).
Defined.

End ViewsFacts.
(* ------------------------------------------------------------------ *)
(** ** The lessons the recommendation hook ends with *)

Module HookFacts.
Import Edge Recommended RecommendedHook.

Lemma fallback_lessons_are_three :
  forall (lower : jsstring -> jsstring) (now : N) (courseTitle : jsstring)
         (avgScore : float),
    length (generateFallbackLessons lower now courseTitle avgScore) = 3.
Proof.
  intros lower now courseTitle avgScore. unfold generateFallbackLessons.
  rewrite RecsFacts.map_indexed_length, length_firstn,
    RecsFacts.templates_are_three. reflexivity.
Qed.

Lemma top_six :
  forall (sort : list recommendation -> list recommendation),
    (forall l, Permutation (sort l) l) ->
    forall aiLessons,
      length (firstn 6 (sort aiLessons)) = Nat.min 6 (length aiLessons)
      /\ incl (firstn 6 (sort aiLessons)) aiLessons.
Proof.
  intros sort Hsort aiLessons. split.
  - rewrite length_firstn, (Permutation_length (Hsort aiLessons)). reflexivity.
  - intros r Hr. apply (Permutation_in r (Hsort aiLessons)).
    rewrite <- (firstn_skipn 6 (sort aiLessons)). apply in_or_app. left.
    exact Hr.
Qed.

(** X17.  A run of generateRecommendedLessons never leaves the hook without
    lessons.  Within two seconds of the previous run it changes nothing.
    Otherwise, whatever the endpoint call ends in (no answer within the
    race, an error status, a body without a recommendations array, an
    empty array, or lessons), the hook records the time and ends with
    between one and six lessons: when the endpoint sent a non-empty array,
    the first six of that array as sorted (no lesson invented, none kept
    twice over what was sent); in every other case the three lessons built
    from the hook's own templates.  The sort is any rearrangement of the
    array. *)
Theorem recommended_lessons_never_end_empty :
  forall (toLowerCase : jsstring -> jsstring)
         (sort : list recommendation -> list recommendation),
    (forall l, Permutation (sort l) l) ->
    forall (currentCourse : Courses.Course) (quizScores : list float)
           (now Date_now : N) (invoke : course_context -> float -> invoked)
           (s : hook_state),
      let s' := generateRecommendedLessons toLowerCase sort (Some currentCourse)
                  quizScores now Date_now invoke s in
      let answer := generateAIRecommendations
                      (invoke (extractCourseContext currentCourse)
                         (average quizScores)) in
      if (Z.of_N now - Z.of_N (lastRequestTime s) <? 2000)%Z then s' = s
      else
        lastRequestTime s' = now
        /\ 1 <= length (recommendedLessons s') <= 6
        /\ match answer with
           | Some (first :: rest) =>
               exists kept,
                 recommendedLessons s' = map FromEndpoint kept
                 /\ kept = firstn 6 (sort (first :: rest))
                 /\ incl kept (first :: rest)
                 /\ length kept = Nat.min 6 (length (first :: rest))
           | _ =>
               recommendedLessons s'
               = map FromTemplates
                   (generateFallbackLessons toLowerCase Date_now
                      (Courses.course_title (Courses.course_row_of currentCourse))
                      (average quizScores))
               /\ length (recommendedLessons s') = 3
           end.
Proof.
  intros toLowerCase sort Hsort currentCourse quizScores now Date_now invoke s.
  cbv zeta. unfold generateRecommendedLessons.
  destruct (Z.of_N now - Z.of_N (lastRequestTime s) <? 2000)%Z; [reflexivity|].
  pose proof (fallback_lessons_are_three toLowerCase Date_now
                (Courses.course_title (Courses.course_row_of currentCourse))
                (average quizScores)) as H3.
  destruct (generateAIRecommendations
              (invoke (extractCourseContext currentCourse) (average quizScores)))
    as [[| first rest] |].
  - cbn [length Nat.ltb Nat.leb recommendedLessons lastRequestTime].
    rewrite length_map, H3. repeat split; lia.
  - cbn [length Nat.ltb Nat.leb recommendedLessons lastRequestTime].
    destruct (top_six sort Hsort (first :: rest)) as [Hlen Hincl].
    rewrite length_map, Hlen. cbn [length].
    split; [reflexivity|]. split; [lia|].
    exists (firstn 6 (sort (first :: rest))).
    split; [reflexivity|]. split; [reflexivity|]. split; [exact Hincl|].
    exact Hlen.
  - cbn [recommendedLessons lastRequestTime].
    rewrite length_map, H3. repeat split; lia.
Qed.

(** A sort for closed examples: insertion by descending relevance. *)
Fixpoint insert_by_relevance (r : recommendation) (l : list recommendation)
  : list recommendation :=
  match l with
  | [] => [r]
  | x :: rest =>
      if (relevanceScore r <? relevanceScore x)%float
      then x :: insert_by_relevance r rest
      else r :: l
  end.

Definition by_relevance (l : list recommendation) : list recommendation :=
  fold_right insert_by_relevance [] l.

Lemma insert_by_relevance_permutes :
  forall r l, Permutation (insert_by_relevance r l) (r :: l).
Proof.
  intros r l. induction l as [| x rest IH]; cbn [insert_by_relevance].
  - apply Permutation_refl.
  - destruct (relevanceScore r <? relevanceScore x)%float.
    + eapply Permutation_trans; [apply perm_skip; exact IH | apply perm_swap].
    + apply Permutation_refl.
Qed.

Lemma by_relevance_permutes : forall l, Permutation (by_relevance l) l.
Proof.
  induction l as [| r l IH]; [apply Permutation_refl|].
  cbn [by_relevance fold_right]. fold (by_relevance l).
  eapply Permutation_trans; [apply insert_by_relevance_permutes|].
  apply perm_skip. exact IH.
Qed.

Definition chess_course : Courses.Course :=
  Courses.mkCourse (Courses.mkCourseRow 0 7 (lit "Chess") 0 0 None) 0
    [Courses.mkModule (Courses.mkModuleRow 2 0 (lit "Openings") 1)
       [Courses.mkLesson
          (Courses.mkLessonRow 4 2 (lit "Italian") 1 (Some []) (lit "e4 e5") false)
          [] []]].

(** The endpoint call answered by the edge function, with a model reply of
    two recommendations. *)
Definition endpoint_answers (courseContext : course_context) (avgScore : float)
  : invoked :=
  Answer
    (generate_lesson_recommendations (example_runtime (Some (lit "gsk")))
       (mkRecommendationsRequest (Some (cc_courseTitle courseContext))
          (Some (cc_moduleTopics courseContext))
          (Some (cc_lessonTopics courseContext)) (Some avgScore) (Some 6))
       (ReplyOk (text "{'recommendations':[{'relevanceScore':0.75},{'relevanceScore':3}]}"))).

Lemma recommended_lessons_witness :
  let s' := generateRecommendedLessons ascii_lower by_relevance
              (Some chess_course) [7%float; 9%float] 1750000005000
              1750000005001 endpoint_answers (mkHookState [] 1750000000000) in
  lastRequestTime s' = 1750000005000%N
  /\ 1 <= length (recommendedLessons s') <= 6
  /\ match generateAIRecommendations
             (endpoint_answers (extractCourseContext chess_course)
                (average [7%float; 9%float])) with
     | Some (first :: rest) =>
         exists kept,
           recommendedLessons s' = map FromEndpoint kept
           /\ kept = firstn 6 (by_relevance (first :: rest))
           /\ incl kept (first :: rest)
           /\ length kept = Nat.min 6 (length (first :: rest))
     | _ =>
         recommendedLessons s'
         = map FromTemplates
             (generateFallbackLessons ascii_lower 1750000005001
                (Courses.course_title (Courses.course_row_of chess_course))
                (average [7%float; 9%float]))
         /\ length (recommendedLessons s') = 3
     end.
Proof.
  exact (recommended_lessons_never_end_empty ascii_lower by_relevance
           by_relevance_permutes chess_course [7%float; 9%float]
           1750000005000 1750000005001 endpoint_answers
           (mkHookState [] 1750000000000)).
Defined.

(** In the witness the two lessons of the model reply come back clamped
    and in descending order of relevance; with no answer, and within the
    cooldown, the outcomes are the three template lessons and no change. *)
Example recommended_lessons_evaluated :
  map (fun l => match l with
                | FromEndpoint r => relevanceScore r
                | FromTemplates t => rl_relevanceScore t
                end)
    (recommendedLessons
       (generateRecommendedLessons ascii_lower by_relevance (Some chess_course)
          [7%float; 9%float] 1750000005000 1750000005001 endpoint_answers
          (mkHookState [] 1750000000000)))
  = [1%float; 0.75%float]
  /\ length
       (recommendedLessons
          (generateRecommendedLessons ascii_lower by_relevance
             (Some chess_course) [] 1750000005000 1750000005001
             (fun _ _ => NoAnswer) (mkHookState [] 1750000000000))) = 3
  /\ generateRecommendedLessons ascii_lower by_relevance (Some chess_course)
       [] 1750000001999 1750000005001 endpoint_answers
       (mkHookState [] 1750000000000)
     = mkHookState [] 1750000000000.
Proof. vm_compute. repeat split; reflexivity. Qed.

End HookFacts.
